(* ===== verification/_CoqProject ===== *)
-Q . S2P
Prelude.v
GoStrings.v
GoUtf8.v
GoPath.v
GoNet.v
GoBufio.v
GoUrl.v
Path.v
TlsConfig.v
Mount.v
Resolve.v
Confine.v
Policy.v
ClientAddr.v
Config.v
Store.v
Reload.v
Legacy.v
Endpoint.v
Pairing.v
Socks5.v
Relay.v
RelayPeers.v
Sessions.v
Shutdown.v
Group.v
Bridge.v
BridgeShutdown.v
Tailcat.v
Ingress.v
Explain.v
HttpHeader.v
HttpFrontend.v
Handler.v
Gateway.v
Tunnel.v
FtpReply.v
Ftp.v
Cancellation.v
Connectors.v
Transfers.v
Runtime.v
Command.v
Process.v
Compatibility.v
Release.v
