(* ===== verification/Prelude.v ===== *)
(** * new-delegate: a verified model of the gateway

    The repository is a protocol gateway in Go.  A client request is matched
    against configured mounts, the match is authorized by policy rules, and
    only then a connector contacts a backend.  This library models the
    decisions of that program, file by file, and proves what they promise.

    ** The program and its model

    Go's strings are lists of bytes ([bytes]); a function that returns
    [(T, error)] is a function into [result T E], where [E] has one
    constructor per error site; loops are [Fixpoint]s over the list they
    range over; stateful calls pass the state, or the world behind an
    interface, explicitly.

    - [Prelude]: byte strings, results, tactics, list lemmas.
    - [GoStrings], [GoUtf8], [GoPath], [GoNet], [GoUrl], [GoBufio]: the part of
      Go's standard library the program calls (strings, strconv, unicode/utf8,
      path, net and net/netip, net/url, io and bufio), with the lemmas about
      it.  Letter case beyond ASCII depends on Unicode tables, which are the
      class [UnicodeData]; every theorem holds for all tables, and witnesses
      use [asciiUnicode].
    - Requests: [Path] is mount/path.go; [Mount] mount/mount.go; [Resolve]
      mount/resolve.go and [Confine] the URL its targets denote; [Policy]
      policy/policy.go; [ClientAddr] clientaddr/clientaddr.go ([ResolveClient]
      is the package's [Resolve]).
    - Configuration: [TlsConfig] is tlsconfig/ and tlsruntime/; [Config]
      config/config.go and config/toml.go; [Store] config/store.go; [Reload]
      config/reload.go; [Legacy] config/legacy.go; [Endpoint]
      endpoint/address.go.
    - Streams: [Socks5] is socks5/socks5.go; [Sessions] server/lifecycle.go and
      server/group.go; [Shutdown] the run of server/lifecycle.go's [Serve]
      and [Group] that of [ServeAll];
      [Relay] the copying goroutines of server/http.go and link/bridge.go, and
      [RelayPeers] the same between peers that react to what they are sent;
      [Bridge] link/bridge.go and [BridgeShutdown] its end; [Pairing] and
      [Tailcat] link/tailcat.go and link/tailcat_adapter.go; [Ingress] the
      bridge behind the Tailcat listener.
    - The frontend: [HttpHeader] and [HttpFrontend] are operation/operation.go
      and server/http.go; [Handler] its constructors; [Tunnel] a CONNECT from
      the request to the last byte; [Explain] explain/explain.go; [Gateway]
      relates explanations to the frontend and has a concrete world for the
      witnesses.
    - Backends: [FtpReply] and [Ftp] are connector/ftp.go, the replies and the
      dialogue, [Cancellation] the functions it registers with
      [context.AfterFunc]; [Connectors] connector/http.go, routes.go and tcp.go;
      [Transfers] a request for an FTP mount, from the frontend to the last
      reply of the server.
    - The process: [Runtime] is cmd/delegate/http_runtime.go; [Command]
      cmd/delegate/main.go up to what it serves; [Process] the rest of it and
      address_route.go, with [main].
    - Tools: [Compatibility] is compatibility/; [Release] release/ and
      tools/release/.

    Goroutines are step relations ([sessionStep], [serveStep], [groupStep],
    [dialStep], [listenerStep], [bridgeMove], [ingressStep], [relayStep],
    [peerStep], [eventStep]) whose steps are critical sections or single calls;
    the theorems about them hold for every reachable state, so for every
    schedule.  [bridgeMove] tells the steps the program takes by itself from
    those that need a peer, the dialer or the owner of the context.
    [relayStep] runs on what the peers will deliver and take, given from the
    start; in [peerStep] they decide as the relay runs, and
    [peerRun_foresee] shows that each such run is one of the former.  The FTP dialogue is a state monad ([FtpM]) whose state
    records every action on the connections.

    ** Interfaces

    [TOMLDecoder], [FileSystem] and [TLSMaterial] stand for what the program
    reads through packages that are not its own.  [ConfigStore] is what reload
    needs of a configuration store, with its laws; the heap model of [Store]
    is an instance ([Reload.memory_ConfigStore]).  [MountConnector] and
    [RelayWorld] are what the HTTP frontend needs of connectors and of a
    tunnel's resources; [RelayLaws] states the facts about the surroundings
    the cleanup theorem uses.  [ResultBody] is a body the connector hands to
    the frontend, which reads and closes it while the outside goes on, with its
    laws in [ResultBodyLaws]; [Connectors.connector_body] discharges them for
    the bodies of both protocols.  [Connectors.routes_connector] is the instance of
    [MountConnector] the process runs with, over [BackendWorld], what net/http
    and the network do; [Tunnel.net_relay] the instance of [RelayWorld] with
    byte streams.  [TailcatLibrary] and [TailcatClient] stand for the Tailcat
    packages, [ArchiveLibrary] and [FixtureOutside] for the zip format, SHA-256,
    JSON and the files of the tools.

    ** What is shown

    - Requests: a normalized path is canonical and free of traversal, whatever
      the escapes ([NormalizePath_safe], [NormalizePath_segments]); resolution
      is the selection by specificity, priority, authority and scope
      ([ResolveFor_correct]; [ResolveFor_permutation] and
      [ResolveFor_exact_wins] follow), and the URL of a rewritten target keeps
      the scheme, user and host of the mapping's and stays below its path when
      both stars start a segment ([ResolveFor_confined]); four theorems show
      what happens otherwise.
    - Authorization: [Evaluate_allowed_iff], [Evaluate_winner],
      [Enforce_fail_closed], and for the whole frontend
      [ServeHTTP_authorized]; [Explain_predicts] shows that explanations are
      what the frontend does; [ResolveClient_spoofing] and its companions that
      a client cannot choose its address once the proxies' chain names an
      untrusted hop; [ParseLegacyArgs_first_match] that
      legacy directives are first-match; [fixedHandler_serves] what a handler
      without routes can do.
    - Configuration: [Config_Validate_iff] and [Mount_Validate_sound]
      characterise what is accepted, ambiguous mounts included; [Store_refines] and [Store_total] show
      that the shared-memory store behaves as one immutable value;
      [Reload_atomic] and [Reload_sequence] that reloads are all or nothing and
      keep the listeners; [LoadBackend_policy] that TLS policies are carried
      out; [serveHTTP_ready] puts these together for the running process, and
      [serveHTTP_requests] follows a request of that process from the published
      configuration to the one exchange its mount allows, with the connector
      the mount asks for and for the resource of its match.
    - Streams: [connectionSessions_drain], [Serve_shutdown], [ServeAll_group],
      [dialContext_cancelled], [tunnel_cleanup], [tunnel_after_drain] and
      [ServeAll_result] for the life of connections and listeners;
      [relay_reacts] and [relay_transparent] for the bytes between two of them,
      with [relay_schedules], which lets [Tunnel] run one direction after the
      other;
      [serveCONNECT_transparent] for a CONNECT as a whole; [bridge_releases],
      [bridge_shutdown] (by the bridge's own steps), [tailcatListener_accounts], [ingress_releases],
      [NewTailcatDialer_Ok] and [serveTailcat_cleanup] for links;
      [sanitizeHeader_iff] for the fields that cross the gateway.
    - The FTP connector: [ReadReply_framing] and [passivePorts] for what it
      reads, [operate_dialogue], [operate_releases], [operate_store_success],
      [transferBody_complete] and [ftpDeadline_every_call] for what it does and
      reports; [serveOperation_download] and [serveOperation_releases] join it
      to the frontend: a complete answer is a confirmed transfer, and no answer
      leaves a connection open, however the functions that watch the context
      interleave with the handler.
    - The process: [runCommand_effects], [runCommand_dispatch],
      [configPathFromArgs_loaded], [prepareHTTPRuntime_atomic],
      [serveAddressRoute_faithful] and [main_succeeds].
    - Wire and text formats: [ParseAddress_roundtrip], [ParseRoute_roles],
      [ParsePairing_roundtrip], [readPairingLine_handoff],
      [ReadRequest_framing], [ReadRequest_domain_roundtrip],
      [validDomain_labels], [WriteReply_exact], [ValidateConnectAuthority_iff].
    - Tools: [releaseMain_consistent], [releaseEnvironment_target] and
      [RunFixtureSuite_complete].

    ** Bounds and fuel

    [itoa] prints up to twenty digits, which holds every 64-bit value; its
    inverse is proved for the whole non-negative range.  The loops over IPv6
    text use their largest group and digit counts (8 and 4) as fuel, which is
    where the Go code stops too.  [cleanPath], [unquoteLoop] and [writeAllLoop]
    take the length of their input, of which every iteration consumes a byte;
    [writeAllLoop_exact] proves that the last never runs out.  [readSlice]
    gets the free space of its buffer as fuel and [replyLoop] the bytes a reply
    may still have; [readSlice_step] and [replyLoop_step] show that they obey
    the equations of the loops without fuel.  [copyFuel] counts the calls a
    copying goroutine can still make, and [copyEnd_pc] shows that it is enough;
    [copyBody] reads a body at most [bodyReads] times, and [copyBody_spec] shows
    that this reaches its end.  The remaining functions are structural.

    ** Not modelled

    The text of log and error messages; timers, except as deadlines that are
    set and as outcomes that are possible at any time; the TOML and JSON
    decoders; the HTTP exchange of [net/http] and its [Shutdown]; TLS
    handshakes and the contents of certificates; the Tailcat library; the zip
    format and SHA-256; the Go command, a parameter of [releaseMain]; the web
    page and the examples, which hold no Go code of the program.  Each of these is
    code the repository only calls. *)

From Stdlib Require Export Ascii String.
From stdpp Require Export prelude strings gmap sorting.

#[export] Set Warnings "-clear-no-such-hyp,-level-tolerance".

(** ** Byte strings

    A Go [string] or [[]byte] is a list of bytes; a literal is written as a
    Rocq string and coerced. *)
Abbreviation bytes := (list ascii).
Coercion list_ascii_of_string : String.string >-> list.
Global Open Scope string_scope.
Global Open Scope nat_scope.
Global Open Scope list_scope.

#[export] Instance ascii_countable : Countable ascii.
Proof.
  refine (inj_countable' N_of_ascii ascii_of_N _).
  intros c. apply ascii_N_embedding.
Defined.

(** The numeric value of a byte. *)
Definition code (c : ascii) : Z := Z.of_N (N_of_ascii c).

(** ** Results

    A Go function returning [(T, error)] becomes a function into
    [result T E], with [E] an inductive type that has one constructor per
    [return ..., err] site. *)
Inductive result (T E : Type) : Type :=
| Ok (value : T)
| Err (why : E).
Arguments Ok {T E} value.
Arguments Err {T E} why.

Declare Scope gateway_scope.
Delimit Scope gateway_scope with gw.
Global Open Scope gateway_scope.

(** [if err != nil { return err }] after a call. *)
Notation "'let!' x := c 'in' k" :=
  (match c with Ok x => k | Err e => Err e end)
  (at level 10, x pattern, c at level 99, k at level 200) : gateway_scope.

(** [if cond { return err }]. *)
Notation "'refuse' e 'when' b ;; k" :=
  (if b then Err e else k)
  (at level 10, e at level 99, b at level 99, k at level 200) : gateway_scope.

Section Results.
Context {T U E F : Type}.

(** [fmt.Errorf("...: %w", err)]: the error is rewrapped, a value passes. *)
Definition wrap (f : E → F) (r : result T E) : result T F :=
  match r with Ok v => Ok v | Err e => Err (f e) end.

(** An optional standard-library result, with the error of this call site. *)
Definition orElse (o : option T) (e : E) : result T E :=
  match o with Some v => Ok v | None => Err e end.

Definition isOk (r : result T E) : bool :=
  match r with Ok _ => true | Err _ => false end.

Lemma wrap_Ok (f : E → F) r v : wrap f r = Ok v ↔ r = Ok v.
Proof. destruct r; simpl; split; congruence. Qed.

Lemma orElse_Ok o (e : E) v : orElse o e = Ok v ↔ o = Some v.
Proof. destruct o; simpl; split; congruence. Qed.

Lemma isOk_true r : isOk r = true ↔ ∃ v, r = Ok v.
Proof. split; [destruct r; [eauto|discriminate]|intros [v Hv]; by rewrite Hv]. Qed.
End Results.

#[export] Instance result_eq_dec `{EqDecision T, EqDecision E} :
  EqDecision (result T E).
Proof. solve_decision. Defined.

(** ** Automation *)

Create HintDb gateway discriminated.

(** Turn boolean tests of the code into propositions, splitting conjunctions
    in hypotheses and leaving disjunctions to the caller. *)
Ltac reflect_bools :=
  repeat match goal with
  | H : (_ && _)%bool = true |- _ => apply andb_true_iff in H; destruct H
  | H : (_ || _)%bool = false |- _ => apply orb_false_iff in H; destruct H
  | H : negb _ = true |- _ => apply negb_true_iff in H
  | H : negb _ = false |- _ => apply negb_false_iff in H
  | H : bool_decide _ = true |- _ => apply bool_decide_eq_true in H
  | H : bool_decide _ = false |- _ => apply bool_decide_eq_false in H
  | H : (_ =? _)%Z = true |- _ => apply Z.eqb_eq in H
  | H : (_ =? _)%Z = false |- _ => apply Z.eqb_neq in H
  | H : (_ <? _)%Z = true |- _ => apply Z.ltb_lt in H
  | H : (_ <? _)%Z = false |- _ => apply Z.ltb_ge in H
  | H : (_ <=? _)%Z = true |- _ => apply Z.leb_le in H
  | H : (_ <=? _)%Z = false |- _ => apply Z.leb_gt in H
  | H : (_ =? _)%nat = true |- _ => apply Nat.eqb_eq in H
  | H : (_ =? _)%nat = false |- _ => apply Nat.eqb_neq in H
  | H : (_ <? _)%nat = true |- _ => apply Nat.ltb_lt in H
  | H : (_ <? _)%nat = false |- _ => apply Nat.ltb_ge in H
  | H : (_ <=? _)%nat = true |- _ => apply Nat.leb_le in H
  | H : (_ <=? _)%nat = false |- _ => apply Nat.leb_gt in H
  end.

(** Follow the early returns of a definition: case on every scrutinee of the
    hypothesis [H] in turn and discard the paths that contradict it. *)
Ltac follow H :=
  repeat (match type of H with
          | context [match ?x with _ => _ end] =>
              lazymatch x with
              | context [match _ with _ => _ end] => fail
              | _ => let E := fresh "E" in destruct x eqn:E
              end
          end; try discriminate H; simplify_eq/=).

(** The same walk on the goal. *)
Ltac walk :=
  repeat (match goal with
          | |- context [match ?x with _ => _ end] =>
              lazymatch x with
              | context [match _ with _ => _ end] => fail
              | _ => let E := fresh "E" in destruct x eqn:E
              end
          end; simplify_eq/=).

(** All 256 bytes, by evaluation. *)
Ltac each_byte c :=
  destruct c as [[] [] [] [] [] [] [] []]; vm_compute.

(** ** Lists *)

Section Lists.
Context {A : Type}.
Implicit Types l : list A.

Lemma snoc_inj l1 l2 (x y : A) : l1 ++ [x] = l2 ++ [y] → l1 = l2 ∧ x = y.
Proof. intros [? [=]]%app_inj_2; auto. Qed.

Lemma drop_past l k (x : A) : drop (S (length l)) (l ++ x :: k) = k.
Proof. by induction l. Qed.

Lemma last_snoc_inv l (x : A) : last l = Some x → ∃ l', l = l' ++ [x].
Proof. intros H. by apply last_Some in H. Qed.

Lemma Forall_app_r l k (P : A → Prop) : Forall P (l ++ k) → Forall P k.
Proof. rewrite Forall_app. by intros [_ ?]. Qed.

Lemma Forall_app_l l k (P : A → Prop) : Forall P (l ++ k) → Forall P l.
Proof. rewrite Forall_app. by intros [? _]. Qed.

Lemma NoDup_fmap_inj_elem {B} (f : A → B) l x y :
  NoDup (f <$> l) → x ∈ l → y ∈ l → f x = f y → x = y.
Proof.
  intros Hnd [i Hi]%list_elem_of_lookup [j Hj]%list_elem_of_lookup Hf.
  assert (i = j) as ->; [|congruence].
  apply (NoDup_lookup _ i j (f x) Hnd); rewrite list_lookup_fmap; [by rewrite Hi|by rewrite Hj, Hf].
Qed.

Lemma forallb_Forall (f : A → bool) l : forallb f l = true ↔ Forall (λ x, f x = true) l.
Proof.
  induction l as [|x l IH]; simpl; [by split|]. by rewrite andb_true_iff, IH, Forall_cons.
Qed.

Lemma existsb_Exists (f : A → bool) l : existsb f l = true ↔ Exists (λ x, f x = true) l.
Proof.
  induction l as [|x l IH]; simpl; [by rewrite Exists_nil|]. by rewrite orb_true_iff, IH, Exists_cons.
Qed.

Lemma Forall_filter_sub (P Q : A → Prop) `{!∀ x, Decision (Q x)} l :
  Forall P l → Forall P (filter Q l).
Proof. rewrite !Forall_forall. intros HP x [_ ?]%list_elem_of_filter. by apply HP. Qed.
End Lists.

(** ** Transition systems *)

(** Rule induction for invariants of reachable states. *)
Lemma rtc_preserves {A} (R : A → A → Prop) (P : A → Prop) x y :
  rtc R x y → (∀ a b, R a b → P a → P b) → P x → P y.
Proof. intros Hxy HR. induction Hxy; eauto. Qed.
