(* ===== verification/GoStrings.v ===== *)
(** The parts of Go's [strings], [strconv], [unicode] and [unicode/utf8] packages
    that the gateway calls, as executable functions on byte strings.

    Letter case outside ASCII is table data of the Go distribution: the class
    [UnicodeData] supplies it and every definition that folds case takes it as
    an argument.  The ASCII part, and the two runes outside ASCII that fold to
    an ASCII letter, are written out. *)

From S2P Require Import Prelude.

(** ** Prefixes, suffixes and searching *)

Fixpoint stripPrefix (p s : bytes) : option bytes :=
  match p, s with
  | [], _ => Some s
  | a :: p', b :: s' => if bool_decide (a = b) then stripPrefix p' s' else None
  | _ :: _, [] => None
  end.

Definition stripSuffix (p s : bytes) : option bytes :=
  reverse <$> stripPrefix (reverse p) (reverse s).

Definition hasPrefix (s p : bytes) : bool := bool_decide (is_Some (stripPrefix p s)).
Definition hasSuffix (s p : bytes) : bool := bool_decide (is_Some (stripSuffix p s)).
Definition trimPrefix (s p : bytes) : bytes := default s (stripPrefix p s).
Definition trimSuffix (s p : bytes) : bytes := default s (stripSuffix p s).

(** [strings.Index], [None] for -1. *)
Fixpoint index (s sub : bytes) : option nat :=
  if hasPrefix s sub then Some 0
  else match s with [] => None | _ :: s' => S <$> index s' sub end.

Definition contains (s sub : bytes) : bool := bool_decide (is_Some (index s sub)).

Definition containsByte (s : bytes) (c : ascii) : bool := bool_decide (c ∈ s).

(** [strings.ContainsAny] for a set of ASCII characters. *)
Definition containsAny (s chars : bytes) : bool := existsb (λ c, bool_decide (c ∈ chars)) s.

(** [strings.Count] of a one-byte substring. *)
Definition countByte (s : bytes) (c : ascii) : nat := length (filter (c =.) s).

(** [strings.IndexByte] / [LastIndexByte]. *)
Fixpoint indexByte (s : bytes) (c : ascii) : option nat :=
  match s with
  | [] => None
  | b :: s' => if bool_decide (b = c) then Some 0 else S <$> indexByte s' c
  end.

Fixpoint lastIndexByte (s : bytes) (c : ascii) : option nat :=
  match s with
  | [] => None
  | b :: s' =>
      match lastIndexByte s' c with
      | Some i => Some (S i)
      | None => if bool_decide (b = c) then Some 0 else None
      end
  end.

(** [strings.Cut] at a one-byte separator. *)
Fixpoint cutByte (s : bytes) (c : ascii) : bytes * bytes * bool :=
  match s with
  | [] => ([], [], false)
  | b :: s' =>
      if bool_decide (b = c) then ([], s', true)
      else let '(before, after, found) := cutByte s' c in (b :: before, after, found)
  end.

(** [strings.Split] at a one-byte separator. *)
Fixpoint splitByte (s : bytes) (c : ascii) : list bytes :=
  match s with
  | [] => [[]]
  | b :: s' =>
      if bool_decide (b = c) then [] :: splitByte s' c
      else match splitByte s' c with
           | part :: rest => (b :: part) :: rest
           | [] => [[b]]
           end
  end.

(** [strings.SplitN] at a one-byte separator, for [n > 0]. *)
Fixpoint splitByteN (n : nat) (s : bytes) (c : ascii) : list bytes :=
  match n with
  | 0 => []
  | 1 => [s]
  | S n' =>
      let '(before, after, found) := cutByte s c in
      if found then before :: splitByteN n' after c else [s]
  end.

(** [strings.Join]. *)
Fixpoint join (parts : list bytes) (sep : bytes) : bytes :=
  match parts with
  | [] => []
  | [part] => part
  | part :: rest => part ++ sep ++ join rest sep
  end.

(** ** UTF-8 *)

Definition runeError : Z := 65533.

Definition inRange (lo hi : Z) (c : ascii) : bool := (lo <=? code c)%Z && (code c <=? hi)%Z.
Definition isContinuation : ascii → bool := inRange 128 191.
Definition sixBits (c : ascii) : Z := (code c - 128)%Z.

(** One step of [utf8.DecodeRuneInString]: the rune of a non-empty string and
    the number of bytes it uses after the first, or [None] when Go returns
    [(RuneError, 1)] for an encoding error. *)
Definition decodeRune (c : ascii) (s : bytes) : option (Z * nat) :=
  let b := code c in
  if (b <? 128)%Z then Some (b, 0)
  else if inRange 194 223 c then
    match s with
    | c1 :: _ =>
        if isContinuation c1 then Some (((b - 192) * 64 + sixBits c1)%Z, 1) else None
    | _ => None
    end
  else if inRange 224 239 c then
    match s with
    | c1 :: c2 :: _ =>
        let lo := if (b =? 224)%Z then 160%Z else 128%Z in
        let hi := if (b =? 237)%Z then 159%Z else 191%Z in
        if inRange lo hi c1 && isContinuation c2
        then Some ((((b - 224) * 64 + sixBits c1) * 64 + sixBits c2)%Z, 2) else None
    | _ => None
    end
  else if inRange 240 244 c then
    match s with
    | c1 :: c2 :: c3 :: _ =>
        let lo := if (b =? 240)%Z then 144%Z else 128%Z in
        let hi := if (b =? 244)%Z then 143%Z else 191%Z in
        if inRange lo hi c1 && isContinuation c2 && isContinuation c3
        then Some (((((b - 240) * 64 + sixBits c1) * 64 + sixBits c2) * 64 + sixBits c3)%Z, 3)
        else None
    | _ => None
    end
  else None.

(** The string cut into runes, each with the bytes that encode it; an invalid
    byte is a piece of its own with no rune. *)
Fixpoint runePieces (s : bytes) : list (option Z * bytes) :=
  match s with
  | [] => []
  | c :: t =>
      match decodeRune c t with
      | None => (None, [c]) :: runePieces t
      | Some (r, 0) => (Some r, [c]) :: runePieces t
      | Some (r, n) =>
          match n, t with
          | 1, c1 :: t1 => (Some r, [c; c1]) :: runePieces t1
          | 2, c1 :: c2 :: t2 => (Some r, [c; c1; c2]) :: runePieces t2
          | _, c1 :: c2 :: c3 :: t3 => (Some r, [c; c1; c2; c3]) :: runePieces t3
          | _, _ => (None, [c]) :: runePieces t
          end
      end
  end.

(** [for _, r := range s]. *)
Definition runes (s : bytes) : list Z := (λ p, default runeError (fst p)) <$> runePieces s.

(** [utf8.ValidString]. *)
Definition validUTF8 (s : bytes) : bool :=
  forallb (λ p : option Z * bytes, bool_decide (is_Some (fst p))) (runePieces s).

(** [utf8.EncodeRune] (surrogates and out-of-range values become U+FFFD). *)
Definition byteOf (z : Z) : ascii := ascii_of_N (Z.to_N z).

Definition encodeRune (r : Z) : bytes :=
  let r := if (r <? 0)%Z || (1114111 <? r)%Z || ((55296 <=? r)%Z && (r <=? 57343)%Z)
           then runeError else r in
  if (r <? 128)%Z then [byteOf r]
  else if (r <? 2048)%Z then [byteOf (192 + r / 64); byteOf (128 + r mod 64)]
  else if (r <? 65536)%Z then
    [byteOf (224 + r / 4096); byteOf (128 + (r / 64) mod 64); byteOf (128 + r mod 64)]
  else [byteOf (240 + r / 262144); byteOf (128 + (r / 4096) mod 64);
        byteOf (128 + (r / 64) mod 64); byteOf (128 + r mod 64)].

(** ** White space *)

(** [unicode.IsSpace]. *)
Definition isSpace (r : Z) : bool :=
  (((9 <=? r) && (r <=? 13)) || (r =? 32) || (r =? 133) || (r =? 160) || (r =? 5760) ||
  ((8192 <=? r) && (r <=? 8202)) || (r =? 8232) || (r =? 8233) || (r =? 8239) ||
  (r =? 8287) || (r =? 12288))%Z.

Definition spacePiece (p : option Z * bytes) : bool := isSpace (default runeError (fst p)).

Fixpoint dropWhileb {A} (f : A → bool) (l : list A) : list A :=
  match l with [] => [] | x :: l' => if f x then dropWhileb f l' else l end.

(** [strings.TrimSpace]: every white-space rune has a unique UTF-8 encoding
    that no other encoding ends with, so trimming pieces at the end is what
    [utf8.DecodeLastRuneInString] does. *)
Definition trimSpace (s : bytes) : bytes :=
  concat (snd <$> reverse (dropWhileb spacePiece (reverse (dropWhileb spacePiece (runePieces s))))).

(** [strings.Fields]. *)
Fixpoint fieldsOf (ps : list (option Z * bytes)) (acc : bytes) : list bytes :=
  match ps with
  | [] => if bool_decide (acc = []) then [] else [acc]
  | p :: ps' =>
      if spacePiece p then
        if bool_decide (acc = []) then fieldsOf ps' [] else acc :: fieldsOf ps' []
      else fieldsOf ps' (acc ++ snd p)
  end.
Definition fields (s : bytes) : list bytes := fieldsOf (runePieces s) [].

(** ** Letter case *)

(** Case data of the runes above 127: a representative of the rune's
    simple-folding orbit, its lower case and its upper case. *)
Class UnicodeData := {
  foldTable : Z → Z;
  lowerTable : Z → Z;
  upperTable : Z → Z;
}.

(** The data of a program whose strings are ASCII. *)
Definition asciiUnicode : UnicodeData :=
  {| foldTable := λ r, r; lowerTable := λ r, r; upperTable := λ r, r |}.

Definition lowerASCII (r : Z) : Z := if (65 <=? r)%Z && (r <=? 90)%Z then (r + 32)%Z else r.
Definition upperASCII (r : Z) : Z := if (97 <=? r)%Z && (r <=? 122)%Z then (r - 32)%Z else r.

Definition isASCII (s : bytes) : bool := forallb (λ c, code c <? 128)%Z s.

Definition lowerByte (c : ascii) : ascii := byteOf (lowerASCII (code c)).
Definition upperByte (c : ascii) : ascii := byteOf (upperASCII (code c)).

Section Case.
Context `{UnicodeData}.

(** U+017F folds to [s] and U+212A to [k]; they are the only runes outside
    ASCII that do. *)
Definition foldRune (r : Z) : Z :=
  if (r <? 128)%Z then lowerASCII r
  else if (r =? 383)%Z then 115%Z
  else if (r =? 8490)%Z then 107%Z
  else foldTable r.

(** [strings.EqualFold]. *)
Definition foldString (s : bytes) : list Z := foldRune <$> runes s.
Definition equalFold (s t : bytes) : bool := bool_decide (foldString s = foldString t).

(** [strings.ToLower] and [strings.ToUpper]: bytewise on ASCII strings,
    otherwise [strings.Map] over the runes. *)
Definition toLower (s : bytes) : bytes :=
  if isASCII s then lowerByte <$> s
  else concat ((λ r, encodeRune (if (r <? 128)%Z then lowerASCII r else lowerTable r)) <$> runes s).

Definition toUpper (s : bytes) : bytes :=
  if isASCII s then upperByte <$> s
  else concat ((λ r, encodeRune (if (r <? 128)%Z then upperASCII r else upperTable r)) <$> runes s).
End Case.

(** ** Decimal numbers *)

Definition digitValue (c : ascii) : option Z :=
  if inRange 48 57 c then Some (code c - 48)%Z else None.

(** The value of a digit string, [None] when a byte is not a digit. *)
Fixpoint decimal (acc : Z) (s : bytes) : option Z :=
  match s with
  | [] => Some acc
  | c :: s' =>
      match digitValue c with
      | Some d => decimal (acc * 10 + d) s'
      | None => None
      end
  end.

(** [strconv.ParseUint(s, 10, bits)]. *)
Definition parseUint (bits : Z) (s : bytes) : option Z :=
  if bool_decide (s = []) then None
  else match decimal 0 s with
       | Some n => if (n <? 2 ^ bits)%Z then Some n else None
       | None => None
       end.

(** [strconv.Atoi] with a 64-bit [int]. *)
Definition atoi (s : bytes) : option Z :=
  let unsigned (t : bytes) := if bool_decide (t = []) then None else decimal 0 t in
  match s with
  | "-"%char :: t =>
      match unsigned t with
      | Some n => if (n <=? 2 ^ 63)%Z then Some (- n)%Z else None
      | None => None
      end
  | "+"%char :: t =>
      match unsigned t with
      | Some n => if (n <? 2 ^ 63)%Z then Some n else None
      | None => None
      end
  | _ =>
      match unsigned s with
      | Some n => if (n <? 2 ^ 63)%Z then Some n else None
      | None => None
      end
  end.

Definition digitChar (d : Z) : ascii := byteOf (48 + d).

(** Decimal digits of a natural number below [10 ^ fuel]; twenty digits hold
    every 64-bit value. *)
Fixpoint digits (fuel : nat) (n : Z) : bytes :=
  match fuel with
  | 0 => []
  | S fuel' => (if (n <? 10)%Z then [] else digits fuel' (n / 10)) ++ [digitChar (n mod 10)]
  end.

(** [strconv.Itoa], the [%d] verb. *)
Definition itoa (n : Z) : bytes :=
  if (n <? 0)%Z then "-"%char :: digits 20 (- n) else digits 20 n.

(** ** Lemmas: bytes *)

Lemma code_range c : (0 ≤ code c < 256)%Z.
Proof. unfold code. pose proof (N_ascii_bounded c). lia. Qed.

Lemma code_inj c d : code c = code d → c = d.
Proof.
  unfold code. intros H%N2Z.inj.
  by rewrite <-(ascii_N_embedding c), H, ascii_N_embedding.
Qed.

Lemma code_byteOf z : (0 ≤ z < 256)%Z → code (byteOf z) = z.
Proof. intros H. unfold code, byteOf. rewrite N_ascii_embedding; lia. Qed.

Lemma byteOf_code c : byteOf (code c) = c.
Proof. unfold byteOf, code. by rewrite N2Z.id, ascii_N_embedding. Qed.

Lemma inRange_true lo hi c : inRange lo hi c = true ↔ (lo ≤ code c ≤ hi)%Z.
Proof. unfold inRange. rewrite andb_true_iff, !Z.leb_le. done. Qed.

Lemma inRange_false lo hi c : inRange lo hi c = false ↔ ¬ (lo ≤ code c ≤ hi)%Z.
Proof. rewrite <-inRange_true. by destruct (inRange lo hi c). Qed.

(** ** Lemmas: prefixes and suffixes *)

Lemma stripPrefix_Some p s r : stripPrefix p s = Some r ↔ s = p ++ r.
Proof.
  revert s; induction p as [|a p IH]; intros [|b s]; simpl; [split; congruence..|].
  case_bool_decide as E; [subst; rewrite IH|]; clear IH; naive_solver.
Qed.

Lemma stripSuffix_Some p s r : stripSuffix p s = Some r ↔ s = r ++ p.
Proof.
  unfold stripSuffix. rewrite fmap_Some. split.
  - intros (x & Hx & ->). apply stripPrefix_Some in Hx.
    rewrite <-(reverse_involutive s), Hx, reverse_app. by rewrite reverse_involutive.
  - intros ->. exists (reverse r). rewrite reverse_involutive. split; [|done].
    apply stripPrefix_Some. by rewrite reverse_app.
Qed.

Lemma hasPrefix_true s p : hasPrefix s p = true ↔ ∃ r, s = p ++ r.
Proof.
  unfold hasPrefix. rewrite bool_decide_eq_true. unfold is_Some.
  by setoid_rewrite stripPrefix_Some.
Qed.

Lemma hasSuffix_true s p : hasSuffix s p = true ↔ ∃ r, s = r ++ p.
Proof.
  unfold hasSuffix. rewrite bool_decide_eq_true. unfold is_Some.
  by setoid_rewrite stripSuffix_Some.
Qed.

Lemma trimPrefix_app p r : trimPrefix (p ++ r) p = r.
Proof. unfold trimPrefix. by rewrite (proj2 (stripPrefix_Some p (p ++ r) r)). Qed.

Lemma trimSuffix_app p r : trimSuffix (r ++ p) p = r.
Proof. unfold trimSuffix. by rewrite (proj2 (stripSuffix_Some p (r ++ p) r)). Qed.

Lemma hasSuffix_snoc s c d : hasSuffix (s ++ [c]) [d] = bool_decide (c = d).
Proof.
  apply eq_bool_prop_intro; rewrite !Is_true_true, hasSuffix_true, bool_decide_eq_true.
  split; [intros [r Hr]; by apply snoc_inj in Hr as [_ ->]|intros ->; by exists s].
Qed.

Lemma hasSuffix_nil c : hasSuffix [] [c] = false.
Proof. done. Qed.

Lemma hasSuffix_last s c : hasSuffix s [c] = bool_decide (last s = Some c).
Proof.
  destruct s as [|x s' _] using rev_ind; [done|].
  rewrite hasSuffix_snoc, last_snoc. apply bool_decide_ext; naive_solver.
Qed.

Lemma containsByte_true s c : containsByte s c = true ↔ c ∈ s.
Proof. unfold containsByte. by rewrite bool_decide_eq_true. Qed.

Lemma containsByte_false s c : containsByte s c = false ↔ c ∉ s.
Proof. unfold containsByte. by rewrite bool_decide_eq_false. Qed.

Lemma index_Some s sub i :
  index s sub = Some i → ∃ r, s = take i s ++ sub ++ r.
Proof.
  revert i; induction s as [|c s IH]; intros i; simpl;
    destruct (hasPrefix _ sub) eqn:E; intros H; simplify_eq/=.
  - apply hasPrefix_true in E as [r ->]. by exists r.
  - apply hasPrefix_true in E as [r Hr]. by exists r.
  - apply fmap_Some in H as (j & Hj & ->). destruct (IH j Hj) as [r Hr].
    exists r. simpl. by rewrite <-Hr.
Qed.

Lemma index_app s sub r : is_Some (index (s ++ sub ++ r) sub).
Proof.
  induction s as [|c s IH]; simpl.
  - destruct (sub ++ r) eqn:E; simpl.
    + destruct sub; simplify_eq/=. eauto.
    + rewrite <-E, (proj2 (hasPrefix_true _ sub)); eauto.
  - destruct (hasPrefix _ sub); [eauto|]. destruct IH as [i ->]. simpl; eauto.
Qed.

Lemma contains_true s sub : contains s sub = true ↔ ∃ a b, s = a ++ sub ++ b.
Proof.
  unfold contains. rewrite bool_decide_eq_true. split.
  - intros [i [r Hr]%index_Some]. eauto.
  - intros (a & b & ->). apply index_app.
Qed.

Lemma contains_byte s c : contains s [c] = containsByte s c.
Proof.
  apply eq_bool_prop_intro; rewrite !Is_true_true, contains_true, containsByte_true.
  split; [intros (a & b & ->); set_solver|apply list_elem_of_split].
Qed.

Lemma countByte_app s t c : countByte (s ++ t) c = countByte s c + countByte t c.
Proof. unfold countByte. by rewrite filter_app, length_app. Qed.

Lemma countByte_zero s c : countByte s c = 0 ↔ c ∉ s.
Proof.
  unfold countByte. induction s as [|b s IH]; [split; [intros _; apply not_elem_of_nil|done]|].
  rewrite not_elem_of_cons, <- IH. rewrite filter_cons. case_decide; simpl; naive_solver.
Qed.

(** ** Lemmas: splitting and joining *)

Lemma join_snoc parts part sep :
  parts ≠ [] → join (parts ++ [part]) sep = join parts sep ++ sep ++ part.
Proof.
  intros Hne. induction parts as [|p [|q parts] IH]; [done..|].
  change (join ((p :: q :: parts) ++ [part]) sep) with (p ++ sep ++ join ((q :: parts) ++ [part]) sep).
  change (join (p :: q :: parts) sep) with (p ++ sep ++ join (q :: parts) sep).
  by rewrite IH, <-!app_assoc by done.
Qed.

Section Split.
Context (c : ascii).

Lemma splitByte_ne s : splitByte s c ≠ [].
Proof. destruct s; simpl; [done|]. case_bool_decide; [done|]. by destruct (splitByte s c). Qed.

Lemma splitByte_sep s : splitByte (c :: s) c = [] :: splitByte s c.
Proof. simpl. by rewrite bool_decide_eq_true_2. Qed.

Lemma splitByte_app a s : c ∉ a → splitByte (a ++ c :: s) c = a :: splitByte s c.
Proof.
  induction a as [|b a IH]; intros Hc; [apply splitByte_sep|].
  apply not_elem_of_cons in Hc as [Hb Ha]. simpl.
  rewrite bool_decide_eq_false_2 by done. by rewrite IH.
Qed.

Lemma splitByte_whole a : c ∉ a → splitByte a c = [a].
Proof.
  induction a as [|b a IH]; intros Hc; [done|].
  apply not_elem_of_cons in Hc as [Hb Ha]. simpl.
  rewrite bool_decide_eq_false_2 by done. by rewrite IH.
Qed.

Lemma splitByte_parts s : Forall (λ part, c ∉ part) (splitByte s c).
Proof.
  induction s as [|b s IH]; simpl; [constructor; [apply not_elem_of_nil|constructor]|].
  case_bool_decide; [constructor; [apply not_elem_of_nil|done]|].
  destruct (splitByte s c); inversion IH; constructor; simplify_eq; auto.
  all: rewrite not_elem_of_cons; auto using not_elem_of_nil.
Qed.

Lemma join_splitByte s : join (splitByte s c) [c] = s.
Proof.
  induction s as [|b s IH]; simpl; [done|].
  pose proof (splitByte_ne s) as Hne. case_bool_decide; subst.
  - destruct (splitByte s c) as [|p ps]; [done|].
    change (join ([] :: p :: ps) [c]) with (c :: join (p :: ps) [c]). by rewrite IH.
  - destruct (splitByte s c) as [|p [|q qs]]; [done|..]; rewrite <-IH; done.
Qed.

Lemma splitByte_join parts :
  parts ≠ [] → Forall (λ part, c ∉ part) parts → splitByte (join parts [c]) c = parts.
Proof.
  intros Hne Hp. induction Hp as [|p ps Hp Hps IH]; [done|].
  destruct ps as [|q qs]; [by apply splitByte_whole|].
  change (join (p :: q :: qs) [c]) with (p ++ c :: join (q :: qs) [c]).
  rewrite splitByte_app by done. by rewrite IH.
Qed.

Lemma splitByte_app_any a s :
  splitByte (a ++ c :: s) c = splitByte a c ++ splitByte s c.
Proof.
  induction a as [|b a IH]; [apply splitByte_sep|]. simpl. rewrite IH.
  case_bool_decide; [done|]. pose proof (splitByte_ne a). by destruct (splitByte a c).
Qed.

(** The parts between separators that are not empty. *)
Definition nonEmptyParts (s : bytes) : list bytes := filter (.≠ []) (splitByte s c).

Lemma nonEmptyParts_sep s : nonEmptyParts (c :: s) = nonEmptyParts s.
Proof. unfold nonEmptyParts. by rewrite splitByte_sep, filter_cons_False by auto. Qed.

Lemma nonEmptyParts_app a s :
  a ≠ [] → c ∉ a → nonEmptyParts (a ++ c :: s) = a :: nonEmptyParts s.
Proof.
  intros Ha Hc. unfold nonEmptyParts. by rewrite splitByte_app, filter_cons_True by auto.
Qed.

Lemma nonEmptyParts_whole a : a ≠ [] → c ∉ a → nonEmptyParts a = [a].
Proof.
  intros Ha Hc. unfold nonEmptyParts. by rewrite splitByte_whole, filter_cons_True by auto.
Qed.

Lemma nonEmptyParts_app_any a s :
  nonEmptyParts (a ++ c :: s) = nonEmptyParts a ++ nonEmptyParts s.
Proof. unfold nonEmptyParts. by rewrite splitByte_app_any, filter_app. Qed.

Lemma nonEmptyParts_join parts :
  Forall (λ part, part ≠ [] ∧ c ∉ part) parts → nonEmptyParts (join parts [c]) = parts.
Proof.
  intros Hp. induction Hp as [|p ps [Hp Hc] Hps IH]; [done|].
  destruct ps as [|q qs]; [by apply nonEmptyParts_whole|].
  change (join (p :: q :: qs) [c]) with (p ++ c :: join (q :: qs) [c]).
  by rewrite nonEmptyParts_app, IH.
Qed.

Lemma nonEmptyParts_nil_inv s : nonEmptyParts s = [] → Forall (.= c) s.
Proof.
  induction s as [|b s IH]; [constructor|].
  destruct (decide (b = c)) as [->|Hb].
  - rewrite nonEmptyParts_sep. constructor; auto.
  - unfold nonEmptyParts. simpl. rewrite bool_decide_eq_false_2 by done.
    pose proof (splitByte_ne s). destruct (splitByte s c); [done|].
    by rewrite filter_cons_True.
Qed.

Lemma nonEmptyParts_spec s :
  Forall (λ part, part ≠ [] ∧ c ∉ part) (nonEmptyParts s).
Proof.
  unfold nonEmptyParts. apply Forall_forall. intros x [Hx Hin]%list_elem_of_filter.
  split; [done|]. by eapply Forall_forall in Hin; [|apply splitByte_parts].
Qed.
End Split.

(** ** Lemmas: decimal numbers *)

Section Decimal.
Local Open Scope Z_scope.

Definition isDigit (c : ascii) : Prop := 48 ≤ code c ≤ 57.

Lemma digitValue_Some c d : digitValue c = Some d → d = code c - 48 ∧ isDigit c.
Proof.
  unfold digitValue. destruct (inRange 48 57 c) eqn:E; [|done]. intros [= <-].
  by apply inRange_true in E.
Qed.

Lemma digitValue_digitChar d : 0 ≤ d < 10 → digitValue (digitChar d) = Some d.
Proof.
  intros H. unfold digitValue, digitChar, inRange. rewrite code_byteOf by lia.
  rewrite !(proj2 (Z.leb_le _ _)) by lia. simpl. f_equal. lia.
Qed.

Lemma isDigit_digitChar d : 0 ≤ d < 10 → isDigit (digitChar d).
Proof. intros H%digitValue_digitChar. by apply digitValue_Some in H as [_ ?]. Qed.

Lemma decimal_app acc s t :
  decimal acc (s ++ t) = match decimal acc s with Some n => decimal n t | None => None end.
Proof. revert acc. induction s as [|c s IH]; intros acc; simpl; [done|]. by destruct (digitValue c). Qed.

Lemma decimal_digits fuel n : 0 ≤ n < 10 ^ Z.of_nat fuel → decimal 0 (digits fuel n) = Some n.
Proof.
  revert n. induction fuel as [|fuel IH]; intros n Hn; [simpl in *; f_equal; lia|].
  cbn [digits]. rewrite decimal_app.
  rewrite Nat2Z.inj_succ, Z.pow_succ_r in Hn by lia.
  pose proof (Z.div_mod n 10). pose proof (Z.mod_pos_bound n 10).
  destruct (n <? 10) eqn:E.
  - apply Z.ltb_lt in E. cbn [decimal]. rewrite digitValue_digitChar, Z.mod_small by lia. f_equal.
  - apply Z.ltb_ge in E. rewrite IH by (split; [apply Z.div_pos|apply Z.div_lt_upper_bound]; lia).
    cbn [decimal]. rewrite digitValue_digitChar by lia. f_equal. lia.
Qed.

Lemma digits_isDigit fuel n : Forall isDigit (digits fuel n).
Proof.
  revert n. induction fuel as [|fuel IH]; intros n; cbn [digits]; [constructor|].
  apply Forall_app. split; [by destruct (n <? 10)|].
  repeat constructor; apply isDigit_digitChar, Z.mod_pos_bound; lia.
Qed.

Lemma digits_ne fuel n : digits (S fuel) n ≠ [].
Proof. cbn [digits]. by destruct (if n <? 10 then _ else _). Qed.

Lemma isDigit_ne c d : isDigit c → ¬ isDigit d → c ≠ d.
Proof. by intros ? ? ->. Qed.

(** A digit string is read by [Atoi] as the number it denotes. *)
Lemma atoi_isDigit s n :
  Forall isDigit s → s ≠ [] → decimal 0 s = Some n → n < 2 ^ 63 → atoi s = Some n.
Proof.
  intros Hs Hne Hd Hn. unfold atoi. destruct s as [|c s]; [done|].
  apply Forall_cons in Hs as [Hc _].
  assert (c ≠ "-"%char ∧ c ≠ "+"%char) as [H1 H2].
  { split; apply (isDigit_ne _ _ Hc); intros [Hlo _]; by vm_compute in Hlo. }
  rewrite bool_decide_eq_false_2, Hd by done. rewrite (proj2 (Z.ltb_lt _ _) Hn).
  destruct c as [[] [] [] [] [] [] [] []]; done.
Qed.

Lemma itoa_nonneg n : 0 ≤ n → itoa n = digits 20 n.
Proof. intros H. unfold itoa. by rewrite (proj2 (Z.ltb_ge _ _)) by lia. Qed.

Lemma itoa_isDigit n : 0 ≤ n → Forall isDigit (itoa n).
Proof. intros H. rewrite itoa_nonneg by done. apply digits_isDigit. Qed.

Lemma itoa_ne n : itoa n ≠ [].
Proof. unfold itoa. destruct (n <? 0); [done|apply digits_ne]. Qed.

Lemma decimal_itoa n : 0 ≤ n < 2 ^ 63 → decimal 0 (itoa n) = Some n.
Proof. intros H. rewrite itoa_nonneg by lia. apply decimal_digits. simpl. lia. Qed.

Lemma atoi_itoa n : 0 ≤ n < 2 ^ 63 → atoi (itoa n) = Some n.
Proof.
  intros H. apply atoi_isDigit; [apply itoa_isDigit; lia|apply itoa_ne|by apply decimal_itoa|lia].
Qed.

Lemma parseUint_itoa bits n : 0 ≤ n < 2 ^ bits → bits ≤ 63 → parseUint bits (itoa n) = Some n.
Proof.
  intros H Hb. unfold parseUint. rewrite bool_decide_eq_false_2 by apply itoa_ne.
  assert (2 ^ bits ≤ 2 ^ 63) by (apply Z.pow_le_mono_r; lia).
  rewrite decimal_itoa by lia. by rewrite (proj2 (Z.ltb_lt _ _)) by lia.
Qed.

Lemma decimal_nonneg acc s n : 0 ≤ acc → decimal acc s = Some n → 0 ≤ n.
Proof.
  revert acc. induction s as [|c s IH]; intros acc Ha; simpl; [congruence|].
  destruct (digitValue c) eqn:E; [|done]. apply digitValue_Some in E as [-> Hd].
  apply IH. unfold isDigit in Hd. lia.
Qed.

Lemma parseUint_range bits s n : parseUint bits s = Some n → 0 ≤ n < 2 ^ bits.
Proof.
  unfold parseUint. case_bool_decide; [done|].
  destruct (decimal 0 s) as [m|] eqn:E; [|done]. apply decimal_nonneg in E; [|lia].
  destruct (m <? 2 ^ bits) eqn:Hm; [|done]. apply Z.ltb_lt in Hm. intros [= <-]. lia.
Qed.

Lemma isDigit_notin s c : Forall isDigit s → ¬ isDigit c → c ∉ s.
Proof. rewrite Forall_forall. intros H Hc Hin. by apply Hc, H. Qed.

Lemma itoa_notin c n : (0 ≤ n)%Z → ¬ isDigit c → c ∉ itoa n.
Proof. intros Hn. apply isDigit_notin. by apply itoa_isDigit. Qed.

Lemma not_isDigit c : inRange 48 57 c = false → ¬ isDigit c.
Proof. rewrite inRange_false. done. Qed.
End Decimal.

(** ** Lemmas: last occurrence *)

Section LastIndex.
Context (c : ascii).

Lemma lastIndexByte_None s : lastIndexByte s c = None ↔ c ∉ s.
Proof.
  induction s as [|b s IH]; simpl; [split; [intros _; apply not_elem_of_nil|done]|].
  rewrite not_elem_of_cons. destruct (lastIndexByte s c); [naive_solver|].
  case_bool_decide; naive_solver.
Qed.

Lemma lastIndexByte_app s t : c ∉ t → lastIndexByte (s ++ c :: t) c = Some (length s).
Proof.
  intros Ht. induction s as [|b s IH]; simpl.
  - rewrite (proj2 (lastIndexByte_None t)) by done. by rewrite bool_decide_eq_true_2.
  - by rewrite IH.
Qed.

Lemma lastIndexByte_Some s i :
  lastIndexByte s c = Some i → s = take i s ++ c :: drop (S i) s ∧ c ∉ drop (S i) s ∧ i < length s.
Proof.
  revert i. induction s as [|b s IH]; intros i; simpl; [done|].
  destruct (lastIndexByte s c) as [j|] eqn:E.
  - intros [= <-]. destruct (IH j eq_refl) as (Hs & Hn & Hl). simpl.
    split; [by rewrite <- Hs|]. split; [done|lia].
  - case_bool_decide; [|done]. intros [= <-]. subst. simpl. rewrite drop_0.
    split; [done|]. split; [by apply lastIndexByte_None|lia].
Qed.

Lemma indexByte_app s t : c ∉ s → indexByte (s ++ c :: t) c = Some (length s).
Proof.
  induction s as [|b s IH]; [intros _; simpl; by rewrite bool_decide_eq_true_2|].
  rewrite not_elem_of_cons. intros [Hb Hs]. simpl. rewrite bool_decide_eq_false_2 by done.
  by rewrite IH.
Qed.

Lemma indexByte_Some s i : indexByte s c = Some i → s = take i s ++ c :: drop (S i) s ∧ c ∉ take i s.
Proof.
  revert i. induction s as [|b s IH]; intros i; simpl; [done|].
  case_bool_decide as Hb.
  - intros [= <-]. subst. simpl. rewrite drop_0. split; [done|apply not_elem_of_nil].
  - destruct (indexByte s c) as [j|] eqn:E; [|done]. intros [= <-]. simpl.
    destruct (IH j eq_refl) as [Hs Hn]. rewrite <- Hs. split; [done|]. by apply not_elem_of_cons.
Qed.

Lemma indexByte_None s : indexByte s c = None ↔ c ∉ s.
Proof.
  induction s as [|b s IH]; simpl; [split; [intros _; apply not_elem_of_nil|done]|].
  rewrite not_elem_of_cons. case_bool_decide; [naive_solver|].
  rewrite fmap_None. naive_solver.
Qed.
End LastIndex.
