(* ===== verification/GoUtf8.v ===== *)
(** Facts about UTF-8 decoding: it resynchronises at every ASCII byte, and the
    runes below 128 are exactly the ASCII bytes. *)

From S2P Require Import Prelude GoStrings.

Lemma ascii_not_continuation lo hi c :
  (code c < 128)%Z → (128 ≤ lo)%Z → inRange lo hi c = false.
Proof. intros. apply inRange_false. lia. Qed.

(** Split the decoder on its length and range tests. *)
Ltac decode_cases t :=
  unfold decodeRune, isContinuation;
  destruct t as [|?c1 [|?c2 [|?c3 t]]]; simpl; repeat case_match.

Lemma decodeRune_app c t d b :
  (code d < 128)%Z → decodeRune c (t ++ d :: b) = decodeRune c t.
Proof.
  intros Hd. unfold decodeRune, isContinuation.
  destruct t as [|c1 [|c2 [|c3 t]]]; simpl; [..|done];
    repeat (rewrite ?(ascii_not_continuation _ _ d) by (try case_match; lia);
            rewrite ?andb_false_r, ?andb_false_l);
    repeat case_match; done.
Qed.

(** What a successful decoding step returns. *)
Definition stepShape (c : ascii) (t : bytes) (r : Z) (n : nat) : Prop :=
  (n = 0 ∧ (code c < 128)%Z ∧ r = code c) ∨
  (0 < n ≤ length t ∧ n ≤ 3 ∧ (128 ≤ code c)%Z ∧ (128 ≤ r)%Z
   ∧ Forall (λ d, 128 ≤ code d)%Z (take n t)).

Lemma decodeRune_shape c t r n : decodeRune c t = Some (r, n) → stepShape c t r n.
Proof.
  unfold decodeRune, stepShape, isContinuation, sixBits. intros H.
  follow H; reflect_bools; rewrite ?inRange_true in *; [by left|right..];
    repeat (apply conj || apply Forall_cons || apply Forall_nil); simpl; try lia; done.
Qed.

Lemma runePieces_step c t :
  runePieces (c :: t) =
  match decodeRune c t with
  | None => (None, [c]) :: runePieces t
  | Some (r, n) => (Some r, c :: take n t) :: runePieces (drop n t)
  end.
Proof.
  cbn [runePieces]. destruct (decodeRune c t) as [[r n]|] eqn:E; [|done].
  apply decodeRune_shape in E as [(-> & _)|(Hn & Hn3 & _)]; [done|].
  destruct n as [|[|[|[|n]]]]; try lia; destruct t as [|c1 [|c2 [|c3 t]]]; simpl in *; try lia; done.
Qed.

Lemma bytes_length_ind (P : bytes → Prop) :
  (∀ s, (∀ t, length t < length s → P t) → P s) → ∀ s, P s.
Proof. intros H s. apply (induction_ltof1 _ (@length ascii)). intros t Ht. apply H, Ht. Qed.

(** Induction along the pieces of a string. *)
Lemma rune_ind (P : bytes → Prop) :
  P [] →
  (∀ c t, decodeRune c t = None → P t → P (c :: t)) →
  (∀ c t r n, decodeRune c t = Some (r, n) → stepShape c t r n → P (drop n t) → P (c :: t)) →
  ∀ s, P s.
Proof.
  intros Hnil Hbad Hgood. apply bytes_length_ind. intros [|c t] IH; [done|].
  destruct (decodeRune c t) as [[r n]|] eqn:E.
  - apply (Hgood c t r n E (decodeRune_shape _ _ _ _ E)). apply IH. rewrite length_drop. simpl; lia.
  - apply Hbad, IH; [done|simpl; lia].
Qed.

Lemma runePieces_concat s : concat (snd <$> runePieces s) = s.
Proof.
  induction s as [|c t E IH|c t r n E _ IH] using rune_ind; [done|..];
    rewrite runePieces_step, E; csimpl; rewrite IH; [done|]. by rewrite take_drop.
Qed.

(** Decoding resynchronises at an ASCII byte. *)
Lemma runePieces_app s d b :
  (code d < 128)%Z →
  runePieces (s ++ d :: b) = runePieces s ++ (Some (code d), [d]) :: runePieces b.
Proof.
  intros Hd. induction s as [|c t E IH|c t r n E Hshape IH] using rune_ind; rewrite <-?app_comm_cons.
  - simpl app. rewrite runePieces_step. unfold decodeRune.
    by rewrite (proj2 (Z.ltb_lt _ _) Hd), take_0, drop_0.
  - rewrite (runePieces_step c t), (runePieces_step c (t ++ _)), decodeRune_app, E by done.
    by rewrite IH.
  - rewrite (runePieces_step c t), (runePieces_step c (t ++ _)), decodeRune_app, E by done.
    assert (n ≤ length t) by (destruct Hshape as [(-> & _)|(? & _)]; lia).
    rewrite take_app_le, drop_app_le, IH by done. done.
Qed.

Lemma runes_app s d b :
  (code d < 128)%Z → runes (s ++ d :: b) = runes s ++ code d :: runes b.
Proof. intros. unfold runes. by rewrite runePieces_app, fmap_app by done. Qed.

Lemma validUTF8_app s d b :
  (code d < 128)%Z → validUTF8 (s ++ d :: b) = validUTF8 s && validUTF8 b.
Proof. intros. unfold validUTF8. by rewrite runePieces_app, forallb_app. Qed.

Lemma runes_cons d b : (code d < 128)%Z → runes (d :: b) = code d :: runes b.
Proof. apply (runes_app []). Qed.

Lemma validUTF8_cons d b : (code d < 128)%Z → validUTF8 (d :: b) = validUTF8 b.
Proof. apply (validUTF8_app []). Qed.

(** A test that only holds of ASCII runes can be made bytewise. *)
Lemma existsb_runes (P : Z → bool) s :
  (∀ r, (128 ≤ r)%Z → P r = false) → existsb P (runes s) = existsb (P ∘ code) s.
Proof.
  intros HP. unfold runes.
  induction s as [|c t E IH|c t r n E Hshape IH] using rune_ind; [done|..];
    rewrite runePieces_step, E; csimpl.
  - rewrite IH, HP by done. rewrite HP; [done|].
    unfold decodeRune in E. destruct (Z.ltb_spec (code c) 128); [done|lia].
  - rewrite IH. destruct Hshape as [(-> & _ & ->)|(_ & _ & Hc & Hr & Hall)]; [done|].
    rewrite !HP by done. simpl. rewrite <-(take_drop n t) at 2. rewrite existsb_app.
    replace (existsb (P ∘ code) (take n t)) with false; [done|].
    symmetry. clear -HP Hall. induction Hall; simpl; [done|]. by rewrite HP.
Qed.

(** ** Joining valid segments *)

Lemma validUTF8_join parts d :
  (code d < 128)%Z → validUTF8 (join parts [d]) = forallb validUTF8 parts.
Proof.
  intros Hd. induction parts as [|p [|q parts] IH]; [done|by cbn [forallb join]; rewrite andb_true_r|].
  change (join (p :: q :: parts) [d]) with (p ++ d :: join (q :: parts) [d]).
  by rewrite validUTF8_app, IH.
Qed.

Lemma validUTF8_split s d :
  (code d < 128)%Z → validUTF8 s = forallb validUTF8 (splitByte s d).
Proof. intros Hd. by rewrite <-(validUTF8_join _ d Hd), join_splitByte. Qed.

(** ** Trimming *)

Definition spaceAt (p : option (option Z * bytes)) : bool := match p with Some p => spacePiece p | None => false end.

Lemma runePieces_ne s : Forall (λ p, snd p ≠ []) (runePieces s).
Proof.
  induction s as [|c t E IH|c t r n E Hshape IH] using rune_ind; [by constructor|..];
    rewrite runePieces_step, E; constructor; done.
Qed.

Lemma dropWhileb_head {A} (f : A → bool) l :
  match head l with Some x => f x = false | None => True end → dropWhileb f l = l.
Proof. destruct l; [done|]. cbn. by intros ->. Qed.

Lemma dropWhileb_suffix {A} (f : A → bool) l : ∃ k, l = k ++ dropWhileb f l ∧ Forall (λ x, f x = true) k.
Proof.
  induction l as [|x l (k & Hl & Hk)]; [by exists []|]. cbn. destruct (f x) eqn:E; [|by exists []].
  exists (x :: k). cbn. rewrite <- Hl. by split; [|constructor].
Qed.

Lemma dropWhileb_first {A} (f : A → bool) l x : head (dropWhileb f l) = Some x → f x = false.
Proof. induction l as [|y l IH]; [done|]. cbn. destruct (f y) eqn:E; [done|]. by intros [= <-]. Qed.

(** [trimSpace] on pieces. *)
Definition trimPieces (ps : list (option Z * bytes)) : list (option Z * bytes) :=
  reverse (dropWhileb spacePiece (reverse (dropWhileb spacePiece ps))).

Lemma trimPieces_split ps : ∃ k j, ps = k ++ trimPieces ps ++ j.
Proof.
  destruct (dropWhileb_suffix spacePiece ps) as (k & Hk & _).
  destruct (dropWhileb_suffix spacePiece (reverse (dropWhileb spacePiece ps))) as (j & Hj & _).
  apply (f_equal reverse) in Hj. rewrite reverse_involutive, reverse_app in Hj.
  exists k, (reverse j). rewrite Hk at 1. f_equal. exact Hj.
Qed.

Lemma trimPieces_ends ps : spaceAt (head (trimPieces ps)) = false ∧ spaceAt (last (trimPieces ps)) = false.
Proof.
  unfold trimPieces. set (front := dropWhileb spacePiece ps). split.
  - destruct (dropWhileb_suffix spacePiece (reverse front)) as (j & Hj & _).
    apply (f_equal reverse) in Hj. rewrite reverse_involutive, reverse_app in Hj.
    destruct (reverse (dropWhileb spacePiece (reverse front))) as [|p rest] eqn:E; [done|]. cbn.
    apply (dropWhileb_first spacePiece ps). change (head front = Some p). by rewrite Hj.
  - rewrite last_reverse. destruct (head _) as [p|] eqn:E; [|done]. by apply dropWhileb_first in E.
Qed.

Lemma no_pieces (ps : list (option Z * bytes)) :
  Forall (λ p, snd p ≠ []) ps → length (concat (snd <$> ps)) = 0 → ps = [].
Proof. destruct 1 as [|[o [|c t]] ps Hp]; [done|done|]. csimpl. lia. Qed.

(** [s == strings.TrimSpace(s)], by the first and the last rune. *)
Lemma trimSpace_fixed s :
  trimSpace s = s ↔ spaceAt (head (runePieces s)) = false ∧ spaceAt (last (runePieces s)) = false.
Proof.
  change (trimSpace s) with (concat (snd <$> trimPieces (runePieces s))). split.
  - intros Htrim. destruct (trimPieces_split (runePieces s)) as (k & j & Hsplit).
    pose proof (runePieces_ne s) as Hne. rewrite Hsplit, !Forall_app in Hne. destruct Hne as (Hk & _ & Hj).
    assert (length s = length (concat (snd <$> k)) + (length (trimSpace s) + length (concat (snd <$> j)))) as Hlen.
    { rewrite <- (runePieces_concat s) at 1. rewrite Hsplit at 1. by rewrite !fmap_app, !concat_app, !length_app. }
    change (trimSpace s) with (concat (snd <$> trimPieces (runePieces s))) in Hlen. rewrite Htrim in Hlen.
    apply (no_pieces k) in Hk as ->; [|lia]. apply (no_pieces j) in Hj as ->; [|lia].
    rewrite app_nil_r in Hsplit. cbn in Hsplit. rewrite Hsplit. apply trimPieces_ends.
  - intros [Hh Hl]. unfold trimPieces. rewrite (dropWhileb_head _ (runePieces s)) by (by destruct (head _)).
    rewrite dropWhileb_head, reverse_involutive; [apply runePieces_concat|].
    rewrite head_reverse. by destruct (last _).
Qed.

Lemma spaceAt_all ps : Forall (λ p, spacePiece p = false) ps → spaceAt (head ps) = false ∧ spaceAt (last ps) = false.
Proof.
  intros Hps. split; [by destruct Hps|]. destruct (last ps) as [p|] eqn:E; [|done].
  apply last_Some in E as [l ->]. by apply Forall_app in Hps as [_ [Hp _]%Forall_cons].
Qed.

Lemma trimSpace_digits s : Forall isDigit s → trimSpace s = s.
Proof.
  intros Hs. apply trimSpace_fixed, spaceAt_all. induction Hs as [|c s Hc _ IH]; [by constructor|].
  unfold isDigit in Hc. change (c :: s) with ([] ++ c :: s). rewrite runePieces_app by lia. constructor; [|done].
  change (isSpace (code c) = false). unfold isSpace. rewrite !orb_false_iff, !andb_false_iff, !Z.leb_gt, !Z.eqb_neq. split_and!; lia.
Qed.
