(* ===== verification/GoPath.v ===== *)
(** Go's [path.Clean], and what it computes on a rooted path that has no dot
    segments: the non-empty segments joined by single slashes. *)

From S2P Require Import Prelude GoStrings.

(** ** [path.Clean] *)

Definition slash : ascii := "/".
Definition dot : ascii := ".".

(** The scanner of [path.Clean] with [rest] the input from the read index on,
    [out] the output buffer reversed and [dotdot] the index below which a [..]
    may not backtrack. *)
Fixpoint takeSegment (s : bytes) : bytes * bytes :=
  match s with
  | c :: s' =>
      if bool_decide (c = slash) then ([], s)
      else let '(seg, rest) := takeSegment s' in (c :: seg, rest)
  | [] => ([], [])
  end.

(** [for out.w > dotdot && out.index(out.w) != '/' { out.w-- }], after the
    first decrement: [out] is the buffer below [w], [last] the byte at [w]. *)
Fixpoint backtrack (out : bytes) (last : ascii) (dotdot : nat) : bytes :=
  if (dotdot <? length out) && negb (bool_decide (last = slash))
  then match out with [] => [] | c :: out' => backtrack out' c dotdot end
  else out.

Fixpoint cleanLoop (fuel : nat) (rooted : bool) (rest out : bytes) (dotdot : nat) : bytes :=
  match fuel with
  | 0 => out
  | S fuel' =>
      match rest with
      | [] => out
      | c :: rest1 =>
          let endsSegment (t : bytes) := match t with [] => true | d :: _ => bool_decide (d = slash) end in
          if bool_decide (c = slash) then cleanLoop fuel' rooted rest1 out dotdot
          else if bool_decide (c = dot) && endsSegment rest1 then cleanLoop fuel' rooted rest1 out dotdot
          else if bool_decide (c = dot)
                  && match rest1 with
                     | d :: rest2 => bool_decide (d = dot) && endsSegment rest2
                     | [] => false
                     end
          then
            let rest2 := drop 1 rest1 in
            if dotdot <? length out then
              match out with
              | l :: out' => cleanLoop fuel' rooted rest2 (backtrack out' l dotdot) dotdot
              | [] => cleanLoop fuel' rooted rest2 [] dotdot
              end
            else if negb rooted then
              let out := if 0 <? length out then slash :: out else out in
              let out := dot :: dot :: out in
              cleanLoop fuel' rooted rest2 out (length out)
            else cleanLoop fuel' rooted rest2 out dotdot
          else
            let out :=
              if (rooted && negb (length out =? 1)) || (negb rooted && negb (length out =? 0))
              then slash :: out else out in
            let '(seg, rest') := takeSegment rest in
            cleanLoop fuel' rooted rest' (reverse seg ++ out) dotdot
      end
  end.

Definition cleanPath (p : bytes) : bytes :=
  match p with
  | [] => [dot]
  | c :: _ =>
      let rooted := bool_decide (c = slash) in
      let out :=
        if rooted then cleanLoop (length p) true (drop 1 p) [slash] 1
        else cleanLoop (length p) false p [] 0 in
      if bool_decide (out = []) then [dot] else reverse out
  end.


(** ** Clean without dot segments *)

Lemma takeSegment_spec s :
  let '(seg, rest) := takeSegment s in
  (s = seg ++ rest ∧ (slash ∉ seg) ∧ (rest = [] ∨ ∃ t, rest = slash :: t)).
Proof.
  induction s as [|c s IH]; simpl; [auto using not_elem_of_nil|].
  case_bool_decide as Hc; [rewrite Hc; eauto using not_elem_of_nil|].
  destruct (takeSegment s) as [seg rest]; destruct IH as (-> & Hseg & Hrest).
  split; [done|]. split; [|done]. rewrite not_elem_of_cons. split; [congruence|done].
Qed.

(** Appending segments to the output buffer the way the scanner does. *)
Fixpoint pushSegments (out : bytes) (segs : list bytes) : bytes :=
  match segs with
  | [] => out
  | seg :: segs' =>
      let out := if negb (length out =? 1) then slash :: out else out in
      pushSegments (reverse seg ++ out) segs'
  end.

Definition notDots (seg : bytes) : Prop := seg ≠ "." ∧ seg ≠ "..".

Lemma splitByte_notDots_head s :
  Forall notDots (splitByte s slash) →
  ∀ seg rest, s = seg ++ rest → slash ∉ seg → (rest = [] ∨ ∃ t, rest = slash :: t) →
  notDots seg ∧ Forall notDots (splitByte (drop 1 rest) slash).
Proof.
  intros Hs seg rest -> Hseg [->|[t ->]].
  - rewrite app_nil_r, splitByte_whole in Hs by done.
    split; [by inversion Hs|]. simpl. repeat constructor; done.
  - rewrite splitByte_app in Hs by done. by apply Forall_cons in Hs.
Qed.

Lemma cleanLoop_segments fuel rest out :
  length rest ≤ fuel → out ≠ [] → Forall notDots (splitByte rest slash) →
  cleanLoop fuel true rest out 1 = pushSegments out (nonEmptyParts slash rest).
Proof.
  revert rest out; induction fuel as [|fuel IH]; intros rest out Hfuel Hout Hdots.
  { by destruct rest; [|simpl in Hfuel; lia]. }
  destruct rest as [|c rest]; [done|]. simpl in Hfuel.
  destruct (decide (c = slash)) as [->|Hc].
  { simpl. rewrite nonEmptyParts_sep. apply IH; [lia|done|].
    rewrite splitByte_sep in Hdots. by apply Forall_cons in Hdots as [_ ?]. }
  pose proof (takeSegment_spec (c :: rest)) as Hseg.
  destruct (takeSegment (c :: rest)) as [seg rest'] eqn:Etake.
  destruct Hseg as (Heq & Hnot & Hrest).
  destruct (splitByte_notDots_head _ Hdots seg rest' Heq Hnot Hrest) as [[Hd1 Hd2] Hdots'].
  assert (∃ seg', seg = c :: seg') as [seg' ->].
  { destruct seg as [|b seg]; simpl in Heq; [|injection Heq as -> _; eauto].
    destruct Hrest as [Hr|[t Hr]]; congruence. }
  assert (Hstep : cleanLoop (S fuel) true (c :: rest) out 1 =
    cleanLoop fuel true rest'
      (reverse (c :: seg') ++ (if negb (length out =? 1) then slash :: out else out)) 1).
  { clear IH. cbn [cleanLoop]. rewrite Etake. rewrite bool_decide_eq_false_2 by done.
    injection Heq as ->. rewrite andb_true_l, andb_false_l, orb_false_r.
    destruct (decide (c = dot)) as [->|]; [|by rewrite !bool_decide_eq_false_2 by done].
    destruct seg' as [|d seg'].
    - by contradict Hd1.
    - simpl. apply not_elem_of_cons in Hnot as [_ Hnot].
      apply not_elem_of_cons in Hnot as [Hd Hnot].
      rewrite (bool_decide_eq_false_2 (d = slash)) by done. simpl.
      destruct (decide (d = dot)) as [->|]; [|by rewrite (bool_decide_eq_false_2 (d = dot)) by done].
      destruct seg' as [|e seg']; [by contradict Hd2|].
      apply not_elem_of_cons in Hnot as [He _]. simpl.
      by rewrite (bool_decide_eq_false_2 (e = slash)) by done. }
  rewrite Hstep. apply not_elem_of_cons in Hnot as Hnot'. destruct Hnot' as [_ Hseg'].
  rewrite IH; [|injection Heq as ->; rewrite length_app in Hfuel; lia|by rewrite reverse_cons; destruct (reverse seg')|].
  - rewrite Heq. destruct Hrest as [->|[t ->]].
    + rewrite app_nil_r, (nonEmptyParts_whole _ (c :: seg')) by done. reflexivity.
    + rewrite (nonEmptyParts_app _ (c :: seg')), nonEmptyParts_sep by done. reflexivity.
  - destruct Hrest as [->|[t ->]]; [repeat constructor; done|].
    rewrite splitByte_sep. constructor; done.
Qed.

(** A rooted path with the given segments. *)
Definition renderPath (segs : list bytes) : bytes := slash :: join segs [slash].

Lemma pushSegments_slash out segs :
  2 ≤ length out → pushSegments out segs = reverse (concat (cons slash <$> segs)) ++ out.
Proof.
  revert out; induction segs as [|seg segs IH]; intros out Hlen; [done|]. simpl.
  destruct (Nat.eqb_spec (length out) 1) as [|_]; [lia|]. simpl. rewrite IH.
  - by rewrite reverse_cons, !reverse_app, <-!app_assoc.
  - rewrite length_app. simpl. lia.
Qed.

Lemma join_cons_concat seg segs :
  join (seg :: segs) [slash] = seg ++ concat (cons slash <$> segs).
Proof.
  revert seg; induction segs as [|s segs IH]; intros seg; simpl; [by rewrite app_nil_r|].
  by rewrite <-IH.
Qed.

Lemma pushSegments_root segs :
  Forall (.≠ []) segs → reverse (pushSegments [slash] segs) = renderPath segs.
Proof.
  intros Hsegs. destruct Hsegs as [|seg segs Hseg Hsegs]; [done|].
  cbn [pushSegments length Nat.eqb negb]. unfold renderPath.
  rewrite pushSegments_slash, !reverse_app, !reverse_involutive, join_cons_concat; [done|].
  rewrite length_app, length_reverse. destruct seg; simpl; [done|lia].
Qed.

(** On a rooted path without dot segments, [path.Clean] keeps the non-empty
    segments. *)
Lemma cleanPath_segments s :
  Forall notDots (splitByte s slash) →
  cleanPath (slash :: s) = renderPath (nonEmptyParts slash s).
Proof.
  intros Hdots.
  change (cleanPath (slash :: s)) with
    (let out := cleanLoop (length (slash :: s)) true s [slash] 1 in
     if bool_decide (out = []) then [dot] else reverse out).
  rewrite cleanLoop_segments by (try done; simpl; lia). cbv zeta.
  assert (Hne : Forall (.≠ []) (nonEmptyParts slash s)).
  { eapply Forall_impl; [apply nonEmptyParts_spec|]. by intros x [? _]. }
  pose proof (pushSegments_root _ Hne) as Hpush.
  rewrite bool_decide_eq_false_2; [done|].
  intros Hnil. by rewrite Hnil in Hpush.
Qed.

(** ** The last element of a cleaned path *)

(** [filepath.Join] where the separator is a slash: the elements that are not
    empty, cleaned. *)
Definition joinPath (elements : list bytes) : bytes :=
  let elements := filter (.≠ []) elements in
  if bool_decide (elements = []) then [] else cleanPath (join elements [slash]).

Section LastElement.
Context (name : bytes) (Hname : slash ∉ name) (Hnil : name ≠ []) (Hdots : notDots name).

Definition endsWithName (rest : bytes) : Prop := rest = name ∨ ∃ p, rest = p ++ slash :: name.

Lemma name_slash p t : p ++ slash :: t = name → False.
Proof. intros <-. apply Hname. apply elem_of_app. right. by left. Qed.

Lemma endsWithName_tail c rest : endsWithName (c :: rest) → c = slash ∨ c :: rest = name ∨ endsWithName rest.
Proof.
  intros [?|[[|d p] Hp]]; [by right; left|injection Hp as -> ->; by left|].
  injection Hp as -> ->. right; right; right. by exists p.
Qed.

Lemma takeSegment_name rest seg rest' :
  endsWithName rest → takeSegment rest = (seg, rest') → rest = name ∧ seg = name ∧ rest' = [] ∨ endsWithName rest'.
Proof.
  intros Hend Htake. pose proof (takeSegment_spec rest) as Hspec. rewrite Htake in Hspec.
  destruct Hspec as (Heq & Hseg & Hrest). destruct Hend as [->|[p ->]].
  - left. split; [done|]. destruct Hrest as [->|[t ->]]; [by rewrite app_nil_r in Heq|].
    by destruct (name_slash seg t).
  - right. apply app_eq_inv in Heq as [(k & Hk & Hr)|(k & Hk & Hr)].
    + right. by exists k.
    + destruct k as [|d k]; [rewrite app_nil_r in Hk; right; exists []; by rewrite Hr|].
      injection Hr as <- _. destruct Hseg. rewrite Hk. apply elem_of_app. right. by left.
Qed.

Lemma cleanLoop_name fuel rooted rest out dotdot :
  length rest ≤ fuel → endsWithName rest → ∃ out', cleanLoop fuel rooted rest out dotdot = reverse name ++ out'.
Proof.
  revert rest out dotdot. induction fuel as [|fuel IH]; intros rest out dotdot Hfuel Hend.
  { destruct rest; [|cbn in Hfuel; lia]. destruct Hend as [?|[[] ?]]; [congruence|done..]. }
  destruct rest as [|c rest]; [destruct Hend as [?|[[] ?]]; [congruence|done..]|]. cbn in Hfuel. cbn [cleanLoop].
  case_bool_decide as Hc.
  { apply IH; [lia|]. destruct Hend as [Hn|[[|d p] Hp]]; [subst c; by destruct (name_slash [] rest)|by injection Hp as _ ->; left|].
    injection Hp as _ ->. right. by exists p. }
  assert (endsWithName rest ∨ c :: rest = name) as Hrest by (apply endsWithName_tail in Hend; naive_solver).
  destruct (_ && match rest with [] => true | _ :: _ => _ end) eqn:Hdot.
  { apply IH; [lia|]. destruct Hrest as [?|Hn]; [done|]. apply andb_true_iff in Hdot as [->%bool_decide_eq_true Hs].
    destruct rest as [|d rest]; [by destruct Hdots as [[] _]|]. apply bool_decide_eq_true in Hs as ->. by destruct (name_slash [dot] rest). }
  destruct (_ && match rest with [] => false | _ :: _ => _ end) eqn:Hdotdot.
  { destruct rest as [|d rest]; [by rewrite andb_false_r in Hdotdot|]. reflect_bools. subst c d. cbn [drop].
    assert (endsWithName rest) as Hr.
    { destruct Hrest as [Hr|Hn].
      - apply endsWithName_tail in Hr as [?|[Hn|?]]; [done| |done]. destruct Hend as [Hn'|[p Hp]].
        + rewrite <- Hn' in Hn. apply (f_equal length) in Hn. cbn in Hn. lia.
        + destruct p as [|x [|y p]]; [done|injection Hp as <- Hp; by destruct (name_slash [] name)|].
          injection Hp as <- <- Hp. right. by exists p.
      - destruct rest as [|x rest]; [by destruct Hdots as [_ []]|]. reflect_bools. subst x. by destruct (name_slash [dot; dot] rest). }
    cbn in Hfuel. change (drop 0 rest) with rest. destruct (_ <? _); [destruct out; apply IH; lia || done|].
    destruct (negb rooted); apply IH; lia || done. }
  destruct (takeSegment (c :: rest)) as [seg rest'] eqn:Htake.
  assert (length rest' ≤ fuel) as Hlen.
  { pose proof (takeSegment_spec (c :: rest)) as Hspec. rewrite Htake in Hspec. destruct Hspec as (Heq & _ & Hs).
    destruct seg as [|x seg]; [destruct Hs as [->|[t ->]]; [done|by injection Heq]|].
    injection Heq as _ ->. rewrite length_app in Hfuel. lia. }
  apply (takeSegment_name _ _ _ Hend) in Htake as [(_ & -> & ->)|Hend']; [|by apply IH].
  eexists. destruct fuel; reflexivity.
Qed.

Lemma cleanPath_name p : endsWithName p → ∃ q, cleanPath p = q ++ name.
Proof.
  intros Hend. destruct p as [|c p]; [destruct Hend as [?|[[] ?]]; [congruence|done..]|]. unfold cleanPath.
  assert (∀ out, (∃ out', out = reverse name ++ out') →
    ∃ q, (if bool_decide (out = []) then [dot] else reverse out) = q ++ name) as Hout.
  { intros out [out' ->]. rewrite bool_decide_eq_false_2.
    - exists (reverse out'). by rewrite reverse_app, reverse_involutive.
    - intros [Hr _]%app_nil. apply Hnil. by rewrite <- (reverse_involutive name), Hr. }
  apply Hout. destruct (bool_decide (c = slash)) eqn:Hc; apply cleanLoop_name; try done; [change (drop 1 (c :: p)) with p; cbn; lia|]. reflect_bools.
  change (drop 1 (c :: p)) with p.
  subst c. destruct Hend as [Hn|[[|d q] Hq]]; [by destruct (name_slash [] p)|by injection Hq as ->; left|].
  injection Hq as _ ->. right. by exists q.
Qed.
End LastElement.

(** A joined path ends with its last element. *)
Lemma joinPath_name dir name :
  slash ∉ name → name ≠ [] → notDots name → ∃ q, joinPath [dir; name] = q ++ name.
Proof.
  intros Hs Hn Hd. unfold joinPath. rewrite !filter_cons, filter_nil.
  rewrite (decide_True (P := name ≠ [])) by done. destruct (decide (dir ≠ [])) as [Hdir|Hdir]; cbn.
  - apply cleanPath_name; try done. right. by exists dir.
  - apply cleanPath_name; try done. by left.
Qed.
