(* ===== verification/GoNet.v ===== *)
(** The parts of Go's [net] and [net/netip] packages that the gateway calls:
    host/port splitting, IP addresses and CIDR prefixes. *)

From S2P Require Import Prelude GoStrings.

(** ** Hexadecimal digits *)

Definition hexValue (c : ascii) : option Z :=
  if inRange 48 57 c then Some (code c - 48)%Z
  else if inRange 97 102 c then Some (code c - 97 + 10)%Z
  else if inRange 65 70 c then Some (code c - 65 + 10)%Z
  else None.

Definition hexDigit (d : Z) : ascii :=
  if (d <? 10)%Z then byteOf (48 + d) else byteOf (87 + d).

(** ** [net.SplitHostPort] and [net.JoinHostPort] *)

Definition splitHostPort (hostport : bytes) : option (bytes * bytes) :=
  match lastIndexByte hostport ":" with
  | None => None
  | Some i =>
      let port := drop (S i) hostport in
      match hostport with
      | "["%char :: _ =>
          match indexByte hostport "]" with
          | None => None
          | Some e =>
              if (S e =? i)
                 && negb (containsByte (drop 1 hostport) "[")
                 && negb (containsByte (drop (S e) hostport) "]")
              then Some (take (e - 1) (drop 1 hostport), port) else None
          end
      | _ =>
          let host := take i hostport in
          if containsByte host ":" || containsByte hostport "[" || containsByte hostport "]"
          then None else Some (host, port)
      end
  end.

Definition joinHostPort (host port : bytes) : bytes :=
  if containsByte host ":" then "[" ++ host ++ "]:" ++ port else host ++ ":" ++ port.

(** ** [netip.Addr] *)

(** An IPv4 address is a 32-bit value; an IPv6 address is eight 16-bit groups,
    most significant first, with a zone that is empty for most addresses. *)
Inductive Addr : Type :=
| V4 (value : Z)
| V6 (groups : list Z) (zone : bytes).

#[export] Instance Addr_eq_dec : EqDecision Addr.
Proof. solve_decision. Defined.

(** One octet of [parseIPv4Fields]: at most three digits, at most 255 and no
    leading zero. *)
Definition parseOctet (s : bytes) : option Z :=
  match s with
  | [] => None
  | "0"%char :: _ :: _ => None
  | _ => match decimal 0 s with
         | Some n => if (n <=? 255)%Z then Some n else None
         | None => None
         end
  end.

Definition parseIPv4 (s : bytes) : option Z :=
  match splitByte s "." with
  | [a; b; c; d] =>
      match parseOctet a, parseOctet b, parseOctet c, parseOctet d with
      | Some a, Some b, Some c, Some d => Some (((a * 256 + b) * 256 + c) * 256 + d)%Z
      | _, _, _, _ => None
      end
  | _ => None
  end.

(** The digits of one group: value, number of digits and the rest; [None] for
    more than four digits. *)
Fixpoint hexGroup (fuel : nat) (acc : Z) (n : nat) (s : bytes) : option (Z * nat * bytes) :=
  match s with
  | c :: s' =>
      match hexValue c, fuel with
      | Some d, S fuel' => hexGroup fuel' (acc * 16 + d) (S n) s'
      | Some _, 0 => None
      | None, _ => Some (acc, n, s)
      end
  | [] => Some (acc, n, [])
  end.

(** The loop of [parseIPv6]: groups read so far (most significant first), the
    position of the ellipsis among them and the input left. *)
Fixpoint ipv6Loop (fuel : nat) (groups : list Z) (ellipsis : option nat) (s : bytes)
    : option (list Z * option nat) :=
  match fuel with
  | 0 => if bool_decide (s = []) then Some (groups, ellipsis) else None
  | S fuel' =>
      match hexGroup 4 0 0 s with
      | None | Some (_, 0, _) => None
      | Some (acc, _, rest) =>
          match rest with
          | "."%char :: _ =>
              if (negb (bool_decide (is_Some ellipsis)) && negb (length groups =? 6))
                 || (6 <? length groups)
              then None
              else match parseIPv4 s with
                   | Some v => Some (groups ++ [v / 65536; v mod 65536]%Z, ellipsis)
                   | None => None
                   end
          | [] => Some (groups ++ [acc], ellipsis)
          | ":"%char :: rest1 =>
              let groups := groups ++ [acc] in
              match rest1 with
              | [] => None
              | ":"%char :: rest2 =>
                  if bool_decide (is_Some ellipsis) then None
                  else if bool_decide (rest2 = []) then Some (groups, Some (length groups))
                  else ipv6Loop fuel' groups (Some (length groups)) rest2
              | _ => ipv6Loop fuel' groups ellipsis rest1
              end
          | _ => None
          end
      end
  end.

Definition parseIPv6 (input : bytes) : option Addr :=
  let '(s, zone, hasZone) := cutByte input "%" in
  if hasZone && bool_decide (zone = []) then None
  else
    let '(s, ellipsis) :=
      match s with
      | ":"%char :: ":"%char :: t => (t, Some 0)
      | _ => (s, None)
      end in
    match ellipsis, s with
    | Some _, [] => Some (V6 (replicate 8 0%Z) zone)
    | _, _ =>
        match ipv6Loop 8 [] ellipsis s with
        | None => None
        | Some (groups, at_) =>
            match at_ with
            | None => if length groups =? 8 then Some (V6 groups zone) else None
            | Some k =>
                if length groups <? 8
                then Some (V6 (take k groups ++ replicate (8 - length groups) 0%Z ++ drop k groups) zone)
                else None
            end
        end
    end.

(** [netip.ParseAddr]: the first of [.], [:] and [%] decides the family. *)
Fixpoint addrFamily (s : bytes) : option ascii :=
  match s with
  | [] => None
  | c :: s' =>
      if bool_decide (c = "."%char ∨ c = ":"%char ∨ c = "%"%char) then Some c else addrFamily s'
  end.

Definition parseAddr (s : bytes) : option Addr :=
  match addrFamily s with
  | Some "."%char => V4 <$> parseIPv4 s
  | Some ":"%char => parseIPv6 s
  | _ => None
  end.

(** [Addr.Unmap]. *)
Definition unmap (a : Addr) : Addr :=
  match a with
  | V6 [0; 0; 0; 0; 0; 65535; hi; lo]%Z _ => V4 (hi * 65536 + lo)
  | _ => a
  end.

(** [Addr.String]. *)
Definition string4 (v : Z) : bytes :=
  join [itoa (v / 16777216); itoa ((v / 65536) mod 256);
        itoa ((v / 256) mod 256); itoa (v mod 256)] ".".

Definition hexGroupString (g : Z) : bytes :=
  let ds := [g / 4096; (g / 256) mod 16; (g / 16) mod 16; g mod 16]%Z in
  hexDigit <$>
    match ds with
    | [0; 0; 0; d]%Z => [d]
    | 0%Z :: 0%Z :: ds' | 0%Z :: ds' | ds' => ds'
    end.

(** Start and length of the first longest run of at least two zero groups. *)
Fixpoint zeroPrefix (gs : list Z) : nat :=
  match gs with 0%Z :: gs' => S (zeroPrefix gs') | _ => 0 end.

Fixpoint zeroRun (pos : nat) (gs : list Z) (best : nat * nat) : nat * nat :=
  match gs with
  | [] => best
  | _ :: gs' =>
      let l := zeroPrefix gs in
      zeroRun (S pos) gs' (if (2 <=? l) && (snd best <? l) then (pos, l) else best)
  end.

Definition string6 (groups : list Z) : bytes :=
  let '(start, len) := zeroRun 0 groups (0, 0) in
  if len =? 0 then join (hexGroupString <$> groups) ":"
  else join (hexGroupString <$> take start groups) ":" ++ "::"
       ++ join (hexGroupString <$> drop (start + len) groups) ":".

Definition addrString (a : Addr) : bytes :=
  match a with
  | V4 v => string4 v
  | V6 groups zone =>
      let zoneSuffix : bytes := if bool_decide (zone = []) then [] else "%" ++ zone in
      match groups with
      | [0; 0; 0; 0; 0; 65535; hi; lo]%Z => "::ffff:" ++ string4 (hi * 65536 + lo) ++ zoneSuffix
      | _ => string6 groups ++ zoneSuffix
      end
  end.

(** ** [netip.Prefix] *)

Record Prefix := { prefixAddr : Addr; prefixBits : Z }.

Definition is6 (a : Addr) : bool := match a with V4 _ => false | V6 _ _ => true end.
Definition addrZone (a : Addr) : bytes := match a with V4 _ => [] | V6 _ z => z end.
Definition addrWidth (a : Addr) : Z := match a with V4 _ => 32 | V6 _ _ => 128 end.

Definition addrValue (a : Addr) : Z :=
  match a with
  | V4 v => v
  | V6 groups _ => foldl (λ acc g, acc * 65536 + g)%Z 0%Z groups
  end.

Definition parsePrefix (s : bytes) : option Prefix :=
  match lastIndexByte s "/" with
  | None => None
  | Some i =>
      let bitsStr := drop (S i) s in
      match parseAddr (take i s) with
      | None => None
      | Some ip =>
          if negb (bool_decide (addrZone ip = [])) then None
          else if match bitsStr with
                  | c :: _ :: _ => negb (inRange 49 57 c)
                  | _ => false
                  end then None
          else match atoi bitsStr with
               | Some bits =>
                   if (0 <=? bits)%Z && (bits <=? addrWidth ip)%Z
                   then Some {| prefixAddr := ip; prefixBits := bits |} else None
               | None => None
               end
      end
  end.

(** [Prefix.Contains]: same family, no zone, and equal leading bits. *)
Definition prefixContains (p : Prefix) (a : Addr) : bool :=
  bool_decide (addrZone a = []) && bool_decide (addrWidth (prefixAddr p) = addrWidth a)
  && (Z.shiftr (Z.lxor (addrValue a) (addrValue (prefixAddr p)))
        (addrWidth a - prefixBits p) =? 0)%Z.

(** [net.ParseIP(s).String()], [None] when the text is not an IP address. *)
Definition parseIPString (s : bytes) : option bytes :=
  match parseAddr s with
  | Some a => if bool_decide (addrZone a = []) then Some (addrString (unmap a)) else None
  | None => None
  end.

(** ** Lemmas: host and port *)

(** The two shapes [SplitHostPort] accepts. *)
Lemma splitHostPort_Some s host port :
  splitHostPort s = Some (host, port) →
  ":"%char ∉ port
  ∧ ((s = host ++ ":"%char :: port ∧ ":"%char ∉ host ∧ "["%char ∉ s ∧ "]"%char ∉ s)
     ∨ (s = "["%char :: host ++ "]"%char :: ":"%char :: port ∧ "["%char ∉ host ∧ "]"%char ∉ host)).
Proof.
  unfold splitHostPort. destruct (lastIndexByte s ":") as [i|] eqn:Hi; [|done].
  apply lastIndexByte_Some in Hi as (Hs & Hport & Hlen).
  destruct (decide (head s = Some "["%char)) as [Hh|Hh].
  - destruct s as [|c s]; [done|]. injection Hh as ->.
    destruct (indexByte _ "]") as [e|] eqn:He; [|done].
    apply indexByte_Some in He as [He Hne].
    destruct (_ && _) eqn:Hc; [|done]. intros [= <- <-]. reflect_bools. subst i.
    split; [done|right]. destruct e as [|e]; [by destruct s|]. cbn [take drop Nat.sub] in *.
    rewrite Nat.sub_0_r in *. injection He as He. injection Hs as Hs. simpl in Hlen.
    assert (drop (S e) s = ":"%char :: drop (S (S e)) s) as Hd.
    { rewrite Hs at 1. apply drop_app_length'. rewrite length_take. lia. }
    rewrite Hd in He. apply containsByte_false in H1.
    rewrite !drop_0 in *. split_and!.
    + by rewrite <- He.
    + intros Hin. apply H1. rewrite He. by apply elem_of_app; left.
    + intros Hin. apply Hne. by right.
  - intros H. assert ((if containsByte (take i s) ":" || containsByte s "[" || containsByte s "]"
             then None else Some (take i s, drop (S i) s)) = Some (host, port)) as Hr.
    { rewrite <- H. destruct s as [|[[] [] [] [] [] [] [] []] s]; done. }
    destruct (_ || _) eqn:Hc; [done|]. injection Hr as <- <-. reflect_bools.
    rewrite !containsByte_false in *. split; [done|left]. done.
Qed.

Lemma splitHostPort_join host port :
  "["%char ∉ host → "]"%char ∉ host → ":"%char ∉ port → "["%char ∉ port → "]"%char ∉ port →
  splitHostPort (joinHostPort host port) = Some (host, port).
Proof.
  intros H1 H2 H3 H4 H5. unfold joinHostPort. destruct (containsByte host ":") eqn:Hc.
  - set (s := "["%char :: host ++ "]"%char :: ":"%char :: port).
    assert (lastIndexByte s ":" = Some (S (S (length host)))) as Hi.
    { subst s. replace ("["%char :: host ++ "]"%char :: ":"%char :: port)
        with (("["%char :: host ++ ["]"%char]) ++ ":"%char :: port)
        by by rewrite <- app_comm_cons, <- app_assoc.
      rewrite lastIndexByte_app by done. simpl. rewrite length_app. simpl. f_equal. lia. }
    assert (indexByte s "]" = Some (S (length host))) as He.
    { subst s. rewrite app_comm_cons. apply indexByte_app. by apply not_elem_of_cons. }
    assert (containsByte (drop 1 s) "[" = false) as Hopen.
    { apply containsByte_false. subst s. cbn [drop]. rewrite drop_0, not_elem_of_app, !not_elem_of_cons. done. }
    assert (drop (S (S (length host))) s = ":"%char :: port) as Hd.
    { subst s. cbn [drop]. apply drop_past. }
    change (splitHostPort s = Some (host, port)).
    unfold splitHostPort. rewrite Hi. subst s. cbv iota beta. rewrite He, Nat.eqb_refl, Hopen, Hd.
    rewrite (proj2 (containsByte_false (":"%char :: port) "]")) by (by apply not_elem_of_cons).
    cbn [negb andb Nat.sub drop]. rewrite Nat.sub_0_r, drop_0, take_app_length.
    apply (f_equal (drop 1)) in Hd. rewrite drop_drop in Hd. cbn [drop] in Hd. rewrite drop_0 in Hd.
    replace (S (S (length host)) + 1) with (S (S (S (length host)))) in Hd by lia.
    cbn [drop] in Hd. by rewrite Hd.
  - change (splitHostPort (host ++ ":"%char :: port) = Some (host, port)).
    unfold splitHostPort. rewrite lastIndexByte_app by done. rewrite take_app_length.
    rewrite drop_past, Hc.
    rewrite (proj2 (containsByte_false _ "[")), (proj2 (containsByte_false _ "]"))
      by (rewrite not_elem_of_app, not_elem_of_cons; done).
    cbn [orb]. destruct host as [|[[] [] [] [] [] [] [] []] host]; try done.
    by destruct H1; left.
Qed.
