(* ===== verification/GoBufio.v ===== *)
(** bufio.Reader of the Go standard library, as far as the line readers use
    it: a buffer of fixed size in front of a reader that delivers its bytes
    in pieces of any length. *)

From S2P Require Import Prelude GoStrings.

(** ** Readers *)

Inductive ReadError := EOF | ErrBufferFull | ErrNoProgress | ErrRead.

#[export] Instance ReadError_eq_dec : EqDecision ReadError.
Proof. solve_decision. Defined.

(** An [io.Reader] is the sequence of what its calls would return, given a
    buffer that is large enough; after that it is at its end. *)
Abbreviation reader := (list (bytes * option ReadError)).

(** One call of [Read] with a buffer of [space] bytes. *)
Definition readOnce (space : nat) (rd : reader) : bytes * option ReadError * reader :=
  match rd with
  | [] => ([], Some EOF, [])
  | (data, err) :: rest =>
      if length data <=? space then (data, err, rest)
      else (take space data, None, (drop space data, err) :: rest)
  end.

(** The bytes delivered before the first error. *)
Fixpoint delivered (rd : reader) : bytes :=
  match rd with
  | [] => []
  | (data, Some _) :: _ => data
  | (data, None) :: rest => data ++ delivered rest
  end.

(** The part of the [io.Reader] contract that callers may rely on: a call
    that reports no error delivers something. *)
Definition progresses (rd : reader) : Prop := Forall (λ call, fst call ≠ [] ∨ snd call ≠ None) rd.

(** How many calls of [readOnce] can go without an error. *)
Definition remaining (rd : reader) : nat := length rd + length (concat (fst <$> rd)).

(** The buffer of [io.Copy]. *)
Definition copyBuffer : nat := Z.to_nat (Z.shiftl 32 10).

(** ** [bufio.Reader] *)

Record Bufio := {
  bufSize : nat;
  buffered : bytes;
  pendingError : option ReadError;
  upstream : reader;
}.

Definition newReaderSize (rd : reader) (size : nat) : Bufio :=
  {| bufSize := Nat.max size 16; buffered := []; pendingError := None; upstream := rd |}.

Definition maxConsecutiveEmptyReads : nat := 100.

Fixpoint fillLoop (attempts space : nat) (rd : reader) : bytes * option ReadError * reader :=
  match attempts with
  | 0 => ([], Some ErrNoProgress, rd)
  | S attempts =>
      let '(data, err, rd) := readOnce space rd in
      match err with
      | Some _ => (data, err, rd)
      | None => if bool_decide (data = []) then fillLoop attempts space rd else (data, None, rd)
      end
  end.

Definition fill (b : Bufio) : Bufio :=
  let '(data, err, rd) := fillLoop maxConsecutiveEmptyReads (bufSize b - length (buffered b)) (upstream b) in
  {| bufSize := bufSize b; buffered := buffered b ++ data; pendingError := err; upstream := rd |}.

Definition setBuffered (rest : bytes) (err : option ReadError) (b : Bufio) : Bufio :=
  {| bufSize := bufSize b; buffered := rest; pendingError := err; upstream := upstream b |}.

(** One iteration of [ReadSlice], with the rest of the loop as [next]. *)
Definition readSliceBody (next : Bufio → bytes * option ReadError * Bufio) (delim : ascii) (b : Bufio)
    : bytes * option ReadError * Bufio :=
  match indexByte (buffered b) delim with
  | Some i => (take (S i) (buffered b), None, setBuffered (drop (S i) (buffered b)) (pendingError b) b)
  | None =>
      match pendingError b with
      | Some err => (buffered b, Some err, setBuffered [] None b)
      | None =>
          if bufSize b <=? length (buffered b) then (buffered b, Some ErrBufferFull, setBuffered [] None b)
          else next (fill b)
      end
  end.

Fixpoint readSliceLoop (fuel : nat) (delim : ascii) (b : Bufio) : bytes * option ReadError * Bufio :=
  match fuel with
  | 0 => ([], Some ErrNoProgress, b)
  | S fuel => readSliceBody (readSliceLoop fuel delim) delim b
  end.

(** Every [fill] adds a byte or leaves a pending error, so the loop runs at
    most once per free byte and twice more ([readSlice_step]). *)
Definition readSliceFuel (b : Bufio) : nat :=
  match pendingError b with Some _ => 1 | None => 2 + (bufSize b - length (buffered b)) end.

Definition readSlice (delim : ascii) (b : Bufio) : bytes * option ReadError * Bufio :=
  readSliceLoop (readSliceFuel b) delim b.

(** What the reader will still hand out before its next error. *)
Definition available (b : Bufio) : bytes :=
  buffered b ++ match pendingError b with Some _ => [] | None => delivered (upstream b) end.

(** ** Lemmas: reading *)

Definition noError (err : option ReadError) (rest : bytes) : bytes :=
  match err with Some _ => [] | None => rest end.

Lemma readOnce_spec space rd data err rd' :
  readOnce space rd = (data, err, rd') →
  length data ≤ space ∧ delivered rd = data ++ noError err (delivered rd').
Proof.
  unfold readOnce. destruct rd as [|[d e] rest]; [intros [= <- <- <-]; split; [simpl; lia|done]|].
  destruct (length d <=? space) eqn:Hle; reflect_bools; intros [= <- <- <-].
  - split; [done|]. cbn. destruct e; cbn; by rewrite ?app_nil_r.
  - split; [rewrite length_take; lia|]. cbn. destruct e; cbn; [by rewrite take_drop|].
    by rewrite app_assoc, take_drop.
Qed.

Lemma readOnce_remaining space rd data rd' :
  0 < space → readOnce space rd = (data, None, rd') → remaining rd' < remaining rd.
Proof.
  unfold readOnce, remaining. destruct rd as [|[d e] rest]; [done|]. intros Hspace.
  destruct (length d <=? space) eqn:Hle; reflect_bools.
  - intros [= -> -> <-]. cbn. rewrite length_app. lia.
  - intros [= <- <-]. cbn. rewrite !length_app, length_drop. lia.
Qed.

Lemma readOnce_progresses space rd data err rd' :
  0 < space → progresses rd → readOnce space rd = (data, err, rd') →
  (data ≠ [] ∨ err ≠ None) ∧ progresses rd'.
Proof.
  unfold readOnce, progresses. intros Hs. destruct rd as [|[d e] rest]; [intros ? [= <- <- <-]; naive_solver|].
  intros [Hd Hrest]%Forall_cons. destruct (length d <=? space) eqn:Hle; reflect_bools; intros [= <- <- <-]; [done|].
  split.
  - left. intros Hn%(f_equal length). rewrite length_take in Hn. simpl in Hn. lia.
  - constructor; [|done]. left. simpl. intros Hn%(f_equal length). rewrite length_drop in Hn. simpl in Hn. lia.
Qed.

Lemma fillLoop_spec attempts space rd data err rd' :
  fillLoop attempts space rd = (data, err, rd') →
  length data ≤ space ∧ (data ≠ [] ∨ err ≠ None)
  ∧ (data = [] ∧ err = Some ErrNoProgress ∨ delivered rd = data ++ noError err (delivered rd')).
Proof.
  revert rd. induction attempts as [|n IH]; intros rd; cbn [fillLoop].
  { intros [= <- <- <-]. split; [simpl; lia|]. split; [by right|by left]. }
  destruct (readOnce space rd) as [[d e] r] eqn:Hr. apply readOnce_spec in Hr as [Hlen Hdel].
  destruct e as [e|]; [intros [= <- <- <-]; split_and!; auto|].
  case_bool_decide as Hd; [|intros [= <- <- <-]; split_and!; auto].
  subst d. cbn in Hdel. rewrite Hdel. apply IH.
Qed.

Lemma fillLoop_progresses attempts space rd data err rd' :
  0 < space → 0 < attempts → progresses rd → fillLoop attempts space rd = (data, err, rd') →
  delivered rd = data ++ noError err (delivered rd') ∧ progresses rd'.
Proof.
  intros Hs Ha Hrd. destruct attempts as [|n]; [lia|]. cbn [fillLoop].
  destruct (readOnce space rd) as [[d e] r] eqn:Hr.
  pose proof (readOnce_progresses _ _ _ _ _ Hs Hrd Hr) as [Hp ?]. apply readOnce_spec in Hr as [_ Hdel].
  destruct e as [e|]; [by intros [= <- <- <-]|].
  rewrite bool_decide_eq_false_2 by naive_solver. by intros [= <- <- <-].
Qed.

Lemma fill_spec b :
  pendingError b = None → length (buffered b) < bufSize b →
  bufSize (fill b) = bufSize b ∧ length (buffered (fill b)) ≤ bufSize b
  ∧ (pendingError (fill b) ≠ None ∨ length (buffered b) < length (buffered (fill b)))
  ∧ (buffered (fill b) = buffered b ∧ pendingError (fill b) ≠ None ∨ available (fill b) = available b).
Proof.
  intros Hp Hlen. unfold fill, available. destruct (fillLoop _ _ _) as [[data err] rd] eqn:Hf.
  apply fillLoop_spec in Hf as (Hl & Hprog & Hdel). cbn. rewrite Hp, length_app. split_and!; [done|lia|..].
  - destruct Hprog as [Hd|?]; [|by left]. right. destruct data; [done|simpl; lia].
  - destruct Hdel as [[-> ->]| ->]; [left; by rewrite app_nil_r|right]. rewrite app_assoc. by destruct err.
Qed.

Lemma fill_progresses b :
  pendingError b = None → length (buffered b) < bufSize b → progresses (upstream b) →
  available (fill b) = available b ∧ progresses (upstream (fill b)).
Proof.
  intros Hp Hlen Hprog. unfold fill, available. destruct (fillLoop _ _ _) as [[data err] rd] eqn:Hf.
  apply fillLoop_progresses in Hf as [Hdel ?]; [|lia|unfold maxConsecutiveEmptyReads; lia|done].
  cbn. rewrite Hp, Hdel, app_assoc. split; [|done]. by destruct err.
Qed.

(** ** Lemmas: first occurrences *)

Lemma app_first_unique (c : ascii) a b l rest :
  c ∉ a → c ∉ l → a ++ c :: b = l ++ c :: rest → a = l ∧ b = rest.
Proof.
  revert l. induction a as [|x a IH]; intros [|y l] Ha Hl; cbn; intros [=]; try done.
  - subst. set_solver.
  - subst. set_solver.
  - subst. rewrite not_elem_of_cons in Ha, Hl. destruct (IH l) as [-> ->]; naive_solver.
Qed.

Lemma app_no_first (c : ascii) a b l rest : c ∉ a → a ++ b = l ++ c :: rest → length a ≤ length l.
Proof.
  revert l. induction a as [|x a IH]; intros [|y l] Ha; cbn; intros Heq; try lia.
  - injection Heq as -> _. set_solver.
  - injection Heq as _ Heq. rewrite not_elem_of_cons in Ha. destruct Ha as [_ Ha]. specialize (IH l Ha Heq). lia.
Qed.

Lemma indexByte_line s c i :
  indexByte s c = Some i → take (S i) s = take i s ++ [c] ∧ c ∉ take i s.
Proof.
  intros [Hsplit Hni]%indexByte_Some. split; [|done].
  assert (s !! i = Some c) as Hlook.
  { assert (length (take i s) = i) as Hti; [|by rewrite Hsplit, lookup_app_r, Hti, Nat.sub_diag by lia].
    apply (f_equal length) in Hsplit. rewrite length_app in Hsplit. cbn in Hsplit.
    rewrite length_drop, length_take in *. lia. }
  by apply take_S_r.
Qed.

(** ** Lemmas: [ReadSlice] *)

Lemma fill_fuel b :
  pendingError b = None → length (buffered b) < bufSize b → S (readSliceFuel (fill b)) ≤ readSliceFuel b.
Proof.
  intros Hp Hlen. destruct (fill_spec b Hp Hlen) as (Hsz & Hle & Hgrow & _).
  unfold readSliceFuel at 2. rewrite Hp. unfold readSliceFuel. destruct (pendingError (fill b)); [lia|].
  destruct Hgrow; [done|]. lia.
Qed.

Lemma readSliceLoop_fuel delim fuel fuel' b :
  readSliceFuel b ≤ fuel → readSliceFuel b ≤ fuel' → readSliceLoop fuel delim b = readSliceLoop fuel' delim b.
Proof.
  assert (∀ c, 1 ≤ readSliceFuel c) as Hpos by (intros c; unfold readSliceFuel; destruct (pendingError c); lia).
  revert fuel' b. induction fuel as [|fuel IH]; intros fuel' b Hf Hf'; [specialize (Hpos b); lia|].
  destruct fuel' as [|fuel']; [specialize (Hpos b); lia|]. cbn [readSliceLoop]. unfold readSliceBody.
  destruct (indexByte _ _); [done|]. destruct (pendingError b) eqn:Hp; [done|].
  destruct (bufSize b <=? _) eqn:Hle; [done|]. reflect_bools.
  pose proof (fill_fuel b Hp Hle). apply IH; lia.
Qed.

(** The fuel is enough: the function satisfies the equation of the code's
    loop. *)
Lemma readSlice_step delim b : readSlice delim b = readSliceBody (readSlice delim) delim b.
Proof.
  unfold readSlice at 1. rewrite (readSliceLoop_fuel delim _ (S (readSliceFuel b))) by lia.
  cbn [readSliceLoop]. unfold readSliceBody.
  destruct (indexByte _ _); [done|]. destruct (pendingError b) eqn:Hp; [done|].
  destruct (bufSize b <=? _) eqn:Hle; [done|]. reflect_bools.
  pose proof (fill_fuel b Hp Hle). apply readSliceLoop_fuel; lia.
Qed.

(** Induction along the loop: a property holds of every buffer if it holds of
    one whenever it holds of it filled further. *)
Lemma fill_ind (P : Bufio → Prop) :
  (∀ b, (pendingError b = None → length (buffered b) < bufSize b → P (fill b)) → P b) → ∀ b, P b.
Proof.
  intros Hstep b. remember (readSliceFuel b) as n eqn:Hn. revert b Hn.
  induction n as [n IH] using lt_wf_ind. intros b ->. apply Hstep. intros Hp Hlen.
  pose proof (fill_fuel b Hp Hlen). apply (IH (readSliceFuel (fill b))); [lia|done].
Qed.

(** A line that is returned is the beginning of the stream, ends with the
    delimiter, has no other, and fits in the buffer. *)
Lemma readSlice_Ok delim b line b' :
  length (buffered b) ≤ bufSize b → readSlice delim b = (line, None, b') →
  ∃ l, line = l ++ [delim] ∧ delim ∉ l ∧ length line ≤ bufSize b
    ∧ available b = line ++ available b' ∧ bufSize b' = bufSize b ∧ length (buffered b') ≤ bufSize b'.
Proof.
  revert line b'. induction b as [b IH] using fill_ind. intros line b' Hlen.
  rewrite readSlice_step. unfold readSliceBody. destruct (indexByte (buffered b) delim) as [i|] eqn:Hi.
  - intros [= <- <-]. apply indexByte_line in Hi as [Ht Hni].
    exists (take i (buffered b)). split_and!; [done|done|..].
    + rewrite length_take. lia.
    + unfold available, setBuffered. cbn. by rewrite app_assoc, take_drop.
    + done.
    + cbn. rewrite length_drop. lia.
  - destruct (pendingError b) eqn:Hp; [done|]. destruct (bufSize b <=? _) eqn:Hle; [done|]. reflect_bools.
    destruct (fill_spec b Hp Hle) as (Hsz & Hle' & _ & Hav). intros Hread.
    destruct Hav as [[Hb He]|Hav].
    { rewrite readSlice_step in Hread. unfold readSliceBody in Hread. rewrite Hb, Hi in Hread.
      by destruct (pendingError (fill b)). }
    destruct (IH eq_refl Hle line b') as (l & ? & ? & ? & ? & ? & ?); [lia|done|]. exists l. split_and!; congruence.
Qed.

(** A line at the beginning of the stream is returned however the stream is
    cut into pieces, if it fits in the buffer. *)
Lemma readSlice_line delim b l rest :
  length (buffered b) ≤ bufSize b → progresses (upstream b) →
  available b = l ++ delim :: rest → delim ∉ l → length l < bufSize b →
  ∃ b', readSlice delim b = (l ++ [delim], None, b') ∧ available b' = rest
    ∧ bufSize b' = bufSize b ∧ length (buffered b') ≤ bufSize b' ∧ progresses (upstream b').
Proof.
  induction b as [b IH] using fill_ind. intros Hlen Hprog Hav Hl Hsize.
  rewrite readSlice_step. unfold readSliceBody. destruct (indexByte (buffered b) delim) as [i|] eqn:Hi.
  - apply indexByte_line in Hi as [Htake Hni].
    assert (take i (buffered b) = l) as Hti.
    { unfold available in Hav. rewrite <- (take_drop (S i) (buffered b)), Htake, <- !app_assoc in Hav. cbn in Hav.
      by apply app_first_unique in Hav as [-> _]. }
    rewrite Hti in Htake.
    eexists. split; [by rewrite Htake|]. cbn. split_and!; try done.
    + unfold available in *. cbn. apply (app_inv_head (l ++ [delim])).
      transitivity (l ++ delim :: rest); [|by rewrite <- app_assoc].
      rewrite <- Hav, <- Htake. by rewrite app_assoc, take_drop.
    + rewrite length_drop. lia.
  - apply indexByte_None in Hi. destruct (pendingError b) eqn:Hp.
    { unfold available in Hav. rewrite Hp, app_nil_r in Hav. rewrite Hav in Hi. set_solver. }
    assert (length (buffered b) ≤ length l) as Hshort.
    { unfold available in Hav. by apply app_no_first in Hav. }
    assert (bufSize b <=? length (buffered b) = false) as -> by (apply Nat.leb_gt; lia).
    assert (length (buffered b) < bufSize b) as Hle by lia.
    destruct (fill_spec b Hp Hle) as (Hsz & Hle' & _ & _).
    destruct (fill_progresses b Hp Hle Hprog) as [Hav' Hprog'].
    rewrite <- Hav' in Hav. rewrite <- Hsz in Hsize, Hle' |- *. by apply IH.
Qed.
