(* ===== verification/GoUrl.v ===== *)
(** Go's [net/url]: escaping, parsing and printing of URLs, with the strict
    host syntax of the Go release named in go.mod. *)

From S2P Require Import Prelude GoStrings GoNet.

(** ** Escaping *)

Inductive encoding :=
| encodePath | encodePathSegment | encodeHost | encodeZone
| encodeUserPassword | encodeFragment.

#[export] Instance encoding_eq_dec : EqDecision encoding.
Proof. solve_decision. Defined.

Definition isAlnum (c : ascii) : bool :=
  inRange 97 122 c || inRange 65 90 c || inRange 48 57 c.

Definition oneOf (c : ascii) (set : bytes) : bool := bool_decide (c ∈ set).

Definition dquote : ascii := ascii_of_N 34.

Definition shouldEscape (c : ascii) (mode : encoding) : bool :=
  if isAlnum c then false
  else if bool_decide (mode = encodeHost ∨ mode = encodeZone)
          && (oneOf c "!$&'()*+,;=:[]<>" || bool_decide (c = dquote)) then false
  else if oneOf c "-_.~" then false
  else if oneOf c "$&+,/:;=?@" then
    match mode with
    | encodePath => bool_decide (c = "?"%char)
    | encodePathSegment => oneOf c "/;,?"
    | encodeUserPassword => oneOf c "@/?:"
    | encodeFragment => false
    | encodeHost | encodeZone => true
    end
  else if bool_decide (mode = encodeFragment) && oneOf c "!()*" then false
  else true.

Definition upperHex (d : Z) : ascii :=
  if (d <? 10)%Z then byteOf (48 + d) else byteOf (55 + d).

Definition escapeByte (mode : encoding) (c : ascii) : bytes :=
  if shouldEscape c mode then ["%"%char; upperHex (code c / 16); upperHex (code c mod 16)]
  else [c].

Definition escape (s : bytes) (mode : encoding) : bytes := concat (escapeByte mode <$> s).

(** [unescape] for the modes in which [+] stands for itself. *)
Fixpoint unescape (s : bytes) (mode : encoding) : option bytes :=
  match s with
  | [] => Some []
  | c :: s' =>
      if bool_decide (c = "%"%char) then
        match s' with
        | h :: l :: rest =>
            match hexValue h, hexValue l with
            | Some hi, Some lo =>
                let v := (hi * 16 + lo)%Z in
                let is25 := (v =? 37)%Z in
                if bool_decide (mode = encodeHost) && (hi <? 8)%Z && negb is25 then None
                else if bool_decide (mode = encodeZone) && negb is25 && negb (v =? 32)%Z
                        && shouldEscape (byteOf v) encodeHost then None
                else cons (byteOf v) <$> unescape rest mode
            | _, _ => None
            end
        | _ => None
        end
      else if bool_decide (mode = encodeHost ∨ mode = encodeZone)
              && (code c <? 128)%Z && shouldEscape c mode then None
      else cons c <$> unescape s' mode
  end.

(** [url.PathUnescape]. *)
Definition pathUnescape (s : bytes) : option bytes := unescape s encodePathSegment.

Definition validEncoded (s : bytes) (mode : encoding) : bool :=
  forallb (λ c, oneOf c "!$&'()*+,;=:@[]%" || negb (shouldEscape c mode)) s.

(** ** The URL record *)

Record Userinfo := { username : bytes; password : option bytes }.

Record URL := {
  Scheme : bytes;
  Opaque : bytes;
  User : option Userinfo;
  Host : bytes;
  Path : bytes;
  RawPath : bytes;
  ForceQuery : bool;
  RawQuery : bytes;
  Fragment : bytes;
  RawFragment : bytes;
  OmitHost : bool;
}.

#[export] Instance Userinfo_eq_dec : EqDecision Userinfo.
Proof. solve_decision. Defined.
#[export] Instance URL_eq_dec : EqDecision URL.
Proof. solve_decision. Defined.

Definition emptyURL : URL :=
  {| Scheme := []; Opaque := []; User := None; Host := []; Path := []; RawPath := [];
     ForceQuery := false; RawQuery := []; Fragment := []; RawFragment := []; OmitHost := false |}.

(** ** Parsing *)

(** [getScheme]: [None] when the URL starts with a colon. *)
Fixpoint schemeEnd (first : bool) (s : bytes) : option (option nat) :=
  match s with
  | [] => Some None
  | c :: s' =>
      if inRange 97 122 c || inRange 65 90 c then option_map (option_map S) (schemeEnd false s')
      else if inRange 48 57 c || oneOf c "+-." then
        if first then Some None else option_map (option_map S) (schemeEnd false s')
      else if bool_decide (c = ":"%char) then if first then None else Some (Some 0)
      else Some None
  end.

Definition getScheme (s : bytes) : option (bytes * bytes) :=
  match schemeEnd true s with
  | None => None
  | Some None => Some ([], s)
  | Some (Some i) => Some (take i s, drop (S i) s)
  end.

Definition validOptionalPort (port : bytes) : bool :=
  match port with
  | [] => true
  | c :: digits => bool_decide (c = ":"%char) && forallb (inRange 48 57) digits
  end.

(** [parseHost]. *)
Definition parseHost (host : bytes) : option bytes :=
  match lastIndexByte host "[" with
  | Some (S _) => None
  | Some 0 =>
      match lastIndexByte host "]" with
      | None => None
      | Some e =>
          let colonPort := drop (S e) host in
          if negb (validOptionalPort colonPort) then None
          else
            let hostname := take (e - 1) (drop 1 host) in
            let unescaped :=
              match index hostname "%25" with
              | Some z =>
                  match unescape (take z hostname) encodeHost, unescape (drop z hostname) encodeZone with
                  | Some h, Some zone => Some (h ++ zone)
                  | _, _ => None
                  end
              | None => unescape hostname encodeHost
              end in
            match unescaped, unescape colonPort encodeHost with
            | Some name, Some port =>
                match parseAddr name with
                | Some (V6 _ _) => Some ("[" ++ name ++ "]" ++ port)
                | _ => None
                end
            | _, _ => None
            end
      end
  | None =>
      match indexByte host ":" with
      | Some i => if validOptionalPort (drop i host) then unescape host encodeHost else None
      | None => unescape host encodeHost
      end
  end.

Definition validUserinfo (s : bytes) : bool :=
  forallb (λ c, isAlnum c || oneOf c "-._:~!$&'()*+,;=%@") s.

Definition parseAuthority (authority : bytes) : option (option Userinfo * bytes) :=
  match lastIndexByte authority "@" with
  | None => pair None <$> parseHost authority
  | Some i =>
      match parseHost (drop (S i) authority) with
      | None => None
      | Some host =>
          let userinfo := take i authority in
          if negb (validUserinfo userinfo) then None
          else
            let '(name, pass, hasPass) := cutByte userinfo ":" in
            match unescape name encodeUserPassword, unescape pass encodeUserPassword with
            | Some name, Some pass =>
                Some (Some {| username := name; password := if hasPass then Some pass else None |}, host)
            | _, _ => None
            end
      end
  end.

Definition isControl (c : ascii) : bool := (code c <? 32)%Z || (code c =? 127)%Z.

Section Url.
Context `{UnicodeData}.

(** [setPath]. *)
Definition withPath (u : URL) (p : bytes) : option URL :=
  match unescape p encodePath with
  | None => None
  | Some path =>
      Some {| Scheme := Scheme u; Opaque := Opaque u; User := User u; Host := Host u;
              Path := path;
              RawPath := if bool_decide (escape path encodePath = p) then [] else p;
              ForceQuery := ForceQuery u; RawQuery := RawQuery u; Fragment := Fragment u;
              RawFragment := RawFragment u; OmitHost := OmitHost u |}
  end.

(** [parse(rawURL, viaRequest)]. *)
Definition parseRaw (raw : bytes) (viaRequest : bool) : option URL :=
  if existsb isControl raw then None
  else if bool_decide (raw = []) && viaRequest then None
  else if bool_decide (raw = "*") then
    Some {| Scheme := []; Opaque := []; User := None; Host := []; Path := "*"; RawPath := [];
            ForceQuery := false; RawQuery := []; Fragment := []; RawFragment := [];
            OmitHost := false |}
  else
    match getScheme raw with
    | None => None
    | Some (scheme, rest) =>
        let scheme := toLower scheme in
        let '(rest, query, force) :=
          if hasSuffix rest "?" && (countByte rest "?" =? 1)
          then (trimSuffix rest "?", [], true)
          else let '(before, after, _) := cutByte rest "?" in (before, after, false) in
        let base (user : option Userinfo) (host : bytes) (omit : bool) :=
          {| Scheme := scheme; Opaque := []; User := user; Host := host; Path := []; RawPath := [];
             ForceQuery := force; RawQuery := query; Fragment := []; RawFragment := [];
             OmitHost := omit |} in
        if negb (hasPrefix rest "/") && negb (bool_decide (scheme = [])) then
          Some {| Scheme := scheme; Opaque := rest; User := None; Host := []; Path := [];
                  RawPath := []; ForceQuery := force; RawQuery := query; Fragment := [];
                  RawFragment := []; OmitHost := false |}
        else if negb (hasPrefix rest "/") && viaRequest then None
        else if negb (hasPrefix rest "/") && containsByte (fst (fst (cutByte rest "/"))) ":" then None
        else if (negb (bool_decide (scheme = [])) || (negb viaRequest && negb (hasPrefix rest "///")))
                && hasPrefix rest "//" then
          let authority := drop 2 rest in
          let '(authority, rest) :=
            match indexByte authority "/" with
            | Some i => (take i authority, drop i authority)
            | None => (authority, [])
            end in
          match parseAuthority authority with
          | None => None
          | Some (user, host) => withPath (base user host false) rest
          end
        else withPath (base None [] (negb (bool_decide (scheme = [])) && hasPrefix rest "/")) rest
    end.

(** [url.Parse]. *)
Definition parseURL (raw : bytes) : option URL :=
  let '(u, frag, _) := cutByte raw "#" in
  match parseRaw u false with
  | None => None
  | Some url =>
      if bool_decide (frag = []) then Some url
      else match unescape frag encodeFragment with
           | None => None
           | Some f =>
               Some {| Scheme := Scheme url; Opaque := Opaque url; User := User url; Host := Host url;
                       Path := Path url; RawPath := RawPath url; ForceQuery := ForceQuery url;
                       RawQuery := RawQuery url; Fragment := f;
                       RawFragment := if bool_decide (escape f encodeFragment = frag) then [] else frag;
                       OmitHost := OmitHost url |}
           end
  end.

(** [url.ParseRequestURI]. *)
Definition parseRequestURI (raw : bytes) : option URL := parseRaw raw true.
End Url.

(** ** Accessors *)

Definition escapedPart (raw decoded : bytes) (mode : encoding) : option bytes :=
  if negb (bool_decide (raw = [])) && validEncoded raw mode
     && bool_decide (unescape raw mode = Some decoded)
  then Some raw else None.

(** [URL.EscapedPath]. *)
Definition escapedPath (u : URL) : bytes :=
  match escapedPart (RawPath u) (Path u) encodePath with
  | Some p => p
  | None => if bool_decide (Path u = "*") then "*" else escape (Path u) encodePath
  end.

Definition escapedFragment (u : URL) : bytes :=
  match escapedPart (RawFragment u) (Fragment u) encodeFragment with
  | Some f => f
  | None => escape (Fragment u) encodeFragment
  end.

(** [URL.IsAbs]. *)
Definition isAbs (u : URL) : bool := negb (bool_decide (Scheme u = [])).

(** [URL.Hostname]. *)
Definition hostname (u : URL) : bytes :=
  let host := Host u in
  let host :=
    match lastIndexByte host ":" with
    | Some i => if validOptionalPort (drop i host) then take i host else host
    | None => host
    end in
  if hasPrefix host "[" && hasSuffix host "]" then drop 1 (take (length host - 1) host) else host.

Definition userinfoString (ui : Userinfo) : bytes :=
  escape (username ui) encodeUserPassword ++
  match password ui with
  | Some p => ":" ++ escape p encodeUserPassword
  | None => []
  end.

(** [URL.String]. *)
Definition urlString (u : URL) : bytes :=
  let prefix : bytes := if bool_decide (Scheme u = []) then [] else Scheme u ++ ":" in
  let body : bytes :=
    if negb (bool_decide (Opaque u = [])) then Opaque u
    else
      let authority : bytes :=
        if bool_decide (Scheme u = []) && bool_decide (Host u = []) && bool_decide (User u = None) then []
        else if OmitHost u && bool_decide (Host u = []) && bool_decide (User u = None) then []
        else
          (if bool_decide (Host u = []) && bool_decide (Path u = []) && bool_decide (User u = None)
           then [] else "//" : bytes)
          ++ match User u with Some ui => userinfoString ui ++ "@" | None => [] end
          ++ (if bool_decide (Host u = []) then [] else escape (Host u) encodeHost) in
      let path := escapedPath u in
      let sep : bytes :=
        if negb (bool_decide (path = [])) && negb (hasPrefix path "/") && negb (bool_decide (Host u = []))
        then "/" else [] in
      let dotSlash : bytes :=
        if bool_decide (prefix ++ authority ++ sep = []) && containsByte (fst (fst (cutByte path "/"))) ":"
        then "./" else [] in
      authority ++ sep ++ dotSlash ++ path in
  let query : bytes :=
    if ForceQuery u || negb (bool_decide (RawQuery u = [])) then "?" ++ RawQuery u else [] in
  let fragment : bytes :=
    if bool_decide (Fragment u = []) then [] else "#" ++ escapedFragment u in
  prefix ++ body ++ query ++ fragment.
