(* ===== verification/Path.v ===== *)
(** mount/path.go: decoding and canonicalisation of request paths.

    [NormalizePath] is the gateway's first line of defence: everything after it
    (mount matching, policy, backend URLs) works on its output. *)

From S2P Require Import Prelude GoStrings GoUtf8 GoPath GoNet GoUrl.

(** ** The code *)

(** One constructor per error site of [NormalizePath]. *)
Inductive PathError :=
| PathNotAbsolute
| EncodedSeparator
| InvalidEscape
| InvalidUTF8
| BackslashInPath
| ControlCharacter
| DoubleEncoding
| TraversalSegment (segment : bytes).

#[export] Instance PathError_eq_dec : EqDecision PathError.
Proof. solve_decision. Defined.

Definition hexNibble (value : ascii) : option Z :=
  if inRange 48 57 value then Some (code value - 48)%Z
  else if inRange 97 102 value then Some (code value - 97 + 10)%Z
  else if inRange 65 70 value then Some (code value - 65 + 10)%Z
  else None.

(** [hi<<4 | lo] on bytes. *)
Definition decodeHexByte (high low : ascii) : option ascii :=
  match hexNibble high with
  | None => None
  | Some hi =>
      match hexNibble low with
      | None => None
      | Some lo => Some (byteOf (Z.lor (Z.land (Z.shiftl hi 4) 255) lo))
      end
  end.

Definition percent : ascii := "%".
Definition backslash : ascii := "\".

(** The scan steps over three bytes at every percent sign. *)
Fixpoint hasEncodedSeparator (value : bytes) : bool :=
  match value with
  | c :: ((high :: low :: rest) as tail) =>
      if negb (bool_decide (c = percent)) then hasEncodedSeparator tail
      else match decodeHexByte high low with
           | Some decoded =>
               if bool_decide (decoded = slash) || bool_decide (decoded = backslash) then true
               else hasEncodedSeparator rest
           | None => hasEncodedSeparator rest
           end
  | _ => false
  end.

(** This scan steps over one byte at a time. *)
Fixpoint containsPercentEscape (value : bytes) : bool :=
  match value with
  | c :: ((high :: low :: _) as tail) =>
      if negb (bool_decide (c = percent)) then containsPercentEscape tail
      else match decodeHexByte high low with
           | Some _ => true
           | None => containsPercentEscape tail
           end
  | _ => false
  end.

Definition isControlRune (r : Z) : bool := (r <? 32)%Z || (r =? 127)%Z.

Definition isDotSegment (segment : bytes) : bool :=
  bool_decide (segment = ".") || bool_decide (segment = "..").

Definition NormalizePath (raw : bytes) : result bytes PathError :=
  refuse PathNotAbsolute when negb (hasPrefix raw "/") ;;
  refuse EncodedSeparator when hasEncodedSeparator raw ;;
  let! decoded := orElse (pathUnescape raw) InvalidEscape in
  refuse InvalidUTF8 when negb (validUTF8 decoded) ;;
  refuse BackslashInPath when contains decoded "\" ;;
  refuse ControlCharacter when existsb isControlRune (runes decoded) ;;
  refuse DoubleEncoding when containsPercentEscape decoded ;;
  match List.find isDotSegment (splitByte decoded "/") with
  | Some segment => Err (TraversalSegment segment)
  | None =>
      let trailingSlash := hasSuffix decoded "/" in
      let normalized := cleanPath decoded in
      Ok (if trailingSlash && negb (bool_decide (normalized = "/"))
          then normalized ++ "/" else normalized)
  end.

(** ** Escapes *)

Lemma hexNibble_hexValue c : hexNibble c = hexValue c.
Proof. done. Qed.

Lemma hexValue_range c d : hexValue c = Some d → (0 ≤ d < 16)%Z.
Proof. unfold hexValue. intros H. follow H; rewrite ?inRange_true in *; lia. Qed.

Lemma nibbles_value hi lo :
  (0 ≤ hi < 16)%Z → (0 ≤ lo < 16)%Z →
  Z.lor (Z.land (Z.shiftl hi 4) 255) lo = (hi * 16 + lo)%Z.
Proof.
  intros Hhi Hlo.
  assert (Hall : Forall (λ x, Forall (λ y, Z.lor (Z.land (Z.shiftl x 4) 255) y = (x * 16 + y)%Z)
                                (seqZ 0 16)) (seqZ 0 16)) by 
    by (refine (bool_decide_unpack _ _); vm_compute; exact I).
  rewrite Forall_forall in Hall. specialize (Hall hi). rewrite elem_of_seqZ, Forall_forall in Hall.
  apply Hall; [lia|]. rewrite elem_of_seqZ. lia.
Qed.

Lemma decodeHexByte_spec h l :
  decodeHexByte h l =
  match hexValue h, hexValue l with
  | Some hi, Some lo => Some (byteOf (hi * 16 + lo))
  | _, _ => None
  end.
Proof.
  unfold decodeHexByte. rewrite (hexNibble_hexValue h), (hexNibble_hexValue l).
  destruct (hexValue h) eqn:Hh, (hexValue l) eqn:Hl; try done.
  apply hexValue_range in Hh, Hl. by rewrite nibbles_value.
Qed.

(** How [PathUnescape] proceeds. *)
Lemma pathUnescape_plain c s :
  c ≠ percent → pathUnescape (c :: s) = cons c <$> pathUnescape s.
Proof.
  intros Hc. unfold pathUnescape. simpl.
  by rewrite (bool_decide_eq_false_2 (c = _)) by done.
Qed.

Lemma pathUnescape_escape h l s :
  pathUnescape (percent :: h :: l :: s) =
  match decodeHexByte h l with
  | Some v => cons v <$> pathUnescape s
  | None => None
  end.
Proof. unfold pathUnescape. simpl. rewrite decodeHexByte_spec. by repeat case_match. Qed.

(** Induction along the escapes of a string that decodes. *)
Lemma unescape_ind (P : bytes → bytes → Prop) :
  P [] [] →
  (∀ c s d, c ≠ percent → pathUnescape s = Some d → P s d → P (c :: s) (c :: d)) →
  (∀ h l v s d, decodeHexByte h l = Some v → pathUnescape s = Some d → P s d →
     P (percent :: h :: l :: s) (v :: d)) →
  ∀ s d, pathUnescape s = Some d → P s d.
Proof.
  intros Hnil Hplain Hesc s. induction s as [s IH] using bytes_length_ind; intros d Hd.
  destruct s as [|c s]; [by injection Hd as <-|].
  destruct (decide (c = percent)) as [->|Hc].
  - destruct s as [|h [|l s]]; [discriminate Hd..|]. rewrite pathUnescape_escape in Hd.
    destruct (decodeHexByte h l) as [v|] eqn:Ev; [|done].
    apply fmap_Some in Hd as (d' & Hd' & ->).
    apply (Hesc h l v s d' Ev Hd'), IH; [simpl; lia|done].
  - rewrite pathUnescape_plain in Hd by done. apply fmap_Some in Hd as (d' & Hd' & ->).
    apply (Hplain c s d' Hc Hd'), IH; [simpl; lia|done].
Qed.

Lemma pathUnescape_nil_inv s : pathUnescape s = Some [] → s = [].
Proof.
  intros Hd. by revert s Hd; refine (λ s Hd, unescape_ind (λ s d, d = [] → s = []) _ _ _ s [] Hd eq_refl).
Qed.

Lemma hasEncodedSeparator_plain c s :
  c ≠ percent → hasEncodedSeparator (c :: s) = hasEncodedSeparator s.
Proof.
  intros Hc. destruct s as [|h [|l s]]; [done..|].
  cbn [hasEncodedSeparator]. by rewrite bool_decide_eq_false_2 by done.
Qed.

Lemma hasEncodedSeparator_escape h l v s :
  decodeHexByte h l = Some v →
  hasEncodedSeparator (percent :: h :: l :: s) =
  (bool_decide (v = slash) || bool_decide (v = backslash)) || hasEncodedSeparator s.
Proof.
  intros Hv. cbn [hasEncodedSeparator]. rewrite bool_decide_eq_true_2, Hv by done. simpl.
  by destruct (_ || _).
Qed.

Lemma decodeHexByte_digits h l v :
  decodeHexByte h l = Some v → h ≠ slash ∧ l ≠ slash.
Proof.
  intros Hv. split; intros Heq; rewrite Heq in Hv; unfold decodeHexByte in Hv; [done|].
  by destruct (hexNibble h).
Qed.

(** Without an encoded separator, decoding works segment by segment: no
    escape can introduce a segment boundary. *)
Lemma pathUnescape_segments s d :
  pathUnescape s = Some d → hasEncodedSeparator s = false →
  Forall2 (λ raw seg, pathUnescape raw = Some seg) (splitByte s slash) (splitByte d slash).
Proof.
  intros Hd. revert s d Hd.
  apply (unescape_ind (λ s d, hasEncodedSeparator s = false →
    Forall2 (λ raw seg, pathUnescape raw = Some seg) (splitByte s slash) (splitByte d slash)));
    [by repeat constructor|intros c s d Hc Hd IH Hsep|intros h l v s d Hv Hd IH Hsep].
  - rewrite hasEncodedSeparator_plain in Hsep by done. specialize (IH Hsep). simpl.
    case_bool_decide; [by constructor|].
    pose proof (splitByte_ne slash s) as Hne.
    destruct IH as [|raw seg raws segs Hraw Hsegs]; [done|constructor; [|done]].
    by rewrite pathUnescape_plain, Hraw.
  - rewrite (hasEncodedSeparator_escape _ _ v) in Hsep by done.
    apply orb_false_iff in Hsep as [Hv' Hsep]. reflect_bools. specialize (IH Hsep).
    apply decodeHexByte_digits in Hv as Hdigits. destruct Hdigits as [Hh Hl].
    simpl in IH |- *. rewrite (bool_decide_eq_false_2 (v = slash)) by done.
    rewrite (bool_decide_eq_false_2 (h = slash)), (bool_decide_eq_false_2 (l = slash)) by done.
    pose proof (splitByte_ne slash s) as Hne.
    destruct IH as [|raw seg raws segs Hraw Hsegs]; [done|constructor; [|done]].
    by rewrite pathUnescape_escape, Hv, Hraw.
Qed.

(** ** Properties checked segment by segment *)

(** A test that holds of a path exactly when it holds of every segment. *)
Class SegmentTest (P : bytes → bool) : Prop := {
  segment_nil : P [] = true;
  segment_app a b : P (a ++ slash :: b) = P a && P b;
}.

Section SegmentTests.
Context (P : bytes → bool) `{!SegmentTest P}.

Lemma segment_join segs : P (join segs [slash]) = forallb P segs.
Proof.
  induction segs as [|p [|q segs] IH]; [apply segment_nil|by cbn [forallb join]; rewrite andb_true_r|].
  change (join (p :: q :: segs) [slash]) with (p ++ slash :: join (q :: segs) [slash]).
  by rewrite segment_app, IH.
Qed.

Lemma segment_split s : P s = forallb P (splitByte s slash).
Proof. by rewrite <-segment_join, join_splitByte. Qed.

Lemma segment_slash s : P (slash :: s) = P s.
Proof. change (slash :: s) with ([] ++ slash :: s). by rewrite segment_app, segment_nil. Qed.

Lemma segment_snoc s : P (s ++ [slash]) = P s.
Proof. by rewrite segment_app, segment_nil, andb_true_r. Qed.

Lemma segment_nonEmpty s : P s = forallb P (nonEmptyParts slash s).
Proof.
  rewrite segment_split. unfold nonEmptyParts.
  induction (splitByte s slash) as [|p ps IH]; [done|]. rewrite filter_cons.
  case_decide as Hp; simpl; [by rewrite IH|].
  rewrite Hp, segment_nil. by rewrite IH.
Qed.
End SegmentTests.

#[export] Instance validUTF8_segments : SegmentTest validUTF8.
Proof. split; [done|]. intros. by apply validUTF8_app. Qed.

Lemma forallb_segments (f : ascii → bool) : f slash = true → SegmentTest (forallb f).
Proof. intros Hf. split; [done|]. intros a b. by rewrite forallb_app; simpl; rewrite Hf. Qed.

Definition plainByte (c : ascii) : bool :=
  negb (bool_decide (c = backslash)) && negb (isControlRune (code c)).

#[export] Instance plainByte_segments : SegmentTest (forallb plainByte).
Proof. by apply forallb_segments. Qed.

Lemma containsPercentEscape_cons c s :
  containsPercentEscape (c :: s) =
  (bool_decide (c = percent) &&
     match s with h :: l :: _ => bool_decide (is_Some (decodeHexByte h l)) | _ => false end)
  || containsPercentEscape s.
Proof.
  destruct s as [|h [|l s]]; [by rewrite andb_false_r..|]. cbn [containsPercentEscape].
  case_bool_decide; simpl; [|done]. by destruct (decodeHexByte h l).
Qed.

#[export] Instance escapes_segments : SegmentTest (negb ∘ containsPercentEscape).
Proof.
  split; [done|]. intros a b. simpl. rewrite <-negb_orb. f_equal.
  induction a as [|c a IH]; simpl app.
  - rewrite containsPercentEscape_cons. done.
  - rewrite !containsPercentEscape_cons, IH, orb_assoc. do 2 f_equal.
    destruct a as [|h [|l a]]; simpl; [by destruct b as [|? ?]| |done].
    destruct (decodeHexByte h slash) eqn:E; [|done].
    by apply decodeHexByte_digits in E as [_ E].
Qed.

(** ** What [NormalizePath] returns *)

(** The decoded path with its empty segments removed. *)
Definition canonicalPath (decoded : bytes) : bytes :=
  let segs := nonEmptyParts slash decoded in
  renderPath segs ++ (if hasSuffix decoded "/" && negb (bool_decide (segs = [])) then "/" else []).

(** The checks of [NormalizePath], as one condition on the decoded path. *)
Definition acceptable (raw decoded : bytes) : Prop :=
  hasPrefix raw "/" = true ∧ hasEncodedSeparator raw = false ∧
  pathUnescape raw = Some decoded ∧ validUTF8 decoded = true ∧
  forallb plainByte decoded = true ∧ containsPercentEscape decoded = false ∧
  Forall notDots (splitByte decoded slash).

Lemma plainBytes_spec d :
  forallb plainByte d = true ↔
  contains d "\" = false ∧ existsb isControlRune (runes d) = false.
Proof.
  rewrite existsb_runes.
  - change (list_ascii_of_string "\") with [backslash]. rewrite contains_byte. unfold containsByte.
    induction d as [|c d IH]; simpl; [done|].
    unfold plainByte at 1. rewrite !andb_true_iff, IH, orb_false_iff, !negb_true_iff.
    rewrite !bool_decide_eq_false, not_elem_of_cons. naive_solver.
  - intros r Hr. unfold isControlRune. apply orb_false_iff. rewrite Z.ltb_ge, Z.eqb_neq. lia.
Qed.

Lemma find_dots d :
  List.find isDotSegment (splitByte d slash) = None ↔ Forall notDots (splitByte d slash).
Proof.
  induction (splitByte d slash) as [|seg segs IH]; simpl; [by split|].
  unfold isDotSegment at 1, notDots at 1. rewrite Forall_cons, <-IH.
  destruct (bool_decide (seg = ".")) eqn:E1, (bool_decide (seg = "..")) eqn:E2; simpl; reflect_bools;
    naive_solver.
Qed.

Lemma pathUnescape_rooted raw d :
  hasPrefix raw "/" = true → pathUnescape raw = Some d → ∃ d', d = slash :: d'.
Proof.
  intros [r ->]%hasPrefix_true Hd. change ("/" ++ r) with (slash :: r) in Hd.
  rewrite pathUnescape_plain in Hd by done. apply fmap_Some in Hd as (d' & _ & ->). eauto.
Qed.

Lemma renderPath_root segs : Forall (.≠ []) segs → renderPath segs = "/" ↔ segs = [].
Proof.
  intros Hsegs. split; [|by intros ->]. destruct Hsegs as [|seg [|? ?] Hseg]; [done|..]; unfold renderPath;
    simpl; destruct seg; done.
Qed.

Lemma nonEmptyParts_ne s : Forall (.≠ []) (nonEmptyParts slash s).
Proof. eapply Forall_impl; [apply nonEmptyParts_spec|]. by intros x [? _]. Qed.

Lemma normalized_canonical d :
  Forall notDots (splitByte (slash :: d) slash) →
  (if hasSuffix (slash :: d) "/" && negb (bool_decide (cleanPath (slash :: d) = "/"))
   then cleanPath (slash :: d) ++ "/" else cleanPath (slash :: d)) = canonicalPath (slash :: d).
Proof.
  rewrite splitByte_sep. intros [_ Hdots]%Forall_cons. unfold canonicalPath.
  rewrite cleanPath_segments, nonEmptyParts_sep by done.
  rewrite (bool_decide_ext _ _ (renderPath_root _ (nonEmptyParts_ne d))).
  destruct (hasSuffix _ _ && _); [done|by rewrite app_nil_r].
Qed.

Lemma NormalizePath_spec raw p :
  NormalizePath raw = Ok p ↔ ∃ d, acceptable raw d ∧ p = canonicalPath d.
Proof.
  unfold NormalizePath, acceptable. change (list_ascii_of_string "/") with [slash].
  change "/"%char with slash. split.
  - intros H. follow H; reflect_bools; apply orElse_Ok in E1.
    all: destruct (pathUnescape_rooted _ _ E E1) as [d ->]; eexists; split;
      [|by rewrite <-normalized_canonical by (by apply find_dots)].
    all: rewrite plainBytes_spec, <-find_dots; auto 10.
  - intros (d & (Hroot & Hsep & Hd & Hutf & Hplain & Hesc & Hdots) & ->).
    apply plainBytes_spec in Hplain as [Hback Hctl]. apply find_dots in Hdots as Hfind.
    rewrite Hroot, Hsep, Hd. cbn [negb orElse]. rewrite Hutf, Hback, Hctl, Hesc, Hfind.
    cbn [negb].
    destruct (pathUnescape_rooted _ _ Hroot Hd) as [d' ->]. f_equal. by apply normalized_canonical.
Qed.

(** ** The canonical form *)

Lemma nonEmptyParts_canonical d : nonEmptyParts slash (canonicalPath d) = nonEmptyParts slash d.
Proof.
  unfold canonicalPath. set (segs := nonEmptyParts slash d).
  assert (Hroot : nonEmptyParts slash (renderPath segs) = segs).
  { unfold renderPath. rewrite nonEmptyParts_sep. apply nonEmptyParts_join, nonEmptyParts_spec. }
  case_match; [|by rewrite app_nil_r].
  change (list_ascii_of_string "/") with [slash].
  by rewrite nonEmptyParts_app_any, Hroot, app_nil_r.
Qed.

Lemma hasSuffix_render segs :
  Forall (λ part, part ≠ [] ∧ slash ∉ part) segs →
  hasSuffix (renderPath segs) [slash] = bool_decide (segs = []).
Proof.
  rewrite hasSuffix_last. intros Hsegs. apply bool_decide_ext.
  split; [|by intros ->]. unfold renderPath.
  destruct segs as [|seg segs _] using rev_ind; [done|].
  apply Forall_app in Hsegs as [_ [[Hseg Hslash] _]%Forall_cons].
  intros Hlast. exfalso. revert Hlast.
  assert (∃ pre, slash :: join (segs ++ [seg]) [slash] = pre ++ seg) as [pre ->].
  { destruct (decide (segs = [])) as [->|Hne]; [by exists [slash]|].
    exists (slash :: join segs [slash] ++ [slash]). rewrite join_snoc by done.
    by rewrite app_assoc. }
  destruct seg as [|b seg _] using rev_ind; [done|].
  rewrite app_assoc, last_snoc. intros [= ->]. set_solver.
Qed.

Lemma hasSuffix_canonical d :
  hasSuffix (canonicalPath (slash :: d)) [slash] = hasSuffix (slash :: d) [slash].
Proof.
  unfold canonicalPath. change (list_ascii_of_string "/") with [slash].
  pose proof (nonEmptyParts_spec slash (slash :: d)) as Hspec.
  pose proof (nonEmptyParts_nil_inv slash (slash :: d)) as Hnil.
  destruct (nonEmptyParts slash (slash :: d)) as [|seg segs].
  - specialize (Hnil eq_refl). rewrite andb_false_r, app_nil_r, !hasSuffix_last.
    rewrite bool_decide_eq_true_2 by done. symmetry. apply bool_decide_eq_true_2.
    destruct d as [|b d' _] using rev_ind; [done|].
    rewrite app_comm_cons, last_snoc. apply (Forall_app_r (slash :: d')) in Hnil.
    by apply Forall_cons in Hnil as [-> _].
  - rewrite andb_true_r. case_match; [by rewrite hasSuffix_snoc, bool_decide_eq_true_2|].
    by rewrite app_nil_r, hasSuffix_render, bool_decide_eq_false_2 by done.
Qed.

Lemma pathUnescape_last s d :
  pathUnescape s = Some d → hasEncodedSeparator s = false →
  bool_decide (last s = Some slash) = bool_decide (last d = Some slash).
Proof.
  intros Hd. revert s d Hd.
  apply (unescape_ind (λ s d, hasEncodedSeparator s = false →
    bool_decide (last s = Some slash) = bool_decide (last d = Some slash))); [done|..].
  - intros c s d Hc Hd IH Hsep. rewrite hasEncodedSeparator_plain in Hsep by done.
    destruct s as [|b s]; [by injection Hd as <-|].
    destruct d as [|b' d]; [by apply pathUnescape_nil_inv in Hd|exact (IH Hsep)].
  - intros h l v s d Hv Hd IH Hsep. rewrite (hasEncodedSeparator_escape _ _ v) in Hsep by done.
    apply orb_false_iff in Hsep as [Hsep' Hsep]. reflect_bools.
    destruct s as [|b s].
    + injection Hd as <-. apply decodeHexByte_digits in Hv as [_ Hl]. simpl.
      rewrite !bool_decide_eq_false_2; congruence.
    + destruct d as [|b' d]; [by apply pathUnescape_nil_inv in Hd|exact (IH Hsep)].
Qed.

(** ** Properties *)

(** A path segment that can only be read one way. *)
Definition safeSegment (seg : bytes) : Prop :=
  seg ≠ [] ∧ slash ∉ seg ∧ notDots seg ∧ forallb plainByte seg = true.

(** What the rest of the gateway may assume of a request path. *)
Record SafePath (p : bytes) : Prop := {
  safe_shape : ∃ segs (trailing : bool),
    p = renderPath segs ++ (if trailing then "/" else []) ∧
    (trailing = true → segs ≠ []) ∧ Forall safeSegment segs;
  safe_utf8 : validUTF8 p = true;
  safe_escapes : containsPercentEscape p = false;
}.

Lemma canonical_test (P : bytes → bool) `{!SegmentTest P} d : P (canonicalPath d) = P d.
Proof.
  by rewrite (segment_nonEmpty P), nonEmptyParts_canonical, <-(segment_nonEmpty P).
Qed.

Lemma canonical_safe raw d : acceptable raw d → Forall safeSegment (nonEmptyParts slash d).
Proof.
  intros (_ & _ & _ & _ & Hplain & _ & Hdots).
  rewrite (segment_nonEmpty (forallb plainByte)), forallb_Forall in Hplain.
  pose proof (nonEmptyParts_spec slash d) as Hspec. unfold safeSegment.
  apply (Forall_filter_sub _ (.≠ [])) in Hdots.
  rewrite Forall_forall in Hspec, Hdots, Hplain |- *. intros seg Hin.
  destruct (Hspec seg Hin). auto.
Qed.

Lemma notDots_iff seg : negb (isDotSegment seg) = true ↔ notDots seg.
Proof.
  unfold isDotSegment, notDots. by rewrite negb_orb, andb_true_iff, !negb_true_iff, !bool_decide_eq_false.
Qed.

(** No dot segments, as a segment test. *)
Definition noDotSegments (s : bytes) : bool := forallb (negb ∘ isDotSegment) (splitByte s slash).

#[export] Instance noDotSegments_test : SegmentTest noDotSegments.
Proof. split; [done|]. intros a b. unfold noDotSegments. by rewrite splitByte_app_any, forallb_app. Qed.

Lemma noDotSegments_iff s : noDotSegments s = true ↔ Forall notDots (splitByte s slash).
Proof.
  unfold noDotSegments. rewrite forallb_Forall. apply Forall_proper; [|done].
  intros seg. apply notDots_iff.
Qed.

(** Without percent signs decoding is the identity. *)
Lemma no_percent s :
  percent ∉ s → hasEncodedSeparator s = false ∧ pathUnescape s = Some s ∧ containsPercentEscape s = false.
Proof.
  induction s as [|c s IH]; intros Hs; [done|]. apply not_elem_of_cons in Hs as [Hc Hs].
  destruct (IH Hs) as (H1 & H2 & H3).
  rewrite hasEncodedSeparator_plain, pathUnescape_plain, H1, H2, containsPercentEscape_cons, H3 by done.
  by rewrite bool_decide_eq_false_2 by done.
Qed.

Lemma canonical_fixed raw d :
  acceptable raw d → percent ∉ canonicalPath d → acceptable (canonicalPath d) (canonicalPath d).
Proof.
  intros (Hroot & _ & _ & Hutf & Hplain & Hesc & Hdots) Hpct.
  destruct (no_percent _ Hpct) as (H1 & H2 & H3). unfold acceptable.
  rewrite <-noDotSegments_iff in Hdots |- *.
  rewrite (canonical_test validUTF8), (canonical_test (forallb plainByte)), (canonical_test noDotSegments).
  by repeat split.
Qed.

(** C1: a request path that [NormalizePath] accepts is safe: it is rooted, its
    segments are non-empty, contain no separator, backslash or control
    character and are neither [.] nor [..], and it is valid UTF-8 with no
    remaining percent escape. *)
Theorem NormalizePath_safe raw p : NormalizePath raw = Ok p → SafePath p.
Proof.
  intros (d & Hd & ->)%NormalizePath_spec. split.
  - exists (nonEmptyParts slash d), (hasSuffix d "/" && negb (bool_decide (nonEmptyParts slash d = []))).
    split; [done|]. split; [|by eapply canonical_safe]. intros [_ H]%andb_true_iff; by reflect_bools.
  - rewrite (canonical_test validUTF8). apply Hd.
  - pose proof (canonical_test (negb ∘ containsPercentEscape) d) as Htest. simpl in Htest.
    destruct Hd as (_ & _ & _ & _ & _ & Hesc & _). rewrite Hesc in Htest. by apply negb_true_iff.
Qed.

Lemma NormalizePath_safe_witness :
  NormalizePath "/docs//a%20b/" = Ok ("/docs/a b/" : bytes) ∧ SafePath "/docs/a b/".
Proof.
  assert (H : NormalizePath "/docs//a%20b/" = Ok ("/docs/a b/" : bytes)) by by vm_compute.
  exact (conj H (NormalizePath_safe _ _ H)).
Defined.

(** C28: escapes cannot move segment boundaries: the segments of an accepted
    path are the decodings, one by one, of the non-empty segments of the raw
    request path, and a trailing slash is kept. *)
Theorem NormalizePath_segments raw p :
  NormalizePath raw = Ok p →
  Forall2 (λ rawSeg seg, pathUnescape rawSeg = Some seg)
    (nonEmptyParts slash raw) (nonEmptyParts slash p)
  ∧ hasSuffix p [slash] = hasSuffix raw [slash].
Proof.
  intros (d & Hd & ->)%NormalizePath_spec. destruct Hd as (Hroot & Hsep & Hd & _).
  split.
  - rewrite nonEmptyParts_canonical. unfold nonEmptyParts.
    pose proof (pathUnescape_segments _ _ Hd Hsep) as Hall. clear -Hall.
    induction Hall as [|r s rs ss Hr Hrs IH]; [constructor|]. rewrite !filter_cons.
    case_decide; case_decide; subst; [by constructor|by apply pathUnescape_nil_inv in Hr| |done].
    by injection Hr as <-.
  - destruct (pathUnescape_rooted _ _ Hroot Hd) as [d' ->].
    by rewrite hasSuffix_canonical, !hasSuffix_last, (pathUnescape_last _ _ Hd Hsep).
Qed.

Lemma NormalizePath_segments_witness :
  NormalizePath "/a%62//c/" = Ok ("/ab/c/" : bytes) ∧
  nonEmptyParts slash "/a%62//c/" = ["a%62" : bytes; "c" : bytes] ∧
  hasSuffix "/ab/c/" [slash] = true.
Proof.
  assert (H : NormalizePath "/a%62//c/" = Ok ("/ab/c/" : bytes)) by by vm_compute.
  destruct (NormalizePath_segments _ _ H) as [_ Hs]. by rewrite Hs.
Defined.

(** Canonical paths are fixed points: normalising an accepted path that
    contains no percent sign again returns it unchanged. *)
Theorem NormalizePath_idempotent raw p :
  NormalizePath raw = Ok p → percent ∉ p → NormalizePath p = Ok p.
Proof.
  intros (d & Hd & ->)%NormalizePath_spec Hpct. apply NormalizePath_spec.
  exists (canonicalPath d). split; [by eapply canonical_fixed|].
  destruct (pathUnescape_rooted raw d) as [d' ->]; [apply Hd..|].
  unfold canonicalPath at 1. rewrite <-nonEmptyParts_canonical.
  change (list_ascii_of_string "/") with [slash].
  by rewrite <-hasSuffix_canonical.
Qed.

Lemma NormalizePath_idempotent_witness :
  percent ∉ ("/a b/" : bytes) ∧ NormalizePath "/a b/" = Ok ("/a b/" : bytes).
Proof.
  assert (Hp : percent ∉ ("/a b/" : bytes)) by (by apply (bool_decide_unpack _); vm_compute).
  split; [exact Hp|]. apply (NormalizePath_idempotent "/a%20b/"); [by vm_compute|exact Hp].
Defined.

(** Traversal is refused however it is spelled: a raw path with a segment
    that decodes to [.] or [..] is never accepted. *)
Theorem NormalizePath_no_traversal raw seg dots :
  seg ∈ splitByte raw slash → pathUnescape seg = Some dots → isDotSegment dots = true →
  isOk (NormalizePath raw) = false.
Proof.
  intros Hin Hseg Hdots. apply not_true_iff_false. rewrite isOk_true.
  intros [p (d & (_ & Hsep & Hd & _ & _ & _ & Hall) & _)%NormalizePath_spec].
  pose proof (pathUnescape_segments _ _ Hd Hsep) as Hsegs.
  apply list_elem_of_lookup in Hin as [i Hi].
  eapply Forall2_lookup_l in Hi as (s & Hs & Hdec); [|exact Hsegs].
  cbv beta in Hdec. rewrite Hseg in Hdec. injection Hdec as <-.
  eapply Forall_lookup_1 in Hall; [|exact Hs]. apply notDots_iff in Hall. by rewrite Hdots in Hall.
Qed.

Lemma NormalizePath_no_traversal_witness : isOk (NormalizePath "/a/%2e%2E/b") = false.
Proof.
  apply (NormalizePath_no_traversal _ "%2e%2E" ".."); [|by vm_compute..].
  apply (bool_decide_unpack _); by vm_compute.
Defined.
