(* ===== verification/TlsConfig.v ===== *)
(** tlsconfig/tlsconfig.go and tlsruntime/: the side-effect-free TLS policy of
    the two sides of the gateway, and the loading of the material it names. *)

From S2P Require Import Prelude GoStrings GoUtf8.

(** ** Policy records *)

Record Frontend := {
  CertificateFile : bytes;
  PrivateKeyFile : bytes;
  FrontendMinimumVersion : bytes;
}.

Record Backend := {
  CAFile : bytes;
  ServerName : bytes;
  ClientCertificateFile : bytes;
  ClientPrivateKeyFile : bytes;
  BackendMinimumVersion : bytes;
}.

#[export] Instance Frontend_eq_dec : EqDecision Frontend.
Proof. solve_decision. Defined.
#[export] Instance Backend_eq_dec : EqDecision Backend.
Proof. solve_decision. Defined.

(** A policy is used as a Go map key. *)
#[export] Instance Backend_countable : Countable Backend.
Proof.
  refine (inj_countable'
    (λ b, (CAFile b, ServerName b, ClientCertificateFile b, ClientPrivateKeyFile b, BackendMinimumVersion b))
    (λ '(a, b, c, d, e), {| CAFile := a; ServerName := b; ClientCertificateFile := c;
                            ClientPrivateKeyFile := d; BackendMinimumVersion := e |}) _).
  by intros [].
Defined.

(** The message prefix [validateFileReference] is given. *)
Inductive FileRole :=
| FrontendCertificate | FrontendPrivateKey | BackendCA | BackendClientCertificate | BackendClientPrivateKey.

Inductive TLSError :=
| FrontendIdentityRequired
| FrontendIdentityUnpaired
| InvalidServerName (name : bytes)
| ClientIdentityUnpaired
| FileReferenceRequired (role : FileRole)
| FileReferenceInvalid (role : FileRole)
| InvalidMinimumVersion (version : bytes).

#[export] Instance FileRole_eq_dec : EqDecision FileRole.
Proof. solve_decision. Defined.
#[export] Instance TLSError_eq_dec : EqDecision TLSError.
Proof. solve_decision. Defined.

(** ** Validation *)

Definition validateMinimumVersion (version : bytes) : result unit TLSError :=
  if bool_decide (version = []) || bool_decide (version = "1.2") || bool_decide (version = "1.3")
  then Ok tt else Err (InvalidMinimumVersion version).

Definition blank (s : bytes) : bool := bool_decide (trimSpace s = []).

Definition validateFileReference (name : FileRole) (reference : bytes) : result unit TLSError :=
  refuse FileReferenceRequired name when blank reference ;;
  refuse FileReferenceInvalid name
    when existsb (λ r, (r =? 0)%Z || (r =? 13)%Z || (r =? 10)%Z) (runes reference) ;;
  Ok tt.

(** [func (f Frontend) Validate]. *)
Definition Frontend_Validate (f : Frontend) : result unit TLSError :=
  refuse FrontendIdentityRequired when blank (CertificateFile f) && blank (PrivateKeyFile f) ;;
  refuse FrontendIdentityUnpaired when xorb (blank (CertificateFile f)) (blank (PrivateKeyFile f)) ;;
  let! _ := validateFileReference FrontendCertificate (CertificateFile f) in
  let! _ := validateFileReference FrontendPrivateKey (PrivateKeyFile f) in
  validateMinimumVersion (FrontendMinimumVersion f).

(** [func (b Backend) Validate]. *)
Definition Backend_Validate (b : Backend) : result unit TLSError :=
  let! _ := (if bool_decide (CAFile b = []) then Ok tt
             else validateFileReference BackendCA (CAFile b)) in
  refuse InvalidServerName (ServerName b)
    when containsAny (ServerName b) ([" "; "009"; "013"; "010"; "/"]%char : bytes) ;;
  refuse ClientIdentityUnpaired
    when xorb (blank (ClientCertificateFile b)) (blank (ClientPrivateKeyFile b)) ;;
  let! _ := (if bool_decide (ClientCertificateFile b = []) then Ok tt
             else let! _ := validateFileReference BackendClientCertificate (ClientCertificateFile b) in
                  validateFileReference BackendClientPrivateKey (ClientPrivateKeyFile b)) in
  validateMinimumVersion (BackendMinimumVersion b).

(** ** Loading (tlsruntime) *)

(** [crypto/tls] and [crypto/x509] values are opaque; the files they come from
    are read through these operations. *)
Class TLSMaterial := {
  KeyPair : Type;
  CertPool : Type;
  LoadX509KeyPair : bytes → bytes → option KeyPair;
  SystemCertPool : option CertPool;
  ReadFile : bytes → option bytes;
  AppendCertsFromPEM : CertPool → bytes → option CertPool;
}.

Inductive LoadError :=
| InvalidPolicy (e : TLSError)
| FrontendIdentityUnreadable
| SystemPoolUnavailable
| CAFileUnreadable
| NoCertificatesFound
| ClientIdentityUnreadable.

Definition VersionTLS12 : Z := 771.
Definition VersionTLS13 : Z := 772.

Definition minimumVersion (version : bytes) : Z :=
  if bool_decide (version = "1.3") then VersionTLS13 else VersionTLS12.

Section Loading.
Context `{TLSMaterial}.

(** The fields of [tls.Config] the gateway sets. [InsecureSkipVerify] is not
    among them. *)
Record TLSConfig := {
  Certificates : list KeyPair;
  MinVersion : Z;
  ConfigServerName : bytes;
  RootCAs : option CertPool;
}.

Definition LoadFrontend (config : Frontend) : result TLSConfig LoadError :=
  let! _ := wrap InvalidPolicy (Frontend_Validate config) in
  let! identity := orElse (LoadX509KeyPair (CertificateFile config) (PrivateKeyFile config))
                     FrontendIdentityUnreadable in
  Ok {| Certificates := [identity]; MinVersion := minimumVersion (FrontendMinimumVersion config);
        ConfigServerName := []; RootCAs := None |}.

Definition LoadBackend (config : Backend) : result TLSConfig LoadError :=
  let! _ := wrap InvalidPolicy (Backend_Validate config) in
  let! roots :=
    (if bool_decide (CAFile config = []) then Ok None
     else let! roots := orElse SystemCertPool SystemPoolUnavailable in
          let! contents := orElse (ReadFile (CAFile config)) CAFileUnreadable in
          let! roots := orElse (AppendCertsFromPEM roots contents) NoCertificatesFound in
          Ok (Some roots)) in
  let! identities :=
    (if bool_decide (ClientCertificateFile config = []) then Ok []
     else let! identity := orElse (LoadX509KeyPair (ClientCertificateFile config) (ClientPrivateKeyFile config))
                             ClientIdentityUnreadable in
          Ok [identity]) in
  Ok {| Certificates := identities; MinVersion := minimumVersion (BackendMinimumVersion config);
        ConfigServerName := ServerName config; RootCAs := roots |}.
End Loading.

(** ** Properties *)

Lemma validateMinimumVersion_Ok version :
  validateMinimumVersion version = Ok tt ↔ version = [] ∨ version = "1.2" ∨ version = "1.3".
Proof.
  unfold validateMinimumVersion.
  destruct (_ || _) eqn:E; [|split; [done|intros H; exfalso; revert E; naive_solver]].
  split; [intros _|done]. rewrite !orb_true_iff, !bool_decide_eq_true in E. tauto.
Qed.

(** The files of an identity are both named or both blank. *)
Lemma Backend_Validate_Ok b :
  Backend_Validate b = Ok tt →
  validateMinimumVersion (BackendMinimumVersion b) = Ok tt
  ∧ blank (ClientCertificateFile b) = blank (ClientPrivateKeyFile b)
  ∧ (ClientCertificateFile b ≠ [] → blank (ClientPrivateKeyFile b) = false)
  ∧ (CAFile b ≠ [] → blank (CAFile b) = false).
Proof.
  unfold Backend_Validate, validateFileReference. intros H.
  destruct (blank (ClientCertificateFile b)) eqn:E1, (blank (ClientPrivateKeyFile b)) eqn:E2;
    cbn [xorb] in H; follow H; reflect_bools; by split_and!.
Qed.

Lemma minimumVersion_bounds version :
  (VersionTLS12 ≤ minimumVersion version)%Z
  ∧ (version = "1.3" ↔ minimumVersion version = VersionTLS13).
Proof.
  unfold minimumVersion, VersionTLS12, VersionTLS13. case_bool_decide; split; [lia|done|lia|done].
Qed.

Section LoadingProperties.
Context `{TLSMaterial}.

(** A loaded backend configuration carries exactly its policy: it comes
    from a valid policy, never accepts less than TLS 1.2 and insists on 1.3
    when the policy does, verifies the configured server name, keeps the
    system roots exactly when no CA file is named, and presents one client
    identity, loaded from the two named files, exactly when one is named. *)
Theorem LoadBackend_policy b c :
  LoadBackend b = Ok c →
  Backend_Validate b = Ok tt
  ∧ (VersionTLS12 ≤ MinVersion c)%Z
  ∧ (BackendMinimumVersion b = "1.3" ↔ MinVersion c = VersionTLS13)
  ∧ ConfigServerName c = ServerName b
  ∧ (CAFile b = [] ↔ RootCAs c = None)
  ∧ (ClientCertificateFile b = [] ↔ Certificates c = [])
  ∧ (∀ roots, RootCAs c = Some roots → ∃ system contents,
       SystemCertPool = Some system ∧ ReadFile (CAFile b) = Some contents
       ∧ AppendCertsFromPEM system contents = Some roots)
  ∧ (∀ identity, identity ∈ Certificates c →
       LoadX509KeyPair (ClientCertificateFile b) (ClientPrivateKeyFile b) = Some identity
       ∧ blank (ClientPrivateKeyFile b) = false).
Proof.
  intros Hload. assert (Backend_Validate b = Ok tt) as Hv.
  { unfold LoadBackend in Hload. by destruct (Backend_Validate b) as [[]|]. }
  apply Backend_Validate_Ok in Hv as Hkey. destruct Hkey as (_ & _ & Hkey & _).
  unfold LoadBackend, orElse in Hload. rewrite Hv in Hload. cbn [wrap] in Hload.
  split; [done|].
  assert (MinVersion c = minimumVersion (BackendMinimumVersion b) ∧ ConfigServerName c = ServerName b)
    as [Hmin Hname] by (follow Hload; done).
  rewrite Hmin, Hname. destruct (minimumVersion_bounds (BackendMinimumVersion b)) as [? ?].
  do 3 (split; [done|]). clear Hmin Hname.
  split; [|split; [|split]].
  - case_bool_decide; follow Hload; done.
  - destruct (bool_decide (ClientCertificateFile b = [])) eqn:Hc; reflect_bools; follow Hload; done.
  - intros roots. case_bool_decide; follow Hload; intros [=]; subst; eauto.
  - intros identity. destruct (bool_decide (ClientCertificateFile b = [])) eqn:Hc; reflect_bools.
    + follow Hload; set_solver.
    + follow Hload; intros ->%list_elem_of_singleton; auto.
Qed.
End LoadingProperties.

(** A concrete file system: any named file holds its own name. *)
Definition echoMaterial : TLSMaterial := {|
  KeyPair := bytes * bytes;
  CertPool := list bytes;
  LoadX509KeyPair := λ certificate key, Some (certificate, key);
  SystemCertPool := Some [];
  ReadFile := λ name, Some name;
  AppendCertsFromPEM := λ pool contents, Some (pool ++ [contents]);
|}.

Definition sampleBackend : Backend :=
  {| CAFile := "ca.pem"; ServerName := "backend.internal"; ClientCertificateFile := "client.pem";
     ClientPrivateKeyFile := "client.key"; BackendMinimumVersion := "1.3" |}.

Lemma LoadBackend_policy_witness :
  let M := echoMaterial in
  ∃ c, LoadBackend sampleBackend = Ok c ∧ MinVersion c = VersionTLS13 ∧ Certificates c ≠ [].
Proof.
  intros M.
  eexists. eassert (LoadBackend sampleBackend = Ok _) as Hl by (vm_compute; reflexivity).
  destruct (LoadBackend_policy sampleBackend _ Hl) as (_ & _ & Hmin & _ & _ & Hcert & _).
  split; [exact Hl|]. split; [by apply Hmin|]. intros Habs%Hcert. discriminate.
Defined.
