(* ===== verification/Mount.v ===== *)
(** mount/mount.go: virtual-resource mappings and their validation. *)

From S2P Require Import Prelude GoStrings GoUtf8 GoPath GoNet GoUrl Path TlsConfig.

(** ** The mapping record *)

Record Mount := {
  Mount_Path : bytes;
  Mount_Source : bytes;
  Mount_Target : bytes;
  Mount_Priority : Z;
  Mount_Server : bytes;
  Mount_Protocol : bytes;
  Mount_TLS : option Backend;
}.

#[export] Instance Mount_eq_dec : EqDecision Mount.
Proof. solve_decision. Defined.

Inductive AuthorityError :=
| AuthoritySyntax (authority : bytes)
| AuthorityHostPort (authority : bytes)
| AuthorityHost (authority : bytes)
| AuthorityPort (authority : bytes).

Inductive SourceError :=
| SourceUnparsable
| SourceNotAbsolute (source : bytes)
| SourceScheme (scheme : bytes)
| SourceUserinfo
| SourceQuery
| SourceFragment.

(** One constructor per error site of [Mount.Validate]. *)
Inductive MountError :=
| ServerScopeWhitespace (server : bytes)
| ProtocolScopeWhitespace (protocol : bytes)
| PathRequired
| PathAndSource
| SourceInvalid (e : SourceError)
| ConnectSource (e : AuthorityError)
| ConnectSourcePath
| SourceEscaping (path : bytes)
| SourceNotNormalized (path : bytes)
| MountPathRelative (path : bytes)
| PathWildcard (path : bytes)
| TargetRequired
| TargetUnparsable
| TargetScheme (scheme : bytes)
| TargetHost (target : bytes)
| TCPTargetParts
| TCPTargetPath
| TCPTarget (e : AuthorityError)
| TargetWildcard (target : bytes)
| TLSTargetScheme
| MountTLS (e : TLSError).

#[export] Instance AuthorityError_eq_dec : EqDecision AuthorityError.
Proof. solve_decision. Defined.
#[export] Instance SourceError_eq_dec : EqDecision SourceError.
Proof. solve_decision. Defined.
#[export] Instance MountError_eq_dec : EqDecision MountError.
Proof. solve_decision. Defined.

(** [" \t\r\n"]. *)
Definition blanks : bytes := [" "; "009"; "013"; "010"]%char.

(** ** Validation *)

Definition supportedTargetSchemes : list bytes :=
  ["delegate" : bytes; "ftp" : bytes; "http" : bytes; "https" : bytes; "tcp" : bytes].

Definition ValidateConnectAuthority (authority : bytes) : result unit AuthorityError :=
  refuse AuthoritySyntax authority
    when bool_decide (authority = []) || negb (bool_decide (authority = trimSpace authority))
         || containsAny authority "@/?#" ;;
  match splitHostPort authority with
  | None => Err (AuthorityHostPort authority)
  | Some (host, port) =>
      refuse AuthorityHostPort authority when bool_decide (host = []) || bool_decide (port = []) ;;
      refuse AuthorityHost authority when containsAny host (blanks ++ "%") ;;
      match atoi port with
      | None => Err (AuthorityPort authority)
      | Some number =>
          refuse AuthorityPort authority
            when (number <? 1)%Z || (65535 <? number)%Z || negb (bool_decide (itoa number = port)) ;;
          Ok tt
      end
  end.

(** At most one star, and only at the end. *)
Definition badWildcard (path : bytes) : bool :=
  (1 <? countByte path "*") || (containsByte path "*" && negb (hasSuffix path "*")).

Section Validation.
Context `{UnicodeData}.

Definition parseSourceURL (source : bytes) : result URL SourceError :=
  let! parsed := orElse (parseURL source) SourceUnparsable in
  refuse SourceNotAbsolute source
    when negb (isAbs parsed) || bool_decide (Host parsed = []) || negb (bool_decide (Opaque parsed = [])) ;;
  refuse SourceScheme (Scheme parsed)
    when negb (equalFold (Scheme parsed) "http") && negb (equalFold (Scheme parsed) "https")
         && negb (equalFold (Scheme parsed) "connect") ;;
  refuse SourceUserinfo when negb (bool_decide (User parsed = None)) ;;
  refuse SourceQuery when negb (bool_decide (RawQuery parsed = [])) || ForceQuery parsed ;;
  refuse SourceFragment when negb (bool_decide (Fragment parsed = [])) ;;
  Ok parsed.

(** The path pattern of a URL source: its escaped path, [/] when empty. *)
Definition sourcePattern (parsed : URL) : bytes :=
  let p := escapedPath parsed in if bool_decide (p = []) then "/" else p.

(** The checks of [Validate] inside [if m.Source != ""], returning the
    source path. *)
Definition validateSource (source : bytes) : result bytes MountError :=
  let! parsed := wrap SourceInvalid (parseSourceURL source) in
  let sourcePath := sourcePattern parsed in
  let! _ := (if equalFold (Scheme parsed) "connect"
             then let! _ := wrap ConnectSource (ValidateConnectAuthority (Host parsed)) in
                  refuse ConnectSourcePath when negb (bool_decide (sourcePath = "/")) ;;
                  Ok tt
             else Ok tt) in
  refuse SourceEscaping sourcePath when containsByte sourcePath "%" ;;
  refuse SourceNotNormalized sourcePath
    when negb (bool_decide (NormalizePath sourcePath = Ok sourcePath)) ;;
  Ok sourcePath.

(** The checks of [Validate] on the target URL. *)
Definition validateTarget (m : Mount) : result unit MountError :=
  refuse TargetRequired when bool_decide (Mount_Target m = []) ;;
  let! target := orElse (parseURL (Mount_Target m)) TargetUnparsable in
  refuse TargetScheme (Scheme target)
    when negb (bool_decide (toLower (Scheme target) ∈ supportedTargetSchemes)) ;;
  refuse TargetHost (Mount_Target m) when bool_decide (Host target = []) ;;
  let! _ := (if equalFold (Scheme target) "tcp"
             then refuse TCPTargetParts
                    when negb (bool_decide (User target = None)) || negb (bool_decide (RawQuery target = []))
                         || ForceQuery target || negb (bool_decide (Fragment target = [])) ;;
                  refuse TCPTargetPath
                    when negb (bool_decide (Path target = [])) && negb (bool_decide (Path target = "/")) ;;
                  wrap TCPTarget (ValidateConnectAuthority (Host target))
             else Ok tt) in
  refuse TargetWildcard (Mount_Target m) when badWildcard (Path target) ;;
  match Mount_TLS m with
  | None => Ok tt
  | Some tls =>
      refuse TLSTargetScheme when negb (equalFold (Scheme target) "https") ;;
      wrap MountTLS (Backend_Validate tls)
  end.

(** [func (m Mount) Validate]. *)
Definition Mount_Validate (m : Mount) : result unit MountError :=
  refuse ServerScopeWhitespace (Mount_Server m) when containsAny (Mount_Server m) blanks ;;
  refuse ProtocolScopeWhitespace (Mount_Protocol m) when containsAny (Mount_Protocol m) blanks ;;
  refuse PathRequired when bool_decide (Mount_Path m = []) && bool_decide (Mount_Source m = []) ;;
  refuse PathAndSource
    when negb (bool_decide (Mount_Path m = [])) && negb (bool_decide (Mount_Source m = [])) ;;
  let! sourcePath := (if bool_decide (Mount_Source m = []) then Ok (Mount_Path m)
                      else validateSource (Mount_Source m)) in
  refuse MountPathRelative sourcePath when negb (hasPrefix sourcePath "/") ;;
  refuse PathWildcard sourcePath when badWildcard sourcePath ;;
  validateTarget m.
End Validation.

(** [func (m Mount) Pattern]. *)
Definition Mount_Pattern (m : Mount) : bytes :=
  if negb (bool_decide (Mount_Source m = [])) then Mount_Source m else Mount_Path m.

(** ** Properties *)

Lemma containsAny_false s chars : containsAny s chars = false ↔ ∀ c, c ∈ s → c ∉ chars.
Proof.
  unfold containsAny. rewrite <- not_true_iff_false, existsb_Exists, Exists_exists.
  split.
  - intros H c Hs Hc. apply H. exists c. split; [done|]. by apply bool_decide_eq_true.
  - intros H (c & Hs & Hc%bool_decide_eq_true). by eapply H.
Qed.

(** Exactly the CONNECT authorities [host:port] and [[host]:port] are
    accepted whose host is not empty and contains no blank, percent sign or URL
    delimiter, and whose port is the canonical decimal of a number from 1 to
    65535. *)
Theorem ValidateConnectAuthority_iff authority :
  ValidateConnectAuthority authority = Ok tt ↔
  ∃ host number,
    splitHostPort authority = Some (host, itoa number)
    ∧ (authority = host ++ ":"%char :: itoa number
       ∨ authority = "["%char :: host ++ "]"%char :: ":"%char :: itoa number)
    ∧ (1 ≤ number ≤ 65535)%Z
    ∧ host ≠ []
    ∧ (∀ c, c ∈ host → c ∉ (blanks ++ "%"))
    ∧ (∀ c, c ∈ authority → c ∉ ("@/?#" : bytes))
    ∧ trimSpace authority = authority.
Proof.
  unfold ValidateConnectAuthority. split.
  - intros H. destruct (_ || _) eqn:E in H; [done|].
    destruct (splitHostPort authority) as [[host port]|] eqn:Hs; [|done].
    destruct (_ || _) eqn:E1 in H; [done|]. destruct (containsAny host _) eqn:E2; [done|].
    destruct (atoi port) as [n|] eqn:Hn; [|done]. destruct (_ || _) eqn:E3 in H; [done|].
    reflect_bools. subst port. 
    repeat match goal with Hc : containsAny _ _ = false |- _ => rewrite containsAny_false in Hc end.
    exists host, n.
    apply splitHostPort_Some in Hs as Hshape.
    split_and!; try done; try lia. destruct Hshape as (_ & [(? & _)|(? & _)]); auto.
  - intros (host & n & Hs & _ & Hn & Hh & Hhost & Hauth & Htrim).
    rewrite <- containsAny_false in Hhost, Hauth. rewrite Hs, Htrim, Hhost, Hauth.
    rewrite (bool_decide_eq_true_2 (authority = authority)) by done.
    rewrite (bool_decide_eq_false_2 (authority = [])) by by intros ->.
    rewrite (bool_decide_eq_false_2 (host = [])), (bool_decide_eq_false_2 (itoa n = []))
      by (done || apply itoa_ne).
    cbn [negb orb]. rewrite atoi_itoa by lia.
    rewrite (proj2 (Z.ltb_ge _ _)), (proj2 (Z.ltb_ge _ _)), bool_decide_eq_true_2 by (done || lia). done.
Qed.

(** A star can only end a pattern. *)
Lemma badWildcard_false path :
  badWildcard path = false ↔ "*"%char ∉ path ∨ ∃ prefix, path = prefix ++ ["*"%char] ∧ "*"%char ∉ prefix.
Proof.
  unfold badWildcard. rewrite orb_false_iff, andb_false_iff, negb_false_iff, containsByte_false.
  split.
  - intros [Hc%Nat.ltb_ge [?|[r Hr]%hasSuffix_true]]; [by left|right].
    exists r. split; [done|]. subst. rewrite countByte_app in Hc.
    apply countByte_zero. change (countByte r "*" + 1 ≤ 1) in Hc. lia.
  - intros [Hn|(p & -> & Hp)].
    + split; [|by left]. apply Nat.ltb_ge. apply countByte_zero in Hn. lia.
    + split; [|right; apply hasSuffix_true; by exists p]. apply Nat.ltb_ge.
      apply countByte_zero in Hp. rewrite countByte_app, Hp. by vm_compute.
Qed.

(** The only place for a star is the last byte. *)
Definition starOnlyLast (path : bytes) : Prop :=
  "*"%char ∉ path ∨ ∃ prefix, path = prefix ++ ["*"%char] ∧ "*"%char ∉ prefix.

Section Soundness.
Context `{UnicodeData}.

Lemma validateSource_Ok source p :
  validateSource source = Ok p →
  ∃ parsed, parseSourceURL source = Ok parsed ∧ p = sourcePattern parsed ∧ NormalizePath p = Ok p
    ∧ "%"%char ∉ p
    ∧ (equalFold (Scheme parsed) "connect" = true →
         p = "/" ∧ ValidateConnectAuthority (Host parsed) = Ok tt).
Proof.
  unfold validateSource. intros Hv.
  destruct (parseSourceURL source) as [parsed|]; [|done]. cbn [wrap] in Hv.
  exists parsed. split; [done|].
  destruct (equalFold (Scheme parsed) "connect").
  - destruct (ValidateConnectAuthority (Host parsed)) as [[]|]; [|done]. cbn [wrap] in Hv.
    follow Hv; reflect_bools. rewrite containsByte_false in *. done.
  - follow Hv; reflect_bools. rewrite containsByte_false in *. done.
Qed.

Lemma validateTarget_Ok m :
  validateTarget m = Ok tt →
  ∃ target, parseURL (Mount_Target m) = Some target
    ∧ toLower (Scheme target) ∈ supportedTargetSchemes ∧ Host target ≠ []
    ∧ (equalFold (Scheme target) "tcp" = true →
         ValidateConnectAuthority (Host target) = Ok tt ∧ User target = None ∧ RawQuery target = [])
    ∧ badWildcard (Path target) = false
    ∧ ∀ tls, Mount_TLS m = Some tls →
        equalFold (Scheme target) "https" = true ∧ Backend_Validate tls = Ok tt.
Proof.
  unfold validateTarget. intros Hv. destruct (bool_decide (Mount_Target m = [])); [done|].
  destruct (parseURL (Mount_Target m)) as [target|]; [|done]. cbn [orElse] in Hv.
  exists target. split; [done|].
  destruct (negb _) eqn:E1 in Hv; [done|]. destruct (bool_decide (Host target = [])) eqn:E2; [done|].
  reflect_bools. split; [done|]. split; [done|].
  destruct (equalFold (Scheme target) "tcp").
  - destruct (ValidateConnectAuthority (Host target)) as [[]|]; [|by follow Hv]. cbn [wrap] in Hv.
    destruct (Mount_TLS m) as [tls|]; [destruct (Backend_Validate tls) as [[]|] eqn:Htls|];
      cbn [wrap] in Hv; follow Hv; reflect_bools; split_and!; try done; intros ? [=]; by subst.
  - destruct (Mount_TLS m) as [tls|]; [destruct (Backend_Validate tls) as [[]|] eqn:Htls|];
      cbn [wrap] in Hv; follow Hv; reflect_bools; split_and!; try done; intros ? [=]; by subst.
Qed.

Lemma Mount_Validate_target m : Mount_Validate m = Ok tt → validateTarget m = Ok tt.
Proof.
  unfold Mount_Validate. intros Hv. repeat (case_match; [done|]).
  destruct (if bool_decide (Mount_Source m = []) then _ else _); [|done]. by repeat (case_match; [done|]).
Qed.

(** C32: a mapping that validates names its virtual side exactly once, either
    by an absolute path or by an absolute [http], [https] or [connect] URL
    whose path is canonical, with a star nowhere but at the end; its target
    is a URL with a supported scheme, a host and the same restriction on
    stars, a [tcp] target is a valid authority without user information or
    query, and a TLS policy is valid and set only on an [https] target. *)
Theorem Mount_Validate_sound m :
  Mount_Validate m = Ok tt →
  (Mount_Source m = [] ∧ hasPrefix (Mount_Path m) "/" = true ∧ starOnlyLast (Mount_Path m)
   ∨ Mount_Path m = [] ∧ ∃ parsed, parseSourceURL (Mount_Source m) = Ok parsed
       ∧ NormalizePath (sourcePattern parsed) = Ok (sourcePattern parsed)
       ∧ starOnlyLast (sourcePattern parsed))
  ∧ ∃ target, parseURL (Mount_Target m) = Some target
      ∧ toLower (Scheme target) ∈ supportedTargetSchemes ∧ Host target ≠ []
      ∧ (equalFold (Scheme target) "tcp" = true →
           ValidateConnectAuthority (Host target) = Ok tt ∧ User target = None ∧ RawQuery target = [])
      ∧ starOnlyLast (Path target)
      ∧ ∀ tls, Mount_TLS m = Some tls →
          equalFold (Scheme target) "https" = true ∧ Backend_Validate tls = Ok tt.
Proof.
  unfold Mount_Validate, starOnlyLast. setoid_rewrite <- badWildcard_false. intros Hv.
  do 2 (destruct (containsAny _ blanks); [done|]).
  destruct (bool_decide (Mount_Path m = [])) eqn:Hp, (bool_decide (Mount_Source m = [])) eqn:Hs;
    cbn [andb negb] in Hv; try done; reflect_bools.
  - destruct (validateSource _) as [p|] eqn:Hsrc; [|done].
    apply validateSource_Ok in Hsrc as (parsed & ? & -> & ? & _ & _).
    destruct (negb _) in Hv; [done|]. destruct (badWildcard (sourcePattern parsed)) eqn:?; [done|].
    split; [right; eauto|by apply validateTarget_Ok].
  - destruct (hasPrefix _ _) eqn:?; [|done]. cbn [negb] in Hv.
    destruct (badWildcard (Mount_Path m)) eqn:?; [done|].
    split; [by left|by apply validateTarget_Ok].
Qed.
End Soundness.

Definition sampleMount : Mount :=
  {| Mount_Path := []; Mount_Source := "http://public.example/app/*"; Mount_Target := "https://backend:8443/*";
     Mount_Priority := 0; Mount_Server := []; Mount_Protocol := []; Mount_TLS := Some sampleBackend |}.

Lemma Mount_Validate_sound_witness :
  let U := asciiUnicode in
  Mount_Validate sampleMount = Ok tt
  ∧ ∃ target, parseURL (Mount_Target sampleMount) = Some target ∧ Host target ≠ [] ∧ starOnlyLast (Path target).
Proof.
  intros U. assert (Mount_Validate sampleMount = Ok tt) as Hv by by vm_compute.
  split; [exact Hv|].
  destruct (Mount_Validate_sound sampleMount Hv) as (_ & target & ? & _ & ? & _ & ? & _). eauto.
Defined.
