(* ===== verification/Resolve.v ===== *)
(** mount/resolve.go: selecting the mapping of a request. *)

From S2P Require Import Prelude GoStrings GoUtf8 GoPath GoNet GoUrl Path TlsConfig Mount.

(** ** The code *)

Inductive ResolveError :=
| ErrUnsafePath (cause : PathError)
| ErrNoMatch
| ErrAmbiguous.

#[export] Instance ResolveError_eq_dec : EqDecision ResolveError.
Proof. solve_decision. Defined.

Record Match := {
  Match_Mount : Mount;
  Match_NormalizedPath : bytes;
  Match_Target : bytes;
}.

Record MountRequest := {
  MountRequest_Path : bytes;
  MountRequest_Scheme : bytes;
  MountRequest_Authority : bytes;
  MountRequest_Server : bytes;
  MountRequest_Protocol : bytes;
}.

Record candidate := {
  mapping : Mount;
  capture : bytes;
  specificity : Z;
  scope : Z;
  authority : Z;
}.

(** The four loop variables [winner], [found] and [ambiguous]; [winner] is
    meaningful once [found]. *)
Record loopState := {
  winner : option candidate;
  ambiguous : bool;
}.

Definition matchPath (pattern requestPath : bytes) : option (bytes * Z) :=
  if negb (hasSuffix pattern "*") then
    if bool_decide (pattern = requestPath) then Some ([], Z.of_nat (length pattern) + 1)%Z else None
  else
    let prefix := trimSuffix pattern "*" in
    if negb (hasPrefix requestPath prefix) then None
    else Some (trimPrefix requestPath prefix, Z.of_nat (length prefix)).

Section Resolve.
Context `{UnicodeData}.

Definition matchScope (m : Mount) (request : MountRequest) : option Z :=
  let serverScoped := negb (bool_decide (Mount_Server m = [])) && negb (bool_decide (Mount_Server m = "*")) in
  let protocolScoped :=
    negb (bool_decide (Mount_Protocol m = [])) && negb (bool_decide (Mount_Protocol m = "*")) in
  if serverScoped && negb (bool_decide (Mount_Server m = MountRequest_Server request)) then None
  else if protocolScoped && negb (equalFold (Mount_Protocol m) (MountRequest_Protocol request)) then None
  else Some ((if serverScoped then 1 else 0) + (if protocolScoped then 1 else 0))%Z.

(** The pattern and authority rank of a mapping for this request. *)
Definition matchSource (m : Mount) (request : MountRequest) : option (bytes * Z) :=
  if bool_decide (Mount_Source m = []) then Some (Mount_Path m, 0%Z)
  else match parseSourceURL (Mount_Source m) with
       | Err _ => None
       | Ok parsed =>
           if negb (equalFold (Scheme parsed) (MountRequest_Scheme request))
              || negb (equalFold (Host parsed) (MountRequest_Authority request))
           then None
           else Some (sourcePattern parsed, 1%Z)
       end.

(** The body of the loop up to [current := candidate{...}]; [None] is
    [continue]. *)
Definition candidateOf (request : MountRequest) (normalized : bytes) (m : Mount) : option candidate :=
  match matchScope m request with
  | None => None
  | Some scope =>
      match matchSource m request with
      | None => None
      | Some (pattern, authority) =>
          match matchPath pattern normalized with
          | None => None
          | Some (capture, specificity) =>
              Some {| mapping := m; capture := capture; specificity := specificity;
                      scope := scope; authority := authority |}
          end
      end
  end.

(** The four-way comparison of the loop. *)
Definition beats (current w : candidate) : bool :=
  (specificity w <? specificity current)%Z
  || ((specificity current =? specificity w)%Z
      && (Mount_Priority (mapping w) <? Mount_Priority (mapping current))%Z)
  || ((specificity current =? specificity w)%Z
      && (Mount_Priority (mapping current) =? Mount_Priority (mapping w))%Z
      && (authority w <? authority current)%Z)
  || ((specificity current =? specificity w)%Z
      && (Mount_Priority (mapping current) =? Mount_Priority (mapping w))%Z
      && (authority current =? authority w)%Z && (scope w <? scope current)%Z).

Definition ties (current w : candidate) : bool :=
  (specificity current =? specificity w)%Z
  && (Mount_Priority (mapping current) =? Mount_Priority (mapping w))%Z
  && (authority current =? authority w)%Z && (scope current =? scope w)%Z.

Definition loopStep (st : loopState) (current : candidate) : loopState :=
  match winner st with
  | None => {| winner := Some current; ambiguous := false |}
  | Some w =>
      if beats current w then {| winner := Some current; ambiguous := false |}
      else if ties current w then {| winner := Some w; ambiguous := true |}
      else st
  end.

Fixpoint resolveLoop (request : MountRequest) (normalized : bytes) (mounts : list Mount) (st : loopState)
    : loopState :=
  match mounts with
  | [] => st
  | m :: mounts' =>
      match candidateOf request normalized m with
      | None => resolveLoop request normalized mounts' st
      | Some current => resolveLoop request normalized mounts' (loopStep st current)
      end
  end.

(** [strings.TrimSuffix(target, "*") + winner.capture]. *)
Definition rewriteTarget (target captured : bytes) : bytes :=
  if hasSuffix target "*" then trimSuffix target "*" ++ captured else target.

Definition ResolveFor (mounts : list Mount) (request : MountRequest) : result Match ResolveError :=
  let! normalized := wrap ErrUnsafePath (NormalizePath (MountRequest_Path request)) in
  let st := resolveLoop request normalized mounts {| winner := None; ambiguous := false |} in
  match winner st with
  | None => Err ErrNoMatch
  | Some w =>
      refuse ErrAmbiguous when ambiguous st ;;
      Ok {| Match_Mount := mapping w; Match_NormalizedPath := normalized;
            Match_Target := rewriteTarget (Mount_Target (mapping w)) (capture w) |}
  end.

Definition Resolve (mounts : list Mount) (requestPath : bytes) : result Match ResolveError :=
  ResolveFor mounts {| MountRequest_Path := requestPath; MountRequest_Scheme := [];
                       MountRequest_Authority := []; MountRequest_Server := [];
                       MountRequest_Protocol := [] |}.

(** ** Specification: the unique best candidate *)

(** Rank of a candidate: specificity, then priority, then authority, then
    scope. *)
Definition rank (c : candidate) : list Z :=
  [specificity c; Mount_Priority (mapping c); authority c; scope c].

Fixpoint lexLt (a b : list Z) : Prop :=
  match a, b with
  | x :: a', y :: b' => (x < y)%Z ∨ (x = y ∧ lexLt a' b')
  | _, _ => False
  end.

Lemma lexLt_irrefl a : ¬ lexLt a a.
Proof. induction a; simpl; [tauto|]. intros [?|[_ ?]]; [lia|tauto]. Qed.

Lemma lexLt_trans a b c : lexLt a b → lexLt b c → lexLt a c.
Proof.
  revert b c; induction a as [|x a IH]; intros [|y b] [|z c]; simpl; try tauto.
  intros [?|[-> ?]] [?|[-> ?]]; [left; lia..|right; split; eauto].
Qed.

Lemma lexLt_total a b : length a = length b → lexLt a b ∨ a = b ∨ lexLt b a.
Proof.
  revert b; induction a as [|x a IH]; intros [|y b]; simpl; try done; [auto|].
  intros [= Hlen]. destruct (Z.lt_trichotomy x y) as [?|[->|?]]; [auto..| |auto].
  destruct (IH b Hlen) as [?|[->|?]]; auto 10.
Qed.

Lemma beats_rank c w : beats c w = true ↔ lexLt (rank w) (rank c).
Proof.
  unfold beats, rank. simpl. rewrite !orb_true_iff, !andb_true_iff, !Z.ltb_lt, !Z.eqb_eq.
  split; [intros [[[?|?]|?]|?]|]; lia.
Qed.

#[global] Arguments lexLt : simpl never.

Lemma ties_rank c w : ties c w = true ↔ rank c = rank w.
Proof.
  unfold ties, rank. rewrite !andb_true_iff, !Z.eqb_eq. split; [|naive_solver].
  intros [[[-> ->] ->] ->]; done.
Qed.

(** The candidates of a request, in order. *)
Definition candidates (request : MountRequest) (normalized : bytes) (mounts : list Mount) : list candidate :=
  omap (candidateOf request normalized) mounts.

#[export] Instance candidates_proper request normalized :
  Proper ((≡ₚ) ==> (≡ₚ)) (candidates request normalized).
Proof. intros mounts mounts' Hperm. unfold candidates. by rewrite Hperm. Qed.

Lemma resolveLoop_foldl request normalized mounts st :
  resolveLoop request normalized mounts st = foldl loopStep st (candidates request normalized mounts).
Proof.
  revert st; induction mounts as [|m mounts IH]; intros st; [done|]. simpl.
  destruct (candidateOf request normalized m); by rewrite IH.
Qed.

(** What a list of candidates selects: nothing, the one candidate that
    outranks all others, or an ambiguity between two of the highest rank. *)
Inductive selection (l : list candidate) : result candidate ResolveError → Prop :=
| selection_none : l = [] → selection l (Err ErrNoMatch)
| selection_best w rest :
    l ≡ₚ w :: rest → Forall (λ c, lexLt (rank c) (rank w)) rest → selection l (Ok w)
| selection_tie w w' rest :
    l ≡ₚ w :: w' :: rest → rank w' = rank w → Forall (λ c, ¬ lexLt (rank w) (rank c)) rest →
    selection l (Err ErrAmbiguous).

Definition stateResult (st : loopState) : result candidate ResolveError :=
  match winner st with
  | None => Err ErrNoMatch
  | Some w => if ambiguous st then Err ErrAmbiguous else Ok w
  end.

Definition startState : loopState := {| winner := None; ambiguous := false |}.

#[export] Instance selection_proper : Proper ((≡ₚ) ==> (=) ==> iff) selection.
Proof.
  assert (Himp : ∀ l l' r, l ≡ₚ l' → selection l r → selection l' r).
  { intros l l' r Hl Hsel. destruct Hsel as [->|w rest Hperm Hall|w w' rest Hperm Hrank Hall].
    - apply Permutation_nil_l in Hl as <-. by constructor.
    - apply (selection_best _ w rest); [by rewrite <-Hl|done].
    - apply (selection_tie _ w w' rest); [by rewrite <-Hl|done..]. }
  intros l l' Hl r r' <-. split; apply Himp; by rewrite Hl.
Qed.

Lemma lexLt_weaken c w : ¬ lexLt (rank w) (rank c) → lexLt (rank c) (rank w) ∨ rank c = rank w.
Proof. destruct (lexLt_total (rank c) (rank w)) as [?|[?|?]]; auto; done. Qed.

Lemma lexLt_asym a b : lexLt a b → ¬ lexLt b a.
Proof. intros Hab Hba. exact (lexLt_irrefl _ (lexLt_trans _ _ _ Hab Hba)). Qed.

(** The loop variables describe the candidates seen so far. *)
Definition tracks (seen : list candidate) (st : loopState) : Prop :=
  match winner st with
  | None => seen = [] ∧ ambiguous st = false
  | Some w =>
      if ambiguous st
      then ∃ w' rest, seen ≡ₚ w :: w' :: rest ∧ rank w' = rank w
                      ∧ Forall (λ c, ¬ lexLt (rank w) (rank c)) rest
      else ∃ rest, seen ≡ₚ w :: rest ∧ Forall (λ c, lexLt (rank c) (rank w)) rest
  end.

Lemma tracks_bounded seen st w :
  tracks seen st → winner st = Some w → Forall (λ c, ¬ lexLt (rank w) (rank c)) seen.
Proof.
  unfold tracks. intros Htr Hw. rewrite Hw in Htr. destruct (ambiguous st).
  - destruct Htr as (w' & rest & -> & Hrank & Hall).
    repeat constructor; [apply lexLt_irrefl|rewrite Hrank; apply lexLt_irrefl|done].
  - destruct Htr as (rest & -> & Hall). constructor; [apply lexLt_irrefl|].
    eapply Forall_impl; [exact Hall|]. intros c. apply lexLt_asym.
Qed.

Lemma tracks_step seen st c : tracks seen st → tracks (c :: seen) (loopStep st c).
Proof.
  intros Htr. unfold loopStep. destruct (winner st) as [w|] eqn:Hw.
  2: { unfold tracks in Htr. rewrite Hw in Htr. destruct Htr as [-> _]. by exists []. }
  pose proof (tracks_bounded _ _ _ Htr Hw) as Hbound.
  destruct (beats c w) eqn:Hbeats; [|destruct (ties c w) eqn:Hties].
  - apply beats_rank in Hbeats. exists seen. split; [done|].
    eapply Forall_impl; [exact Hbound|]. intros x Hx. apply lexLt_weaken in Hx as [Hx| ->]; [|done].
    by eapply lexLt_trans.
  - apply ties_rank in Hties. unfold tracks in Htr. rewrite Hw in Htr. destruct (ambiguous st).
    + destruct Htr as (w' & rest & Hseen & Hrank & Hall). exists w', (c :: rest). split.
      { rewrite Hseen. by rewrite (Permutation_swap w c), (Permutation_swap w' c). }
      split; [done|]. constructor; [|done]. rewrite Hties. apply lexLt_irrefl.
    + destruct Htr as (rest & Hseen & Hall). exists c, rest.
      split; [rewrite Hseen; apply Permutation_swap|]. split; [done|]. eapply Forall_impl; [exact Hall|]. intros x. apply lexLt_asym.
  - assert (Hlt : lexLt (rank c) (rank w)).
    { destruct (lexLt_total (rank c) (rank w)) as [?|[Heq|Hlt]]; [done|done|..].
      - apply ties_rank in Heq. congruence.
      - apply beats_rank in Hlt. congruence. }
    unfold tracks in Htr |- *. rewrite Hw in Htr |- *. destruct (ambiguous st).
    + destruct Htr as (w' & rest & Hseen & Hrank & Hall). exists w', (c :: rest). split.
      { rewrite Hseen. by rewrite (Permutation_swap w c), (Permutation_swap w' c). }
      split; [done|]. constructor; [by apply lexLt_asym|done].
    + destruct Htr as (rest & Hseen & Hall). exists (c :: rest).
      split; [rewrite Hseen; apply Permutation_swap|]. by constructor.
Qed.

Lemma tracks_foldl l seen st : tracks seen st → tracks (reverse l ++ seen) (foldl loopStep st l).
Proof.
  revert seen st; induction l as [|c l IH]; intros seen st Htr; [done|]. simpl.
  rewrite reverse_cons, <-app_assoc. by apply IH, tracks_step.
Qed.

Lemma resolveLoop_selection request normalized mounts :
  selection (candidates request normalized mounts)
    (stateResult (resolveLoop request normalized mounts startState)).
Proof.
  rewrite resolveLoop_foldl. set (l := candidates request normalized mounts).
  pose proof (tracks_foldl l [] startState (conj eq_refl eq_refl)) as Htr.
  rewrite app_nil_r in Htr. revert Htr. generalize (foldl loopStep startState l) as st.
  intros st Htr. rewrite <-(reverse_Permutation l). unfold tracks in Htr. unfold stateResult.
  destruct (winner _) as [w|]; [|by constructor; apply Htr].
  destruct (ambiguous _).
  - destruct Htr as (w' & rest & Hperm & Hrank & Hall). by eapply selection_tie.
  - destruct Htr as (rest & Hperm & Hall). by eapply selection_best.
Qed.

(** A strict maximum and a tie at the top exclude each other, and a strict
    maximum is unique. *)
Lemma best_unique w rest x rest' :
  w :: rest ≡ₚ x :: rest' → Forall (λ c, lexLt (rank c) (rank w)) rest →
  Forall (λ c, ¬ lexLt (rank x) (rank c)) rest' → x = w.
Proof.
  intros Hperm Hall Hmax. rewrite Forall_forall in Hall, Hmax.
  assert (Hx : x ∈ w :: rest) by (rewrite Hperm; left).
  assert (Hw : w ∈ x :: rest') by (rewrite <-Hperm; left).
  apply elem_of_cons in Hx as [->|Hx]; [done|]. apply elem_of_cons in Hw as [->|Hw]; [done|].
  by contradict (Hmax _ Hw (Hall _ Hx)).
Qed.

Lemma best_not_tie w rest x x' rest' :
  w :: rest ≡ₚ x :: x' :: rest' → Forall (λ c, lexLt (rank c) (rank w)) rest →
  rank x' = rank x → Forall (λ c, ¬ lexLt (rank x) (rank c)) rest' → False.
Proof.
  intros Hperm Hall Hrank Hmax.
  assert (x = w) as ->.
  { apply (best_unique w rest x (x' :: rest')); [done..|].
    constructor; [rewrite Hrank; apply lexLt_irrefl|done]. }
  apply Permutation_cons_inv in Hperm. rewrite Hperm in Hall.
  apply Forall_cons in Hall as [Hlt _]. rewrite Hrank in Hlt. by apply lexLt_irrefl in Hlt.
Qed.

Lemma selection_functional l r r' : selection l r → selection l r' → r = r'.
Proof.
  intros H1 H2.
  destruct H1 as [->|w rest Hl Hall|w w' rest Hl Hrank Hall];
    destruct H2 as [Hl'|x rest' Hl' Hall'|x x' rest' Hl' Hrank' Hall']; subst; try done.
  all: try (by apply Permutation_nil_l in Hl'); try (by apply Permutation_nil_l in Hl).
  - f_equal. symmetry. apply (best_unique w rest x rest'); [by rewrite <-Hl|done|].
    eapply Forall_impl; [exact Hall'|]. intros c. apply lexLt_asym.
  - exfalso. apply (best_not_tie w rest x x' rest'); [by rewrite <-Hl|done..].
  - exfalso. apply (best_not_tie x rest' w w' rest); [by rewrite <-Hl'|done..].
Qed.

(** [ResolveFor] against its specification. *)
Lemma ResolveFor_selection mounts request normalized r :
  NormalizePath (MountRequest_Path request) = Ok normalized →
  selection (candidates request normalized mounts) r →
  ResolveFor mounts request =
  let! w := r in
  Ok {| Match_Mount := mapping w; Match_NormalizedPath := normalized;
        Match_Target := rewriteTarget (Mount_Target (mapping w)) (capture w) |}.
Proof.
  intros Hnorm Hsel. unfold ResolveFor. rewrite Hnorm. cbn [wrap].
  rewrite (selection_functional _ _ _ Hsel (resolveLoop_selection request normalized mounts)).
  unfold stateResult. fold startState. destruct (winner _) as [w|]; [|done]. by destruct (ambiguous _).
Qed.

(** ** Properties *)

(** C3: [ResolveFor] selects the mapping the ordering of specificity,
    priority, authority and scope prescribes: no match exactly when no
    mapping is a candidate, ambiguity exactly when two candidates share the
    highest rank, and otherwise the one candidate that outranks the rest. *)
Theorem ResolveFor_correct mounts request normalized :
  NormalizePath (MountRequest_Path request) = Ok normalized →
  match ResolveFor mounts request with
  | Ok m => ∃ w rest, candidates request normalized mounts ≡ₚ w :: rest
              ∧ Forall (λ c, lexLt (rank c) (rank w)) rest
              ∧ m = {| Match_Mount := mapping w; Match_NormalizedPath := normalized;
                       Match_Target := rewriteTarget (Mount_Target (mapping w)) (capture w) |}
  | Err ErrNoMatch => candidates request normalized mounts = []
  | Err ErrAmbiguous => ∃ w w' rest, candidates request normalized mounts ≡ₚ w :: w' :: rest
              ∧ rank w' = rank w ∧ Forall (λ c, ¬ lexLt (rank w) (rank c)) rest
  | Err (ErrUnsafePath _) => False
  end.
Proof.
  intros Hnorm. pose proof (resolveLoop_selection request normalized mounts) as Hsel.
  rewrite (ResolveFor_selection _ _ _ _ Hnorm Hsel).
  destruct Hsel as [|w rest ? ?|w w' rest ? ? ?]; eauto 10.
Qed.

(** The order in which mappings are configured never matters. *)
Theorem ResolveFor_permutation mounts mounts' request :
  mounts ≡ₚ mounts' → ResolveFor mounts request = ResolveFor mounts' request.
Proof.
  intros Hperm. destruct (NormalizePath (MountRequest_Path request)) as [normalized|e] eqn:Hnorm.
  - pose proof (resolveLoop_selection request normalized mounts) as Hsel.
    rewrite (ResolveFor_selection mounts _ _ _ Hnorm Hsel).
    revert Hsel. generalize (stateResult (resolveLoop request normalized mounts startState)) as r.
    intros r Hsel. rewrite Hperm in Hsel. by rewrite (ResolveFor_selection mounts' _ _ _ Hnorm Hsel).
  - unfold ResolveFor. by rewrite Hnorm.
Qed.

Lemma matchPath_Some pattern path cap spec :
  matchPath pattern path = Some (cap, spec) →
  (hasSuffix pattern "*" = false ∧ pattern = path ∧ cap = [] ∧ spec = (Z.of_nat (length path) + 1)%Z)
  ∨ ∃ prefix, pattern = prefix ++ "*" ∧ path = prefix ++ cap ∧ spec = Z.of_nat (length prefix).
Proof.
  unfold matchPath. destruct (hasSuffix pattern "*") eqn:Hstar; cbn [negb].
  - apply hasSuffix_true in Hstar as [prefix ->]. rewrite trimSuffix_app.
    destruct (hasPrefix path prefix) eqn:Hpre; cbn [negb]; [|done].
    apply hasPrefix_true in Hpre as [r ->]. rewrite trimPrefix_app. intros [= -> <-]. eauto.
  - case_bool_decide; [|done]. intros [= <- <-]. subst. auto.
Qed.

Lemma candidateOf_Some request normalized m c :
  candidateOf request normalized m = Some c →
  ∃ pattern, mapping c = m ∧ matchScope m request = Some (scope c)
    ∧ matchSource m request = Some (pattern, authority c)
    ∧ matchPath pattern normalized = Some (capture c, specificity c).
Proof. unfold candidateOf. intros H1. follow H1. eauto 10. Qed.

(** The winner of a successful resolution is a candidate that nothing
    outranks. *)
Lemma ResolveFor_winner mounts request m :
  ResolveFor mounts request = Ok m →
  NormalizePath (MountRequest_Path request) = Ok (Match_NormalizedPath m) ∧
  ∃ w, w ∈ candidates request (Match_NormalizedPath m) mounts ∧ mapping w = Match_Mount m
    ∧ Match_Target m = rewriteTarget (Mount_Target (Match_Mount m)) (capture w)
    ∧ ∀ c, c ∈ candidates request (Match_NormalizedPath m) mounts → ¬ lexLt (rank w) (rank c).
Proof.
  intros Hres. destruct (NormalizePath (MountRequest_Path request)) as [normalized|e] eqn:Hnorm;
    [|unfold ResolveFor in Hres; by rewrite Hnorm in Hres].
  pose proof (resolveLoop_selection request normalized mounts) as Hsel.
  rewrite (ResolveFor_selection _ _ _ _ Hnorm Hsel) in Hres.
  destruct Hsel as [|w rest Hl Hall|]; simplify_eq/=. split; [done|]. exists w.
  split; [rewrite Hl; left|]. repeat split. intros c. rewrite Hl. intros [->|Hc]%elem_of_cons.
  - apply lexLt_irrefl.
  - apply lexLt_asym. by eapply Forall_forall in Hall.
Qed.

Lemma elem_of_candidates request normalized mounts c :
  c ∈ candidates request normalized mounts ↔ ∃ m, m ∈ mounts ∧ candidateOf request normalized m = Some c.
Proof. unfold candidates. rewrite list_elem_of_omap. naive_solver. Qed.

(** The selected mount is one of the configured ones. *)
Lemma ResolveFor_mount mounts request m : ResolveFor mounts request = Ok m → Match_Mount m ∈ mounts.
Proof.
  intros (_ & w & (m' & Hin & Hc)%elem_of_candidates & Hw & _)%ResolveFor_winner. rewrite <- Hw.
  unfold candidateOf in Hc. follow Hc; done.
Qed.

(** An exact mapping always wins over wildcards: when some mapping that
    is in scope names the normalised path itself, the selected mapping's
    pattern has no wildcard. *)
Theorem ResolveFor_exact_wins mounts request m exact pattern a winnerPattern b :
  ResolveFor mounts request = Ok m →
  exact ∈ mounts → is_Some (matchScope exact request) →
  matchSource exact request = Some (pattern, a) → pattern = Match_NormalizedPath m →
  hasSuffix pattern "*" = false →
  matchSource (Match_Mount m) request = Some (winnerPattern, b) →
  hasSuffix winnerPattern "*" = false.
Proof.
  intros Hres Hin [sc Hsc] Hsrc Hpat Hnostar Hwin.
  destruct (ResolveFor_winner _ _ _ Hres) as (_ & w & Hw & Hmap & _ & Hmax).
  apply elem_of_candidates in Hw as (m' & _ & Hw).
  apply candidateOf_Some in Hw as (pw & <- & _ & Hsrcw & Hpathw).
  rewrite Hmap, Hwin in Hsrcw. injection Hsrcw as <- _.
  assert (Hexact : ∃ c, candidateOf request (Match_NormalizedPath m) exact = Some c
                      ∧ specificity c = (Z.of_nat (length (Match_NormalizedPath m)) + 1)%Z).
  { unfold candidateOf, matchPath. rewrite Hsc, Hsrc, Hnostar. cbn [negb].
    rewrite bool_decide_eq_true_2 by done. eexists; split; [done|]. simpl. by rewrite Hpat. }
  destruct Hexact as (c & Hc & Hspec).
  apply matchPath_Some in Hpathw as [[Hs _]|(prefix & _ & Heq & Hspecw)]; [done|].
  exfalso. apply (Hmax c); [apply elem_of_candidates; eauto|].
  left. rewrite Hspec, Hspecw, Heq, length_app. lia.
Qed.

(** What a wildcard captures at a segment boundary, and what is made of it. *)
Lemma ResolveFor_remainder mounts request m prefix base a :
  ResolveFor mounts request = Ok m →
  matchSource (Match_Mount m) request = Some ((prefix ++ [slash]) ++ "*", a) →
  Mount_Target (Match_Mount m) = base ++ "*" →
  ∃ rest, Match_NormalizedPath m = (prefix ++ [slash]) ++ rest
    ∧ Match_Target m = base ++ rest ∧ Forall notDots (splitByte rest slash)
    ∧ existsb isControl rest = false ∧ containsPercentEscape rest = false.
Proof.
  intros Hres Hsrc Htarget.
  destruct (ResolveFor_winner _ _ _ Hres) as (Hnorm & w & Hw & Hmap & Hrewrite & _).
  apply elem_of_candidates in Hw as (m' & _ & Hw).
  apply candidateOf_Some in Hw as (pw & <- & _ & Hsrcw & Hpathw).
  rewrite Hmap, Hsrc in Hsrcw. injection Hsrcw as <- _.
  apply matchPath_Some in Hpathw as [[Hs _]|(pre & Hpre & Heq & _)].
  { rewrite (proj2 (hasSuffix_true _ _)) in Hs by eauto. done. }
  apply snoc_inj in Hpre as [<- _]. exists (capture w). split; [done|].
  unfold rewriteTarget in Hrewrite.
  rewrite Htarget, (proj2 (hasSuffix_true _ _)), trimSuffix_app in Hrewrite by eauto.
  split; [done|]. apply NormalizePath_spec in Hnorm as (d & (_ & _ & _ & _ & Hplain & Hesc & Hdots) & Hd).
  rewrite <-noDotSegments_iff in Hdots |- *.
  rewrite <-(canonical_test noDotSegments), <-Hd, Heq, <-app_assoc in Hdots.
  rewrite <-(canonical_test (forallb plainByte)), <-Hd, Heq, forallb_app in Hplain.
  pose proof (canonical_test (negb ∘ containsPercentEscape) d) as Htest. change (negb (containsPercentEscape (canonicalPath d)) = negb (containsPercentEscape d)) in Htest.
  rewrite Hesc, <-Hd, Heq, <-app_assoc in Htest.
  change ([slash] ++ capture w) with (slash :: capture w) in Hdots, Htest.
  rewrite (segment_app (P := noDotSegments)) in Hdots. apply andb_true_iff in Hdots as [_ ?].
  pose proof (segment_app (P := negb ∘ containsPercentEscape) prefix (capture w)) as Happ.
  change (negb (containsPercentEscape (prefix ++ slash :: capture w))
          = negb (containsPercentEscape prefix) && negb (containsPercentEscape (capture w))) in Happ.
  rewrite Happ in Htest. apply andb_true_iff in Htest as [_ ?%negb_true_iff].
  apply andb_true_iff in Hplain as [_ Hplain]. split_and!; [done| |done].
  apply not_true_is_false. rewrite existsb_Exists, Exists_exists. intros (c & Hin & Hc).
  rewrite forallb_Forall, Forall_forall in Hplain. specialize (Hplain c Hin).
  unfold plainByte in Hplain. change (isControlRune (code c)) with (isControl c) in Hplain. by rewrite Hc, andb_false_r in Hplain.
Qed.
End Resolve.

(** ** Witnesses *)

(** A path mapping without scope, for concrete instances. *)
Definition pathMount (path target : bytes) (priority : Z) : Mount :=
  {| Mount_Path := path; Mount_Source := []; Mount_Target := target; Mount_Priority := priority;
     Mount_Server := []; Mount_Protocol := []; Mount_TLS := None |}.

Definition pathRequest (path : bytes) : MountRequest :=
  {| MountRequest_Path := path; MountRequest_Scheme := []; MountRequest_Authority := [];
     MountRequest_Server := []; MountRequest_Protocol := [] |}.

Section Witnesses.
#[local] Existing Instance asciiUnicode.

Definition exampleMounts : list Mount :=
  [pathMount "/*" "http://a/*" 0; pathMount "/docs/*" "http://b/*" 0; pathMount "/docs/x" "http://c/y" 0].

Definition exampleMatch : Match :=
  {| Match_Mount := pathMount "/docs/x" "http://c/y" 0; Match_NormalizedPath := "/docs/x";
     Match_Target := "http://c/y" |}.

Lemma ResolveFor_correct_witness :
  ∃ w rest, candidates (pathRequest "/docs/x") "/docs/x" exampleMounts ≡ₚ w :: rest
    ∧ Forall (λ c, lexLt (rank c) (rank w)) rest.
Proof.
  assert (Hn : NormalizePath (MountRequest_Path (pathRequest "/docs/x")) = Ok ("/docs/x" : bytes))
    by by vm_compute.
  assert (Hr : ResolveFor exampleMounts (pathRequest "/docs/x") = Ok exampleMatch) by by vm_compute.
  pose proof (ResolveFor_correct exampleMounts (pathRequest "/docs/x") _ Hn) as H.
  rewrite Hr in H. destruct H as (w & rest & H1 & H2 & _). by exists w, rest.
Defined.

Lemma ResolveFor_permutation_witness :
  ResolveFor (reverse exampleMounts) (pathRequest "/docs/x") = Ok exampleMatch.
Proof.
  rewrite (ResolveFor_permutation _ exampleMounts); [by vm_compute|apply reverse_Permutation].
Defined.

Lemma ResolveFor_exact_wins_witness : hasSuffix "/docs/x" "*" = false.
Proof.
  apply (ResolveFor_exact_wins exampleMounts (pathRequest "/docs/x") exampleMatch
           (pathMount "/docs/x" "http://c/y" 0) "/docs/x" 0 "/docs/x" 0); try by vm_compute.
  - right; right; left.
  - by exists 0%Z.
Defined.

(** The segment-boundary condition of the confinement theorem is
    needed: a valid mapping whose wildcard starts inside a segment hands the
    backend a path that leaves the target's directory. *)
Theorem ResolveFor_partial_segment_escapes :
  Mount_Validate (pathMount "/api*" "http://backend/v1/*" 0) = Ok tt ∧
  wrap (λ _, tt) (Resolve [pathMount "/api*" "http://backend/v1/*" 0] "/api../admin") =
  Ok {| Match_Mount := pathMount "/api*" "http://backend/v1/*" 0;
        Match_NormalizedPath := "/api../admin"; Match_Target := "http://backend/v1/../admin" |}.
Proof. by vm_compute. Qed.

(** The decoded remainder is spliced into the target without
    re-escaping: an escaped question mark in the request path becomes the
    start of the backend query. *)
Theorem ResolveFor_splices_query :
  (let! m := Resolve [pathMount "/docs/*" "http://backend/*" 0] "/docs/a%3Fadmin=1" in
   match parseURL (Match_Target m) with
   | Some u => Ok (Path u, RawQuery u)
   | None => Err ErrNoMatch
   end) = Ok ("/a" : bytes, "admin=1" : bytes).
Proof. by vm_compute. Qed.
End Witnesses.
