(* ===== verification/Confine.v ===== *)
(** mount/resolve.go and the URLs it makes: a rewritten target, parsed as the
    connectors parse it, stays on the target's host and below its path. *)

From S2P Require Import Prelude GoStrings GoUtf8 GoPath GoNet GoUrl Path TlsConfig Mount Resolve.

(** ** A URL with more path behind it *)

Lemma cutByte_none s c : c ∉ s → cutByte s c = (s, [], false).
Proof.
  induction s as [|b s IH]; [done|]. intros [Hb Hs]%not_elem_of_cons. cbn. by rewrite bool_decide_eq_false_2, IH.
Qed.

Lemma hasSuffix_not_in s c : c ∉ s → hasSuffix s [c] = false.
Proof. intros Hs. apply not_true_is_false. rewrite hasSuffix_true. intros [r ->]. set_solver. Qed.

Lemma unescape_plain s : percent ∉ s → unescape s encodePath = Some s.
Proof.
  induction s as [|c s IH]; [done|]. intros [Hc Hs]%not_elem_of_cons. cbn.
  rewrite bool_decide_eq_false_2 by done. rewrite bool_decide_eq_false_2 by naive_solver. cbn. by rewrite IH.
Qed.

Lemma unescape_app a b da :
  unescape a encodePath = Some da → unescape (a ++ b) encodePath = app da <$> unescape b encodePath.
Proof.
  revert da. induction a as [a IH] using bytes_length_ind; intros da.
  destruct a as [|c a]; [intros [= <-]; cbn; by destruct (unescape b _)|].
  destruct (decide (c = percent)) as [->|Hc].
  - destruct a as [|h [|l a]]; [done..|]. cbn.
    destruct (hexValue h) as [hi|]; [|done]. destruct (hexValue l) as [lo|]; [|done].
    intros (d & Hd & ->)%fmap_Some. rewrite (IH a) with (da := d) by (done || cbn; lia).
    by destruct (unescape b _).
  - cbn. rewrite bool_decide_eq_false_2 by done.
    rewrite (bool_decide_eq_false_2 (_ ∨ _)) by naive_solver. cbn.
    intros (d & Hd & ->)%fmap_Some. rewrite (IH a) with (da := d) by (done || cbn; lia).
    by destruct (unescape b _).
Qed.

(** What a request path may still hold of a percent sign is no escape. *)
Lemma unescape_no_escape s : containsPercentEscape s = false → unescape s encodePath = if bool_decide (percent ∈ s) then None else Some s.
Proof.
  intros Hs. case_bool_decide as Hin; [|by apply unescape_plain].
  induction s as [|c s IH]; [by apply elem_of_nil in Hin|]. rewrite containsPercentEscape_cons in Hs.
  apply orb_false_iff in Hs as [Hhead Hs]. destruct (decide (c = percent)) as [->|Hc].
  - rewrite bool_decide_eq_true_2 in Hhead by done. cbn. destruct s as [|h [|l s]]; [done..|]. cbn in Hhead.
    unfold decodeHexByte in Hhead. change hexNibble with hexValue in Hhead.
    destruct (hexValue h); [|done]. by destruct (hexValue l).
  - apply elem_of_cons in Hin as [Heq|Hin]; [by destruct Hc|]. cbn. rewrite (bool_decide_eq_false_2 (c = _)) by done.
    rewrite (bool_decide_eq_false_2 (_ ∨ _)) by naive_solver. cbn. by rewrite IH.
Qed.

(** The scheme ends before the first slash. *)
Lemma schemeEnd_app first s t : slash ∈ s → schemeEnd first (s ++ t) = schemeEnd first s.
Proof.
  revert first. induction s as [|c s IH]; intros first; [by intros ?%elem_of_nil|]. intros Hin. cbn.
  destruct (decide (c = slash)) as [->|Hc]; [done|]. apply elem_of_cons in Hin as [?|Hin]; [done|].
  by rewrite !IH.
Qed.

Lemma schemeEnd_colon first s i : schemeEnd first s = Some (Some i) → s !! i = Some ":"%char.
Proof.
  revert first i. induction s as [|c s IH]; intros first i; [done|]. cbn.
  destruct (_ || _); [|destruct (_ || _); [destruct first; [done|]|case_bool_decide; [|done]; destruct first; [done|by intros [= <-]; subst]]];
    (destruct (schemeEnd false s) as [[j|]|] eqn:Hs; [|done|done]); intros [= <-]; by apply (IH false).
Qed.

Lemma getScheme_app s t scheme rest :
  slash ∈ s → getScheme s = Some (scheme, rest) → getScheme (s ++ t) = Some (scheme, rest ++ t).
Proof.
  intros Hin. unfold getScheme. rewrite schemeEnd_app by done.
  destruct (schemeEnd true s) as [[i|]|] eqn:Hs; [| |done]; intros [= <- <-]; [|done].
  apply schemeEnd_colon in Hs. apply lookup_lt_Some in Hs as Hlt.
  rewrite take_app_le, drop_app_le by lia. done.
Qed.

(** The rest keeps the last slash. *)
Lemma getScheme_last s scheme rest : getScheme (s ++ [slash]) = Some (scheme, rest) → ∃ r, rest = r ++ [slash].
Proof.
  unfold getScheme. destruct (schemeEnd true (s ++ [slash])) as [[i|]|] eqn:Hs; [| |done]; intros [= _ <-]; [|by exists s].
  apply schemeEnd_colon in Hs. destruct (decide (i < length s)) as [Hi|Hi].
  - exists (drop (S i) s). by rewrite drop_app_le by lia.
  - exfalso. rewrite lookup_app_r in Hs by lia. by destruct (i - length s) as [|[|]].
Qed.

Section Below.
Context `{UnicodeData}.

(** The part of [parseRaw] after the scheme, for text without a query. *)
Definition parseRest (scheme rest : bytes) : option URL :=
  let base (user : option Userinfo) (host : bytes) (omit : bool) :=
    {| Scheme := toLower scheme; Opaque := []; User := user; Host := host; Path := []; RawPath := [];
       ForceQuery := false; RawQuery := []; Fragment := []; RawFragment := []; OmitHost := omit |} in
  if negb (hasPrefix rest "/") && negb (bool_decide (toLower scheme = [])) then
    Some {| Scheme := toLower scheme; Opaque := rest; User := None; Host := []; Path := []; RawPath := []; ForceQuery := false;
            RawQuery := []; Fragment := []; RawFragment := []; OmitHost := false |}
  else if negb (hasPrefix rest "/") && containsByte (fst (fst (cutByte rest "/"))) ":" then None
  else if (negb (bool_decide (toLower scheme = [])) || negb (hasPrefix rest "///")) && hasPrefix rest "//" then
    let authority := drop 2 rest in
    let '(authority, rest) :=
      match indexByte authority "/" with
      | Some i => (take i authority, drop i authority)
      | None => (authority, [])
      end in
    match parseAuthority authority with
    | None => None
    | Some (user, host) => withPath (base user host false) rest
    end
  else withPath (base None [] (negb (bool_decide (toLower scheme = [])) && hasPrefix rest "/")) rest.

Lemma parseURL_rest raw :
  "?"%char ∉ raw → "#"%char ∉ raw → existsb isControl raw = false → raw ≠ "*" →
  parseURL raw = match getScheme raw with None => None | Some (scheme, rest) => parseRest scheme rest end.
Proof.
  intros Hq Hf Hc Hstar. unfold parseURL, parseRaw. rewrite cutByte_none by done. rewrite Hc, andb_false_r.
  rewrite (bool_decide_eq_false_2 (raw = "*")) by done.
  destruct (getScheme raw) as [[scheme rest]|] eqn:Hs; [|done].
  assert ("?"%char ∉ rest) as Hqr.
  { unfold getScheme in Hs. destruct (schemeEnd true raw) as [[i|]|]; simplify_eq; [|done]. intros Hin. apply Hq.
    rewrite <- (take_drop (S i) raw). apply elem_of_app. by right. }
  change ("?" : bytes) with ["?"%char]. rewrite hasSuffix_not_in, cutByte_none by done. cbn [andb negb]. rewrite !andb_false_r.
  unfold parseRest. by destruct (if negb (hasPrefix rest "/") && _ then _ else _).
Qed.

(** What parses with a host has an authority and then a path. *)
Lemma parseRest_host scheme rest r u :
  parseRest scheme rest = Some u → rest = r ++ [slash] → Host u ≠ [] →
  ∃ authority path, rest = "//" ++ authority ++ slash :: path ∧ slash ∉ authority ∧ authority ≠ [].
Proof.
  unfold parseRest. intros Hp Hr Hhost. destruct (hasPrefix rest "/") eqn:H1; cbn [negb andb] in Hp.
  2:{ destruct (negb _) in Hp; [by injection Hp as <-|]. destruct (containsByte _ _); [done|].
      assert (hasPrefix rest "//" = false) as H2.
      { apply not_true_is_false. intros [x ->]%hasPrefix_true. apply not_true_iff_false in H1. apply H1, hasPrefix_true. by eexists. }
      rewrite H2, andb_false_r in Hp. unfold withPath in Hp. destruct (unescape _ _); [|done]. by injection Hp as <-. }
  destruct (_ && hasPrefix rest "//") eqn:H2.
  2:{ unfold withPath in Hp. destruct (unescape _ _); [|done]. by injection Hp as <-. }
  apply andb_true_iff in H2 as [_ [x Hx]%hasPrefix_true]. rewrite Hx in Hp. cbn [drop] in Hp.
  change (drop 2 ("//" ++ x)) with x in Hp. destruct (indexByte x "/") as [i|] eqn:Hi.
  - apply indexByte_Some in Hi as [Hsplit Hno]. exists (take i x), (drop (S i) x). rewrite Hx. split; [by rewrite Hsplit at 1|].
    split; [done|]. intros Hnil. rewrite Hnil in Hp. cbn in Hp. unfold withPath in Hp.
    destruct (unescape _ _); [|done]. by injection Hp as <-.
  - apply indexByte_None in Hi. destruct x as [|b x _] using rev_ind.
    + cbn in Hp. by injection Hp as <-.
    + rewrite Hx in Hr. rewrite app_assoc in Hr. apply snoc_inj in Hr as [_ ->]. set_solver.
Qed.

Lemma parseRest_authority scheme authority path :
  slash ∉ authority → authority ≠ [] →
  parseRest scheme ("//" ++ authority ++ slash :: path) =
    match parseAuthority authority with
    | None => None
    | Some (user, host) =>
        withPath {| Scheme := toLower scheme; Opaque := []; User := user; Host := host; Path := []; RawPath := [];
                    ForceQuery := false; RawQuery := []; Fragment := []; RawFragment := []; OmitHost := false |}
                 (slash :: path)
    end.
Proof.
  intros Hno Hne. unfold parseRest.
  rewrite (proj2 (hasPrefix_true _ "/")) by by eexists (slash :: _).
  rewrite (proj2 (hasPrefix_true _ "//")) by by eexists.
  assert (hasPrefix ("//" ++ authority ++ slash :: path) "///" = false) as ->.
  { apply not_true_is_false. intros [x Hx]%hasPrefix_true. destruct authority as [|c authority]; [done|].
    injection Hx as Hc _. apply Hno. rewrite Hc. by left. }
  cbn [negb andb]. rewrite orb_true_r. cbn [andb]. change (drop 2 ("//" ++ ?x)) with x.
  rewrite (indexByte_app slash) by done. by rewrite take_app_length, drop_app_length.
Qed.

(** A URL that has a host and ends in a slash, with more path behind it: only
    the path changes, by what is appended. *)
Lemma parseURL_below base rest u :
  parseURL base = Some u → Host u ≠ [] → hasSuffix base "/" = true → "?"%char ∉ base → "#"%char ∉ base →
  "?"%char ∉ rest → "#"%char ∉ rest → existsb isControl rest = false → containsPercentEscape rest = false →
  match parseURL (base ++ rest) with
  | Some v => Scheme v = Scheme u ∧ User v = User u ∧ Host v = Host u ∧ GoUrl.Path v = GoUrl.Path u ++ rest
              ∧ RawQuery v = [] ∧ Fragment v = []
  | None => percent ∈ rest
  end.
Proof.
  intros Hu Hhost [b Hb]%hasSuffix_true Hq Hf Hq' Hf' Hctl Hesc. change ("/" : bytes) with [slash] in Hb.
  assert (existsb isControl base = false) as Hcb.
  { apply not_true_is_false. intros Hc. unfold parseURL, parseRaw in Hu. by rewrite cutByte_none, Hc in Hu. }
  assert (∀ x, base ++ x ≠ "*") as Hstar by (intros x; rewrite Hb; destruct b as [|? [|]]; by destruct x).
  pose proof (Hstar []) as Hstar0. rewrite app_nil_r in Hstar0. rewrite (parseURL_rest base Hq Hf Hcb Hstar0) in Hu.
  rewrite (parseURL_rest (base ++ rest)); [|set_solver +Hq Hq'|set_solver +Hf Hf'|by rewrite existsb_app, Hcb, Hctl|apply Hstar].
  destruct (getScheme base) as [[scheme r]|] eqn:Hs; [|done].
  rewrite (getScheme_app base rest scheme r); [|rewrite Hb; apply elem_of_app; right; by left|done]. rewrite Hb in Hs. apply getScheme_last in Hs as [r0 Hr0].
  destruct (parseRest_host scheme r r0 u Hu Hr0 Hhost) as (authority & path & -> & Hno & Hne).
  rewrite parseRest_authority in Hu by done. rewrite <- !app_assoc. cbn [app].
  change ((slash :: path) ++ rest) with (slash :: (path ++ rest)). rewrite parseRest_authority by done.
  destruct (parseAuthority authority) as [[user host]|]; [|done]. unfold withPath in *.
  destruct (unescape (slash :: path) encodePath) as [d|] eqn:Hd; [|done]. injection Hu as <-.
  rewrite (app_comm_cons path rest slash), (unescape_app _ _ _ Hd), unescape_no_escape by done.
  destruct (bool_decide (percent ∈ rest)) eqn:Hp; reflect_bools; cbn; [done|]. by split_and!.
Qed.

(** ** Properties *)

(** C23: wildcard rewriting is confined.  When the winning pattern's literal
    part ends at a segment boundary and the target is a URL with a host, no
    query and no fragment whose wildcard starts a segment, a request path
    without question mark and number sign is rewritten to a URL of the same
    scheme, user and host whose path is the target's path followed by the
    remainder of the normalized path, in which there is no dot segment; a
    remainder with a percent sign makes a target that no connector accepts. *)
Theorem ResolveFor_confined mounts request m prefix base a u :
  ResolveFor mounts request = Ok m →
  matchSource (Match_Mount m) request = Some ((prefix ++ [slash]) ++ "*", a) →
  Mount_Target (Match_Mount m) = base ++ "*" →
  hasSuffix base "/" = true → "?"%char ∉ base → "#"%char ∉ base →
  parseURL base = Some u → Host u ≠ [] →
  "?"%char ∉ Match_NormalizedPath m → "#"%char ∉ Match_NormalizedPath m →
  ∃ rest, Match_NormalizedPath m = (prefix ++ [slash]) ++ rest
    ∧ Match_Target m = base ++ rest ∧ Forall notDots (splitByte rest slash)
    ∧ match parseURL (Match_Target m) with
      | Some v => Scheme v = Scheme u ∧ User v = User u ∧ Host v = Host u ∧ GoUrl.Path v = GoUrl.Path u ++ rest
                  ∧ RawQuery v = [] ∧ Fragment v = []
      | None => percent ∈ rest
      end.
Proof.
  intros Hres Hsrc Htarget Hslash Hbq Hbf Hu Hhost Hq Hf.
  destruct (ResolveFor_remainder _ _ _ _ _ _ Hres Hsrc Htarget) as (rest & Hpath & Hm & Hdots & Hctl & Hesc).
  exists rest. rewrite Hpath in Hq, Hf. rewrite Hm. split_and!; [done..|].
  apply parseURL_below; done || set_solver.
Qed.
End Below.

(** ** Witnesses and limits *)

#[local] Existing Instance asciiUnicode.

Definition docsMount : Mount := pathMount "/docs/*" "http://backend:8080/v1/*" 0.

Definition docsMatch (path target : bytes) : Match :=
  {| Match_Mount := docsMount; Match_NormalizedPath := path; Match_Target := target |}.

Lemma ResolveFor_confined_witness :
  ∃ u v, parseURL "http://backend:8080/v1/" = Some u ∧ parseURL "http://backend:8080/v1/a/b" = Some v
    ∧ Host v = Host u ∧ GoUrl.Path v = GoUrl.Path u ++ "a/b".
Proof.
  eassert (parseURL "http://backend:8080/v1/" = Some _) as Hu by (vm_compute; reflexivity).
  eassert (parseURL "http://backend:8080/v1/a/b" = Some _) as Hv by (vm_compute; reflexivity).
  eexists _, _. split; [exact Hu|]. split; [exact Hv|].
  destruct (ResolveFor_confined [docsMount] (pathRequest "/docs/a/b") (docsMatch "/docs/a/b" "http://backend:8080/v1/a/b")
              "/docs" "http://backend:8080/v1/" 0 _ ltac:(by vm_compute) ltac:(by vm_compute) ltac:(by vm_compute)
              ltac:(by vm_compute) ltac:(apply (bool_decide_unpack _); by vm_compute) ltac:(apply (bool_decide_unpack _); by vm_compute)
              Hu ltac:(by vm_compute) ltac:(apply (bool_decide_unpack _); by vm_compute) ltac:(apply (bool_decide_unpack _); by vm_compute))
    as (rest & Hrest & _ & _ & Hconf).
  assert (rest = "a/b") as -> by (by injection Hrest).
  cbn [Match_Target docsMatch] in Hconf. rewrite Hv in Hconf. destruct Hconf as (_ & _ & Hh & Hp & _). split; [exact Hh|exact Hp].
Defined.

(** The base must end at a segment boundary: a valid mapping whose target's
    wildcard follows the host lets the request choose another host. *)
Theorem ResolveFor_extends_host :
  Mount_Validate (pathMount "/x/*" "http://backend*" 0) = Ok tt ∧
  (let! m := Resolve [pathMount "/x/*" "http://backend*" 0] "/x/.evil.com/p" in
   match parseURL (Match_Target m) with Some v => Ok (Host v) | None => Err ErrNoMatch end)
  = Ok ("backend.evil.com" : bytes).
Proof. by vm_compute. Qed.

(** The remainder must not hold a question mark or number sign: what is left of
    it in the path of the backend's URL can be a dot segment. *)
Theorem ResolveFor_truncated_dots :
  (let! m := Resolve [docsMount] "/docs/..%3Fx" in
   match parseURL (Match_Target m) with Some v => Ok (GoUrl.Path v, RawQuery v) | None => Err ErrNoMatch end)
  = Ok ("/v1/.." : bytes, "x" : bytes).
Proof. by vm_compute. Qed.
