(* ===== verification/Policy.v ===== *)
(** policy/policy.go: explicit, fail-closed authorization decisions. *)

From S2P Require Import Prelude GoStrings GoNet.

(** ** The code *)

(** [Effect] is a Go string type: a configuration may hold any value. *)
Inductive Effect := Permit | Reject | OtherEffect (name : bytes).

#[export] Instance Effect_eq_dec : EqDecision Effect.
Proof. solve_decision. Defined.

Inductive ReasonCode := ReasonDefaultDeny | ReasonExplicitPermit | ReasonExplicitReject.

#[export] Instance ReasonCode_eq_dec : EqDecision ReasonCode.
Proof. solve_decision. Defined.

Record PolicyRequest := {
  PolicyRequest_Source : bytes;
  PolicyRequest_Protocol : bytes;
  PolicyRequest_Destination : bytes;
  PolicyRequest_Method : bytes;
  PolicyRequest_Mount : bytes;
}.

Record Rule := {
  Rule_Effect : Effect;
  Rule_Priority : Z;
  Rule_Source : bytes;
  Rule_Protocol : bytes;
  Rule_Destination : bytes;
  Rule_Method : bytes;
  Rule_Mount : bytes;
}.

#[export] Instance Rule_eq_dec : EqDecision Rule.
Proof. solve_decision. Defined.

(** [Decision] of the code; [RuleIndex] is -1 for the default decision. *)
Record PolicyDecision := {
  Allowed : bool;
  Reason : ReasonCode;
  RuleIndex : Z;
}.

Inductive RuleError :=
| UnknownEffect (effect : Effect)
| InvalidSourceCIDR (source : bytes)
| InvalidSourceAddress (source : bytes)
| InvalidDestinationWildcard (destination : bytes).

#[export] Instance RuleError_eq_dec : EqDecision RuleError.
Proof. solve_decision. Defined.

(** Empty and ["*"] match anything. *)
Definition isAny (pattern : bytes) : bool := bool_decide (pattern = []) || bool_decide (pattern = "*").

Definition sourceMatches (pattern value : bytes) : bool :=
  if isAny pattern then true
  else match parsePrefix pattern with
       | Some prefix =>
           match parseAddr value with
           | Some address => prefixContains prefix address
           | None => false
           end
       | None => bool_decide (pattern = value)
       end.

Section Policy.
Context `{UnicodeData}.

Definition destinationMatches (pattern value : bytes) : bool :=
  if isAny pattern then true
  else if hasPrefix pattern "*." then
    let suffix := toLower (trimPrefix pattern "*") in
    hasSuffix (toLower value) suffix && (length suffix <? length value)
  else equalFold pattern value.

Definition matches (pattern value : bytes) (foldCase : bool) : bool :=
  if isAny pattern then true
  else if foldCase then equalFold pattern value else bool_decide (pattern = value).

Definition ruleMatches (rule : Rule) (request : PolicyRequest) : bool :=
  sourceMatches (Rule_Source rule) (PolicyRequest_Source request)
  && matches (Rule_Protocol rule) (PolicyRequest_Protocol request) true
  && destinationMatches (Rule_Destination rule) (PolicyRequest_Destination request)
  && matches (Rule_Method rule) (PolicyRequest_Method request) true
  && matches (Rule_Mount rule) (PolicyRequest_Mount request) false.

Definition isReject (rule : Rule) : bool := bool_decide (Rule_Effect rule = Reject).

(** The loop: [winner] is an index into [rules], [None] for -1. *)
Definition replaces (rule w : Rule) : bool :=
  (Rule_Priority w <? Rule_Priority rule)%Z
  || ((Rule_Priority rule =? Rule_Priority w)%Z && isReject rule && negb (isReject w)).

Definition skipped (rule : Rule) (request : PolicyRequest) : bool :=
  (negb (bool_decide (Rule_Effect rule = Permit)) && negb (bool_decide (Rule_Effect rule = Reject)))
  || negb (ruleMatches rule request).

Fixpoint evaluateLoop (rules : list Rule) (request : PolicyRequest) (i : nat) (rest : list Rule)
    (winner : option nat) : option nat :=
  match rest with
  | [] => winner
  | rule :: rest' =>
      if skipped rule request then evaluateLoop rules request (S i) rest' winner
      else
        let winner :=
          match winner with
          | None => Some i
          | Some j =>
              match rules !! j with
              | Some w => if replaces rule w then Some i else Some j
              | None => Some j
              end
          end in
        evaluateLoop rules request (S i) rest' winner
  end.

Definition Evaluate (rules : list Rule) (request : PolicyRequest) : PolicyDecision :=
  match evaluateLoop rules request 0 rules None with
  | None => {| Allowed := false; Reason := ReasonDefaultDeny; RuleIndex := -1 |}
  | Some winner =>
      match rules !! winner with
      | Some w =>
          if isReject w
          then {| Allowed := false; Reason := ReasonExplicitReject; RuleIndex := Z.of_nat winner |}
          else {| Allowed := true; Reason := ReasonExplicitPermit; RuleIndex := Z.of_nat winner |}
      | None => {| Allowed := false; Reason := ReasonDefaultDeny; RuleIndex := -1 |}
      end
  end.
End Policy.

(** [func (d Decision) Enforce(next)]: [next] is an effectful continuation
    over a world [W]; it is [None] for a nil function. *)
Inductive EnforceError (E : Type) := ErrDenied (reason : ReasonCode) | NextError (e : E).
Arguments ErrDenied {E} reason.
Arguments NextError {E} e.

Definition Enforce {W E : Type} (d : PolicyDecision) (next : option (W → result unit E * W)) (w : W)
    : result unit (EnforceError E) * W :=
  if negb (Allowed d) then (Err (ErrDenied (Reason d)), w)
  else match next with
       | None => (Ok tt, w)
       | Some run => let '(r, w') := run w in (wrap NextError r, w')
       end.

(** [func (r Rule) Validate]. *)
Definition Rule_Validate (r : Rule) : result unit RuleError :=
  refuse UnknownEffect (Rule_Effect r)
    when negb (bool_decide (Rule_Effect r = Permit)) && negb (bool_decide (Rule_Effect r = Reject)) ;;
  let! _ :=
    (if isAny (Rule_Source r) then Ok tt
     else if containsByte (Rule_Source r) "/" then
       refuse InvalidSourceCIDR (Rule_Source r) when negb (bool_decide (is_Some (parsePrefix (Rule_Source r)))) ;;
       Ok tt
     else
       refuse InvalidSourceAddress (Rule_Source r) when negb (bool_decide (is_Some (parseAddr (Rule_Source r)))) ;;
       Ok tt) in
  let destination := Rule_Destination r in
  refuse InvalidDestinationWildcard destination
    when containsByte destination "*" && negb (bool_decide (destination = "*"))
         && (negb (hasPrefix destination "*.") || negb (countByte destination "*" =? 1)) ;;
  Ok tt.

(** ** What the loop computes *)

Section PolicySpec.
Context `{UnicodeData} (request : PolicyRequest).

(** A rule with a known effect that matches the request. *)
Definition effective (rule : Rule) : Prop := skipped rule request = false.

#[global] Instance effective_dec rule : Decision (effective rule).
Proof. unfold effective. apply _. Defined.

Lemma effective_iff rule :
  effective rule ↔ (Rule_Effect rule = Permit ∨ Rule_Effect rule = Reject) ∧ ruleMatches rule request = true.
Proof.
  unfold effective, skipped.
  rewrite orb_false_iff, negb_false_iff, andb_false_iff, !negb_false_iff, !bool_decide_eq_true. done.
Qed.

(** [outranks rule w]: higher priority, or a reject against a non-reject of
    equal priority. *)
Definition outranks (rule w : Rule) : Prop :=
  (Rule_Priority w < Rule_Priority rule)%Z
  ∨ (Rule_Priority rule = Rule_Priority w ∧ Rule_Effect rule = Reject ∧ Rule_Effect w ≠ Reject).

Lemma replaces_iff rule w : replaces rule w = true ↔ outranks rule w.
Proof.
  unfold replaces, outranks, isReject.
  rewrite orb_true_iff, !andb_true_iff, negb_true_iff, Z.ltb_lt, Z.eqb_eq,
    bool_decide_eq_true, bool_decide_eq_false. tauto.
Qed.

Lemma outranks_trans a b c : outranks a b → outranks b c → outranks a c.
Proof. unfold outranks. intros [?|(? & ? & ?)] [?|(? & ? & ?)]; try (left; lia). done. Qed.

(** [outranks] is a strict weak order. *)
Lemma outranks_cotrans a b c : outranks a b → ¬ outranks c b → outranks a c.
Proof.
  unfold outranks. intros Hab Hcb.
  destruct (decide (Rule_Effect c = Reject)), (decide (Rule_Priority b < Rule_Priority c)%Z),
    (decide (Rule_Priority c = Rule_Priority b)); destruct Hab as [?|(? & ? & ?)];
    try (exfalso; tauto); try (left; lia).
  right. split_and!; [lia|done|done].
Qed.

Lemma outranks_asym a b : outranks a b → ¬ outranks b a.
Proof. unfold outranks. intros [?|(? & ? & ?)] [?|(? & ? & ?)]; try lia; done. Qed.

(** [best rules j]: rule [j] is effective, no effective rule outranks it and
    it outranks every effective rule before it. *)
Definition best (rules : list Rule) (winner : option nat) : Prop :=
  match winner with
  | None => Forall (λ r, ¬ effective r) rules
  | Some j => ∃ w, rules !! j = Some w ∧ effective w
      ∧ (∀ r, r ∈ rules → effective r → ¬ outranks r w)
      ∧ (∀ k r, k < j → rules !! k = Some r → effective r → outranks w r)
  end.

Lemma best_skip pre winner rule :
  ¬ effective rule → best pre winner → best (pre ++ [rule]) winner.
Proof.
  intros Hr. destruct winner as [j|]; simpl.
  - intros (w & Hj & Hw & Hmax & Hfirst). exists w. split_and!.
    + by apply lookup_app_l_Some.
    + done.
    + intros r [?| ->%list_elem_of_singleton]%elem_of_app ?; [by apply Hmax|done].
    + intros k r Hk Hl. apply lookup_lt_Some in Hj as ?. rewrite lookup_app_l in Hl by lia. eauto.
  - rewrite Forall_app, Forall_singleton. done.
Qed.

Lemma best_keep pre j w rule :
  pre !! j = Some w → ¬ outranks rule w → best pre (Some j) → best (pre ++ [rule]) (Some j).
Proof.
  intros Hj' Hr (w' & Hj & Hw & Hmax & Hfirst). assert (w' = w) as -> by congruence. exists w. split_and!.
  - by apply lookup_app_l_Some.
  - done.
  - intros r [?| ->%list_elem_of_singleton]%elem_of_app ?; [by apply Hmax|done].
  - intros k r Hk Hl. apply lookup_lt_Some in Hj as ?. rewrite lookup_app_l in Hl by lia. eauto.
Qed.

Lemma best_replace pre winner rule :
  effective rule →
  match winner with None => True | Some j => ∀ w, pre !! j = Some w → outranks rule w end →
  best pre winner → best (pre ++ [rule]) (Some (length pre)).
Proof.
  intros Hr Hout Hbest. exists rule.
  assert (∀ r, r ∈ pre → effective r → outranks rule r) as Hall.
  { destruct winner as [j|]; simpl in Hbest.
    - destruct Hbest as (w & Hj & _ & Hmax & _). intros r Hin Heff.
      eapply outranks_cotrans; eauto.
    - rewrite Forall_forall in Hbest. intros r Hin Heff. by destruct (Hbest r). }
  split_and!; [by apply list_lookup_middle|done|..].
  - intros r [Hin| ->%list_elem_of_singleton]%elem_of_app Heff.
    + by apply outranks_asym, Hall.
    + intros Habs. by apply (outranks_asym rule rule).
  - intros k r Hk Hl. rewrite lookup_app_l in Hl by lia. apply Hall. by eapply list_elem_of_lookup_2.
Qed.

Lemma evaluateLoop_best rules pre rest winner :
  rules = pre ++ rest → best pre winner →
  best rules (evaluateLoop rules request (length pre) rest winner).
Proof.
  revert pre winner. induction rest as [|rule rest IH]; intros pre winner Hrules Hbest; simpl.
  { by rewrite Hrules, app_nil_r. }
  assert (rules = (pre ++ [rule]) ++ rest) as Hrules' by by rewrite <- app_assoc.
  replace (S (length pre)) with (length (pre ++ [rule])) by (rewrite length_app; simpl; lia).
  destruct (skipped rule request) eqn:Hs.
  - apply IH, best_skip; auto. unfold effective. congruence.
  - apply IH; [done|]. destruct winner as [j|]; [|by apply best_replace with None].
    pose proof Hbest as (w & Hj & _).
    rewrite Hrules, (lookup_app_l_Some _ _ _ _ Hj).
    destruct (replaces rule w) eqn:Hrep.
    + apply replaces_iff in Hrep. apply best_replace with (Some j); [done| |done].
      intros w' ?. by simplify_eq.
    + eapply best_keep; eauto. rewrite <- replaces_iff. congruence.
Qed.

Lemma Evaluate_best rules : best rules (evaluateLoop rules request 0 rules None).
Proof. apply (evaluateLoop_best rules []); [done|constructor]. Qed.

(** The decision determined by a best rule. *)
Lemma Evaluate_cases rules :
  (Forall (λ r, ¬ effective r) rules
   ∧ Evaluate rules request = {| Allowed := false; Reason := ReasonDefaultDeny; RuleIndex := -1 |})
  ∨ ∃ j w, best rules (Some j) ∧ rules !! j = Some w
    ∧ ((Rule_Effect w = Permit
        ∧ Evaluate rules request
          = {| Allowed := true; Reason := ReasonExplicitPermit; RuleIndex := Z.of_nat j |})
       ∨ (Rule_Effect w = Reject
          ∧ Evaluate rules request
            = {| Allowed := false; Reason := ReasonExplicitReject; RuleIndex := Z.of_nat j |})).
Proof.
  pose proof (Evaluate_best rules) as Hb. unfold Evaluate.
  destruct (evaluateLoop _ _ _ _ _) as [j|] eqn:E; [right|by left].
  pose proof Hb as (w & Hj & [Heff _]%effective_iff & _). exists j, w.
  split; [done|]. split; [done|]. rewrite Hj. unfold isReject.
  destruct Heff as [Hp|Hr]; [left|right].
  - rewrite bool_decide_eq_false_2 by congruence. done.
  - rewrite bool_decide_eq_true_2 by done. done.
Qed.
End PolicySpec.

(** ** Properties *)

Section Properties.
Context `{UnicodeData}.

(** The decision is explained by a rule.  Either no rule with a known
    effect matches and the answer is the default denial with index -1, or the
    index is that of a matching rule of maximal priority, a reject if any
    matching rule of that priority is one, and the earliest such rule; the
    decision is that rule's effect. *)
Theorem Evaluate_winner rules request :
  (Evaluate rules request = {| Allowed := false; Reason := ReasonDefaultDeny; RuleIndex := -1 |}
   ∧ ∀ r, r ∈ rules → Rule_Effect r = Permit ∨ Rule_Effect r = Reject → ruleMatches r request = false)
  ∨ ∃ j w, rules !! j = Some w ∧ ruleMatches w request = true
    ∧ RuleIndex (Evaluate rules request) = Z.of_nat j
    ∧ (Rule_Effect w = Permit ∧ Allowed (Evaluate rules request) = true
         ∧ Reason (Evaluate rules request) = ReasonExplicitPermit
       ∨ Rule_Effect w = Reject ∧ Allowed (Evaluate rules request) = false
         ∧ Reason (Evaluate rules request) = ReasonExplicitReject)
    ∧ ∀ k r, rules !! k = Some r → Rule_Effect r = Permit ∨ Rule_Effect r = Reject →
        ruleMatches r request = true →
        (Rule_Priority r < Rule_Priority w)%Z
        ∨ (Rule_Priority r = Rule_Priority w
           ∧ (Rule_Effect r = Reject → Rule_Effect w = Reject)
           ∧ (Rule_Effect r = Rule_Effect w → j ≤ k)).
Proof.
  destruct (Evaluate_cases request rules) as [[Hnone ->]|(j & w & Hb & Hj & Hcase)]; [left|right].
  - split; [done|]. intros r Hr Heff. apply not_true_is_false. intros Hm.
    rewrite Forall_forall in Hnone. apply (Hnone r Hr). by apply effective_iff.
  - destruct Hb as (w' & Hj' & Hw & Hmax & Hfirst). assert (w' = w) as -> by congruence.
    exists j, w. apply effective_iff in Hw as [_ Hm]. split_and!; [done|done|..].
    + by destruct Hcase as [[_ ->]|[_ ->]].
    + destruct Hcase as [[? ->]|[? ->]]; [left|right]; done.
    + intros k r Hk Heff Hr. assert (effective request r) as Hre by by apply effective_iff.
      pose proof (Hmax r (list_elem_of_lookup_2 _ _ _ Hk) Hre) as Hno.
      unfold outranks in Hno.
      destruct (Z.lt_trichotomy (Rule_Priority r) (Rule_Priority w)) as [?|[Heq|?]]; [by left| |tauto].
      right. split_and!; [done|..].
      * intros ?. destruct (decide (Rule_Effect w = Reject)); [done|]. tauto.
      * intros He. destruct (decide (j ≤ k)) as [|Hlt]; [done|].
        destruct (Hfirst k r) as [?|(? & ? & Hne)]; try done; [lia|lia|congruence].
Qed.

Lemma Allowed_iff rules request :
  Allowed (Evaluate rules request) = true ↔
  ∃ p, p ∈ rules ∧ Rule_Effect p = Permit ∧ ruleMatches p request = true
    ∧ ∀ r, r ∈ rules → Rule_Effect r = Reject → ruleMatches r request = true →
        (Rule_Priority r < Rule_Priority p)%Z.
Proof.
  destruct (Evaluate_cases request rules) as [[Hnone ->]|(j & w & Hb & Hj & Hcase)]; simpl.
  - split; [done|]. intros (p & Hp & He & Hm & _). rewrite Forall_forall in Hnone.
    destruct (Hnone p Hp). apply effective_iff. auto.
  - destruct Hb as (w' & Hj' & Hw & Hmax & Hfirst). assert (w' = w) as -> by congruence.
    apply effective_iff in Hw as [_ Hm]. apply list_elem_of_lookup_2 in Hj.
    destruct Hcase as [[Hp ->]|[Hr ->]]; simpl; split; try done.
    + intros _. exists w. split_and!; try done. intros r Hin Hrej Hmr.
      assert (effective request r) as Hre by (apply effective_iff; auto).
      pose proof (Hmax r Hin Hre) as Hno. unfold outranks in Hno.
      destruct (decide (Rule_Priority r = Rule_Priority w)%Z) as [Heq|]; [|lia].
      destruct Hno. right. rewrite Hp. done.
    + intros (p & Hin & Hp & Hmp & Hall). pose proof (Hall w Hj Hr Hm).
      assert (effective request p) as Hpe by (apply effective_iff; auto).
      destruct (Hmax p Hin Hpe). by left.
Qed.

Lemma Reason_allowed rules request :
  Reason (Evaluate rules request) =
    if Allowed (Evaluate rules request) then ReasonExplicitPermit
    else if bool_decide (Exists (effective request) rules) then ReasonExplicitReject
    else ReasonDefaultDeny.
Proof.
  destruct (Evaluate_cases request rules) as [[Hnone ->]|(j & w & Hb & Hj & Hcase)]; simpl.
  - rewrite bool_decide_eq_false_2; [done|]. rewrite <- Forall_Exists_neg. done.
  - destruct Hcase as [[Hp ->]|[Hr ->]]; simpl; [done|]. rewrite bool_decide_eq_true_2; [done|].
    destruct Hb as (w' & Hj' & Hw & _). apply Exists_exists. exists w'.
    split; [by eapply list_elem_of_lookup_2|done].
Qed.

(** C2: a request is allowed exactly when some matching permit rule has a
    priority strictly above every matching reject rule. *)
Theorem Evaluate_allowed_iff rules request :
  Allowed (Evaluate rules request) = true ↔
  ∃ p, p ∈ rules ∧ Rule_Effect p = Permit ∧ ruleMatches p request = true
    ∧ ∀ r, r ∈ rules → Rule_Effect r = Reject → ruleMatches r request = true →
        (Rule_Priority r < Rule_Priority p)%Z.
Proof. apply Allowed_iff. Qed.

(** Neither the permission nor the reason depends on the order in which
    the rules are written (only the reported index does). *)
Theorem Evaluate_permutation rules rules' request :
  rules ≡ₚ rules' →
  Allowed (Evaluate rules request) = Allowed (Evaluate rules' request)
  ∧ Reason (Evaluate rules request) = Reason (Evaluate rules' request).
Proof.
  intros Hperm.
  assert (Allowed (Evaluate rules request) = Allowed (Evaluate rules' request)) as Ha.
  { apply eq_true_iff_eq. rewrite !Allowed_iff. by setoid_rewrite Hperm. }
  split; [done|]. rewrite !Reason_allowed, Ha.
  rewrite (bool_decide_ext _ (Exists (effective request) rules')); [done|]. by rewrite Hperm.
Qed.

(** Rejects only restrict.  A request allowed in the presence of a reject
    rule is allowed without it, wherever the rule stands. *)
Theorem Evaluate_reject_restricts pre rule post request :
  Rule_Effect rule = Reject →
  Allowed (Evaluate (pre ++ rule :: post) request) = true →
  Allowed (Evaluate (pre ++ post) request) = true.
Proof.
  rewrite !Allowed_iff. intros Hr (p & Hin & Hp & Hm & Hall). exists p. split_and!; try done.
  - apply elem_of_app in Hin as [?|[->|?]%elem_of_cons]; [set_solver|congruence|set_solver].
  - intros r ?. apply Hall. set_solver.
Qed.

(** C5: authorization is fail-closed.  Without a matching permit rule the
    operation is refused with the decision's reason, and the continuation is
    not run: the world is the one before the call, whatever the continuation
    would do. *)
Theorem Enforce_fail_closed {W E} rules request (next : option (W → result unit E * W)) w :
  (∀ r, r ∈ rules → Rule_Effect r = Permit → ruleMatches r request = false) →
  Enforce (Evaluate rules request) next w
    = (Err (ErrDenied (Reason (Evaluate rules request))), w)
  ∧ Reason (Evaluate rules request) ≠ ReasonExplicitPermit.
Proof.
  intros Hno. assert (Allowed (Evaluate rules request) = false) as Ha.
  { apply not_true_is_false. rewrite Allowed_iff. intros (p & Hin & Hp & Hm & _).
    rewrite (Hno p Hin Hp) in Hm. done. }
  unfold Enforce. rewrite Ha. split; [done|]. rewrite Reason_allowed, Ha. by case_bool_decide.
Qed.
End Properties.

(** ** Witnesses *)

Definition anyRule (effect : Effect) (priority : Z) (source destination : bytes) : Rule :=
  {| Rule_Effect := effect; Rule_Priority := priority; Rule_Source := source; Rule_Protocol := "http";
     Rule_Destination := destination; Rule_Method := "*"; Rule_Mount := [] |}.

Definition sampleRequest (source destination : bytes) : PolicyRequest :=
  {| PolicyRequest_Source := source; PolicyRequest_Protocol := "HTTP";
     PolicyRequest_Destination := destination; PolicyRequest_Method := "GET"; PolicyRequest_Mount := "/a" |}.

Lemma Evaluate_permutation_witness :
  let U := asciiUnicode in
  let a := anyRule Permit 1 "10.0.0.0/8" "*.example.com" in
  let b := anyRule Reject 1 "10.1.0.0/16" "*" in
  let request := sampleRequest "10.2.3.4" "www.Example.com" in
  Allowed (Evaluate [a; b] request) = true
  ∧ Allowed (Evaluate [a; b] request) = Allowed (Evaluate [b; a] request)
  ∧ Reason (Evaluate [a; b] request) = Reason (Evaluate [b; a] request).
Proof.
  intros U a b request. split; [by vm_compute|].
  apply (Evaluate_permutation [a; b] [b; a] request). apply perm_swap.
Defined.

Lemma Evaluate_reject_restricts_witness :
  let U := asciiUnicode in
  let a := anyRule Permit 2 "10.0.0.0/8" "*" in
  let b := anyRule Reject 1 "*" "*" in
  Allowed (Evaluate [a] (sampleRequest "10.2.3.4" "backend")) = true.
Proof.
  intros U a b.
  apply (Evaluate_reject_restricts [a] b [] (sampleRequest "10.2.3.4" "backend")); by vm_compute.
Defined.

Lemma Enforce_fail_closed_witness :
  let U := asciiUnicode in
  let rules := [anyRule Permit 1 "10.0.0.0/8" "*"; anyRule (OtherEffect "allow") 9 "*" "*"] in
  let request := sampleRequest "192.0.2.7" "backend" in
  Enforce (E := unit) (Evaluate rules request) (Some (λ n, (Ok tt, S n))) 0
    = (Err (ErrDenied (Reason (Evaluate rules request))), 0)
  ∧ Reason (Evaluate rules request) ≠ ReasonExplicitPermit.
Proof.
  intros U rules request. apply (Enforce_fail_closed rules request).
  intros r [->|[->|Hr]%elem_of_cons]%elem_of_cons.
  - by vm_compute.
  - discriminate.
  - by apply not_elem_of_nil in Hr.
Defined.

(** Rule source addresses are compared as text: a reject rule written with an
    uppercase IPv6 address is valid, yet the client of that address, which the
    server reports in the canonical lower-case form, is let through by a permit
    rule of lower priority. *)
Theorem Evaluate_textual_source :
  let U := asciiUnicode in
  let rejecting := anyRule Reject 10 "2001:DB8::1" "*" in
  let permitting := anyRule Permit 1 "*" "*" in
  Rule_Validate rejecting = Ok tt ∧ Rule_Validate permitting = Ok tt
  ∧ parseAddr "2001:DB8::1" = parseAddr "2001:db8::1"
  ∧ Allowed (Evaluate [rejecting; permitting] (sampleRequest "2001:DB8::1" "backend")) = false
  ∧ Allowed (Evaluate [rejecting; permitting] (sampleRequest "2001:db8::1" "backend")) = true.
Proof. by vm_compute. Qed.
