(* ===== verification/ClientAddr.v ===== *)
(** clientaddr/clientaddr.go: the policy source address behind trusted reverse
    proxies. *)

From S2P Require Import Prelude GoStrings GoUtf8 GoNet.

(** ** The code *)

Inductive AddressError :=
| InvalidPeer (remoteAddress : bytes)
| InvalidForwarded (part : bytes).

#[export] Instance AddressError_eq_dec : EqDecision AddressError.
Proof. solve_decision. Defined.

Fixpoint containsAddr (prefixes : list Prefix) (address : Addr) : bool :=
  match prefixes with
  | [] => false
  | prefix :: rest => if prefixContains prefix address then true else containsAddr rest address
  end.

(** The host of the remote address, the whole text when it has no port. *)
Definition peerHost (remoteAddress : bytes) : bytes :=
  match splitHostPort remoteAddress with
  | Some (host, _) => host
  | None => remoteAddress
  end.

(** The loop that fills [addresses]; it stops at the first bad entry. *)
Fixpoint forwardedAddresses (parts : list bytes) : result (list Addr) AddressError :=
  match parts with
  | [] => Ok []
  | part :: rest =>
      let! address := orElse (parseAddr (trimSpace part)) (InvalidForwarded (trimSpace part)) in
      let! addresses := forwardedAddresses rest in
      Ok (unmap address :: addresses)
  end.

(** The loop over [i := len(addresses) - 1] down to 0. *)
Fixpoint nearestUntrusted (trusted : list Prefix) (addresses : list Addr) (i : nat) : option Addr :=
  match i with
  | 0 => None
  | S j =>
      match addresses !! j with
      | Some address =>
          if negb (containsAddr trusted address) then Some address
          else nearestUntrusted trusted addresses j
      | None => None
      end
  end.

(** [func Resolve]. *)
Definition ResolveClient (remoteAddress forwarded : bytes) (trusted : list Prefix)
    : result bytes AddressError :=
  match parseAddr (trimSpace (peerHost remoteAddress)) with
  | None => Err (InvalidPeer remoteAddress)
  | Some peer =>
      let peer := unmap peer in
      if negb (containsAddr trusted peer) || bool_decide (trimSpace forwarded = [])
      then Ok (addrString peer)
      else
        let! addresses := forwardedAddresses (splitByte forwarded ",") in
        match nearestUntrusted trusted addresses (length addresses) with
        | Some address => Ok (addrString address)
        | None =>
            match addresses with
            | first :: _ => Ok (addrString first)
            | [] => Err (InvalidForwarded [])
            end
        end
  end.

(** ** Lemmas *)

Lemma containsAddr_Exists prefixes address :
  containsAddr prefixes address = true ↔ Exists (λ p, prefixContains p address = true) prefixes.
Proof.
  induction prefixes as [|p ps IH]; simpl; [by rewrite Exists_nil|].
  rewrite Exists_cons, <- IH. destruct (prefixContains p address); naive_solver.
Qed.

Definition untrusted (trusted : list Prefix) (address : Addr) : Prop :=
  containsAddr trusted address = false.

#[export] Instance untrusted_dec trusted address : Decision (untrusted trusted address).
Proof. unfold untrusted. apply _. Defined.

Lemma nearestUntrusted_take trusted addresses i :
  i ≤ length addresses →
  nearestUntrusted trusted addresses i = last (filter (untrusted trusted) (take i addresses)).
Proof.
  induction i as [|i IH]; intros Hi; [done|].
  destruct (lookup_lt_is_Some_2 addresses i) as [a Ha]; [lia|].
  rewrite (take_S_r _ _ _ Ha), filter_app, filter_cons, filter_nil. cbn [nearestUntrusted]. rewrite Ha.
  case_decide as Hd; unfold untrusted in Hd.
  - rewrite Hd, last_snoc. done.
  - apply not_false_is_true in Hd. rewrite Hd, app_nil_r. apply IH. lia.
Qed.

Lemma nearestUntrusted_last trusted addresses :
  nearestUntrusted trusted addresses (length addresses) = last (filter (untrusted trusted) addresses).
Proof. rewrite nearestUntrusted_take by done. by rewrite firstn_all. Qed.

Lemma forwardedAddresses_app parts parts' addresses addresses' :
  forwardedAddresses parts = Ok addresses → forwardedAddresses parts' = Ok addresses' →
  forwardedAddresses (parts ++ parts') = Ok (addresses ++ addresses').
Proof.
  revert addresses. induction parts as [|part parts IH]; intros addresses; simpl.
  - by intros [= <-].
  - destruct (orElse _ _) as [a|]; [|done]. destruct (forwardedAddresses parts) as [l|]; [|done].
    intros [= <-] H'. by rewrite (IH l).
Qed.

Lemma forwardedAddresses_length parts addresses :
  forwardedAddresses parts = Ok addresses → length addresses = length parts.
Proof.
  revert addresses. induction parts as [|part parts IH]; intros addresses; simpl; [by intros [= <-]|].
  destruct (orElse _ _) as [a|]; [|done]. destruct (forwardedAddresses parts) as [l|]; [|done].
  intros [= <-]. simpl. by rewrite (IH l).
Qed.

(** A string of white space has no comma and is not an address. *)
Lemma dropWhileb_nil {A} (f : A → bool) l : dropWhileb f l = [] ↔ Forall (λ x, f x = true) l.
Proof.
  induction l as [|x l IH]; simpl; [done|]. rewrite Forall_cons, <- IH.
  destruct (f x); naive_solver.
Qed.

Lemma dropWhileb_reverse_nil {A} (f : A → bool) l :
  dropWhileb f (reverse (dropWhileb f l)) = [] → dropWhileb f l = [].
Proof.
  rewrite dropWhileb_nil, Forall_reverse, <- dropWhileb_nil.
  induction l as [|x l IH]; simpl; [done|]. destruct (f x) eqn:E; [done|]. simpl. by rewrite E.
Qed.

Lemma trimSpace_nil s : trimSpace s = [] → Forall (λ p, spacePiece p = true) (runePieces s).
Proof.
  unfold trimSpace. set (l := dropWhileb _ (runePieces s)). intros H.
  apply dropWhileb_nil. fold l.
  assert (Forall (λ p : option Z * bytes, snd p ≠ []) (dropWhileb spacePiece (reverse l))) as Hne.
  { assert (∀ l', Forall (λ p : option Z * bytes, snd p ≠ []) l' →
              Forall (λ p : option Z * bytes, snd p ≠ []) (dropWhileb spacePiece l')) as Hd.
    { induction 1; simpl; [constructor|]. destruct (spacePiece _); [done|by constructor]. }
    apply Hd, Forall_reverse, Hd, runePieces_ne. }
  destruct (dropWhileb spacePiece (reverse l)) as [|q qs] eqn:E.
  - by apply dropWhileb_reverse_nil in E.
  - apply Forall_cons in Hne as [Hq _]. rewrite reverse_cons, fmap_app, concat_app in H.
    apply app_nil in H as [_ H]. simpl in H. by rewrite app_nil_r in H.
Qed.

Lemma trimSpace_nonspace a c b :
  (code c < 128)%Z → isSpace (code c) = false → trimSpace (a ++ c :: b) ≠ [].
Proof.
  intros Hc Hs H%trimSpace_nil. rewrite runePieces_app, Forall_app, Forall_cons in H by done.
  destruct H as (_ & H & _). unfold spacePiece in H. simpl in H. congruence.
Qed.

Lemma parseAddr_nil : parseAddr [] = None.
Proof. done. Qed.

(** A list of parsed entries cannot come from a blank header. *)
Lemma forwardedAddresses_blank forwarded addresses :
  forwardedAddresses (splitByte forwarded ",") = Ok addresses → trimSpace forwarded ≠ [].
Proof.
  destruct (decide (","%char ∈ forwarded)) as [(a & b & ->)%list_elem_of_split|Hc].
  - intros _. apply trimSpace_nonspace; by vm_compute.
  - rewrite splitByte_whole by done. simpl. intros H Hb. by rewrite Hb in H.
Qed.

(** ** Properties *)

(** C29: the client of a request from a trusted peer that supplied a chain of
    valid addresses is the nearest hop (the last entry) that is not itself a
    trusted proxy; only when every entry is trusted is it the farthest one. *)
Theorem ResolveClient_rightmost remote forwarded trusted peer addresses :
  parseAddr (trimSpace (peerHost remote)) = Some peer →
  containsAddr trusted (unmap peer) = true →
  forwardedAddresses (splitByte forwarded ",") = Ok addresses →
  (∃ before client after, addresses = before ++ client :: after
     ∧ containsAddr trusted client = false
     ∧ Forall (λ a, containsAddr trusted a = true) after
     ∧ ResolveClient remote forwarded trusted = Ok (addrString client))
  ∨ (∃ first after, addresses = first :: after
     ∧ Forall (λ a, containsAddr trusted a = true) addresses
     ∧ ResolveClient remote forwarded trusted = Ok (addrString first)).
Proof.
  intros Hpeer Htrust Haddrs. unfold ResolveClient.
  pose proof (forwardedAddresses_blank _ _ Haddrs) as Hblank.
  rewrite Hpeer, Htrust, Haddrs, bool_decide_eq_false_2 by done. cbn [negb orb].
  rewrite nearestUntrusted_last.
  destruct (last _) as [client|] eqn:El; [left|right].
  - apply last_Some in El as [l El]. revert El. clear -addresses. revert l.
    induction addresses as [|a addresses IH] using rev_ind; intros l.
    { intros H. by destruct l. }
    rewrite filter_app, filter_cons, filter_nil. case_decide as Hd; unfold untrusted in Hd.
    + intros [_ <-]%snoc_inj. eexists _, _, []. split_and!; done.
    + rewrite app_nil_r. intros (b & c & d & -> & ? & ? & ?)%IH.
      exists b, c, (d ++ [a]). rewrite <- app_assoc. split_and!; try done.
      apply Forall_app. split; [done|]. apply Forall_singleton. by apply not_false_is_true.
  - apply last_None in El.
    assert (Forall (λ a, containsAddr trusted a = true) addresses) as Hall.
    { apply Forall_forall. intros a Ha. apply not_false_is_true. intros Hu.
      assert (a ∈ filter (untrusted trusted) addresses) as Hin by by apply list_elem_of_filter.
      rewrite El in Hin. by apply not_elem_of_nil in Hin. }
    destruct addresses as [|a rest]; [|eauto].
    apply forwardedAddresses_length in Haddrs. pose proof (splitByte_ne ","%char forwarded).
    by destruct (splitByte forwarded ",").
Qed.

(** The forwarding header of a peer outside the trusted networks has no
    influence. *)
Theorem ResolveClient_untrusted_peer remote forwarded trusted peer :
  parseAddr (trimSpace (peerHost remote)) = Some peer →
  containsAddr trusted (unmap peer) = false →
  ResolveClient remote forwarded trusted = Ok (addrString (unmap peer)).
Proof. intros Hpeer Hu. unfold ResolveClient. by rewrite Hpeer, Hu. Qed.

Lemma forwardedAddresses_bad parts parts' e :
  forwardedAddresses parts = Err e → forwardedAddresses (parts ++ parts') = Err e.
Proof.
  revert e. induction parts as [|part parts IH]; intros e; [done|]. cbn.
  destruct (orElse _ _); [|done]. destruct (forwardedAddresses parts); [done|]. intros [= ->]. by rewrite (IH e).
Qed.

Lemma forwardedAddresses_error parts e : forwardedAddresses parts = Err e → ∃ part, e = InvalidForwarded part.
Proof.
  revert e. induction parts as [|part parts IH]; intros e; [done|]. cbn. destruct (parseAddr _); cbn.
  - destruct (forwardedAddresses parts); [done|]. intros [= <-]. by apply IH.
  - intros [= <-]. by eexists.
Qed.

(** C10: a client cannot forge its address.  When the chain the proxies
    appended names a hop that is not a trusted proxy, whatever the client puts
    in front of it - addresses or anything else - the result is that of the
    chain alone, or the request is refused because an entry is no address; it
    is that of the chain whenever the forged entries are addresses. *)
Theorem ResolveClient_spoofing remote forged forwarded trusted addresses :
  forwardedAddresses (splitByte forwarded ",") = Ok addresses →
  Exists (untrusted trusted) addresses →
  (ResolveClient remote (forged ++ "," ++ forwarded) trusted = ResolveClient remote forwarded trusted
   ∨ ∃ part, ResolveClient remote (forged ++ "," ++ forwarded) trusted = Err (InvalidForwarded part))
  ∧ ∀ entries, forwardedAddresses (splitByte forged ",") = Ok entries →
      ResolveClient remote (forged ++ "," ++ forwarded) trusted = ResolveClient remote forwarded trusted.
Proof.
  intros Haddrs Hex. unfold ResolveClient.
  destruct (parseAddr _) as [peer|]; [|by split; [left|]].
  destruct (negb (containsAddr trusted (unmap peer))); [by split; [left|]|]. cbn [orb].
  pose proof (forwardedAddresses_blank _ _ Haddrs).
  rewrite !bool_decide_eq_false_2 by (done || by apply trimSpace_nonspace).
  change (forged ++ "," ++ forwarded) with (forged ++ ","%char :: forwarded). rewrite splitByte_app_any, Haddrs.
  destruct (forwardedAddresses (splitByte forged ",")) as [entries|e] eqn:Hforged.
  2:{ rewrite (forwardedAddresses_bad _ _ _ Hforged). apply forwardedAddresses_error in Hforged as [part ->].
      split; [right; by exists part|done]. }
  rewrite (forwardedAddresses_app _ _ _ _ Hforged Haddrs), !nearestUntrusted_last, filter_app.
  apply Exists_exists in Hex as (a & Ha & Hu).
  destruct (last (filter (untrusted trusted) addresses)) as [c|] eqn:El.
  - rewrite last_app, El. by split; [left|].
  - apply last_None in El. assert (a ∈ filter (untrusted trusted) addresses) as Hin
      by by apply list_elem_of_filter. rewrite El in Hin. by apply not_elem_of_nil in Hin.
Qed.

(** ** Witnesses *)

Definition sampleTrusted : list Prefix :=
  omap parsePrefix ["10.0.0.0/8" : bytes; "2001:db8::/32" : bytes].

Lemma ResolveClient_rightmost_witness :
  ResolveClient "10.0.0.1:4000" "203.0.113.9, 198.51.100.7, 10.2.3.4" sampleTrusted = Ok ("198.51.100.7" : bytes).
Proof.
  destruct (ResolveClient_rightmost "10.0.0.1:4000" "203.0.113.9, 198.51.100.7, 10.2.3.4" sampleTrusted
              (V4 167772161) [V4 3405803785; V4 3325256711; V4 167904004])
    as [(before & client & after & _ & _ & _ & H)|(first & after & _ & _ & H)];
    [by vm_compute..| |]; rewrite H; rewrite <- H; by vm_compute.
Defined.

Lemma ResolveClient_untrusted_peer_witness :
  ResolveClient "[::ffff:192.0.2.1]:99" "203.0.113.9" sampleTrusted = Ok ("192.0.2.1" : bytes).
Proof.
  rewrite (ResolveClient_untrusted_peer "[::ffff:192.0.2.1]:99" "203.0.113.9" sampleTrusted
             (V6 [0; 0; 0; 0; 0; 65535; 49152; 513]%Z [])); by vm_compute.
Defined.

Lemma ResolveClient_spoofing_witness :
  ResolveClient "10.0.0.1:4000" ("10.9.9.9, ::1" ++ "," ++ "198.51.100.7, 2001:db8::2") sampleTrusted
  = Ok ("198.51.100.7" : bytes).
Proof.
  destruct (ResolveClient_spoofing "10.0.0.1:4000" "10.9.9.9, ::1" "198.51.100.7, 2001:db8::2" sampleTrusted
             [V4 3325256711; V6 [8193; 3512; 0; 0; 0; 0; 0; 2]%Z []]) as [_ Hsame].
  - by vm_compute.
  - apply Exists_cons_hd. by vm_compute.
  - rewrite (Hsame [V4 168364297; V6 [0; 0; 0; 0; 0; 0; 0; 1]%Z []]) by by vm_compute. by vm_compute.
Defined.

(** The chain must name such a hop: behind trusted proxies only, the first
    entry that is not one is taken for the client, whoever wrote it. *)
Theorem ResolveClient_trusted_chain :
  ResolveClient "10.0.0.1:4000" "10.0.0.5" sampleTrusted = Ok ("10.0.0.5" : bytes)
  ∧ ResolveClient "10.0.0.1:4000" "1.2.3.4,10.0.0.5" sampleTrusted = Ok ("1.2.3.4" : bytes).
Proof. split; by vm_compute. Qed.
