(* ===== verification/Config.v ===== *)
(** config/config.go and config/toml.go: the canonical configuration and its
    validation. *)

From S2P Require Import Prelude GoStrings GoUtf8 GoNet GoUrl Path TlsConfig Mount Resolve Policy.

(** ** The code *)

Record Server := {
  Server_Name : bytes;
  Server_Protocol : bytes;
  Server_Listen : bytes;
  ClientIPHeader : bytes;
  TrustedProxies : list bytes;
  Server_TLS : option Frontend;
}.

#[export] Instance Server_eq_dec : EqDecision Server.
Proof. solve_decision. Defined.

Record Config := {
  Servers : list Server;
  Mounts : list Mount;
  Policies : list Rule;
}.

#[export] Instance Config_eq_dec : EqDecision Config.
Proof. solve_decision. Defined.

(** One constructor per error site of [Config.Validate]. *)
Inductive ConfigError :=
| NoServers
| ServerNameRequired (i : nat)
| ServerProtocolRequired (name : bytes)
| ServerListenRequired (name : bytes)
| HeaderWithoutProxies (name : bytes)
| ProxiesWithoutHeader (name : bytes)
| InvalidHeader (name header : bytes)
| InvalidProxy (name prefix : bytes)
| ServerTLSInvalid (name : bytes) (e : TLSError)
| DuplicateName (name : bytes)
| DuplicateListen (listen : bytes)
| MountInvalid (i : nat) (e : MountError)
| UnknownServer (i : nat) (server : bytes)
| ProtocolMismatch (i : nat) (protocol server serverProtocol : bytes)
| ProtocolUnserved (i : nat) (protocol : bytes)
| PolicyInvalid (i : nat) (e : RuleError).

#[export] Instance ConfigError_eq_dec : EqDecision ConfigError.
Proof. solve_decision. Defined.

(** [func validHeaderName]. *)
Definition headerPunctuation : bytes := "!#$%&'*+-.^_`|~".

Definition headerRune (character : Z) : bool :=
  ((97 <=? character) && (character <=? 122))%Z
  || ((65 <=? character) && (character <=? 90))%Z
  || ((48 <=? character) && (character <=? 57))%Z
  || bool_decide (character ∈ (code <$> headerPunctuation)).

Definition validHeaderName (name : bytes) : bool :=
  forallb headerRune (runes name) && negb (bool_decide (name = [])).

(** The loop over [server.TrustedProxies]. *)
Fixpoint checkProxies (name : bytes) (proxies : list bytes) : result unit ConfigError :=
  match proxies with
  | [] => Ok tt
  | prefix :: rest =>
      match parsePrefix prefix with
      | None => Err (InvalidProxy name prefix)
      | Some _ => checkProxies name rest
      end
  end.

(** The body of the server loop up to the duplicate tests. *)
Definition checkServer (i : nat) (server : Server) : result unit ConfigError :=
  let name := Server_Name server in
  refuse ServerNameRequired i when blank name ;;
  refuse ServerProtocolRequired name when blank (Server_Protocol server) ;;
  refuse ServerListenRequired name when blank (Server_Listen server) ;;
  refuse HeaderWithoutProxies name
    when negb (bool_decide (ClientIPHeader server = [])) && (length (TrustedProxies server) =? 0) ;;
  refuse ProxiesWithoutHeader name
    when (0 <? length (TrustedProxies server)) && bool_decide (ClientIPHeader server = []) ;;
  refuse InvalidHeader name (ClientIPHeader server)
    when negb (bool_decide (ClientIPHeader server = [])) && negb (validHeaderName (ClientIPHeader server)) ;;
  let! _ := checkProxies name (TrustedProxies server) in
  match Server_TLS server with
  | None => Ok tt
  | Some tls => wrap (ServerTLSInvalid name) (Frontend_Validate tls)
  end.

Fixpoint checkServers (i : nat) (servers : list Server) (seen seenListen : gset bytes)
    : result unit ConfigError :=
  match servers with
  | [] => Ok tt
  | server :: rest =>
      let! _ := checkServer i server in
      refuse DuplicateName (Server_Name server) when bool_decide (Server_Name server ∈ seen) ;;
      refuse DuplicateListen (Server_Listen server) when bool_decide (Server_Listen server ∈ seenListen) ;;
      checkServers (S i) rest ({[Server_Name server]} ∪ seen) ({[Server_Listen server]} ∪ seenListen)
  end.

(** The first server of that name. *)
Fixpoint findServer (servers : list Server) (name : bytes) : option Server :=
  match servers with
  | [] => None
  | server :: rest => if bool_decide (Server_Name server = name) then Some server else findServer rest name
  end.

Definition scoped (scope : bytes) : bool :=
  negb (bool_decide (scope = [])) && negb (bool_decide (scope = "*")).

Section Validate.
Context `{UnicodeData}.

(** The body of the mount loop. *)
Definition checkMount (servers : list Server) (i : nat) (mapping : Mount) : result unit ConfigError :=
  let! _ := wrap (MountInvalid i) (Mount_Validate mapping) in
  let! scopedServer :=
    (if scoped (Mount_Server mapping) then
       match findServer servers (Mount_Server mapping) with
       | Some server => Ok (Some server)
       | None => Err (UnknownServer i (Mount_Server mapping))
       end
     else Ok None) in
  if scoped (Mount_Protocol mapping) then
    match scopedServer with
    | Some server =>
        refuse ProtocolMismatch i (Mount_Protocol mapping) (Server_Name server) (Server_Protocol server)
          when negb (equalFold (Server_Protocol server) (Mount_Protocol mapping)) ;;
        Ok tt
    | None =>
        refuse ProtocolUnserved i (Mount_Protocol mapping)
          when negb (existsb (λ server, equalFold (Server_Protocol server) (Mount_Protocol mapping)) servers) ;;
        Ok tt
    end
  else Ok tt.

Fixpoint checkMounts (servers : list Server) (i : nat) (mounts : list Mount) : result unit ConfigError :=
  match mounts with
  | [] => Ok tt
  | mapping :: rest =>
      let! _ := checkMount servers i mapping in
      checkMounts servers (S i) rest
  end.

Fixpoint checkPolicies (i : nat) (rules : list Rule) : result unit ConfigError :=
  match rules with
  | [] => Ok tt
  | rule :: rest =>
      let! _ := wrap (PolicyInvalid i) (Rule_Validate rule) in
      checkPolicies (S i) rest
  end.

(** [func (c Config) Validate]. *)
Definition Config_Validate (c : Config) : result unit ConfigError :=
  refuse NoServers when length (Servers c) =? 0 ;;
  let! _ := checkServers 0 (Servers c) ∅ ∅ in
  let! _ := checkMounts (Servers c) 0 (Mounts c) in
  checkPolicies 0 (Policies c).
End Validate.

(** [ParseTOML]: the decoder is github.com/pelletier/go-toml; its strict mode
    reports unknown fields, its syntax errors carry a position. *)
Inductive DecodeError :=
| StrictMissing (keys : list (list bytes))
| SyntaxAt (row column : Z) (message : bytes)
| OtherDecode (message : bytes).

Class TOMLDecoder := { decodeTOML : bytes → result Config DecodeError }.

Inductive TOMLError :=
| TOMLInputRequired
| TOMLUnknownFields (keys : list bytes)
| TOMLSyntax (row column : Z) (message : bytes)
| TOMLOther (message : bytes)
| TOMLInvalid (e : ConfigError).

Definition tomlError (e : DecodeError) : TOMLError :=
  match e with
  | StrictMissing keys => TOMLUnknownFields ((λ key, join key ".") <$> keys)
  | SyntaxAt row column message => TOMLSyntax row column message
  | OtherDecode message => TOMLOther message
  end.

Section Toml.
Context `{UnicodeData} `{TOMLDecoder}.

(** The reader is [None] for a nil interface, otherwise all it yields. *)
Definition ParseTOML (input : option bytes) : result Config TOMLError :=
  match input with
  | None => Err TOMLInputRequired
  | Some text =>
      let! config := wrap tomlError (decodeTOML text) in
      let! _ := wrap TOMLInvalid (Config_Validate config) in
      Ok config
  end.
End Toml.

(** ** Lemmas *)

Definition serverOk (s : Server) : Prop :=
  blank (Server_Name s) = false ∧ blank (Server_Protocol s) = false ∧ blank (Server_Listen s) = false
  ∧ (ClientIPHeader s = [] ↔ TrustedProxies s = [])
  ∧ (ClientIPHeader s ≠ [] → validHeaderName (ClientIPHeader s) = true)
  ∧ Forall (λ prefix, is_Some (parsePrefix prefix)) (TrustedProxies s)
  ∧ (∀ tls, Server_TLS s = Some tls → Frontend_Validate tls = Ok tt).

Lemma checkProxies_Ok name proxies :
  checkProxies name proxies = Ok tt ↔ Forall (λ prefix, is_Some (parsePrefix prefix)) proxies.
Proof.
  induction proxies as [|p ps IH]; simpl; [done|]. rewrite Forall_cons, <- IH.
  destruct (parsePrefix p); [|naive_solver]. split; [split; [done|]|]; naive_solver.
Qed.

Lemma checkServer_Ok i s : checkServer i s = Ok tt ↔ serverOk s.
Proof.
  unfold checkServer, serverOk. rewrite <- (checkProxies_Ok (Server_Name s)).
  assert (match Server_TLS s with None => Ok tt
          | Some tls => wrap (ServerTLSInvalid (Server_Name s)) (Frontend_Validate tls) end = Ok tt
          ↔ ∀ tls, Server_TLS s = Some tls → Frontend_Validate tls = Ok tt) as Htls.
  { destruct (Server_TLS s) as [tls|]; [rewrite wrap_Ok|]; naive_solver. }
  revert Htls. generalize (match Server_TLS s with None => Ok tt
          | Some tls => wrap (ServerTLSInvalid (Server_Name s)) (Frontend_Validate tls) end).
  intros T <-.
  destruct (blank (Server_Name s)), (blank (Server_Protocol s)), (blank (Server_Listen s));
    try (split; [done|intros; by destruct_and!]).
  destruct (checkProxies _ _) as [[]|].
  2: { split; [intros Hv; follow Hv|intros; by destruct_and!]. }
  destruct (TrustedProxies s) as [|p ps], (ClientIPHeader s) as [|c cs]; simpl length;
    cbn [Nat.eqb Nat.ltb Nat.leb]; try rewrite bool_decide_eq_true_2 by done;
    try rewrite (bool_decide_eq_false_2 (c :: cs = [])) by done; cbn [negb andb].
  - split; [intros; by split_and!|intros; by destruct_and!].
  - split; [done|]. intros (_ & _ & _ & [_ Hh] & _). by specialize (Hh eq_refl).
  - split; [done|]. intros (_ & _ & _ & [Hh _] & _). by specialize (Hh eq_refl).
  - destruct (validHeaderName (c :: cs)); cbn [negb].
    + split; [intros; by split_and!|intros; by destruct_and!].
    + split; [done|]. intros (_ & _ & _ & _ & Hh & _). by specialize (Hh ltac:(done)).
Qed.

Lemma unseen_cons (n l : bytes) (seen seenListen : gset bytes) servers :
  Forall (λ s, Server_Name s ∉ {[n]} ∪ seen ∧ Server_Listen s ∉ {[l]} ∪ seenListen) servers ↔
  n ∉ (Server_Name <$> servers) ∧ l ∉ (Server_Listen <$> servers)
  ∧ Forall (λ s, Server_Name s ∉ seen ∧ Server_Listen s ∉ seenListen) servers.
Proof.
  induction servers as [|s servers IH].
  { split; [intros _; split_and!; (apply not_elem_of_nil || constructor)|constructor]. }
  rewrite !Forall_cons, !fmap_cons, !not_elem_of_cons, !not_elem_of_union, !not_elem_of_singleton, IH.
  split; intros; destruct_and!; split_and!; auto.
Qed.

Lemma checkServers_Ok i servers seen seenListen :
  checkServers i servers seen seenListen = Ok tt ↔
  Forall serverOk servers
  ∧ NoDup (Server_Name <$> servers) ∧ NoDup (Server_Listen <$> servers)
  ∧ Forall (λ s, Server_Name s ∉ seen ∧ Server_Listen s ∉ seenListen) servers.
Proof.
  revert i seen seenListen. induction servers as [|s servers IH]; intros i seen seenListen; simpl.
  { split; [|done]. intros _. split_and!; constructor. }
  rewrite !Forall_cons, !NoDup_cons, <- (checkServer_Ok i).
  destruct (checkServer i s) as [[]|]; [|naive_solver].
  do 2 (case_bool_decide; [split; [done|intros; by destruct_and!]|]).
  rewrite IH, unseen_cons. split; intros; destruct_and!; split_and!; done.
Qed.

Lemma findServer_Some servers name s :
  findServer servers name = Some s → s ∈ servers ∧ Server_Name s = name.
Proof.
  induction servers as [|t servers IH]; simpl; [done|]. case_bool_decide.
  - intros [= <-]. split; [by left|done].
  - intros [? ?]%IH. split; [by right|done].
Qed.

Lemma findServer_None servers name :
  findServer servers name = None ↔ name ∉ (Server_Name <$> servers).
Proof.
  induction servers as [|t servers IH]; simpl; [split; [intros _; apply not_elem_of_nil|done]|].
  rewrite not_elem_of_cons. case_bool_decide; naive_solver.
Qed.

Section Lemmas.
Context `{UnicodeData}.

(** The scope of a mount: its server exists, and its protocol is that of its
    server, or of some server when it names none. *)
Definition scopeOk (servers : list Server) (m : Mount) : Prop :=
  (scoped (Mount_Server m) = true → ∃ s, findServer servers (Mount_Server m) = Some s
     ∧ (scoped (Mount_Protocol m) = true → equalFold (Server_Protocol s) (Mount_Protocol m) = true))
  ∧ (scoped (Mount_Protocol m) = true →
       ∃ s, s ∈ servers ∧ equalFold (Server_Protocol s) (Mount_Protocol m) = true).

Lemma checkMount_Ok servers i m :
  checkMount servers i m = Ok tt ↔ Mount_Validate m = Ok tt ∧ scopeOk servers m.
Proof.
  unfold checkMount, scopeOk. destruct (Mount_Validate m) as [[]|]; cbn [wrap]; [|naive_solver].
  destruct (scoped (Mount_Server m)).
  - destruct (findServer servers (Mount_Server m)) as [s|] eqn:Hf; [|naive_solver].
    apply findServer_Some in Hf as [? _].
    destruct (scoped (Mount_Protocol m)); [|naive_solver].
    destruct (equalFold _ _) eqn:?; cbn [negb]; naive_solver congruence.
  - destruct (scoped (Mount_Protocol m)); [|naive_solver].
    destruct (existsb _ servers) eqn:Hex; cbn [negb].
    + apply existsb_Exists, Exists_exists in Hex. naive_solver.
    + split; [done|]. intros (_ & _ & Hs). specialize (Hs eq_refl). apply not_true_iff_false in Hex. destruct Hex.
      apply existsb_Exists, Exists_exists. naive_solver.
Qed.

Lemma checkMounts_Ok servers i mounts :
  checkMounts servers i mounts = Ok tt ↔ Forall (λ m, Mount_Validate m = Ok tt ∧ scopeOk servers m) mounts.
Proof.
  revert i. induction mounts as [|m mounts IH]; intros i; simpl; [done|].
  rewrite Forall_cons, <- (checkMount_Ok _ i), <- (IH (S i)).
  destruct (checkMount servers i m) as [[]|]; naive_solver.
Qed.

Lemma checkPolicies_Ok i rules : checkPolicies i rules = Ok tt ↔ Forall (λ r, Rule_Validate r = Ok tt) rules.
Proof.
  revert i. induction rules as [|r rules IH]; intros i; simpl; [done|].
  rewrite Forall_cons, <- (IH (S i)). destruct (Rule_Validate r) as [[]|]; simpl; naive_solver.
Qed.

(** The configurations [Validate] accepts. *)
Definition wellFormed (c : Config) : Prop :=
  Servers c ≠ []
  ∧ Forall serverOk (Servers c)
  ∧ NoDup (Server_Name <$> Servers c) ∧ NoDup (Server_Listen <$> Servers c)
  ∧ Forall (λ m, Mount_Validate m = Ok tt ∧ scopeOk (Servers c) m) (Mounts c)
  ∧ Forall (λ r, Rule_Validate r = Ok tt) (Policies c).

Lemma Config_Validate_wellFormed c : Config_Validate c = Ok tt ↔ wellFormed c.
Proof.
  unfold Config_Validate, wellFormed. rewrite <- (checkPolicies_Ok 0), <- (checkMounts_Ok _ 0).
  pose proof (checkServers_Ok 0 (Servers c) ∅ ∅) as Hs.
  destruct (length (Servers c) =? 0) eqn:Hl.
  { apply Nat.eqb_eq, nil_length_inv in Hl. split; [done|by intros [? _]]. }
  assert (Servers c ≠ []) by (intros He; by rewrite He in Hl).
  destruct (checkServers 0 (Servers c) ∅ ∅) as [[]|].
  - destruct (proj1 Hs eq_refl) as (? & ? & ? & _).
    destruct (checkMounts _ _ _) as [[]|]; (split; [intros ?; by split_and!|by intros (_ & _ & _ & _ & ? & ?)]).
  - split; [done|]. intros (_ & ? & ? & ? & _). assert (Err why = Ok tt) as Habs; [|done].
    apply Hs. split_and!; try done. apply Forall_forall. set_solver.
Qed.

(** [wellFormed] without the search [findServer]: names are distinct, so the
    server it finds is any server of that name. *)
Lemma wellFormed_scopes c :
  wellFormed c ↔
  Servers c ≠ []
  ∧ Forall serverOk (Servers c)
  ∧ NoDup (Server_Name <$> Servers c) ∧ NoDup (Server_Listen <$> Servers c)
  ∧ Forall (λ m, Mount_Validate m = Ok tt
      ∧ (scoped (Mount_Server m) = true → ∃ s, s ∈ Servers c ∧ Server_Name s = Mount_Server m
           ∧ (scoped (Mount_Protocol m) = true → equalFold (Server_Protocol s) (Mount_Protocol m) = true))
      ∧ (scoped (Mount_Protocol m) = true →
           ∃ s, s ∈ Servers c ∧ equalFold (Server_Protocol s) (Mount_Protocol m) = true)) (Mounts c)
  ∧ Forall (λ r, Rule_Validate r = Ok tt) (Policies c).
Proof.
  unfold wellFormed, scopeOk.
  assert (NoDup (Server_Name <$> Servers c) → ∀ m s,
            findServer (Servers c) (Mount_Server m) = Some s
            ↔ s ∈ Servers c ∧ Server_Name s = Mount_Server m) as Hfind.
  { intros Hnd m s. split; [apply findServer_Some|]. intros [Hin Hname].
    destruct (findServer (Servers c) (Mount_Server m)) as [t|] eqn:Hf.
    - apply findServer_Some in Hf as [Ht Htn]. f_equal.
      apply (NoDup_fmap_inj_elem Server_Name (Servers c)); try done. congruence.
    - apply findServer_None in Hf. destruct Hf. apply list_elem_of_fmap. eauto. }
  split; intros (? & ? & Hnd & ? & Hm & ?); (split_and!; try done);
    (eapply Forall_impl; [exact Hm|]); cbn beta; intros m (Hv & Hs & Hp);
    (split_and!; try done); intros Hsc; destruct (Hs Hsc) as (s & Hrest); exists s;
    setoid_rewrite (Hfind Hnd) || setoid_rewrite (Hfind Hnd) in Hrest; naive_solver.
Qed.
End Lemmas.

(** ** Properties *)

(** C25: [Validate] accepts exactly the configurations with at least one server,
    whose servers are complete, name a client address header if and only if
    they trust proxies, and have distinct names and listen addresses, whose
    mounts are valid and scoped to servers and protocols that exist, and whose
    policy rules are valid.  Nothing is asked of the mounts together: any list
    of mounts of an accepted configuration is accepted in their place, so also
    two mounts of equal specificity and equal priority, which DESIGN.md and
    COMPATIBILITY.md say are refused; [Config_accepts_ambiguity] has a pair
    that leaves a request without an answer. *)
Theorem Config_Validate_iff `{UnicodeData} c :
  (Config_Validate c = Ok tt ↔
   Servers c ≠ []
   ∧ Forall serverOk (Servers c)
   ∧ NoDup (Server_Name <$> Servers c) ∧ NoDup (Server_Listen <$> Servers c)
   ∧ Forall (λ m, Mount_Validate m = Ok tt
       ∧ (scoped (Mount_Server m) = true → ∃ s, s ∈ Servers c ∧ Server_Name s = Mount_Server m
            ∧ (scoped (Mount_Protocol m) = true → equalFold (Server_Protocol s) (Mount_Protocol m) = true))
       ∧ (scoped (Mount_Protocol m) = true →
            ∃ s, s ∈ Servers c ∧ equalFold (Server_Protocol s) (Mount_Protocol m) = true)) (Mounts c)
   ∧ Forall (λ r, Rule_Validate r = Ok tt) (Policies c))
  ∧ ∀ mounts, Config_Validate c = Ok tt → Forall (.∈ Mounts c) mounts →
      Config_Validate {| Servers := Servers c; Mounts := mounts; Policies := Policies c |} = Ok tt.
Proof.
  split; [rewrite Config_Validate_wellFormed; apply wellFormed_scopes|].
  intros mounts. rewrite !Config_Validate_wellFormed. intros (? & ? & ? & ? & Hm & ?) Hmounts.
  split_and!; try done. eapply Forall_impl; [exact Hmounts|]. intros m Hin. rewrite Forall_forall in Hm. by apply Hm.
Qed.

(** Two mounts of equal specificity and priority form a valid configuration;
    the ambiguity only shows when a request arrives. *)
Theorem Config_accepts_ambiguity :
  let U := asciiUnicode in
  let mounted target := {| Mount_Path := "/docs/*"; Mount_Source := []; Mount_Target := target; Mount_Priority := 0;
                           Mount_Server := []; Mount_Protocol := []; Mount_TLS := None |} in
  let server := {| Server_Name := "web"; Server_Protocol := "http"; Server_Listen := ":80"; ClientIPHeader := [];
                   TrustedProxies := []; Server_TLS := None |} in
  let config := {| Servers := [server]; Mounts := [mounted "http://a/*"; mounted "http://b/*"]; Policies := [] |} in
  Config_Validate config = Ok tt ∧ Resolve (Mounts config) "/docs/x" = Err ErrAmbiguous.
Proof. by vm_compute. Qed.
