(* ===== verification/Store.v ===== *)
(** config/store.go: snapshots of the configuration published to concurrent
    readers.  A Go [Config] holds slices and pointers, so copying the struct
    shares memory; this file models the shared memory and shows that the store
    and its callers share none of it. *)

From S2P Require Import Prelude GoStrings Mount TlsConfig Policy Config.

(** ** Memory *)

Abbreviation loc := nat.

(** The structs as they lie in memory: a slice is the location of its array
    ([None] for a nil slice), a pointer a location. *)
Record ServerVal := {
  sv_Name : bytes;
  sv_Protocol : bytes;
  sv_Listen : bytes;
  sv_ClientIPHeader : bytes;
  sv_TrustedProxies : option loc;
  sv_TLS : option loc;
}.

Record MountVal := {
  mv_Path : bytes;
  mv_Source : bytes;
  mv_Target : bytes;
  mv_Priority : Z;
  mv_Server : bytes;
  mv_Protocol : bytes;
  mv_TLS : option loc;
}.

Record ConfigVal := {
  cv_Servers : option loc;
  cv_Mounts : option loc;
  cv_Policies : option loc;
}.

Inductive cell :=
| ServerArray (servers : list ServerVal)
| StringArray (strings : list bytes)
| FrontendCell (frontend : Frontend)
| MountArray (mounts : list MountVal)
| BackendCell (backend : Backend)
| RuleArray (rules : list Rule).

Abbreviation heap := (gmap loc cell).

(** Typed reads; [None] is a dangling or ill-typed reference. *)
Definition readSlice {A} (project : cell → option (list A)) (h : heap) (r : option loc) : option (list A) :=
  match r with
  | None => Some []
  | Some l => c ← h !! l; project c
  end.

Definition readPointer {A} (project : cell → option A) (h : heap) (r : option loc) : option (option A) :=
  match r with
  | None => Some None
  | Some l => c ← h !! l; Some <$> project c
  end.

Definition asServers (c : cell) := match c with ServerArray l => Some l | _ => None end.
Definition asStrings (c : cell) := match c with StringArray l => Some l | _ => None end.
Definition asMounts (c : cell) := match c with MountArray l => Some l | _ => None end.
Definition asRules (c : cell) := match c with RuleArray l => Some l | _ => None end.
Definition asFrontend (c : cell) := match c with FrontendCell f => Some f | _ => None end.
Definition asBackend (c : cell) := match c with BackendCell b => Some b | _ => None end.

(** The value a struct in memory stands for. *)
Definition readServer (h : heap) (s : ServerVal) : option Server :=
  proxies ← readSlice asStrings h (sv_TrustedProxies s);
  tls ← readPointer asFrontend h (sv_TLS s);
  Some {| Server_Name := sv_Name s; Server_Protocol := sv_Protocol s; Server_Listen := sv_Listen s;
          ClientIPHeader := sv_ClientIPHeader s; TrustedProxies := proxies; Server_TLS := tls |}.

Definition readMount (h : heap) (m : MountVal) : option Mount :=
  tls ← readPointer asBackend h (mv_TLS m);
  Some {| Mount_Path := mv_Path m; Mount_Source := mv_Source m; Mount_Target := mv_Target m;
          Mount_Priority := mv_Priority m; Mount_Server := mv_Server m; Mount_Protocol := mv_Protocol m;
          Mount_TLS := tls |}.

Definition readConfig (h : heap) (c : ConfigVal) : option Config :=
  servers ← readSlice asServers h (cv_Servers c) ≫= mapM (readServer h);
  mounts ← readSlice asMounts h (cv_Mounts c) ≫= mapM (readMount h);
  rules ← readSlice asRules h (cv_Policies c);
  Some {| Servers := servers; Mounts := mounts; Policies := rules |}.

(** ** The code *)

Definition alloc (h : heap) (c : cell) : heap * loc :=
  let l := fresh (dom h) in (<[l := c]> h, l).

(** [append([]T(nil), source...)]: nil for an empty slice, else a new array. *)
Definition appendNil {A} (inject : list A → cell) (h : heap) (contents : list A) : heap * option loc :=
  match contents with
  | [] => (h, None)
  | _ => let '(h, l) := alloc h (inject contents) in (h, Some l)
  end.

(** [copied := *p; q = &copied], for a non-nil pointer. *)
Definition copyPointer {A} (project : cell → option A) (inject : A → cell) (h : heap) (r : option loc)
    : option (heap * option loc) :=
  value ← readPointer project h r;
  Some match value with
       | None => (h, None)
       | Some v => let '(h, l) := alloc h (inject v) in (h, Some l)
       end.

(** One iteration of the first loop of [clone]. *)
Definition cloneServer (h : heap) (s : ServerVal) : option (heap * ServerVal) :=
  proxies ← readSlice asStrings h (sv_TrustedProxies s);
  let '(h, copiedProxies) := appendNil StringArray h proxies in
  '(h, copiedTLS) ← copyPointer asFrontend FrontendCell h (sv_TLS s);
  Some (h, {| sv_Name := sv_Name s; sv_Protocol := sv_Protocol s; sv_Listen := sv_Listen s;
              sv_ClientIPHeader := sv_ClientIPHeader s; sv_TrustedProxies := copiedProxies;
              sv_TLS := copiedTLS |}).

(** One iteration of the second loop. *)
Definition cloneMount (h : heap) (m : MountVal) : option (heap * MountVal) :=
  '(h, copiedTLS) ← copyPointer asBackend BackendCell h (mv_TLS m);
  Some (h, {| mv_Path := mv_Path m; mv_Source := mv_Source m; mv_Target := mv_Target m;
              mv_Priority := mv_Priority m; mv_Server := mv_Server m; mv_Protocol := mv_Protocol m;
              mv_TLS := copiedTLS |}).

Fixpoint cloneAll {A B} (cloneOne : heap → A → option (heap * B)) (h : heap) (l : list A)
    : option (heap * list B) :=
  match l with
  | [] => Some (h, [])
  | x :: rest =>
      '(h, x) ← cloneOne h x;
      '(h, rest) ← cloneAll cloneOne h rest;
      Some (h, x :: rest)
  end.

(** [func clone].  The code allocates each array before it fills it; nothing
    sees the array meanwhile, so here the elements are made first. *)
Definition clone (h : heap) (source : ConfigVal) : option (heap * ConfigVal) :=
  servers ← readSlice asServers h (cv_Servers source);
  '(h, servers) ← cloneAll cloneServer h servers;
  let '(h, copiedServers) := appendNil ServerArray h servers in
  mounts ← readSlice asMounts h (cv_Mounts source);
  '(h, mounts) ← cloneAll cloneMount h mounts;
  let '(h, copiedMounts) := appendNil MountArray h mounts in
  rules ← readSlice asRules h (cv_Policies source);
  let '(h, copiedRules) := appendNil RuleArray h rules in
  Some (h, {| cv_Servers := copiedServers; cv_Mounts := copiedMounts; cv_Policies := copiedRules |}).

Definition emptyConfigVal : ConfigVal := {| cv_Servers := None; cv_Mounts := None; cv_Policies := None |}.

(** The atomic pointer [Store.current]: [None] until the first replacement. *)
Section Operations.
Context `{UnicodeData}.

(** [func (s *Store) Replace]. *)
Definition Replace (h : heap) (current : option ConfigVal) (candidate : ConfigVal)
    : option (result unit ConfigError * heap * option ConfigVal) :=
  '(h, private) ← clone h candidate;
  config ← readConfig h private;
  Some match Config_Validate config with
       | Err e => (Err e, h, current)
       | Ok _ => (Ok tt, h, Some private)
       end.

(** [func NewStore]: an empty store and one replacement. *)
Definition NewStore (h : heap) (initial : ConfigVal)
    : option (result (option ConfigVal) ConfigError * heap) :=
  '(r, h, current) ← Replace h None initial;
  Some (match r with Ok _ => Ok current | Err e => Err e end, h).
End Operations.

(** [func (s *Store) Snapshot]. *)
Definition Snapshot (h : heap) (current : option ConfigVal) : option (heap * ConfigVal) :=
  match current with
  | None => Some (h, emptyConfigVal)
  | Some c => clone h c
  end.

(** ** Reading is monotone in memory *)

(** A region [hn] of fresh memory was added to [h]. *)
Definition grows (h h' hn : heap) : Prop := h' = hn ∪ h ∧ hn ##ₘ h.

Lemma grows_refl h : grows h h ∅.
Proof. split; [by rewrite (left_id_L ∅ (∪))|apply map_disjoint_empty_l]. Qed.

Lemma grows_trans h h' h'' hn hn' : grows h h' hn → grows h' h'' hn' → grows h h'' (hn' ∪ hn).
Proof.
  intros [-> Hd] [-> Hd']. apply map_disjoint_union_r in Hd' as [Hd1 Hd2]. split.
  - by rewrite (assoc_L (∪)).
  - apply map_disjoint_union_l. done.
Qed.

Lemma grows_sub h h' hn : grows h h' hn → h ⊆ h'.
Proof. intros [-> Hd]. by apply map_union_subseteq_r. Qed.

Lemma grows_part_r h h' h'' hn hn' : grows h h' hn → grows h' h'' hn' → hn ⊆ hn' ∪ hn.
Proof.
  intros [-> Hd] [_ Hd']. apply map_union_subseteq_r. by apply map_disjoint_union_r in Hd' as [? _].
Qed.

Lemma alloc_grows h c h' l : alloc h c = (h', l) → grows h h' {[l := c]}.
Proof.
  intros [= <- <-]. pose proof (is_fresh (dom h)) as Hl. apply not_elem_of_dom in Hl. split.
  - by rewrite insert_union_singleton_l.
  - by apply map_disjoint_singleton_l.
Qed.

Section Mono.
Context (h h' : heap) (Hsub : h ⊆ h').

Lemma readSlice_mono {A} (p : cell → option (list A)) r v :
  readSlice p h r = Some v → readSlice p h' r = Some v.
Proof.
  destruct r as [l|]; [|done]. simpl. intros (c & Hl & Hp)%bind_Some.
  by rewrite (lookup_weaken _ _ _ _ Hl Hsub).
Qed.

Lemma readPointer_mono {A} (p : cell → option A) r v :
  readPointer p h r = Some v → readPointer p h' r = Some v.
Proof.
  destruct r as [l|]; [|done]. simpl. intros (c & Hl & Hp)%bind_Some.
  by rewrite (lookup_weaken _ _ _ _ Hl Hsub).
Qed.

Lemma readServer_mono s v : readServer h s = Some v → readServer h' s = Some v.
Proof.
  unfold readServer. intros (p & Hp & (t & Ht & Hv)%bind_Some)%bind_Some.
  by rewrite (readSlice_mono _ _ _ Hp), (readPointer_mono _ _ _ Ht).
Qed.

Lemma readMount_mono m v : readMount h m = Some v → readMount h' m = Some v.
Proof.
  unfold readMount. intros (t & Ht & Hv)%bind_Some. by rewrite (readPointer_mono _ _ _ Ht).
Qed.

Lemma mapM_mono {A B} (f : heap → A → option B) l vs :
  (∀ x v, f h x = Some v → f h' x = Some v) → mapM (f h) l = Some vs → mapM (f h') l = Some vs.
Proof. intros Hf. rewrite !mapM_Some. intros Hl. by apply (Forall2_impl _ _ _ _ Hl). Qed.

Lemma readConfig_mono c v : readConfig h c = Some v → readConfig h' c = Some v.
Proof.
  unfold readConfig. intros (ss & (s0 & Hs & Hss)%bind_Some & Hr)%bind_Some.
  apply bind_Some in Hr as (ms & (m0 & Hm & Hms)%bind_Some & (rs & Hrs & Hv)%bind_Some).
  rewrite (readSlice_mono _ _ _ Hs), (readSlice_mono _ _ _ Hm), (readSlice_mono _ _ _ Hrs). simpl.
  rewrite (mapM_mono readServer _ _ readServer_mono Hss). simpl.
  by rewrite (mapM_mono readMount _ _ readMount_mono Hms).
Qed.
End Mono.

(** ** Cloning allocates everything anew *)

Lemma appendNil_spec {A} (project : cell → option (list A)) (inject : list A → cell) h contents h' r :
  (∀ x, project (inject x) = Some x) → appendNil inject h contents = (h', r) →
  ∃ hn, grows h h' hn ∧ readSlice project hn r = Some contents.
Proof.
  intros Hp. destruct contents as [|x xs]; cbn [appendNil].
  - intros [= <- <-]. exists ∅. split; [apply grows_refl|done].
  - destruct (alloc h _) as [h1 l] eqn:E. intros [= <- <-]. apply alloc_grows in E.
    exists {[l := inject (x :: xs)]}. split; [done|]. simpl. rewrite lookup_singleton_eq. apply Hp.
Qed.

Lemma copyPointer_spec {A} (project : cell → option A) (inject : A → cell) h r v :
  (∀ x, project (inject x) = Some x) → readPointer project h r = Some v →
  ∃ h' r' hn, copyPointer project inject h r = Some (h', r') ∧ grows h h' hn
    ∧ readPointer project hn r' = Some v.
Proof.
  intros Hp Hr. unfold copyPointer. rewrite Hr. cbn [mbind option_bind]. destruct v as [v|].
  - destruct (alloc h (inject v)) as [h1 l] eqn:E. apply alloc_grows in E. eexists _, _, _. split; [done|].
    split; [done|]. simpl. rewrite lookup_singleton_eq. simpl. by rewrite Hp.
  - eexists _, _, _. split; [done|]. split; [apply grows_refl|done].
Qed.

Lemma cloneServer_spec h s v :
  readServer h s = Some v →
  ∃ h' s' hn, cloneServer h s = Some (h', s') ∧ grows h h' hn ∧ readServer hn s' = Some v.
Proof.
  unfold readServer at 1. intros (p & Hp & (t & Ht & [= <-])%bind_Some)%bind_Some.
  unfold cloneServer. rewrite Hp. simpl.
  destruct (appendNil StringArray h p) as [h1 r1] eqn:E1.
  apply (appendNil_spec asStrings) in E1 as (hn1 & Hg1 & Hr1); [|done].
  destruct (copyPointer_spec asFrontend FrontendCell h1 (sv_TLS s) t) as (h2 & r2 & hn2 & -> & Hg2 & Hr2);
    [done|by eapply readPointer_mono, Ht; apply grows_sub with hn1|].
  eexists _, _, _. split; [done|]. split; [by eapply grows_trans|].
  unfold readServer. simpl.
  rewrite (readSlice_mono hn1 _ (grows_part_r _ _ _ _ _ Hg1 Hg2) _ _ _ Hr1). simpl.
  by rewrite (readPointer_mono hn2 _ (map_union_subseteq_l _ _) _ _ _ Hr2).
Qed.

Lemma cloneMount_spec h m v :
  readMount h m = Some v →
  ∃ h' m' hn, cloneMount h m = Some (h', m') ∧ grows h h' hn ∧ readMount hn m' = Some v.
Proof.
  unfold readMount at 1. intros (t & Ht & [= <-])%bind_Some. unfold cloneMount.
  destruct (copyPointer_spec asBackend BackendCell h (mv_TLS m) t) as (h2 & r2 & hn2 & -> & Hg2 & Hr2);
    [done..|].
  eexists _, _, _. split; [done|]. split; [done|]. unfold readMount. simpl. by rewrite Hr2.
Qed.

Section CloneAll.
Context {A B V : Type} (cloneOne : heap → A → option (heap * B)).
Context (readOld : heap → A → option V) (read : heap → B → option V).
Context (readOld_mono : ∀ h h', h ⊆ h' → ∀ x v, readOld h x = Some v → readOld h' x = Some v).
Context (read_mono : ∀ h h', h ⊆ h' → ∀ x v, read h x = Some v → read h' x = Some v).
Context (clone_spec : ∀ h x v, readOld h x = Some v →
  ∃ h' x' hn, cloneOne h x = Some (h', x') ∧ grows h h' hn ∧ read hn x' = Some v).

Lemma cloneAll_spec l : ∀ h vs, mapM (readOld h) l = Some vs →
  ∃ h' l' hn, cloneAll cloneOne h l = Some (h', l') ∧ grows h h' hn ∧ mapM (read hn) l' = Some vs.
Proof.
  induction l as [|x l IH]; intros h vs; simpl.
  { intros [= <-]. eexists _, _, _. split; [done|]. split; [apply grows_refl|done]. }
  intros (v & Hv & (ws & Hws & [= <-])%bind_Some)%bind_Some.
  destruct (clone_spec h x v Hv) as (h1 & x' & hn1 & -> & Hg1 & Hx'). simpl.
  destruct (IH h1 ws) as (h2 & l' & hn2 & -> & Hg2 & Hl').
  { eapply mapM_mono, Hws. intros y w. apply readOld_mono. by apply grows_sub with hn1. }
  eexists _, _, _. split; [done|]. split; [by eapply grows_trans|]. simpl.
  rewrite (read_mono hn1 _ (grows_part_r _ _ _ _ _ Hg1 Hg2) _ _ Hx'). simpl.
  by rewrite (mapM_mono hn2 _ read _ _ (read_mono hn2 _ (map_union_subseteq_l _ _)) Hl').
Qed.
End CloneAll.

Lemma clone_spec h c v :
  readConfig h c = Some v →
  ∃ h' c' hn, clone h c = Some (h', c') ∧ grows h h' hn ∧ readConfig hn c' = Some v.
Proof.
  unfold readConfig at 1. intros (ss & (s0 & Hs & Hss)%bind_Some & Hr)%bind_Some.
  apply bind_Some in Hr as (ms & (m0 & Hm & Hms)%bind_Some & (rs & Hrs & [= <-])%bind_Some).
  unfold clone. rewrite Hs. cbn [mbind option_bind].
  destruct (cloneAll_spec _ _ _ readServer_mono readServer_mono cloneServer_spec _ h ss Hss) as (h1 & l1 & n1 & -> & G1 & R1).
  cbn [mbind option_bind]. destruct (appendNil ServerArray h1 l1) as [h2 r2] eqn:E2.
  apply (appendNil_spec asServers) in E2 as (n2 & G2 & R2); [|done].
  pose proof (grows_trans _ _ _ _ _ G1 G2) as G12.
  rewrite (readSlice_mono h _ (grows_sub _ _ _ G12) _ _ _ Hm). cbn [mbind option_bind].
  destruct (cloneAll_spec _ _ _ readMount_mono readMount_mono cloneMount_spec m0 h2 ms) as (h3 & l3 & n3 & -> & G3 & R3).
  { eapply mapM_mono, Hms. apply readMount_mono. by apply grows_sub with (n2 ∪ n1). }
  cbn [mbind option_bind]. destruct (appendNil MountArray h3 l3) as [h4 r4] eqn:E4.
  apply (appendNil_spec asMounts) in E4 as (n4 & G4 & R4); [|done].
  pose proof (grows_trans _ _ _ _ _ G3 G4) as G34. pose proof (grows_trans _ _ _ _ _ G12 G34) as G14.
  rewrite (readSlice_mono h _ (grows_sub _ _ _ G14) _ _ _ Hrs). cbn [mbind option_bind].
  destruct (appendNil RuleArray h4 rs) as [h5 r5] eqn:E5.
  apply (appendNil_spec asRules) in E5 as (n5 & G5 & R5); [|done].
  pose proof (grows_trans _ _ _ _ _ G14 G5) as G15.
  eexists _, _, _. split; [done|]. split; [exact G15|]. unfold readConfig. cbn [cv_Servers cv_Mounts cv_Policies].
  set (n := n5 ∪ ((n4 ∪ n3) ∪ (n2 ∪ n1))).
  assert (n5 ⊆ n) as S5 by apply map_union_subseteq_l.
  assert ((n4 ∪ n3) ∪ (n2 ∪ n1) ⊆ n) as S14 by by eapply grows_part_r.
  assert (n4 ∪ n3 ⊆ n) as S34 by (etrans; [apply map_union_subseteq_l|exact S14]).
  assert (n2 ∪ n1 ⊆ n) as S12 by (etrans; [by eapply grows_part_r|exact S14]).
  assert (n1 ⊆ n) as S1 by (etrans; [by eapply grows_part_r|exact S12]).
  assert (n2 ⊆ n) as S2 by (etrans; [apply map_union_subseteq_l|exact S12]).
  assert (n3 ⊆ n) as S3 by (etrans; [by eapply grows_part_r|exact S34]).
  assert (n4 ⊆ n) as S4 by (etrans; [apply map_union_subseteq_l|exact S34]).
  rewrite (readSlice_mono _ _ S2 _ _ _ R2), (readSlice_mono _ _ S4 _ _ _ R4), (readSlice_mono _ _ S5 _ _ _ R5).
  cbn [mbind option_bind].
  rewrite (mapM_mono n1 n readServer _ _ (readServer_mono _ _ S1) R1). cbn [mbind option_bind].
  by rewrite (mapM_mono n3 n readMount _ _ (readMount_mono _ _ S3) R3).
Qed.

(** ** The store and its callers *)

(** The memory, the store's pointer and the locations the callers own. *)
Record System := {
  memory : heap;
  current : option ConfigVal;
  owned : gset loc;
}.

Definition emptyConfig : Config := {| Servers := []; Mounts := []; Policies := [] |}.

(** What a caller observes. *)
Inductive Event :=
| Replaced (candidate : Config) (outcome : result unit ConfigError)
| Observed (snapshot : Config).

Section Refinement.
Context `{UnicodeData}.

(** Callers allocate and overwrite memory of their own at any time; [Replace]
    takes any configuration they built; a snapshot's memory becomes theirs. *)
Inductive systemStep : System → list Event → System → Prop :=
| StepAlloc s l x :
    memory s !! l = None →
    systemStep s [] {| memory := <[l := x]> (memory s); current := current s; owned := {[l]} ∪ owned s |}
| StepWrite s l x :
    l ∈ owned s →
    systemStep s [] {| memory := <[l := x]> (memory s); current := current s; owned := owned s |}
| StepReplace s candidate value outcome h' current' :
    readConfig (memory s) candidate = Some value →
    Replace (memory s) (current s) candidate = Some (outcome, h', current') →
    systemStep s [Replaced value outcome] {| memory := h'; current := current'; owned := owned s |}
| StepSnapshot s h' c' value :
    Snapshot (memory s) (current s) = Some (h', c') →
    readConfig h' c' = Some value →
    systemStep s [Observed value]
      {| memory := h'; current := current s; owned := (dom h' ∖ dom (memory s)) ∪ owned s |}.

Inductive systemRun : System → list Event → System → Prop :=
| RunNil s : systemRun s [] s
| RunStep s1 s2 s3 e es : systemRun s1 es s2 → systemStep s2 e s3 → systemRun s1 (es ++ e) s3.

(** The specification: a value, replaced as a whole when the candidate is
    valid and observed as it is. *)
Definition specEvent (published : option Config) (e : Event) : option (option Config) :=
  match e with
  | Replaced candidate outcome =>
      if decide (outcome = Config_Validate candidate)
      then Some (if isOk outcome then Some candidate else published) else None
  | Observed value => if decide (value = default emptyConfig published) then Some published else None
  end.

Fixpoint specRun (published : option Config) (es : list Event) : option (option Config) :=
  match es with
  | [] => Some published
  | e :: es' => published' ← specEvent published e; specRun published' es'
  end.

Lemma specRun_app published es es' :
  specRun published (es ++ es') = specRun published es ≫= λ p, specRun p es'.
Proof.
  revert published. induction es as [|e es IH]; intros published; simpl; [done|].
  destruct (specEvent published e); simpl; [apply IH|done].
Qed.

(** The store's configuration lies in memory no caller owns. *)
Definition systemInv (s : System) (published : option Config) : Prop :=
  owned s ⊆ dom (memory s)
  ∧ match current s, published with
    | None, None => True
    | Some c, Some value =>
        ∃ hp, hp ⊆ memory s ∧ readConfig hp c = Some value ∧ dom hp ## owned s
          ∧ Config_Validate value = Ok tt
    | _, _ => False
    end.

Lemma sub_insert_notin (hp h : heap) l x : hp ⊆ h → l ∉ dom hp → hp ⊆ <[l := x]> h.
Proof. intros Hs Hl%not_elem_of_dom. by apply insert_subseteq_r. Qed.

Lemma Replace_spec h cur candidate value :
  readConfig h candidate = Some value →
  ∃ h' c' hn, grows h h' hn ∧ readConfig hn c' = Some value
    ∧ Replace h cur candidate
      = Some (match Config_Validate value with Err e => (Err e, h', cur) | Ok _ => (Ok tt, h', Some c') end).
Proof.
  intros Hread. destruct (clone_spec h candidate value Hread) as (h' & c' & hn & Hc & Hg & Hr).
  exists h', c', hn. split; [done|]. split; [done|]. unfold Replace. rewrite Hc. cbn [mbind option_bind].
  destruct Hg as [-> Hd]. by rewrite (readConfig_mono hn _ (map_union_subseteq_l _ _) _ _ Hr).
Qed.

Lemma systemStep_refines s e s' published :
  systemStep s e s' → systemInv s published →
  ∃ published', specRun published e = Some published' ∧ systemInv s' published'.
Proof.
  intros Hstep [Howned Hcur].
  destruct Hstep as [s l x Hl|s l x Hl|s candidate value outcome h' cur' Hread Hrep|s h' c' value Hsnap Hread].
  - exists published. split; [done|]. split; simpl; [set_solver|].
    destruct (current s) as [c|], published as [v|]; try done. destruct Hcur as (hp & Hs & Hr & Hd & Hv).
    apply not_elem_of_dom in Hl. apply subseteq_dom in Hs as Hsd.
    exists hp. split_and!; try done; [apply sub_insert_notin; set_solver|set_solver].
  - exists published. split; [done|]. split; simpl; [set_solver|].
    destruct (current s) as [c|], published as [v|]; try done. destruct Hcur as (hp & Hs & Hr & Hd & Hv).
    exists hp. split_and!; try done. apply sub_insert_notin; [done|]. set_solver.
  - destruct (Replace_spec _ (current s) _ _ Hread) as (h1 & c1 & hn & [-> Hdisj] & Hr1 & Hrep').
    rewrite Hrep' in Hrep. cbn [specRun specEvent]. apply map_disjoint_dom in Hdisj.
    destruct (Config_Validate value) as [[]|e] eqn:Hv; injection Hrep as <- <- <-;
      rewrite decide_True by done; eexists; (split; [done|]); split; cbn; rewrite ?dom_union_L; try set_solver.
    + exists hn. split_and!; [apply map_union_subseteq_l|done|set_solver|done].
    + destruct (current s) as [c|], published as [v|]; try done. destruct Hcur as (hp & Hs & Hr & Hd & Hv').
      exists hp. split_and!; try done. etrans; [exact Hs|]. apply map_union_subseteq_r. by apply map_disjoint_dom.
  - cbn [specRun specEvent]. destruct (current s) as [c|] eqn:Hc, published as [v|]; try done.
    + destruct Hcur as (hp & Hs & Hr & Hd & Hv). cbn [Snapshot] in Hsnap.
      destruct (clone_spec (memory s) c v) as (h1 & c1 & hn & Hcl & [-> Hdisj] & Hr1);
        [by apply (readConfig_mono hp)|].
      rewrite Hcl in Hsnap. injection Hsnap as <- <-.
      rewrite (readConfig_mono hn _ (map_union_subseteq_l _ _) _ _ Hr1) in Hread. injection Hread as <-.
      rewrite decide_True by done. eexists. split; [done|]. split; cbn; [set_solver|].
      exists hp. apply subseteq_dom in Hs as Hsd. split_and!; try done; [|set_solver].
      etrans; [exact Hs|]. by apply map_union_subseteq_r.
    + injection Hsnap as <- <-. injection Hread as <-. rewrite decide_True by done.
      eexists. split; [done|]. split; cbn; [set_solver|done].
Qed.

Lemma systemRun_refines s es s' published :
  systemRun s es s' → systemInv s published →
  ∃ published', specRun published es = Some published' ∧ systemInv s' published'.
Proof.
  induction 1 as [s|s1 s2 s3 e es _ IH Hstep]; intros Hinv; [by exists published|].
  destruct (IH Hinv) as (p2 & Hp2 & Hinv2). destruct (systemStep_refines _ _ _ _ Hstep Hinv2) as (p3 & Hp3 & Hinv3).
  exists p3. split; [|done]. rewrite specRun_app, Hp2. done.
Qed.

Definition initialSystem : System := {| memory := ∅; current := None; owned := ∅ |}.

Lemma initial_inv : systemInv initialSystem None.
Proof. split; [set_solver|done]. Qed.

(** C6: the store refines an immutable value.  Whatever callers do with the
    memory they own, including the candidates they handed in and the snapshots
    they received, every replacement is decided by validating the value handed
    in and every snapshot shows the value last accepted; what is published is
    always a valid configuration. *)
Theorem Store_refines es s :
  systemRun initialSystem es s →
  ∃ published, specRun None es = Some published
    ∧ (current s = None ↔ published = None)
    ∧ ∀ c, current s = Some c → ∃ value, published = Some value
        ∧ readConfig (memory s) c = Some value ∧ Config_Validate value = Ok tt.
Proof.
  intros Hrun. destruct (systemRun_refines _ _ _ _ Hrun initial_inv) as (p & Hp & _ & Hcur).
  exists p. split; [done|]. destruct (current s) as [c|], p as [v|]; try done.
  split; [done|]. intros c' [= <-]. destruct Hcur as (hp & Hs & Hr & _ & Hv).
  exists v. split_and!; try done. by apply (readConfig_mono hp).
Qed.

(** The operations always return.  After any run a snapshot can be taken
    and is the published value in memory of its own, and a readable candidate
    is accepted or refused according to its validity, a refusal leaving the
    store's pointer as it was. *)
Theorem Store_total es s published candidate value :
  systemRun initialSystem es s → specRun None es = Some published →
  readConfig (memory s) candidate = Some value →
  (∃ h' c' fresh, Snapshot (memory s) (current s) = Some (h', c')
     ∧ grows (memory s) h' fresh ∧ readConfig fresh c' = Some (default emptyConfig published))
  ∧ ∃ h' c' fresh, grows (memory s) h' fresh ∧ readConfig fresh c' = Some value
     ∧ Replace (memory s) (current s) candidate
       = Some (match Config_Validate value with
               | Err e => (Err e, h', current s)
               | Ok _ => (Ok tt, h', Some c')
               end).
Proof.
  intros Hrun Hp Hread. destruct (systemRun_refines _ _ _ _ Hrun initial_inv) as (p' & Hp' & _ & Hcur).
  rewrite Hp in Hp'. injection Hp' as <-. split; [|by apply Replace_spec].
  destruct (current s) as [c|], published as [v|]; try done.
  - destruct Hcur as (hp & Hs & Hr & _). apply clone_spec. by apply (readConfig_mono hp).
  - eexists _, _, _. split; [done|]. split; [apply grows_refl|done].
Qed.
End Refinement.

(** ** Witnesses *)

Definition sampleServer : Server :=
  {| Server_Name := "web"; Server_Protocol := "http"; Server_Listen := ":80"; ClientIPHeader := [];
     TrustedProxies := []; Server_TLS := None |}.

Definition sampleConfig : Config := {| Servers := [sampleServer]; Mounts := []; Policies := [] |}.

Definition sampleServerVal : ServerVal :=
  {| sv_Name := "web"; sv_Protocol := "http"; sv_Listen := ":80"; sv_ClientIPHeader := [];
     sv_TrustedProxies := None; sv_TLS := None |}.

Definition sampleConfigVal : ConfigVal := {| cv_Servers := Some 0; cv_Mounts := None; cv_Policies := None |}.

(** A caller publishes a configuration, then empties the array it passed. *)
Definition sampleEvents : list Event := [Replaced sampleConfig (Ok tt); Observed sampleConfig].

Definition sampleSystem : System := {|
  memory := {[0 := ServerArray []; 1 := ServerArray [sampleServerVal]; 2 := ServerArray [sampleServerVal]]};
  current := Some {| cv_Servers := Some 1; cv_Mounts := None; cv_Policies := None |};
  owned := {[0; 2]};
|}.

Lemma sample_run : let U := asciiUnicode in systemRun initialSystem sampleEvents sampleSystem.
Proof.
  intros U.
  set (m1 := {[0 := ServerArray [sampleServerVal]]} : heap).
  set (s1 := {| memory := m1; current := None; owned := {[0]} |}).
  set (c1 := {| cv_Servers := Some 1; cv_Mounts := None; cv_Policies := None |}).
  set (m2 := <[1 := ServerArray [sampleServerVal]]> m1).
  set (s2 := {| memory := m2; current := Some c1; owned := {[0]} |}).
  set (m3 := <[0 := ServerArray []]> m2).
  set (s3 := {| memory := m3; current := Some c1; owned := {[0]} |}).
  change sampleEvents with ((([] ++ []) ++ [Replaced sampleConfig (Ok tt)]) ++ [] ++ [Observed sampleConfig]).
  rewrite (app_assoc _ [] _).
  apply RunStep with s3; [apply RunStep with s2; [apply RunStep with s1; [apply RunStep with initialSystem; [constructor|]|]|]|].
  - replace s1 with {| memory := <[0 := ServerArray [sampleServerVal]]> (memory initialSystem);
                       current := current initialSystem; owned := {[0]} ∪ owned initialSystem |}
      by by vm_compute.
    by apply StepAlloc.
  - apply (StepReplace s1 sampleConfigVal); by vm_compute.
  - by apply (StepWrite s2 0); vm_compute.
  - replace sampleSystem with {| memory := memory sampleSystem; current := current s3;
      owned := (dom (memory sampleSystem) ∖ dom (memory s3)) ∪ owned s3 |} by by vm_compute.
    apply (StepSnapshot s3 _ {| cv_Servers := Some 2; cv_Mounts := None; cv_Policies := None |}); by vm_compute.
Qed.

Lemma Store_refines_witness :
  let U := asciiUnicode in
  specRun None sampleEvents = Some (Some sampleConfig)
  ∧ ∃ published, specRun None sampleEvents = Some published ∧ published ≠ None.
Proof.
  intros U. split; [by vm_compute|].
  destruct (Store_refines sampleEvents sampleSystem sample_run) as (p & Hp & [_ Hn] & _).
  exists p. split; [exact Hp|]. intros Habs%Hn. discriminate Habs.
Defined.

Lemma Store_total_witness :
  let U := asciiUnicode in
  ∃ h' c' fresh, Snapshot (memory sampleSystem) (current sampleSystem) = Some (h', c')
    ∧ grows (memory sampleSystem) h' fresh ∧ readConfig fresh c' = Some sampleConfig.
Proof.
  intros U.
  apply (Store_total sampleEvents sampleSystem (Some sampleConfig) emptyConfigVal emptyConfig sample_run);
    by vm_compute.
Defined.
