(* ===== verification/Reload.v ===== *)
(** config/reload.go: replacing the running configuration from a file. *)

From S2P Require Import Prelude GoStrings TlsConfig Mount Policy Config Store.

(** ** The store, as its clients see it

    [view] is the published configuration, the empty one before the first. *)
Class ConfigStore `{UnicodeData} (S : Type) := {
  storeSnapshot : S → Config * S;
  storeReplace : S → Config → result unit ConfigError * S;
  storeInv : S → Prop;
  view : S → Config;
  snapshot_law s : storeInv s → ∃ s', storeSnapshot s = (view s, s') ∧ storeInv s' ∧ view s' = view s;
  replace_law s c : storeInv s → ∃ s', storeReplace s c = (Config_Validate c, s') ∧ storeInv s'
    ∧ view s' = match Config_Validate c with Ok _ => c | Err _ => view s end;
}.

(** ** The code *)

Definition sameFrontendTLS (current candidate : Server) : bool :=
  match Server_TLS current, Server_TLS candidate with
  | Some a, Some b => bool_decide (a = b)
  | None, None => true
  | _, _ => false
  end.

(** The map [listeners]: later servers of a name overwrite earlier ones. *)
Definition listenersOf (servers : list Server) : gmap bytes Server :=
  foldl (λ listeners server, <[Server_Name server := server]> listeners) ∅ servers.

Fixpoint sameListeners (listeners : gmap bytes Server) (candidate : list Server) : bool :=
  match candidate with
  | [] => true
  | server :: rest =>
      match listeners !! Server_Name server with
      | None => false
      | Some existing =>
          if negb (bool_decide (Server_Protocol existing = Server_Protocol server))
             || negb (bool_decide (Server_Listen existing = Server_Listen server))
             || negb (sameFrontendTLS existing server)
          then false else sameListeners listeners rest
      end
  end.

Definition sameListenerTopology (current candidate : list Server) : bool :=
  if negb (length current =? length candidate) then false
  else sameListeners (listenersOf current) candidate.

(** The inner function [collect]: a policy set as map keys. *)
Definition collectPolicies (configured : Config) : gset Backend :=
  foldl (λ policies mounted,
           match Mount_TLS mounted with Some tls => {[tls]} ∪ policies | None => policies end)
    ∅ (Mounts configured).

Definition sameBackendTLSPolicies (current candidate : Config) : bool :=
  let currentPolicies := collectPolicies current in
  let candidatePolicies := collectPolicies candidate in
  if negb (size currentPolicies =? size candidatePolicies) then false
  else bool_decide (set_Forall (λ policy, policy ∈ candidatePolicies) currentPolicies).

(** Opening a file yields its contents and whether closing it succeeds. *)
Class FileSystem := { openFile : bytes → option (bytes * bool) }.

Inductive ReloadError (E : Type) :=
| StoreRequired
| OpenFailed (path : bytes)
| ParseFailed (e : TOMLError)
| CloseFailed (path : bytes)
| ValidationFailed (e : E)
| TopologyChanged
| BackendTLSChanged
| PublishFailed (e : ConfigError).
Arguments StoreRequired {E}.
Arguments OpenFailed {E} path.
Arguments ParseFailed {E} e.
Arguments CloseFailed {E} path.
Arguments ValidationFailed {E} e.
Arguments TopologyChanged {E}.
Arguments BackendTLSChanged {E}.
Arguments PublishFailed {E} e.

Section Reload.
Context `{UnicodeData} `{TOMLDecoder} `{FileSystem} {S : Type} `{!ConfigStore S} {E : Type}.

(** [func ReloadTOMLFileWithValidation]: the store is [None] for a nil pointer,
    [validate] is [None] for a nil function. *)
Definition ReloadTOMLFileWithValidation (store : option S) (path : bytes)
    (validate : option (Config → result unit E)) : result unit (ReloadError E) * option S :=
  match store with
  | None => (Err StoreRequired, None)
  | Some s =>
      match openFile path with
      | None => (Err (OpenFailed path), Some s)
      | Some (contents, closes) =>
          match ParseTOML (Some contents) with
          | Err parseErr => (Err (ParseFailed parseErr), Some s)
          | Ok candidate =>
              if negb closes then (Err (CloseFailed path), Some s)
              else
                match (match validate with Some check => check candidate | None => Ok tt end) with
                | Err e => (Err (ValidationFailed e), Some s)
                | Ok _ =>
                    let '(current, s) := storeSnapshot s in
                    if negb (sameListenerTopology (Servers current) (Servers candidate))
                    then (Err TopologyChanged, Some s)
                    else if negb (sameBackendTLSPolicies current candidate)
                    then (Err BackendTLSChanged, Some s)
                    else
                      match storeReplace s candidate with
                      | (Err e, s) => (Err (PublishFailed e), Some s)
                      | (Ok _, s) => (Ok tt, Some s)
                      end
                end
          end
      end
  end.

(** [func ReloadTOMLFile]. *)
Definition ReloadTOMLFile (store : option S) (path : bytes) : result unit (ReloadError E) * option S :=
  ReloadTOMLFileWithValidation store path None.
End Reload.

(** ** Lemmas *)

(** What a restart would be needed to change. *)
Definition topology (s : Server) : bytes * bytes * bytes * option Frontend :=
  (Server_Name s, Server_Protocol s, Server_Listen s, Server_TLS s).

Lemma sameFrontendTLS_true a b : sameFrontendTLS a b = true ↔ Server_TLS a = Server_TLS b.
Proof.
  unfold sameFrontendTLS.
  destruct (Server_TLS a), (Server_TLS b); rewrite ?bool_decide_eq_true; split; congruence.
Qed.

Lemma listenersOf_Some servers name s :
  listenersOf servers !! name = Some s → s ∈ servers ∧ Server_Name s = name.
Proof.
  unfold listenersOf. induction servers as [|t servers IH] using rev_ind; [simpl; by rewrite lookup_empty|].
  rewrite foldl_app. simpl. intros [[<- <-]|[_ H]]%lookup_insert_Some.
  - split; [set_solver|done].
  - apply IH in H as [? ?]. split; [set_solver|done].
Qed.

Lemma sameListeners_true current candidate :
  sameListeners (listenersOf current) candidate = true →
  Forall (λ c, topology c ∈ topology <$> current) candidate.
Proof.
  induction candidate as [|c rest IH]; simpl; [constructor|].
  destruct (listenersOf current !! Server_Name c) as [e|] eqn:He; [|done].
  destruct (_ || _) eqn:Hc; [done|]. intros Hrest. reflect_bools.
  rewrite sameFrontendTLS_true in *. apply listenersOf_Some in He as [Hin Hname].
  constructor; [|by apply IH]. apply list_elem_of_fmap. exists e. split; [|done].
  unfold topology. congruence.
Qed.

Lemma NoDup_topology servers : NoDup (Server_Name <$> servers) → NoDup (topology <$> servers).
Proof.
  intros H. apply (NoDup_fmap_1 (λ t : bytes * bytes * bytes * option Frontend, t.1.1.1)).
  by rewrite <- list_fmap_compose.
Qed.

Lemma sameListenerTopology_Permutation current candidate :
  NoDup (Server_Name <$> candidate) →
  sameListenerTopology current candidate = true →
  topology <$> candidate ≡ₚ topology <$> current.
Proof.
  intros Hnd. unfold sameListenerTopology. destruct (negb _) eqn:Hlen; [done|].
  apply negb_false_iff, Nat.eqb_eq in Hlen. intros Hs%sameListeners_true.
  apply submseteq_length_Permutation; [|by rewrite !length_fmap, Hlen].
  apply NoDup_submseteq; [by apply NoDup_topology|].
  intros t (c & -> & Hc)%list_elem_of_fmap. rewrite Forall_forall in Hs. by apply Hs.
Qed.

Lemma elem_of_collectPolicies c tls :
  tls ∈ collectPolicies c ↔ ∃ m, m ∈ Mounts c ∧ Mount_TLS m = Some tls.
Proof.
  unfold collectPolicies. induction (Mounts c) as [|m ms IH] using rev_ind; [set_solver|].
  rewrite foldl_app. simpl. destruct (Mount_TLS m) as [t|] eqn:E.
  - rewrite elem_of_union, IH, elem_of_singleton. set_solver.
  - rewrite IH. set_solver.
Qed.

Lemma sameBackendTLSPolicies_true current candidate :
  sameBackendTLSPolicies current candidate = true → collectPolicies candidate = collectPolicies current.
Proof.
  unfold sameBackendTLSPolicies. destruct (negb _) eqn:Hs; [done|].
  apply negb_false_iff, Nat.eqb_eq in Hs. rewrite bool_decide_eq_true. intros Hsub.
  symmetry. apply leibniz_equiv, set_subseteq_size_equiv; [done|lia].
Qed.

Section ReloadLemmas.
Context `{UnicodeData} `{TOMLDecoder} {S : Type} `{!ConfigStore S} {E : Type}.

Lemma ParseTOML_valid contents c : ParseTOML (Some contents) = Ok c → Config_Validate c = Ok tt.
Proof.
  unfold ParseTOML. destruct (decodeTOML contents) as [c'|]; [|done]. cbn [wrap].
  destruct (Config_Validate c') as [[]|] eqn:Hv; [|done]. by intros [= <-].
Qed.

Lemma reload_cases (F : FileSystem) s path (validate : option (Config → result unit E)) :
  storeInv s →
  ∃ r s', ReloadTOMLFileWithValidation (Some s) path validate = (r, Some s') ∧ storeInv s'
    ∧ match r with
      | Err e => view s' = view s ∧ ∀ e', e ≠ PublishFailed e'
      | Ok _ => ∃ contents, openFile path = Some (contents, true) ∧ ParseTOML (Some contents) = Ok (view s')
          ∧ (∀ check, validate = Some check → check (view s') = Ok tt)
          ∧ Config_Validate (view s') = Ok tt
          ∧ topology <$> Servers (view s') ≡ₚ topology <$> Servers (view s)
          ∧ collectPolicies (view s') = collectPolicies (view s)
      end.
Proof.
  intros Hinv. unfold ReloadTOMLFileWithValidation.
  destruct (openFile path) as [[contents closes]|] eqn:Hopen; [|by eexists _, _].
  destruct (ParseTOML (Some contents)) as [c|] eqn:Hparse; [|by eexists _, _].
  destruct closes; cbn [negb]; [|by eexists _, _].
  destruct (match validate with Some check => check c | None => Ok () end) as [[]|] eqn:Hcheck; [|by eexists _, _].
  destruct (snapshot_law s Hinv) as (s1 & -> & Hinv1 & Hview).
  destruct (sameListenerTopology _ _) eqn:Htop; cbn [negb]; [|by eexists _, _].
  destruct (sameBackendTLSPolicies _ _) eqn:Htls; cbn [negb]; [|by eexists _, _].
  apply ParseTOML_valid in Hparse as Hvalid.
  destruct (replace_law s1 c Hinv1) as (s2 & -> & Hinv2 & Hview2). rewrite Hvalid in *.
  eexists _, _. split; [done|]. split; [done|]. rewrite Hview2. exists contents.
  split_and!; try done.
  - intros check ->. done.
  - apply sameListenerTopology_Permutation; [|done]. by apply Config_Validate_wellFormed in Hvalid as (_ & _ & ? & _).
  - by apply sameBackendTLSPolicies_true.
Qed.
End ReloadLemmas.

(** ** The store implements the interface *)

(** The decoder builds the candidate in memory nobody else refers to. *)
Definition writePointer {A} (inject : A → cell) (h : heap) (value : option A) : heap * option loc :=
  match value with
  | None => (h, None)
  | Some v => let '(h, l) := alloc h (inject v) in (h, Some l)
  end.

Definition writeServer (h : heap) (s : Server) : option (heap * ServerVal) :=
  let '(h, proxies) := appendNil StringArray h (TrustedProxies s) in
  let '(h, tls) := writePointer FrontendCell h (Server_TLS s) in
  Some (h, {| sv_Name := Server_Name s; sv_Protocol := Server_Protocol s; sv_Listen := Server_Listen s;
              sv_ClientIPHeader := ClientIPHeader s; sv_TrustedProxies := proxies; sv_TLS := tls |}).

Definition writeMount (h : heap) (m : Mount) : option (heap * MountVal) :=
  let '(h, tls) := writePointer BackendCell h (Mount_TLS m) in
  Some (h, {| mv_Path := Mount_Path m; mv_Source := Mount_Source m; mv_Target := Mount_Target m;
              mv_Priority := Mount_Priority m; mv_Server := Mount_Server m; mv_Protocol := Mount_Protocol m;
              mv_TLS := tls |}).

Definition writeConfig (h : heap) (c : Config) : option (heap * ConfigVal) :=
  '(h, servers) ← cloneAll writeServer h (Servers c);
  let '(h, servers) := appendNil ServerArray h servers in
  '(h, mounts) ← cloneAll writeMount h (Mounts c);
  let '(h, mounts) := appendNil MountArray h mounts in
  let '(h, rules) := appendNil RuleArray h (Policies c) in
  Some (h, {| cv_Servers := servers; cv_Mounts := mounts; cv_Policies := rules |}).

Lemma writePointer_spec {A} (project : cell → option A) (inject : A → cell) h v h' r :
  (∀ x, project (inject x) = Some x) → writePointer inject h v = (h', r) →
  ∃ hn, grows h h' hn ∧ readPointer project hn r = Some v.
Proof.
  intros Hp. destruct v as [v|]; cbn [writePointer].
  - destruct (alloc h (inject v)) as [h1 l] eqn:E. intros [= <- <-]. apply alloc_grows in E.
    exists {[l := inject v]}. split; [done|]. simpl. rewrite lookup_singleton_eq. simpl. by rewrite Hp.
  - intros [= <- <-]. exists ∅. split; [apply grows_refl|done].
Qed.

Definition readSelf {A} (h : heap) (x : A) : option A := Some x.

Lemma mapM_self {A} h (l : list A) : mapM (readSelf h) l = Some l.
Proof. apply mapM_Some. induction l; by constructor. Qed.

Lemma writeServer_spec h (s v : Server) :
  readSelf h s = Some v →
  ∃ h' s' hn, writeServer h s = Some (h', s') ∧ grows h h' hn ∧ readServer hn s' = Some v.
Proof.
  intros [= <-]. unfold writeServer.
  destruct (appendNil StringArray h _) as [h1 r1] eqn:E1.
  apply (appendNil_spec asStrings) in E1 as (n1 & G1 & R1); [|done].
  destruct (writePointer FrontendCell h1 _) as [h2 r2] eqn:E2.
  apply (writePointer_spec asFrontend) in E2 as (n2 & G2 & R2); [|done].
  eexists _, _, _. split; [done|]. split; [by eapply grows_trans|]. unfold readServer. simpl.
  rewrite (readSlice_mono n1 _ (grows_part_r _ _ _ _ _ G1 G2) _ _ _ R1). simpl.
  rewrite (readPointer_mono n2 _ (map_union_subseteq_l _ _) _ _ _ R2). by destruct s.
Qed.

Lemma writeMount_spec h (m v : Mount) :
  readSelf h m = Some v →
  ∃ h' m' hn, writeMount h m = Some (h', m') ∧ grows h h' hn ∧ readMount hn m' = Some v.
Proof.
  intros [= <-]. unfold writeMount. destruct (writePointer BackendCell h _) as [h2 r2] eqn:E2.
  apply (writePointer_spec asBackend) in E2 as (n2 & G2 & R2); [|done].
  eexists _, _, _. split; [done|]. split; [done|]. unfold readMount. simpl. rewrite R2. by destruct m.
Qed.

Lemma writeConfig_spec h c :
  ∃ h' c' hn, writeConfig h c = Some (h', c') ∧ grows h h' hn ∧ readConfig h' c' = Some c.
Proof.
  unfold writeConfig.
  destruct (cloneAll_spec writeServer readSelf readServer ltac:(done) readServer_mono writeServer_spec
              (Servers c) h _ (mapM_self h _)) as (h1 & l1 & n1 & -> & G1 & R1).
  cbn [mbind option_bind]. destruct (appendNil ServerArray h1 l1) as [h2 r2] eqn:E2.
  apply (appendNil_spec asServers) in E2 as (n2 & G2 & R2); [|done].
  destruct (cloneAll_spec writeMount readSelf readMount ltac:(done) readMount_mono writeMount_spec
              (Mounts c) h2 _ (mapM_self h2 _)) as (h3 & l3 & n3 & -> & G3 & R3).
  cbn [mbind option_bind]. destruct (appendNil MountArray h3 l3) as [h4 r4] eqn:E4.
  apply (appendNil_spec asMounts) in E4 as (n4 & G4 & R4); [|done].
  destruct (appendNil RuleArray h4 (Policies c)) as [h5 r5] eqn:E5.
  apply (appendNil_spec asRules) in E5 as (n5 & G5 & R5); [|done].
  eexists _, _, _. split; [done|]. split.
  { eapply grows_trans, G5. eapply grows_trans, G4. eapply grows_trans, G3. eapply grows_trans, G2. exact G1. }
  assert (∀ k k' n, grows k k' n → n ⊆ k') as Hn by (intros k k' n [-> _]; apply map_union_subseteq_l).
  pose proof (grows_sub _ _ _ G5) as P4.
  pose proof (transitivity (grows_sub _ _ _ G4) P4) as P3.
  pose proof (transitivity (grows_sub _ _ _ G3) P3) as P2.
  pose proof (transitivity (grows_sub _ _ _ G2) P2) as P1.
  pose proof (transitivity (Hn _ _ _ G1) P1) as S1.
  pose proof (transitivity (Hn _ _ _ G2) P2) as S2.
  pose proof (transitivity (Hn _ _ _ G3) P3) as S3.
  pose proof (transitivity (Hn _ _ _ G4) P4) as S4.
  unfold readConfig. cbn [cv_Servers cv_Mounts cv_Policies].
  rewrite (readSlice_mono _ _ S2 _ _ _ R2), (readSlice_mono _ _ S4 _ _ _ R4),
    (readSlice_mono _ _ (Hn _ _ _ G5) _ _ _ R5).
  cbn [mbind option_bind].
  rewrite (mapM_mono n1 _ readServer _ _ (readServer_mono _ _ S1) R1). cbn [mbind option_bind].
  rewrite (mapM_mono n3 _ readMount _ _ (readMount_mono _ _ S3) R3). by destruct c.
Qed.

(** The store of store.go, driven by a client that owns no other memory. *)
Section MemoryStore.
Context `{UnicodeData}.

Definition memoryStore : Type := heap * option ConfigVal.

Definition memorySnapshot (s : memoryStore) : Config * memoryStore :=
  match Snapshot (fst s) (snd s) with
  | Some (h', c') => (default emptyConfig (readConfig h' c'), (h', snd s))
  | None => (emptyConfig, s)
  end.

Definition memoryReplace (s : memoryStore) (c : Config) : result unit ConfigError * memoryStore :=
  match ('(h, candidate) ← writeConfig (fst s) c; Replace h (snd s) candidate) with
  | Some (r, h', current') => (r, (h', current'))
  | None => (Err NoServers, s)
  end.

Definition memoryView (s : memoryStore) : Config :=
  match snd s with
  | None => emptyConfig
  | Some c => default emptyConfig (readConfig (fst s) c)
  end.

Definition memoryInv (s : memoryStore) : Prop :=
  ∀ c, snd s = Some c → is_Some (readConfig (fst s) c).

Lemma memoryView_grows h h' hn cur :
  memoryInv (h, cur) → grows h h' hn → memoryInv (h', cur) ∧ memoryView (h', cur) = memoryView (h, cur).
Proof.
  unfold memoryInv, memoryView. cbn. intros Hinv Hg%grows_sub. destruct cur as [c|]; [|done].
  destruct (Hinv c eq_refl) as [v Hv]. rewrite Hv, (readConfig_mono _ _ Hg _ _ Hv).
  split; [|done]. intros c' [= <-]. rewrite (readConfig_mono _ _ Hg _ _ Hv). done.
Qed.

#[export] Program Instance memory_ConfigStore : ConfigStore memoryStore := {|
  storeSnapshot := memorySnapshot;
  storeReplace := memoryReplace;
  storeInv := memoryInv;
  view := memoryView;
|}.
Next Obligation.
  intros [h cur] Hinv. unfold memorySnapshot. cbn [fst snd]. destruct cur as [c|].
  - destruct (Hinv c eq_refl) as [v Hv]. cbn [snd fst] in Hv.
    destruct (clone_spec h c v Hv) as (h' & c' & hn & Hc & Hg & Hr). cbn [Snapshot]. rewrite Hc.
    destruct Hg as [-> Hd]. rewrite (readConfig_mono hn _ (map_union_subseteq_l _ _) _ _ Hr).
    assert (memoryView (h, Some c) = v) as Hview by (unfold memoryView; cbn; by rewrite Hv).
    rewrite Hview. eexists. split; [done|]. rewrite <- Hview. by apply (memoryView_grows h _ hn).
  - eexists. split; [done|]. done.
Qed.
Next Obligation.
  intros [h cur] c Hinv. unfold memoryReplace. cbn [fst snd].
  destruct (writeConfig_spec h c) as (h1 & c1 & n1 & -> & G1 & R1). cbn [mbind option_bind].
  destruct (Replace_spec h1 cur c1 c R1) as (h2 & c2 & n2 & G2 & R2 & ->).
  pose proof (grows_trans _ _ _ _ _ G1 G2) as G12.
  destruct (Config_Validate c) as [[]|e].
  - eexists. split; [done|]. destruct G2 as [-> Hd].
    pose proof (readConfig_mono n2 _ (map_union_subseteq_l _ h1) _ _ R2) as R2'.
    unfold memoryInv, memoryView. cbn. split; [intros c' [= <-]; eauto|]. by rewrite R2'.
  - eexists. split; [done|]. by apply (memoryView_grows h _ (n2 ∪ n1)).
Qed.
End MemoryStore.

(** ** Properties *)

Section ReloadProperties.
Context `{UnicodeData} `{TOMLDecoder} {S : Type} `{!ConfigStore S} {E : Type}.

(** One attempt, with the file system it finds. *)
Definition attempt : Type := FileSystem * bytes * option (Config → result unit E).

Definition reload (store : option S) (a : attempt) : option S :=
  let '(files, path, validate) := a in
  snd (ReloadTOMLFileWithValidation (H1 := files) store path validate).

(** Any number of reloads keeps what one keeps. *)
Lemma reload_keeps s attempts :
  storeInv s → Config_Validate (view s) = Ok tt →
  ∃ s', foldl reload (Some s) attempts = Some s' ∧ storeInv s'
    ∧ Config_Validate (view s') = Ok tt
    ∧ topology <$> Servers (view s') ≡ₚ topology <$> Servers (view s)
    ∧ collectPolicies (view s') = collectPolicies (view s).
Proof.
  intros Hinv Hv. induction attempts as [|[[files path] validate] attempts IH] using rev_ind; [by exists s|].
  destruct IH as (s1 & Hs1 & Hinv1 & Hv1 & Htop1 & Htls1). rewrite foldl_app, Hs1. cbn [foldl reload].
  destruct (reload_cases files s1 path validate Hinv1) as (r & s2 & -> & Hinv2 & Hr).
  exists s2. split; [done|]. split; [done|]. destruct r as [[]|e].
  - destruct Hr as (_ & _ & _ & _ & Hv2 & Htop2 & Htls2). split_and!; [done| |congruence].
    by rewrite Htop2.
  - destruct Hr as [-> _]. done.
Qed.

(** A reload is all or nothing.  It either fails and the published
    configuration is the one before, or it succeeds and the published
    configuration is the parsed file: valid, accepted by the capability check,
    with the listeners (name, protocol, address and TLS identity, in any
    order) and the backend TLS policies of the configuration it replaces.
    Publishing itself cannot fail. *)
Theorem Reload_atomic (files : FileSystem) s path (validate : option (Config → result unit E)) :
  storeInv s →
  ∃ r s', ReloadTOMLFileWithValidation (Some s) path validate = (r, Some s') ∧ storeInv s'
    ∧ match r with
      | Err e => view s' = view s ∧ ∀ e', e ≠ PublishFailed e'
      | Ok _ => ∃ contents, openFile path = Some (contents, true) ∧ ParseTOML (Some contents) = Ok (view s')
          ∧ (∀ check, validate = Some check → check (view s') = Ok tt)
          ∧ Config_Validate (view s') = Ok tt
          ∧ topology <$> Servers (view s') ≡ₚ topology <$> Servers (view s)
          ∧ collectPolicies (view s') = collectPolicies (view s)
      end.
Proof. apply reload_cases. Qed.

(** C24: however often a process reloads, whatever the files hold, it publishes
    valid configurations only and never departs from the listeners and backend
    TLS policies it was started with. *)
Theorem Reload_sequence s attempts :
  storeInv s → Config_Validate (view s) = Ok tt →
  ∃ s', foldl reload (Some s) attempts = Some s' ∧ storeInv s'
    ∧ Config_Validate (view s') = Ok tt
    ∧ topology <$> Servers (view s') ≡ₚ topology <$> Servers (view s)
    ∧ collectPolicies (view s') = collectPolicies (view s).
Proof. apply reload_keeps. Qed.
End ReloadProperties.

(** ** Witnesses *)

Definition reloadedConfig : Config :=
  {| Servers := [sampleServer];
     Mounts := [{| Mount_Path := "/*"; Mount_Source := []; Mount_Target := "http://backend/*"; Mount_Priority := 0;
                   Mount_Server := "web"; Mount_Protocol := "HTTP"; Mount_TLS := None |}];
     Policies := [] |}.

#[local] Existing Instance asciiUnicode.

(** A decoder that knows one document, and a file system that holds it. *)
Definition oneDocument : TOMLDecoder :=
  {| decodeTOML := λ text, if bool_decide (text = "new") then Ok reloadedConfig else Err (OtherDecode text) |}.
Definition oneFile : FileSystem :=
  {| openFile := λ path, if bool_decide (path = "gateway.toml") then Some ("new" : bytes, true) else None |}.

#[local] Existing Instance oneDocument.
#[local] Existing Instance oneFile.

Definition startedStore : memoryStore := snd (memoryReplace (∅, None) sampleConfig).

Lemma started_inv : storeInv startedStore.
Proof. intros c. vm_compute. intros [= <-]. eauto. Qed.

Lemma Reload_atomic_witness :
  ∃ s', ReloadTOMLFileWithValidation (E := unit) (Some startedStore) "gateway.toml" None
          = (Ok tt, Some s')
        ∧ topology <$> Servers (view s') ≡ₚ topology <$> Servers (view startedStore).
Proof.
  destruct (Reload_atomic (E := unit) oneFile startedStore "gateway.toml" None started_inv)
    as (r & s' & Heq & _ & Hr).
  assert (isOk (fst (ReloadTOMLFileWithValidation (E := unit) (Some startedStore)
                       "gateway.toml" None)) = true) as Hok by by vm_compute.
  rewrite Heq in Hok. destruct r as [[]|e]; [|discriminate Hok].
  exists s'. split; [exact Heq|]. by destruct Hr as (_ & _ & _ & _ & _ & Htop & _).
Defined.

Lemma Reload_sequence_witness :
  ∃ s', foldl (reload (E := unit)) (Some startedStore)
          [(oneFile, "gateway.toml" : bytes, None); (oneFile, "missing.toml" : bytes, None)] = Some s'
        ∧ Config_Validate (view s') = Ok tt.
Proof.
  destruct (Reload_sequence (E := unit) startedStore
              [(oneFile, "gateway.toml" : bytes, None); (oneFile, "missing.toml" : bytes, None)] started_inv)
    as (s' & Hs & _ & Hv & _); [by vm_compute|].
  exists s'. by split.
Defined.
