(* ===== verification/Legacy.v ===== *)
(** config/legacy.go: DeleGate-style command-line directives. *)

From S2P Require Import Prelude GoStrings GoUtf8 GoNet GoUrl Path TlsConfig Mount Policy Config.

(** ** [strconv.Unquote] of a double-quoted string *)

Fixpoint hexDigits (n : nat) (acc : Z) (s : bytes) : option (Z * bytes) :=
  match n with
  | 0 => Some (acc, s)
  | S n' =>
      match s with
      | [] => None
      | c :: s' =>
          match hexValue c with
          | Some d => hexDigits n' (acc * 16 + d) s'
          | None => None
          end
      end
  end.

Definition validRune (r : Z) : bool :=
  ((0 <=? r) && (r <? 55296))%Z || ((57343 <? r) && (r <=? 1114111))%Z.

Definition octalDigit (c : ascii) : option Z :=
  if inRange 48 55 c then Some (code c - 48)%Z else None.

Definition doubleQuote : ascii := "034"%char.
Definition backslash : ascii := "092"%char.
Definition lineFeed : ascii := "010"%char.

(** What follows a backslash: the bytes it stands for and the rest. *)
Definition unquoteEscape (c : ascii) (s : bytes) : option (bytes * bytes) :=
  if bool_decide (c = "a"%char) then Some (["007"%char], s)
  else if bool_decide (c = "b"%char) then Some (["008"%char], s)
  else if bool_decide (c = "f"%char) then Some (["012"%char], s)
  else if bool_decide (c = "n"%char) then Some (["010"%char], s)
  else if bool_decide (c = "r"%char) then Some (["013"%char], s)
  else if bool_decide (c = "t"%char) then Some (["009"%char], s)
  else if bool_decide (c = "v"%char) then Some (["011"%char], s)
  else if bool_decide (c = "x"%char) then
    match hexDigits 2 0 s with Some (v, s') => Some ([byteOf v], s') | None => None end
  else if bool_decide (c = "u"%char) || bool_decide (c = "U"%char) then
    match hexDigits (if bool_decide (c = "u"%char) then 4 else 8) 0 s with
    | Some (v, s') => if validRune v then Some (encodeRune v, s') else None
    | None => None
    end
  else match octalDigit c with
  | Some d =>
      match s with
      | c1 :: c2 :: s' =>
          match octalDigit c1, octalDigit c2 with
          | Some d1, Some d2 =>
              let v := (d * 64 + d1 * 8 + d2)%Z in
              if (255 <? v)%Z then None else Some ([byteOf v], s')
          | _, _ => None
          end
      | _ => None
      end
  | None =>
      if bool_decide (c = backslash) || bool_decide (c = doubleQuote) then Some ([c], s) else None
  end.

(** The scan after the opening quote; [fuel] is the number of bytes left.  An
    invalid byte is replaced by the encoding of U+FFFD. *)
Fixpoint unquoteLoop (fuel : nat) (s : bytes) : option (bytes * bytes) :=
  match fuel with
  | 0 => None
  | S fuel' =>
      match s with
      | [] => None
      | c :: s' =>
          if bool_decide (c = doubleQuote) then Some ([], s')
          else if bool_decide (c = lineFeed) then None
          else
            let next :=
              if (128 <=? code c)%Z then
                match decodeRune c s' with
                | Some (r, n) => Some (encodeRune r, drop n s')
                | None => Some (encodeRune runeError, s')
                end
              else if bool_decide (c = backslash) then
                match s' with
                | [] => None
                | e :: s'' => unquoteEscape e s''
                end
              else Some ([c], s') in
            match next with
            | None => None
            | Some (out, rest) =>
                match unquoteLoop fuel' rest with
                | Some (outs, remainder) => Some (out ++ outs, remainder)
                | None => None
                end
            end
      end
  end.

(** [strconv.Unquote] of a string that starts with a double quote. *)
Definition unquote (s : bytes) : option bytes :=
  match s with
  | q :: s' =>
      match unquoteLoop (length s) s' with
      | Some (out, []) => Some out
      | _ => None
      end
  | [] => None
  end.

(** The value of [MOUNT=], [PERMIT=] and [REJECT=], unquoted when it is quoted. *)
Definition unquoteValue (value : bytes) : option bytes :=
  if (2 <=? length value) && hasPrefix value [doubleQuote] && hasSuffix value [doubleQuote]
  then unquote value else Some value.

(** ** The code *)

Definition legacyDefaultPorts : gmap bytes Z :=
  {[("ftp" : bytes) := 21; ("gopher" : bytes) := 70; ("http" : bytes) := 80; ("https" : bytes) := 443;
    ("socks" : bytes) := 1080]}%Z.

Inductive LegacyError :=
| ServerProtocolEmpty
| ConflictingServer (protocol value : bytes)
| PortRequiresValue
| ConflictingPort (port value : Z)
| UnknownDirective (arg : bytes)
| ServerDirectiveRequired
| NoDefaultPort (protocol : bytes)
| ConfigurationInvalid (e : ConfigError)
| PolicyQuoting (effect : Effect)
| PolicySelectorCount (effect : Effect)
| PolicySelectorEmpty (effect : Effect)
| LegacyPolicyInvalid (effect : Effect) (e : RuleError)
| MountQuoting
| MountFieldCount
| UnknownMountOption (option : bytes)
| InvalidMountPriority (option : bytes)
| LegacyMountInvalid (e : MountError)
| InvalidLegacyPort (value : bytes).

Definition parseLegacyPort (value : bytes) : result Z LegacyError :=
  match atoi value with
  | None => Err (InvalidLegacyPort value)
  | Some port =>
      refuse InvalidLegacyPort value when (port <? 1)%Z || (65535 <? port)%Z ;;
      Ok port
  end.

Section Legacy.
Context `{UnicodeData}.

Definition parseLegacyPolicy (effect : Effect) (value : bytes) (priority : Z) : result Rule LegacyError :=
  let! value := orElse (unquoteValue value) (PolicyQuoting effect) in
  match splitByteN 3 value ":" with
  | [protocol; destination; source] =>
      let protocol := trimSpace protocol in
      let destination := trimSpace destination in
      let source := trimSpace source in
      refuse PolicySelectorEmpty effect
        when bool_decide (protocol = []) || bool_decide (destination = []) || bool_decide (source = []) ;;
      let rule := {| Rule_Effect := effect; Rule_Priority := priority; Rule_Source := source;
                     Rule_Protocol := toLower protocol; Rule_Destination := toLower destination;
                     Rule_Method := []; Rule_Mount := [] |} in
      let! _ := wrap (LegacyPolicyInvalid effect) (Rule_Validate rule) in
      Ok rule
  | _ => Err (PolicySelectorCount effect)
  end.

(** The loop over [fields[2:]]. *)
Fixpoint legacyMountOptions (options : list bytes) (mapping : Mount) : result Mount LegacyError :=
  match options with
  | [] => Ok mapping
  | opt :: rest =>
      let '(key, value, hasValue) := cutByte opt "=" in
      refuse UnknownMountOption opt when negb hasValue ;;
      let key := toLower key in
      let with_ (priority : Z) (server protocol : bytes) :=
        {| Mount_Path := Mount_Path mapping; Mount_Source := Mount_Source mapping;
           Mount_Target := Mount_Target mapping; Mount_Priority := priority; Mount_Server := server;
           Mount_Protocol := protocol; Mount_TLS := Mount_TLS mapping |} in
      if bool_decide (key = "priority") then
        let! priority := orElse (atoi value) (InvalidMountPriority opt) in
        legacyMountOptions rest (with_ priority (Mount_Server mapping) (Mount_Protocol mapping))
      else if bool_decide (key = "server") then
        legacyMountOptions rest (with_ (Mount_Priority mapping) value (Mount_Protocol mapping))
      else if bool_decide (key = "protocol") then
        legacyMountOptions rest (with_ (Mount_Priority mapping) (Mount_Server mapping) (toLower value))
      else Err (UnknownMountOption opt)
  end.

Definition parseLegacyMount (value : bytes) : result Mount LegacyError :=
  let! value := orElse (unquoteValue value) MountQuoting in
  match fields value with
  | first :: target :: options =>
      let isURL := contains first "://" in
      let mapping := {| Mount_Path := if isURL then [] else first; Mount_Source := if isURL then first else [];
                        Mount_Target := target; Mount_Priority := 0; Mount_Server := []; Mount_Protocol := [];
                        Mount_TLS := None |} in
      let! mapping := legacyMountOptions options mapping in
      let! _ := wrap LegacyMountInvalid (Mount_Validate mapping) in
      Ok mapping
  | _ => Err MountFieldCount
  end.

(** The variables of the argument loop; port 0 is unset. *)
Record LegacyState := {
  legacyProtocol : bytes;
  legacyPort : Z;
  legacyMounts : list Mount;
  legacyPolicies : list Rule;
}.

Definition legacyInitial : LegacyState :=
  {| legacyProtocol := []; legacyPort := 0; legacyMounts := []; legacyPolicies := [] |}.

Definition setServer (s : LegacyState) (text : bytes) : result LegacyState LegacyError :=
  let value := toLower (trimSpace text) in
  refuse ServerProtocolEmpty when bool_decide (value = []) ;;
  refuse ConflictingServer (legacyProtocol s) value
    when negb (bool_decide (legacyProtocol s = [])) && negb (bool_decide (legacyProtocol s = value)) ;;
  Ok {| legacyProtocol := value; legacyPort := legacyPort s; legacyMounts := legacyMounts s;
        legacyPolicies := legacyPolicies s |}.

Definition setPort (s : LegacyState) (text : bytes) : result LegacyState LegacyError :=
  let! value := parseLegacyPort (trimSpace text) in
  refuse ConflictingPort (legacyPort s) value
    when negb (legacyPort s =? 0)%Z && negb (legacyPort s =? value)%Z ;;
  Ok {| legacyProtocol := legacyProtocol s; legacyPort := value; legacyMounts := legacyMounts s;
        legacyPolicies := legacyPolicies s |}.

Definition addMount (s : LegacyState) (text : bytes) : result LegacyState LegacyError :=
  let! mapping := parseLegacyMount (trimSpace text) in
  Ok {| legacyProtocol := legacyProtocol s; legacyPort := legacyPort s;
        legacyMounts := legacyMounts s ++ [mapping]; legacyPolicies := legacyPolicies s |}.

Definition addPolicy (s : LegacyState) (effect : Effect) (text : bytes) : result LegacyState LegacyError :=
  let! rule := parseLegacyPolicy effect (trimSpace text) (- Z.of_nat (length (legacyPolicies s))) in
  Ok {| legacyProtocol := legacyProtocol s; legacyPort := legacyPort s;
        legacyMounts := legacyMounts s; legacyPolicies := legacyPolicies s ++ [rule] |}.

(** One argument other than [-P] on its own. *)
Definition legacyDirective (s : LegacyState) (arg : bytes) : result LegacyState LegacyError :=
  if hasPrefix arg "SERVER=" then setServer s (trimPrefix arg "SERVER=")
  else if hasPrefix arg "-P" then setPort s (trimPrefix arg "-P")
  else if hasPrefix arg "MOUNT=" then addMount s (trimPrefix arg "MOUNT=")
  else if hasPrefix arg "PERMIT=" then addPolicy s Permit (trimPrefix arg "PERMIT=")
  else if hasPrefix arg "REJECT=" then addPolicy s Reject (trimPrefix arg "REJECT=")
  else Err (UnknownDirective arg).

Fixpoint legacyArgs (s : LegacyState) (args : list bytes) : result LegacyState LegacyError :=
  match args with
  | [] => Ok s
  | raw :: rest =>
      let arg := trimSpace raw in
      if bool_decide (arg = "-P") then
        match rest with
        | [] => Err PortRequiresValue
        | value :: rest' => let! s' := setPort s value in legacyArgs s' rest'
        end
      else let! s' := legacyDirective s arg in legacyArgs s' rest
  end.

Definition ParseLegacyArgs (args : list bytes) : result Config LegacyError :=
  let! s := legacyArgs legacyInitial args in
  refuse ServerDirectiveRequired when bool_decide (legacyProtocol s = []) ;;
  let! port :=
    (if (legacyPort s =? 0)%Z
     then orElse (legacyDefaultPorts !! legacyProtocol s) (NoDefaultPort (legacyProtocol s))
     else Ok (legacyPort s)) in
  let config := {| Servers := [{| Server_Name := "default"; Server_Protocol := legacyProtocol s;
                                  Server_Listen := ":" ++ itoa port; ClientIPHeader := [];
                                  TrustedProxies := []; Server_TLS := None |}];
                   Mounts := legacyMounts s; Policies := legacyPolicies s |} in
  let! _ := wrap ConfigurationInvalid (Config_Validate config) in
  Ok config.
End Legacy.

(** ** Lemmas *)

Section LegacyLemmas.
Context `{UnicodeData}.

(** What the argument loop maintains: the port is unset or valid, and rule [i]
    is a permit or a reject of priority [-i]. *)
Definition descending (rules : list Rule) : Prop :=
  ∀ i r, rules !! i = Some r →
    Rule_Priority r = (- Z.of_nat i)%Z ∧ (Rule_Effect r = Permit ∨ Rule_Effect r = Reject).

Definition legacyInv (s : LegacyState) : Prop :=
  (legacyPort s = 0 ∨ 1 ≤ legacyPort s ≤ 65535)%Z ∧ descending (legacyPolicies s).

Lemma parseLegacyPort_Ok value port :
  parseLegacyPort value = Ok port → atoi value = Some port ∧ (1 ≤ port ≤ 65535)%Z.
Proof.
  unfold parseLegacyPort. destruct (atoi value) as [n|]; [|done].
  destruct (_ || _) eqn:E; [done|]. intros [= <-]. reflect_bools. split; [done|lia].
Qed.

Lemma parseLegacyPolicy_Ok effect value priority r :
  parseLegacyPolicy effect value priority = Ok r →
  Rule_Effect r = effect ∧ Rule_Priority r = priority ∧ Rule_Validate r = Ok tt.
Proof.
  unfold parseLegacyPolicy. intros Hp. destruct (unquoteValue value) as [text|]; [|done]. cbn [orElse] in Hp.
  destruct (splitByteN 3 text ":") as [|a [|b [|c [|d l]]]]; try done.
  destruct (_ || _) in Hp; [done|]. destruct (Rule_Validate _) as [[]|] eqn:Hv in Hp; [|done].
  injection Hp as <-. done.
Qed.

Lemma setServer_inv s text s' : setServer s text = Ok s' → legacyInv s → legacyInv s'.
Proof. unfold setServer. intros Hs Hinv. follow Hs. done. Qed.

Lemma setPort_inv s text s' : setPort s text = Ok s' → legacyInv s → legacyInv s'.
Proof.
  unfold setPort. destruct (parseLegacyPort _) as [port|] eqn:Hp; [|done].
  apply parseLegacyPort_Ok in Hp as [_ Hrange].
  destruct (_ && _); [done|]. intros [= <-] [_ Hd]. split; [by right|done].
Qed.

Lemma addMount_inv s text s' : addMount s text = Ok s' → legacyInv s → legacyInv s'.
Proof. unfold addMount. intros Hs Hinv. destruct (parseLegacyMount _); [|done]. by injection Hs as <-. Qed.

Lemma addPolicy_inv s effect text s' :
  effect = Permit ∨ effect = Reject → addPolicy s effect text = Ok s' → legacyInv s → legacyInv s'.
Proof.
  unfold addPolicy. intros Heff. destruct (parseLegacyPolicy _ _ _) as [r|] eqn:Hp; [|done].
  apply parseLegacyPolicy_Ok in Hp as (He & Hprio & _).
  intros [= <-] [Hport Hd]. split; [done|]. cbn. intros i r' [Hi|[Hi Hr]]%lookup_app_Some; [by apply Hd|].
  apply list_lookup_singleton_Some in Hr as [Hi0 ->].
  assert (i = length (legacyPolicies s)) as -> by lia. split; [done|]. by rewrite He.
Qed.

Lemma legacyDirective_inv s arg s' : legacyDirective s arg = Ok s' → legacyInv s → legacyInv s'.
Proof.
  unfold legacyDirective.
  destruct (hasPrefix arg "SERVER="); [apply setServer_inv|].
  destruct (hasPrefix arg "-P"); [apply setPort_inv|].
  destruct (hasPrefix arg "MOUNT="); [apply addMount_inv|].
  destruct (hasPrefix arg "PERMIT="); [apply addPolicy_inv; auto|].
  destruct (hasPrefix arg "REJECT="); [apply addPolicy_inv; auto|done].
Qed.

Lemma legacyArgs_inv args s s' : legacyArgs s args = Ok s' → legacyInv s → legacyInv s'.
Proof.
  revert s. induction args as [args IH] using (induction_ltof1 _ (@length bytes)); intros s.
  destruct args as [|raw rest]; cbn [legacyArgs]; [by intros [= <-]|].
  destruct (bool_decide _).
  - destruct rest as [|value rest]; [done|]. destruct (setPort s value) as [s1|] eqn:Hs; [|done].
    intros Hr Hinv. eapply IH; [|exact Hr|by eapply setPort_inv]. unfold ltof. simpl. lia.
  - destruct (legacyDirective s _) as [s1|] eqn:Hs; [|done].
    intros Hr Hinv. eapply IH; [|exact Hr|by eapply legacyDirective_inv]. unfold ltof. simpl. lia.
Qed.

Lemma legacy_initial_inv : legacyInv legacyInitial.
Proof. split; [by left|]. intros i r Hi. cbn in Hi. done. Qed.

Lemma legacyDefaultPorts_range protocol port :
  legacyDefaultPorts !! protocol = Some port → (1 ≤ port ≤ 65535)%Z.
Proof.
  unfold legacyDefaultPorts. rewrite !lookup_insert_Some, lookup_singleton_Some.
  intros. destruct_or?; destruct_and?; lia.
Qed.

Lemma ParseLegacyArgs_cases args c :
  ParseLegacyArgs args = Ok c →
  ∃ s port, legacyArgs legacyInitial args = Ok s ∧ legacyInv s ∧ (1 ≤ port ≤ 65535)%Z
    ∧ legacyProtocol s ≠ [] ∧ Config_Validate c = Ok tt
    ∧ (legacyPort s ≠ 0%Z → port = legacyPort s)
    ∧ c = {| Servers := [{| Server_Name := "default"; Server_Protocol := legacyProtocol s;
                            Server_Listen := ":" ++ itoa port; ClientIPHeader := [];
                            TrustedProxies := []; Server_TLS := None |}];
             Mounts := legacyMounts s; Policies := legacyPolicies s |}.
Proof.
  unfold ParseLegacyArgs. intros Hc. destruct (legacyArgs legacyInitial args) as [s|] eqn:Hs; [|done].
  pose proof (legacyArgs_inv _ _ _ Hs legacy_initial_inv) as Hinv.
  destruct (bool_decide (legacyProtocol s = [])) eqn:Hp; [done|]. reflect_bools.
  destruct (if (legacyPort s =? 0)%Z then _ else _) as [port|] eqn:Hport; [|done].
  destruct (Config_Validate _) as [[]|] eqn:Hv in Hc; [|done]. injection Hc as <-.
  exists s, port. split_and!; try done.
  - destruct (legacyPort s =? 0)%Z eqn:E; reflect_bools.
    + apply orElse_Ok, legacyDefaultPorts_range in Hport. lia.
    + injection Hport as <-. destruct Hinv as [[?|?] _]; lia.
  - destruct (legacyPort s =? 0)%Z eqn:E; reflect_bools.
    + apply orElse_Ok, legacyDefaultPorts_range in Hport. lia.
    + injection Hport as <-. destruct Hinv as [[?|?] _]; lia.
  - intros Hne. apply Z.eqb_neq in Hne. rewrite Hne in Hport. by injection Hport.
Qed.
End LegacyLemmas.

(** ** Properties *)

Section LegacyProperties.
Context `{UnicodeData}.

(** Directives that are accepted give a valid configuration with the one
    server [default], which listens on a port from 1 to 65535 that the
    listen address spells in decimal. *)
Theorem ParseLegacyArgs_valid args c :
  ParseLegacyArgs args = Ok c →
  Config_Validate c = Ok tt
  ∧ ∃ server port, Servers c = [server] ∧ Server_Name server = "default" ∧ Server_Protocol server ≠ []
      ∧ Server_Listen server = ":"%char :: itoa port ∧ atoi (itoa port) = Some port
      ∧ (1 ≤ port ≤ 65535)%Z.
Proof.
  intros (s & port & _ & _ & Hport & Hp & Hv & _ & ->)%ParseLegacyArgs_cases.
  split; [done|]. eexists _, port. do 4 (split; [done|]).
  split; [apply atoi_itoa; lia|done].
Qed.

(** C36: access directives are first-match.  For the rules a command line
    produces, the gateway's priority evaluation decides every request by the
    first [PERMIT=] or [REJECT=] that matches it, and denies it when none
    does. *)
Theorem ParseLegacyArgs_first_match args c request :
  ParseLegacyArgs args = Ok c →
  Evaluate (Policies c) request =
    match list_find (λ r, ruleMatches r request = true) (Policies c) with
    | Some (i, r) =>
        if decide (Rule_Effect r = Permit)
        then {| Allowed := true; Reason := ReasonExplicitPermit; RuleIndex := Z.of_nat i |}
        else {| Allowed := false; Reason := ReasonExplicitReject; RuleIndex := Z.of_nat i |}
    | None => {| Allowed := false; Reason := ReasonDefaultDeny; RuleIndex := -1 |}
    end.
Proof.
  intros (s & port & _ & [_ Hd] & _ & _ & _ & _ & ->)%ParseLegacyArgs_cases. cbn [Policies].
  generalize dependent (legacyPolicies s). clear. intros rules Hd.
  assert (∀ i r, rules !! i = Some r → (effective request r ↔ ruleMatches r request = true)) as Heff.
  { intros i r Hi. apply Hd in Hi as [_ He]. rewrite effective_iff. tauto. }
  destruct (Evaluate_cases request rules) as [[Hnone ->]|(j & w & Hb & Hj & Hcase)].
  - destruct (list_find _ rules) as [[i r]|] eqn:Hf; [|done].
    apply list_find_Some in Hf as (Hi & Hm & _). rewrite Forall_forall in Hnone.
    destruct (Hnone r); [by eapply list_elem_of_lookup_2|]. by apply (Heff i).
  - destruct Hb as (w' & Hj' & Hw & _ & Hfirst). assert (w' = w) as -> by congruence.
    assert (list_find (λ r, ruleMatches r request = true) rules = Some (j, w)) as ->.
    { apply list_find_Some. split; [done|]. split; [by apply (Heff j)|].
      intros k r Hk Hlt Hm. apply (Heff k r Hk) in Hm.
      destruct (Hfirst k r Hlt Hk Hm) as [?|[? _]];
        apply Hd in Hk as [? _]; apply Hd in Hj as [? _]; lia. }
    destruct Hcase as [[He ->]|[He ->]]; [by rewrite decide_True|]. by rewrite decide_False by congruence.
Qed.
End LegacyProperties.

(** ** Witnesses *)

Definition sampleArgs : list bytes :=
  ["SERVER=http" : bytes; "-P" : bytes; "8080" : bytes; "REJECT=*:*:10.1.0.0/16" : bytes;
   "PERMIT=http:*.example.com:10.0.0.0/8" : bytes].

Lemma ParseLegacyArgs_valid_witness :
  let U := asciiUnicode in ∃ c, ParseLegacyArgs sampleArgs = Ok c ∧ Config_Validate c = Ok tt.
Proof.
  intros U. eexists. eassert (ParseLegacyArgs sampleArgs = Ok _) as Hok by (vm_compute; reflexivity).
  split; [exact Hok|]. by apply (ParseLegacyArgs_valid sampleArgs _ Hok).
Defined.

Lemma ParseLegacyArgs_first_match_witness :
  let U := asciiUnicode in
  ∃ c, ParseLegacyArgs sampleArgs = Ok c
    ∧ Allowed (Evaluate (Policies c) (sampleRequest "10.1.2.3" "www.example.com")) = false.
Proof.
  intros U. eexists. eassert (ParseLegacyArgs sampleArgs = Ok _) as Hok by (vm_compute; reflexivity).
  split; [exact Hok|].
  rewrite (ParseLegacyArgs_first_match sampleArgs _ (sampleRequest "10.1.2.3" "www.example.com") Hok).
  by vm_compute.
Defined.
