(* ===== verification/Endpoint.v ===== *)
(** endpoint/address.go: the two-address grammar of transparent byte-stream
    routes. *)

From S2P Require Import Prelude GoStrings GoUtf8 GoNet.

(** ** The code *)

Inductive Kind := TCPListen | TCPConnect | TailcatListen | TailcatConnect.

#[export] Instance Kind_eq_dec : EqDecision Kind.
Proof. solve_decision. Defined.

Definition kindString (kind : Kind) : bytes :=
  match kind with
  | TCPListen => "TCP-LISTEN"
  | TCPConnect => "TCP-CONNECT"
  | TailcatListen => "TAILCAT-LISTEN"
  | TailcatConnect => "TAILCAT-CONNECT"
  end.

(** [Input]: the empty string or [Stdin]. *)
Inductive Input := NoInput | Stdin.

#[export] Instance Input_eq_dec : EqDecision Input.
Proof. solve_decision. Defined.

Definition stdinText : bytes := "@stdin".

Record Address := {
  Address_Kind : Kind;
  Address_Host : bytes;
  Address_Port : Z;
  Address_Input : Input;
}.

#[export] Instance Address_eq_dec : EqDecision Address.
Proof. solve_decision. Defined.

Record Route := {
  Ingress : Address;
  Egress : Address;
}.

Inductive EndpointError :=
| AddressRequired
| SurroundingWhitespace
| UnknownType (text : bytes)
| OptionsUnsupported (kind : Kind)
| HostPortRequired (kind : Kind)
| HostRequired (kind : Kind)
| InvalidHost (kind : Kind) (host : bytes)
| InvalidPort (kind : Kind) (port : bytes)
| HandoffSource (kind : Kind).

Inductive RouteError :=
| TwoAddressesRequired
| FirstAddress (e : EndpointError)
| FirstMustListen (kind : Kind)
| SecondAddress (e : EndpointError)
| SecondMustConnect (kind : Kind).

(** The switch on the keyword; keywords are case-sensitive. *)
Definition kindOf (rawKind : bytes) : option Kind :=
  if bool_decide (rawKind = kindString TCPListen) then Some TCPListen
  else if bool_decide (rawKind = kindString TCPConnect) then Some TCPConnect
  else if bool_decide (rawKind = kindString TailcatListen) then Some TailcatListen
  else if bool_decide (rawKind = kindString TailcatConnect) then Some TailcatConnect
  else None.

Definition parsePort (kind : Kind) (value : bytes) : result Z EndpointError :=
  match parseUint 16 value with
  | None => Err (InvalidPort kind value)
  | Some parsed =>
      refuse InvalidPort kind value when (parsed =? 0)%Z ;;
      Ok parsed
  end.

(** The case [TCPListen, TCPConnect]. *)
Definition parseTCP (kind : Kind) (argument : bytes) : result Address EndpointError :=
  refuse OptionsUnsupported kind when containsByte argument "," ;;
  match splitHostPort argument with
  | None => Err (HostPortRequired kind)
  | Some (host, rawPort) =>
      refuse HostRequired kind when bool_decide (host = []) ;;
      refuse InvalidHost kind host when existsb isSpace (runes host) ;;
      let! port := parsePort kind rawPort in
      Ok {| Address_Kind := kind; Address_Host := host; Address_Port := port; Address_Input := NoInput |}
  end.

Definition ParseAddress (value : bytes) : result Address EndpointError :=
  refuse AddressRequired when bool_decide (value = []) ;;
  refuse SurroundingWhitespace when negb (bool_decide (value = trimSpace value)) ;;
  let '(rawKind, argument, found) := cutByte value ":" in
  refuse UnknownType value when negb found ;;
  match kindOf rawKind with
  | Some TCPListen => parseTCP TCPListen argument
  | Some TCPConnect => parseTCP TCPConnect argument
  | Some TailcatListen =>
      refuse OptionsUnsupported TailcatListen when containsByte argument "," ;;
      let! port := parsePort TailcatListen argument in
      Ok {| Address_Kind := TailcatListen; Address_Host := []; Address_Port := port; Address_Input := NoInput |}
  | Some TailcatConnect =>
      refuse OptionsUnsupported TailcatConnect when containsByte argument "," ;;
      refuse HandoffSource TailcatConnect when negb (bool_decide (argument = stdinText)) ;;
      Ok {| Address_Kind := TailcatConnect; Address_Host := []; Address_Port := 0; Address_Input := Stdin |}
  | None => Err (UnknownType rawKind)
  end.

Definition listens (a : Address) : bool :=
  bool_decide (Address_Kind a = TCPListen) || bool_decide (Address_Kind a = TailcatListen).

Definition connects (a : Address) : bool :=
  bool_decide (Address_Kind a = TCPConnect) || bool_decide (Address_Kind a = TailcatConnect).

Definition ParseRoute (args : list bytes) : result Route RouteError :=
  match args with
  | [first; second] =>
      let! ingress := wrap FirstAddress (ParseAddress first) in
      refuse FirstMustListen (Address_Kind ingress) when negb (listens ingress) ;;
      let! egress := wrap SecondAddress (ParseAddress second) in
      refuse SecondMustConnect (Address_Kind egress) when negb (connects egress) ;;
      Ok {| Ingress := ingress; Egress := egress |}
  | _ => Err TwoAddressesRequired
  end.

(** ** The canonical text of an address *)

Definition argumentText (a : Address) : bytes :=
  match Address_Kind a with
  | TCPListen | TCPConnect => joinHostPort (Address_Host a) (itoa (Address_Port a))
  | TailcatListen => itoa (Address_Port a)
  | TailcatConnect => stdinText
  end.

Definition addressText (a : Address) : bytes := kindString (Address_Kind a) ++ ":"%char :: argumentText a.

(** The addresses the grammar can describe. *)
Definition addressOk (a : Address) : Prop :=
  match Address_Kind a with
  | TCPListen | TCPConnect =>
      Address_Host a ≠ [] ∧ "["%char ∉ Address_Host a ∧ "]"%char ∉ Address_Host a
      ∧ ","%char ∉ Address_Host a ∧ existsb isSpace (runes (Address_Host a)) = false
      ∧ (1 ≤ Address_Port a < 65536)%Z ∧ Address_Input a = NoInput
  | TailcatListen => Address_Host a = [] ∧ (1 ≤ Address_Port a < 65536)%Z ∧ Address_Input a = NoInput
  | TailcatConnect => Address_Host a = [] ∧ Address_Port a = 0%Z ∧ Address_Input a = Stdin
  end.

(** ** Lemmas *)

Lemma trimSpace_id c m d :
  (code c < 128)%Z → (code d < 128)%Z → isSpace (code c) = false → isSpace (code d) = false →
  trimSpace (c :: m ++ [d]) = c :: m ++ [d].
Proof.
  intros Hc Hd Hsc Hsd.
  assert (runePieces (c :: m ++ [d]) = (Some (code c), [c]) :: runePieces m ++ [(Some (code d), [d])]) as Hp.
  { change (c :: m ++ [d]) with ([] ++ c :: (m ++ [d])). by rewrite !runePieces_app. }
  unfold trimSpace. rewrite Hp. cbn [dropWhileb].
  change (spacePiece (Some (code c), [c])) with (isSpace (code c)). rewrite Hsc.
  rewrite reverse_cons, reverse_snoc. cbn [app dropWhileb].
  change (spacePiece (Some (code d), [d])) with (isSpace (code d)).
  rewrite Hsd, reverse_cons, reverse_app, reverse_involutive, reverse_singleton, <- app_assoc.
  cbn [app]. rewrite <- Hp. apply runePieces_concat.
Qed.

Lemma cutByte_app s t c : c ∉ s → cutByte (s ++ c :: t) c = (s, t, true).
Proof.
  induction s as [|b s IH]; simpl; [by rewrite bool_decide_eq_true_2|].
  rewrite not_elem_of_cons. intros [Hb Hs]. rewrite bool_decide_eq_false_2 by done. by rewrite IH.
Qed.

Lemma parsePort_Ok kind value port : parsePort kind value = Ok port → (1 ≤ port < 65536)%Z.
Proof.
  unfold parsePort. destruct (parseUint 16 value) as [n|] eqn:E; [|done]. apply parseUint_range in E.
  destruct (n =? 0)%Z eqn:Hn; [done|]. intros [= <-]. reflect_bools. lia.
Qed.

Lemma parsePort_itoa kind port : (1 ≤ port < 65536)%Z → parsePort kind (itoa port) = Ok port.
Proof.
  intros Hp. unfold parsePort. rewrite parseUint_itoa by lia. by rewrite (proj2 (Z.eqb_neq _ _)) by lia.
Qed.

Lemma kindOf_kindString kind : kindOf (kindString kind) = Some kind.
Proof. by destruct kind. Qed.

Lemma kindOf_Some raw kind : kindOf raw = Some kind → raw = kindString kind.
Proof. unfold kindOf. repeat case_bool_decide; by intros [= <-]. Qed.

Lemma kindString_shape kind : ∃ m, kindString kind = "T"%char :: m ∧ ":"%char ∉ kindString kind.
Proof. destruct kind; eexists; (split; [done|]); apply (bool_decide_unpack _); by vm_compute. Qed.

(** The text that follows the colon has a last byte that is not a space. *)
Lemma argumentText_last a :
  addressOk a → ∃ m d, argumentText a = m ++ [d] ∧ (code d < 128)%Z ∧ isSpace (code d) = false.
Proof.
  assert (∀ n, (0 ≤ n)%Z → ∃ m d, itoa n = m ++ [d] ∧ (code d < 128)%Z ∧ isSpace (code d) = false) as Hitoa.
  { intros n Hn. pose proof (itoa_isDigit n Hn) as Hd. pose proof (itoa_ne n) as Hne.
    destruct (itoa n) as [|d m _] using rev_ind; [done|].
    apply Forall_app in Hd as [_ [Hd _]%Forall_cons]. exists m, d. split; [done|].
    unfold isDigit in Hd. split; [lia|]. unfold isSpace. rewrite !orb_false_iff, !andb_false_iff, !Z.leb_gt, !Z.eqb_neq.
    split_and!; lia. }
  unfold addressOk, argumentText, joinHostPort.
  destruct (Address_Kind a); [intros (_ & _ & _ & _ & _ & Hp & _)..|intros (_ & Hp & _)|intros _].
  - destruct (Hitoa (Address_Port a)) as (m & d & -> & ? & ?); [lia|].
    destruct (containsByte _ _).
    + exists ("[" ++ Address_Host a ++ "]:" ++ m), d. split; [|done]. by rewrite <- !app_assoc.
    + exists (Address_Host a ++ ":" ++ m), d. split; [|done]. by rewrite <- !app_assoc.
  - destruct (Hitoa (Address_Port a)) as (m & d & -> & ? & ?); [lia|].
    destruct (containsByte _ _).
    + exists ("[" ++ Address_Host a ++ "]:" ++ m), d. split; [|done]. by rewrite <- !app_assoc.
    + exists (Address_Host a ++ ":" ++ m), d. split; [|done]. by rewrite <- !app_assoc.
  - apply Hitoa. lia.
  - exists "@stdi", "n"%char. done.
Qed.

Lemma addressText_trim a : addressOk a → trimSpace (addressText a) = addressText a.
Proof.
  intros (m & d & Ha & Hd & Hs)%argumentText_last.
  destruct (kindString_shape (Address_Kind a)) as (k & Hk & _).
  unfold addressText. rewrite Ha, Hk.
  change (("T"%char :: k) ++ ":"%char :: m ++ [d]) with ("T"%char :: (k ++ ":"%char :: m ++ [d])).
  replace (k ++ ":"%char :: m ++ [d]) with ((k ++ ":"%char :: m) ++ [d]) by by rewrite <- app_assoc.
  by apply trimSpace_id.
Qed.

Lemma parseTCP_text kind host port :
  host ≠ [] → "["%char ∉ host → "]"%char ∉ host → ","%char ∉ host →
  existsb isSpace (runes host) = false → (1 ≤ port < 65536)%Z →
  parseTCP kind (joinHostPort host (itoa port))
  = Ok {| Address_Kind := kind; Address_Host := host; Address_Port := port; Address_Input := NoInput |}.
Proof.
  intros Hne Ho Hc Hcomma Hsp Hp. unfold parseTCP.
  assert (∀ c, inRange 48 57 c = false → c ∉ itoa port) as Hni
    by (intros c Hd; apply itoa_notin, not_isDigit; [lia|done]).
  rewrite splitHostPort_join by (done || by apply Hni).
  assert (containsByte (joinHostPort host (itoa port)) "," = false) as ->.
  { apply containsByte_false. unfold joinHostPort. specialize (Hni ","%char eq_refl).
    destruct (containsByte host ":"); cbn [list_ascii_of_string app];
      rewrite ?not_elem_of_cons, ?not_elem_of_app, ?not_elem_of_cons; split_and!; done. }
  rewrite bool_decide_eq_false_2, Hsp by done. by rewrite parsePort_itoa.
Qed.

Lemma ParseAddress_text a : addressOk a → ParseAddress (addressText a) = Ok a.
Proof.
  intros Hok. unfold ParseAddress. rewrite (addressText_trim a Hok).
  rewrite (bool_decide_eq_true_2 (addressText a = addressText a)) by done.
  destruct (kindString_shape (Address_Kind a)) as (k & Hk & Hcolon).
  rewrite (bool_decide_eq_false_2 (addressText a = [])) by (unfold addressText; by rewrite Hk).
  cbn [negb]. unfold addressText. rewrite cutByte_app, kindOf_kindString by done. cbn [negb].
  unfold addressOk, argumentText in *. destruct a as [kind host port input]. cbn in *.
  destruct kind.
  - destruct Hok as (? & ? & ? & ? & ? & ? & ->). by apply parseTCP_text.
  - destruct Hok as (? & ? & ? & ? & ? & ? & ->). by apply parseTCP_text.
  - destruct Hok as (-> & Hp & ->).
    rewrite (proj2 (containsByte_false _ _)), parsePort_itoa; [done|done|].
    apply itoa_notin, not_isDigit; [lia|done].
  - by destruct Hok as (-> & -> & ->).
Qed.

Lemma parseTCP_Ok kind argument a :
  kind = TCPListen ∨ kind = TCPConnect → parseTCP kind argument = Ok a → addressOk a.
Proof.
  unfold parseTCP. intros Hkind. destruct (containsByte argument ",") eqn:Hcomma; [done|].
  apply containsByte_false in Hcomma.
  destruct (splitHostPort argument) as [[host rawPort]|] eqn:Hs; [|done].
  apply splitHostPort_Some in Hs as (_ & Hs).
  case_bool_decide; [done|]. destruct (existsb isSpace _) eqn:Hsp; [done|].
  destruct (parsePort kind rawPort) as [port|] eqn:Hp; [|done]. apply parsePort_Ok in Hp. intros [= <-].
  assert ("["%char ∉ host ∧ "]"%char ∉ host ∧ ","%char ∉ host) as (? & ? & ?).
  { destruct Hs as [(-> & _ & ? & ?)|(-> & ? & ?)]; set_solver. }
  unfold addressOk. cbn. by destruct Hkind as [->| ->].
Qed.

Lemma ParseAddress_Ok value a : ParseAddress value = Ok a → addressOk a.
Proof.
  unfold ParseAddress. destruct (bool_decide _); [done|]. destruct (negb _); [done|].
  destruct (cutByte value ":") as [[raw argument] found]. destruct (negb found); [done|].
  destruct (kindOf raw) as [[]|]; [apply parseTCP_Ok; auto..| | |done].
  - destruct (containsByte _ _); [done|]. destruct (parsePort _ _) as [port|] eqn:Hp; [|done].
    apply parsePort_Ok in Hp. intros [= <-]. done.
  - destruct (containsByte _ _); [done|]. destruct (negb _); [done|]. by intros [= <-].
Qed.

(** ** Properties *)

(** C37: parsing and printing are inverse on the addresses of the grammar: an
    address is one that parsing can return exactly when its canonical text
    parses back to it. *)
Theorem ParseAddress_roundtrip a :
  (∃ value, ParseAddress value = Ok a) ↔ addressOk a ∧ ParseAddress (addressText a) = Ok a.
Proof.
  split.
  - intros [value Hv%ParseAddress_Ok]. split; [done|by apply ParseAddress_text].
  - intros [_ Hp]. eauto.
Qed.

(** A parsed route connects an accepting endpoint to a dialing one, both
    well formed, and reading back their canonical texts gives the same
    route. *)
Theorem ParseRoute_roles args r :
  ParseRoute args = Ok r →
  addressOk (Ingress r) ∧ addressOk (Egress r)
  ∧ (Address_Kind (Ingress r) = TCPListen ∨ Address_Kind (Ingress r) = TailcatListen)
  ∧ (Address_Kind (Egress r) = TCPConnect ∨ Address_Kind (Egress r) = TailcatConnect)
  ∧ ParseRoute [addressText (Ingress r); addressText (Egress r)] = Ok r.
Proof.
  unfold ParseRoute. destruct args as [|first [|second [|]]]; try done.
  destruct (ParseAddress first) as [i|] eqn:Hi; [|done]. apply ParseAddress_Ok in Hi. cbn [wrap].
  destruct (listens i) eqn:Hl; cbn [negb]; [|done].
  destruct (ParseAddress second) as [e|] eqn:He; [|done]. apply ParseAddress_Ok in He. cbn [wrap].
  destruct (connects e) eqn:Hc; cbn [negb]; [|done]. intros [= <-]. cbn [Ingress Egress].
  rewrite !ParseAddress_text by done. cbn [wrap]. rewrite Hl, Hc. cbn [negb].
  unfold listens, connects in *. rewrite orb_true_iff, !bool_decide_eq_true in Hl, Hc. done.
Qed.

Lemma ParseRoute_roles_witness :
  ∃ r, ParseRoute ["TCP-LISTEN:[::1]:08080" : bytes; "TAILCAT-CONNECT:@stdin" : bytes] = Ok r
    ∧ Address_Port (Ingress r) = 8080%Z ∧ addressOk (Egress r).
Proof.
  eexists. eassert (ParseRoute ["TCP-LISTEN:[::1]:08080" : bytes; "TAILCAT-CONNECT:@stdin" : bytes] = Ok _)
    as Hok by (vm_compute; reflexivity).
  split; [exact Hok|]. split; [done|]. by apply (ParseRoute_roles _ _ Hok).
Defined.
