(* ===== verification/Pairing.v ===== *)
(** link/tailcat.go and the pairing reader of link/tailcat_adapter.go: the
    one-line code that hands an ephemeral link from its right side to its left
    side.  Which Tailcat addresses are valid is decided by that library. *)

From S2P Require Import Prelude GoStrings GoUtf8 GoBufio Endpoint.

(** Whether [tailcat.ParseAddr] returns without an error. *)
Class TailcatLibrary := { parseTailcatAddr : bytes → bool }.

Definition pairingPrefix : bytes := "ndlink1".

Record Pairing := {
  RemotePort : Z;
  Pairing_Address : bytes;
}.

#[export] Instance Pairing_eq_dec : EqDecision Pairing.
Proof. solve_decision. Defined.

Inductive PairingError := PairingWhitespace | PairingMalformed | PairingPort | PairingAddress.

Inductive PairingLineError :=
| LineTooLong
| LineWithoutNewline
| LineReadFailed (err : ReadError)
| LineTrailingInput
| LineInvalid (err : PairingError).

Inductive ReadPairingError := PairingInputRequired | PairingContext | PairingLine (err : PairingLineError).

Definition maxPairingLine : nat := 4096.

(** [Pairing.Encode]. *)
Definition Encode (p : Pairing) : bytes :=
  pairingPrefix ++ ":"%char :: itoa (RemotePort p) ++ ":"%char :: Pairing_Address p.

Section Pairings.
Context `{TailcatLibrary}.

Definition validTailcatAddress (address : bytes) : bool := parseTailcatAddr address.

Definition ParsePairing (value : bytes) : result Pairing PairingError :=
  refuse PairingWhitespace when negb (bool_decide (value = trimSpace value)) ;;
  match splitByte value ":" with
  | [prefix; port; address] =>
      refuse PairingMalformed when negb (bool_decide (prefix = pairingPrefix)) ;;
      match parseUint 16 port with
      | None => Err PairingPort
      | Some port =>
          refuse PairingPort when (port =? 0)%Z ;;
          refuse PairingAddress when negb (validTailcatAddress address) ;;
          Ok {| RemotePort := port; Pairing_Address := address |}
      end
  | _ => Err PairingMalformed
  end.

(** [readPairingLine]: the buffer takes one line and one byte more, so a line
    that is too long is noticed without reading further. *)
Definition readPairingLine (input : reader) : result Pairing PairingLineError :=
  let '(line, err, b) := readSlice "010" (newReaderSize input (maxPairingLine + 2)) in
  if bool_decide (err = Some ErrBufferFull) || (maxPairingLine + 1 <? length line) then Err LineTooLong
  else
    match err with
    | Some EOF => Err LineWithoutNewline
    | Some err => Err (LineReadFailed err)
    | None =>
        refuse LineTrailingInput when negb (length (buffered b) =? 0) ;;
        wrap LineInvalid (ParsePairing (trimSuffix line ["010"%char]))
    end.

(** What the [select] of [ReadPairing] sees first: the line reader is done
    (and the context may have ended by then), or the context ended. *)
Inductive PairingRace := LineCompleted (contextEnded : bool) | ContextEnded.

(** [ReadPairing]; the flag tells whether the input was closed. *)
Definition ReadPairing (input : option reader) (race : PairingRace) : result Pairing ReadPairingError * bool :=
  match input with
  | None => (Err PairingInputRequired, false)
  | Some input =>
      match race with
      | LineCompleted contextEnded =>
          (if contextEnded then Err PairingContext else wrap PairingLine (readPairingLine input), true)
      | ContextEnded => (Err PairingContext, true)
      end
  end.
End Pairings.

(** ** Lemmas: pairings *)

(** The pairings the one-line form can carry. *)
Definition pairingOk `{TailcatLibrary} (p : Pairing) : Prop :=
  (1 ≤ RemotePort p < 65536)%Z ∧ ":"%char ∉ Pairing_Address p
  ∧ spaceAt (last (runePieces (Pairing_Address p))) = false ∧ validTailcatAddress (Pairing_Address p) = true.

Lemma last_after_colon s t : spaceAt (last (runePieces (s ++ ":"%char :: t))) = spaceAt (last (runePieces t)).
Proof.
  rewrite runePieces_app by done. rewrite last_app, last_cons. by destruct (last (runePieces t)).
Qed.

Lemma Encode_trim p : spaceAt (last (runePieces (Pairing_Address p))) = false → trimSpace (Encode p) = Encode p.
Proof.
  intros Hl. apply trimSpace_fixed. unfold Encode. split.
  - by rewrite runePieces_app.
  - by rewrite !last_after_colon.
Qed.

Lemma Encode_split p :
  (0 ≤ RemotePort p)%Z → ":"%char ∉ Pairing_Address p →
  splitByte (Encode p) ":" = [pairingPrefix; itoa (RemotePort p); Pairing_Address p].
Proof.
  intros Hp Ha. unfold Encode. rewrite splitByte_app; [|apply (bool_decide_unpack _); by vm_compute].
  rewrite splitByte_app by (apply itoa_notin; [done|by apply not_isDigit]). by rewrite splitByte_whole.
Qed.

Section Roundtrip.
Context `{TailcatLibrary}.

Lemma ParsePairing_Encode p : pairingOk p → ParsePairing (Encode p) = Ok p.
Proof.
  intros (Hp & Hc & Hs & Hv). unfold ParsePairing.
  rewrite Encode_trim, bool_decide_eq_true_2, Encode_split by (done || lia). cbn [negb].
  rewrite bool_decide_eq_true_2, parseUint_itoa by (done || lia). cbn [negb].
  rewrite (proj2 (Z.eqb_neq _ _)), Hv by lia. by destruct p.
Qed.

Lemma ParsePairing_Ok value p : ParsePairing value = Ok p → pairingOk p.
Proof.
  unfold ParsePairing. case_bool_decide as Htrim; [|done]. cbn [negb].
  destruct (splitByte value ":") as [|prefix [|port [|address [|]]]] eqn:Hsplit; try done.
  case_bool_decide; [|done]. cbn [negb]. destruct (parseUint 16 port) as [n|] eqn:Hn; [|done].
  destruct (n =? 0)%Z eqn:Hz; [done|]. destruct (validTailcatAddress address) eqn:Hv; [|done].
  intros [= <-]. apply parseUint_range in Hn. reflect_bools.
  pose proof (splitByte_parts ":" value) as Hparts. rewrite Hsplit, !Forall_cons in Hparts.
  pose proof (join_splitByte ":" value) as Hjoin. rewrite Hsplit in Hjoin.
  symmetry in Htrim. apply trimSpace_fixed in Htrim as [_ Hlast]. unfold pairingOk. cbn.
  split_and!; [lia|lia|naive_solver|..|done].
  rewrite <- Hjoin in Hlast.
  change (join _ _) with (prefix ++ ":"%char :: (port ++ ":"%char :: address)) in Hlast.
  by rewrite !last_after_colon in Hlast.
Qed.

(** The pairing code is faithful: what [Encode] writes is read back as the
    same pairing, for every pairing with a port, a valid address without a
    colon and no blank at its end; and whatever text is accepted denotes such a
    pairing, so re-encoding it gives a text with the same meaning. *)
Theorem ParsePairing_roundtrip p :
  (pairingOk p ↔ ParsePairing (Encode p) = Ok p) ∧ ∀ value, ParsePairing value = Ok p → ParsePairing (Encode p) = Ok p.
Proof.
  split; [split; [apply ParsePairing_Encode|apply ParsePairing_Ok]|].
  intros value Hp%ParsePairing_Ok. by apply ParsePairing_Encode.
Qed.

(** C39: the pairing is taken from one bounded line and nothing else: a result
    is the meaning of the line, of at most 4096 bytes, that the input begins
    with; and the line a right side writes is understood however the input
    delivers it in pieces. *)
Theorem readPairingLine_handoff input p :
  (readPairingLine input = Ok p →
     ∃ line rest, delivered input = line ++ "010"%char :: rest ∧ length line ≤ maxPairingLine
       ∧ "010"%char ∉ line ∧ ParsePairing line = Ok p)
  ∧ (progresses input → delivered input = Encode p ++ ["010"%char] → pairingOk p →
     "010"%char ∉ Pairing_Address p → length (Encode p) ≤ maxPairingLine → readPairingLine input = Ok p).
Proof.
  unfold readPairingLine. set (b := newReaderSize input (maxPairingLine + 2)).
  assert (bufSize b = 4098) as Hsize by done. assert (length (buffered b) ≤ bufSize b) as Hlen by (cbn; lia).
  assert (available b = delivered input) as Hav by done. split.
  - destruct (readSlice "010" b) as [[line err] b'] eqn:Hread.
    destruct (_ || _) eqn:Hlong; [done|]. destruct err as [[]|]; try done.
    apply readSlice_Ok in Hread as (l & -> & Hl & Hfit & Hstream & _); [|done]. reflect_bools.
    destruct (length (buffered b') =? 0); cbn [negb]; [|done]. rewrite trimSuffix_app, wrap_Ok. intros Hp.
    rewrite length_app in *. cbn [length] in *. exists l, (available b').
    split_and!; [|lia|done|done]. rewrite <- Hav, Hstream. by rewrite <- app_assoc.
  - intros Hprog Hdel Hok Hnl Hmax. rewrite <- Hav in Hdel. unfold maxPairingLine in Hmax.
    assert ("010"%char ∉ Encode p) as Hline.
    { unfold Encode. rewrite elem_of_app, !elem_of_cons, elem_of_app, elem_of_cons.
      assert ("010"%char ∉ pairingPrefix) by (apply (bool_decide_unpack _); by vm_compute). destruct Hok as [Hport _].
      intros [?|[?|[Hin|[?|?]]]]; try done.
      revert Hin. apply itoa_notin; [lia|by apply not_isDigit]. }
    destruct (readSlice_line "010" b (Encode p) []) as (b' & Hread & Hrest & Hsz & Hle & _); [done..|lia|].
    rewrite Hread, bool_decide_eq_false_2 by done. rewrite length_app. cbn [length orb].
    rewrite (proj2 (Nat.ltb_ge _ _)) by (unfold maxPairingLine; lia).
    unfold available in Hrest. apply app_nil in Hrest as [-> _]. cbn [length negb].
    by rewrite trimSuffix_app, ParsePairing_Encode.
Qed.
End Roundtrip.

(** ** Witnesses *)

(** A library for which an address is any non-empty word over the letters. *)
Definition wordLibrary : TailcatLibrary :=
  {| parseTailcatAddr address := negb (bool_decide (address = [])) && forallb (inRange 97 122) address |}.

Definition samplePairing : Pairing := {| RemotePort := 8080; Pairing_Address := "tcat" |}.

(** The handoff line in three pieces, the second a single byte. *)
Definition samplePieces : reader := [("ndlink1:80" : bytes, None); ("8" : bytes, None); ("0:tcat" ++ ["010"%char], None)].

Lemma readPairingLine_handoff_witness :
  @readPairingLine wordLibrary samplePieces = Ok samplePairing
  ∧ ∃ line rest, delivered samplePieces = line ++ "010"%char :: rest ∧ length line ≤ maxPairingLine.
Proof.
  destruct (@readPairingLine_handoff wordLibrary samplePieces samplePairing) as [Hsound Hcomplete].
  assert (@readPairingLine wordLibrary samplePieces = Ok samplePairing) as Hread.
  { apply Hcomplete.
    - repeat (apply Forall_cons_2; [by left|]). apply Forall_nil_2.
    - by vm_compute.
    - unfold pairingOk. split_and!; [done|done|apply (bool_decide_unpack _); by vm_compute|by vm_compute..].
    - apply (bool_decide_unpack _); by vm_compute.
    - apply Nat.leb_le. by vm_compute. }
  split; [exact Hread|]. destruct (Hsound Hread) as (line & rest & Hd & Hl & _). by exists line, rest.
Defined.

Lemma ParsePairing_roundtrip_witness :
  @ParsePairing wordLibrary (Encode samplePairing) = Ok samplePairing.
Proof.
  apply (proj2 (@ParsePairing_roundtrip wordLibrary samplePairing) "ndlink1:08080:tcat"). by vm_compute.
Defined.
