(* ===== verification/Socks5.v ===== *)
(** socks5/socks5.go: SOCKS5 wire framing.  A reader is the bytes it will
    still deliver before it fails, which is all [io.ReadFull] lets a caller
    see; reading returns the bytes left for the next user of the stream. *)

From S2P Require Import Prelude GoStrings GoNet.

(** ** Constants *)

Definition Version : Z := 5.
Definition MethodNoAuth : Z := 0.
Definition MethodNoAcceptable : Z := 255.
Definition CommandConnect : Z := 1.
Definition AddressIPv4 : Z := 1.
Definition AddressDomain : Z := 3.
Definition AddressIPv6 : Z := 4.
Definition ReplyAddressNotSupported : Z := 8.

Inductive SocksError :=
| ShortGreetingHeader
| UnsupportedVersion (version : Z)
| NoMethods
| ShortMethods
| UnsupportedMethod (method : Z)
| ShortRequestHeader
| UnsupportedCommand (command : Z)
| InvalidReservedByte (reserved : Z)
| ShortIPv4
| ShortIPv6
| ShortDomainLength
| EmptyDomain
| ShortDomain
| InvalidDomain
| UnsupportedAddressType (addressType : Z)
| ShortPort
| SocksInvalidPort
| UnsupportedReply (reply : Z)
| WriteFailed
| ShortWrite.

#[export] Instance SocksError_eq_dec : EqDecision SocksError.
Proof. solve_decision. Defined.

Record Greeting := { Methods : list Z }.

Record SocksRequest := {
  SocksRequest_Command : Z;
  SocksRequest_Host : bytes;
  SocksRequest_Port : Z;
}.

(** ** Reading *)

(** [io.ReadFull] into a buffer of [n] bytes. *)
Definition readFull (n : nat) (reader : bytes) : option (bytes * bytes) :=
  if n <=? length reader then Some (take n reader, drop n reader) else None.

(** The loop of [Greeting.Offers]. *)
Fixpoint offersLoop (methods : list Z) (method : Z) : bool :=
  match methods with
  | [] => false
  | offered :: rest => if (offered =? method)%Z then true else offersLoop rest method
  end.

Definition Offers (g : Greeting) (method : Z) : bool := offersLoop (Methods g) method.

Definition ReadGreeting (reader : bytes) : result (Greeting * bytes) SocksError :=
  match readFull 2 reader with
  | Some ([v; n], reader) =>
      refuse UnsupportedVersion (code v) when negb (code v =? Version)%Z ;;
      refuse NoMethods when (code n =? 0)%Z ;;
      match readFull (Z.to_nat (code n)) reader with
      | Some (methods, reader) => Ok ({| Methods := code <$> methods |}, reader)
      | None => Err ShortMethods
      end
  | _ => Err ShortGreetingHeader
  end.

Definition SelectNoAuth (greeting : Greeting) : Z :=
  if Offers greeting MethodNoAuth then MethodNoAuth else MethodNoAcceptable.

Definition isLetterOrDigit (c : ascii) : bool := inRange 97 122 c || inRange 65 90 c || inRange 48 57 c.

(** The loop of [validDomain]: [start] tells whether [i == labelStart], and
    [previous] is [domain[i-1]]. *)
Fixpoint domainLoop (start : bool) (previous : ascii) (domain : bytes) : bool :=
  match domain with
  | [] => true
  | character :: rest =>
      if bool_decide (character = "."%char) then
        if start || bool_decide (previous = "-"%char) then false
        else domainLoop true character rest
      else if bool_decide (character = "-"%char) then
        if start then false else domainLoop false character rest
      else if negb (isLetterOrDigit character) then false
      else domainLoop false character rest
  end.

Definition validDomain (domain : bytes) : bool :=
  if bool_decide (domain = []) || hasPrefix domain "." || hasSuffix domain "." then false
  else domainLoop true "."%char domain.

(** Big-endian numbers of wire bytes. *)
Definition bigEndian (wire : bytes) : Z := foldl (λ acc c, acc * 256 + code c)%Z 0%Z wire.

(** [netip.AddrFrom4] and [netip.AddrFrom16]. *)
Definition addrFrom4 (wire : bytes) : Addr := V4 (bigEndian wire).

Fixpoint groupsOf (wire : bytes) : list Z :=
  match wire with
  | hi :: lo :: rest => (code hi * 256 + code lo)%Z :: groupsOf rest
  | _ => []
  end.

Definition addrFrom16 (wire : bytes) : Addr := V6 (groupsOf wire) [].

Definition readAddress (reader : bytes) (addressType : Z) : result (bytes * bytes) SocksError :=
  if (addressType =? AddressIPv4)%Z then
    match readFull 4 reader with
    | Some (wire, reader) => Ok (addrString (addrFrom4 wire), reader)
    | None => Err ShortIPv4
    end
  else if (addressType =? AddressIPv6)%Z then
    match readFull 16 reader with
    | Some (wire, reader) => Ok (addrString (addrFrom16 wire), reader)
    | None => Err ShortIPv6
    end
  else if (addressType =? AddressDomain)%Z then
    match readFull 1 reader with
    | Some ([len], reader) =>
        refuse EmptyDomain when (code len =? 0)%Z ;;
        match readFull (Z.to_nat (code len)) reader with
        | Some (wire, reader) =>
            refuse InvalidDomain when negb (validDomain wire) ;;
            Ok (wire, reader)
        | None => Err ShortDomain
        end
    | _ => Err ShortDomainLength
    end
  else Err (UnsupportedAddressType addressType).

Definition ReadRequest (reader : bytes) : result (SocksRequest * bytes) SocksError :=
  match readFull 4 reader with
  | Some ([version; command; reserved; addressType], reader) =>
      refuse UnsupportedVersion (code version) when negb (code version =? Version)%Z ;;
      refuse UnsupportedCommand (code command) when negb (code command =? CommandConnect)%Z ;;
      refuse InvalidReservedByte (code reserved) when negb (code reserved =? 0)%Z ;;
      let! (host, reader) := readAddress reader (code addressType) in
      match readFull 2 reader with
      | Some (portWire, reader) =>
          let port := bigEndian portWire in
          refuse SocksInvalidPort when (port =? 0)%Z ;;
          Ok ({| SocksRequest_Command := CommandConnect; SocksRequest_Host := host; SocksRequest_Port := port |},
              reader)
      | None => Err ShortPort
      end
  | _ => Err ShortRequestHeader
  end.

(** ** Writing *)

(** A writer that keeps the [io.Writer] contract: each call accepts some
    prefix of its argument, scripted here by a byte count and an error flag;
    after the script it accepts everything. *)
Record Writer := {
  script : list (nat * bool);
  written : bytes;
}.

Definition write (w : Writer) (data : bytes) : nat * bool * Writer :=
  match script w with
  | [] => (length data, false, {| script := []; written := written w ++ data |})
  | (n, failed) :: rest =>
      let n := min n (length data) in
      (n, failed, {| script := rest; written := written w ++ take n data |})
  end.

(** [writeAll]: [fuel] bounds the iterations; each one but the last consumes a
    byte, so the length of the data is enough. *)
Fixpoint writeAllLoop (fuel : nat) (w : Writer) (data : bytes) : option (result unit SocksError * Writer) :=
  match data with
  | [] => Some (Ok tt, w)
  | _ =>
      match fuel with
      | 0 => None
      | S fuel' =>
          let '(n, failed, w) := write w data in
          if failed then Some (Err WriteFailed, w)
          else if n =? 0 then Some (Err ShortWrite, w)
          else writeAllLoop fuel' w (drop n data)
      end
  end.

Definition writeAll (w : Writer) (data : bytes) : option (result unit SocksError * Writer) :=
  writeAllLoop (length data) w data.

Definition wire (values : list Z) : bytes := byteOf <$> values.

Definition WriteMethod (w : Writer) (method : Z) : option (result unit SocksError * Writer) :=
  if negb (method =? MethodNoAuth)%Z && negb (method =? MethodNoAcceptable)%Z
  then Some (Err (UnsupportedMethod method), w)
  else writeAll w (wire [Version; method]).

Definition validReply (reply : Z) : bool := (reply <=? ReplyAddressNotSupported)%Z.

Definition WriteReply (w : Writer) (reply : Z) : option (result unit SocksError * Writer) :=
  if negb (validReply reply) then Some (Err (UnsupportedReply reply), w)
  else writeAll w (wire [Version; reply; 0; AddressIPv4; 0; 0; 0; 0; 0; 0]%Z).

(** ** Lemmas: domains *)

Definition domainByte (c : ascii) : Prop := c = "-"%char ∨ isLetterOrDigit c = true.

(** A label: letters, digits and hyphens, no hyphen first. *)
Definition labelChars (l : bytes) : Prop := Forall domainByte l ∧ head l ≠ Some "-"%char.

(** Every label but the last is not empty and has no hyphen last. *)
Fixpoint labelsGood (ls : list bytes) : Prop :=
  match ls with
  | [] => True
  | [l] => labelChars l
  | l :: rest => labelChars l ∧ l ≠ [] ∧ last l ≠ Some "-"%char ∧ labelsGood rest
  end.

Lemma labelChars_snoc cur c :
  labelChars (cur ++ [c]) ↔ labelChars cur ∧ domainByte c ∧ (cur = [] → c ≠ "-"%char).
Proof.
  unfold labelChars. rewrite Forall_app, Forall_singleton. destruct cur as [|b cur]; simpl.
  - split; [intros [[_ ?] Hh]|intros (_ & ? & Hh)]; split_and!; try done; congruence || (intros [= ->]; by apply Hh).
  - split; intros; destruct_and?; split_and!; done.
Qed.

Lemma labelChars_app cur f : labelChars (cur ++ f) → labelChars cur.
Proof.
  unfold labelChars. rewrite Forall_app. intros [[? _] Hh]. split; [done|]. by destruct cur.
Qed.

Lemma labelsGood_head l ls : labelsGood (l :: ls) → labelChars l.
Proof. destruct ls; simpl; [done|by intros [? _]]. Qed.

Lemma domainLoop_labels cur previous d :
  labelChars cur → (cur ≠ [] → last cur = Some previous) →
  domainLoop (bool_decide (cur = [])) previous d = true ↔
  match splitByte d "." with f :: r => labelsGood ((cur ++ f) :: r) | [] => False end.
Proof.
  revert cur previous. induction d as [|c d IH]; intros cur previous Hcur Hlast.
  { simpl. rewrite app_nil_r. done. }
  cbn [domainLoop splitByte]. case_bool_decide as Hdot.
  - subst c. pose proof (splitByte_ne "."%char d) as Hne.
    specialize (IH [] "."%char). rewrite bool_decide_eq_true_2 in IH by done.
    rewrite app_nil_r. destruct (splitByte d ".") as [|f r]; [done|].
    cbn [app] in IH. change (labelsGood (cur :: f :: r)) with
      (labelChars cur ∧ cur ≠ [] ∧ last cur ≠ Some "-"%char ∧ labelsGood (f :: r)).
    case_bool_decide as Hc; cbn [orb].
    { split; [done|]. by intros (_ & ? & _). }
    rewrite (Hlast Hc). case_bool_decide as Hp.
    { subst. split; [done|]. by intros (_ & _ & ? & _). }
    rewrite IH by done. split; [|by intros (_ & _ & _ & ?)]. intros ?. split_and!; congruence.
  - pose proof (splitByte_ne "."%char d) as Hne.
    assert (domainByte c → (cur = [] → c ≠ "-"%char) →
      domainLoop false c d = true ↔
      match splitByte d "." with f :: r => labelsGood ((cur ++ c :: f) :: r) | [] => False end) as Hnext.
    { intros Hb Hh. specialize (IH (cur ++ [c]) c).
      rewrite bool_decide_eq_false_2 in IH by (by destruct cur).
      rewrite IH; [|by apply labelChars_snoc|intros _; apply last_snoc].
      destruct (splitByte d "."); [done|]. by rewrite <- app_assoc. }
    assert (∀ f r, labelsGood ((cur ++ c :: f) :: r) → labelChars (cur ++ [c])) as Hgood.
    { intros f r Hl%labelsGood_head. apply (labelChars_app _ f). by rewrite <- app_assoc. }
    destruct (splitByte d ".") as [|f r] eqn:Hsplit; [done|].
    case_bool_decide as Hhy.
    + subst c. case_bool_decide as Hc.
      * split; [done|]. intros (_ & _ & Hh)%Hgood%labelChars_snoc. by destruct (Hh Hc).
      * apply Hnext; [by left|done].
    + destruct (isLetterOrDigit c) eqn:Hl; cbn [negb].
      * apply Hnext; [by right|done].
      * split; [done|]. intros (_ & [?|?] & _)%Hgood%labelChars_snoc; [done|congruence].
Qed.

(** ** Lemmas: framing *)

Lemma readFull_Some n reader w rest :
  readFull n reader = Some (w, rest) ↔ reader = w ++ rest ∧ length w = n.
Proof.
  unfold readFull. destruct (n <=? length reader) eqn:E; reflect_bools; split.
  - intros [= <- <-]. rewrite take_drop, length_take. split; [done|lia].
  - intros [-> <-]. by rewrite take_app_length, drop_app_length.
  - done.
  - intros [-> <-]. rewrite length_app in E. lia.
Qed.

Lemma readFull_app w rest : readFull (length w) (w ++ rest) = Some (w, rest).
Proof. by apply readFull_Some. Qed.

Lemma readFull_more n reader w rest : readFull n reader = Some (w, rest) → ∀ rest', readFull n (w ++ rest') = Some (w, rest').
Proof. intros [_ <-]%readFull_Some rest'. apply readFull_app. Qed.

Lemma foldl_bigEndian l acc :
  (0 ≤ acc)%Z →
  (0 ≤ foldl (λ acc c, acc * 256 + code c)%Z acc l < (acc + 1) * 256 ^ Z.of_nat (length l))%Z.
Proof.
  revert acc. induction l as [|c l IH]; intros acc Ha; [simpl; lia|].
  cbn [foldl]. pose proof (code_range c). specialize (IH (acc * 256 + code c)%Z ltac:(lia)).
  cbn [length]. rewrite Nat2Z.inj_succ, Z.pow_succ_r by lia. nia.
Qed.

Lemma bigEndian_range l : (0 ≤ bigEndian l < 256 ^ Z.of_nat (length l))%Z.
Proof. unfold bigEndian. pose proof (foldl_bigEndian l 0 ltac:(lia)). lia. Qed.

(** What an address parser returns: a host and where the reader stands. *)
Definition hostOk (host : bytes) : Prop :=
  (∃ a, host = addrString a) ∨ validDomain host = true.

Lemma readAddress_frame reader t host rest :
  readAddress reader t = Ok (host, rest) →
  ∃ frame, reader = frame ++ rest ∧ length frame ≤ 256 ∧ hostOk host
    ∧ ∀ rest', readAddress (frame ++ rest') t = Ok (host, rest').
Proof.
  unfold readAddress, hostOk.
  destruct (t =? AddressIPv4)%Z; [|destruct (t =? AddressIPv6)%Z; [|destruct (t =? AddressDomain)%Z; [|done]]].
  - destruct (readFull 4 reader) as [[w r]|] eqn:Hr; [|done]. intros [= <- <-].
    exists w. pose proof (readFull_more _ _ _ _ Hr) as Hm. apply readFull_Some in Hr as [-> Hl].
    split_and!; [done|lia|by left; exists (addrFrom4 w)|]. intros rest'. by rewrite Hm.
  - destruct (readFull 16 reader) as [[w r]|] eqn:Hr; [|done]. intros [= <- <-].
    exists w. pose proof (readFull_more _ _ _ _ Hr) as Hm. apply readFull_Some in Hr as [-> Hl].
    split_and!; [done|lia|by left; exists (addrFrom16 w)|]. intros rest'. by rewrite Hm.
  - destruct (readFull 1 reader) as [[[|len [|? ?]] r]|] eqn:Hr; try done.
    pose proof (readFull_more _ _ _ _ Hr) as Hm. apply readFull_Some in Hr as [-> _].
    destruct (code len =? 0)%Z eqn:Hz; [done|].
    destruct (readFull (Z.to_nat (code len)) r) as [[w r']|] eqn:Hr'; [|done].
    pose proof (readFull_more _ _ _ _ Hr') as Hm'. apply readFull_Some in Hr' as [-> Hl].
    destruct (validDomain w) eqn:Hv; cbn [negb]; [|done]. intros [= <- <-].
    pose proof (code_range len). exists (len :: w). split_and!; [done|simpl; lia|by right|].
    intros rest'. change ((len :: w) ++ rest') with ([len] ++ (w ++ rest')).
    by rewrite Hm, Hz, Hm', Hv.
Qed.

Lemma ReadRequest_frame reader request rest :
  ReadRequest reader = Ok (request, rest) →
  ∃ frame, reader = frame ++ rest ∧ length frame ≤ 262
    ∧ SocksRequest_Command request = CommandConnect ∧ hostOk (SocksRequest_Host request)
    ∧ (1 ≤ SocksRequest_Port request ≤ 65535)%Z
    ∧ ∀ rest', ReadRequest (frame ++ rest') = Ok (request, rest').
Proof.
  unfold ReadRequest.
  destruct (readFull 4 reader) as [[[|v [|c [|z [|t [|? ?]]]]] r]|] eqn:Hr; try done.
  pose proof (readFull_more _ _ _ _ Hr) as Hm. apply readFull_Some in Hr as [-> _].
  destruct (code v =? Version)%Z eqn:Hv; cbn [negb]; [|done].
  destruct (code c =? CommandConnect)%Z eqn:Hc; cbn [negb]; [|done].
  destruct (code z =? 0)%Z eqn:Hz; cbn [negb]; [|done].
  destruct (readAddress r (code t)) as [[host r1]|] eqn:Ha; [|done].
  apply readAddress_frame in Ha as (aframe & -> & Hal & Hhost & Ham).
  destruct (readFull 2 r1) as [[pw r2]|] eqn:Hp; [|done].
  pose proof (readFull_more _ _ _ _ Hp) as Hpm. apply readFull_Some in Hp as [-> Hpl].
  destruct (bigEndian pw =? 0)%Z eqn:Hport; [done|]. intros [= <- <-].
  pose proof (bigEndian_range pw) as Hb. rewrite Hpl in Hb. apply Z.eqb_neq in Hport as Hport'.
  exists ([v; c; z; t] ++ aframe ++ pw). split_and!; try done.
  - by rewrite <- !app_assoc.
  - rewrite !length_app. simpl. lia.
  - simpl. lia.
  - simpl. lia.
  - intros rest'. rewrite <- !app_assoc, Hm, Hv, Hc, Hz. cbn [negb]. by rewrite Ham, Hpm, Hport.
Qed.

Lemma writeAllLoop_exact fuel w data :
  length data ≤ fuel →
  ∃ r w', writeAllLoop fuel w data = Some (r, w')
    ∧ match r with
      | Ok _ => written w' = written w ++ data
      | Err e => (e = WriteFailed ∨ e = ShortWrite) ∧ ∃ sent, written w' = written w ++ sent ∧ sent `prefix_of` data
      end.
Proof.
  revert w data. induction fuel as [|fuel IH]; intros w data Hl.
  { destruct data; [|simpl in Hl; lia]. exists (Ok tt), w. by rewrite app_nil_r. }
  destruct data as [|b data']; [exists (Ok tt), w; by rewrite app_nil_r|].
  set (data := b :: data') in *. change (writeAllLoop (S fuel) w data) with
    (let '(n, failed, w) := write w data in
     if failed then Some (Err WriteFailed, w) else if n =? 0 then Some (Err ShortWrite, w)
     else writeAllLoop fuel w (drop n data)).
  assert (∃ n failed w1, write w data = (n, failed, w1) ∧ n ≤ length data
            ∧ written w1 = written w ++ take n data) as (n & failed & w1 & -> & Hn & Hw1).
  { unfold write. destruct (script w) as [|[n failed] rest]; eexists _, _, _; (split; [done|]); split; [lia| |lia|done].
    cbn. by rewrite take_ge by lia. }
  assert (take n data `prefix_of` data) as Hpre by (exists (drop n data); by rewrite take_drop).
  destruct failed; [eexists _, _; split; [done|]; split; [by left|]; eauto|].
  destruct (n =? 0) eqn:E; reflect_bools; [eexists _, _; split; [done|]; split; [by right|]; eauto|].
  destruct (IH w1 (drop n data)) as (r & w' & -> & Hr); [rewrite length_drop; lia|].
  eexists _, _. split; [done|]. destruct r as [[]|e].
  - rewrite Hr, Hw1, <- app_assoc. by rewrite take_drop.
  - destruct Hr as [? (sent & -> & Hs)]. split; [done|]. exists (take n data ++ sent).
    rewrite Hw1, <- app_assoc. split; [done|].
    rewrite <- (take_drop n data) at 2. by apply prefix_app.
Qed.

(** ** Properties *)

(** An accepted domain is a sequence of labels of letters, digits and
    hyphens, none empty and none with a hyphen first; every label but the last
    has no hyphen last either. *)
Theorem validDomain_labels domain :
  validDomain domain = true ↔
  domain ≠ [] ∧ head domain ≠ Some "."%char ∧ last domain ≠ Some "."%char
  ∧ labelsGood (splitByte domain ".").
Proof.
  unfold validDomain. destruct domain as [|c d]; [by split; [|intros [? _]]|].
  set (domain := c :: d). rewrite (bool_decide_eq_false_2 (domain = [])) by done. cbn [orb].
  assert (hasPrefix domain "." = bool_decide (c = "."%char)) as ->.
  { apply eq_bool_prop_intro. rewrite !Is_true_true, hasPrefix_true, bool_decide_eq_true.
    split; [intros [r [= -> _]]; done|intros ->; by exists d]. }
  change ("."%string : bytes) with ["."%char]. rewrite hasSuffix_last.
  pose proof (domainLoop_labels [] "."%char domain) as Hloop.
  rewrite bool_decide_eq_true_2 in Hloop by done.
  assert (domainLoop true "."%char domain = true ↔ labelsGood (splitByte domain ".")) as Hgood.
  { rewrite Hloop; [|by split|done]. pose proof (splitByte_ne "."%char domain). by destruct (splitByte domain "."). }
  subst domain. case_bool_decide as Hc; [split; [done|]; intros (_ & Hh & _); by subst|].
  case_bool_decide as Hd; [split; [done|]; by intros (_ & _ & ? & _)|]. cbn [orb].
  rewrite Hgood. split.
  - intros. split_and!; try done. intros [= ?]. done.
  - by intros (_ & _ & _ & ?).
Qed.

(** The rule that a label has no hyphen last is not applied to the last label. *)
Theorem validDomain_trailing_hyphen :
  validDomain "backend-.example" = false ∧ validDomain "example.backend-" = true.
Proof. by vm_compute. Qed.

(** C40: a request is framed exactly.  What [ReadRequest] accepts is a frame of
    at most 262 bytes, and it consumes that frame and nothing of what follows
    (the first bytes of the tunnelled stream), whatever that is; the host is a
    printed IP address or a valid domain and the port is from 1 to 65535. *)
Theorem ReadRequest_framing reader request rest :
  ReadRequest reader = Ok (request, rest) →
  ∃ frame, reader = frame ++ rest ∧ length frame ≤ 262
    ∧ SocksRequest_Command request = CommandConnect ∧ hostOk (SocksRequest_Host request)
    ∧ (1 ≤ SocksRequest_Port request ≤ 65535)%Z
    ∧ ∀ rest', ReadRequest (frame ++ rest') = Ok (request, rest').
Proof. apply ReadRequest_frame. Qed.

(** A client's request for a valid domain and port is read back as
    sent. *)
Theorem ReadRequest_domain_roundtrip domain port rest :
  validDomain domain = true → length domain ≤ 255 → (1 ≤ port ≤ 65535)%Z →
  ReadRequest (wire [Version; CommandConnect; 0; AddressDomain; Z.of_nat (length domain)]%Z ++ domain
               ++ wire [port / 256; port mod 256]%Z ++ rest)
  = Ok ({| SocksRequest_Command := CommandConnect; SocksRequest_Host := domain; SocksRequest_Port := port |}, rest).
Proof.
  intros Hv Hl Hp. unfold ReadRequest.
  assert (1 ≤ length domain) as Hl1 by (destruct domain; [done|simpl; lia]).
  pose proof (Z.div_mod port 256 ltac:(lia)). pose proof (Z.mod_pos_bound port 256 ltac:(lia)).
  assert (0 ≤ port / 256 < 256)%Z by (split; [apply Z.div_pos|apply Z.div_lt_upper_bound]; lia).
  change (wire [Version; CommandConnect; 0; AddressDomain; Z.of_nat (length domain)]%Z)
    with (wire [Version; CommandConnect; 0; AddressDomain]%Z ++ wire [Z.of_nat (length domain)]).
  rewrite <- app_assoc. rewrite (readFull_app (wire [Version; CommandConnect; 0; AddressDomain]%Z)).
  cbn [wire fmap list_fmap]. rewrite !code_byteOf by (unfold Version, CommandConnect, AddressDomain; lia).
  rewrite !Z.eqb_refl. cbn [negb]. unfold readAddress. cbn [Z.eqb AddressDomain AddressIPv4 AddressIPv6 Pos.eqb].
  rewrite (readFull_app [byteOf (Z.of_nat (length domain))]), code_byteOf by lia.
  rewrite (proj2 (Z.eqb_neq _ _)) by lia. rewrite Nat2Z.id, readFull_app, Hv. cbn [negb].
  rewrite (readFull_app [byteOf (port / 256); byteOf (port mod 256)]).
  unfold bigEndian. cbn [foldl]. rewrite !code_byteOf by lia.
  rewrite (proj2 (Z.eqb_neq _ _)) by lia. do 3 f_equal. lia.
Qed.

(** Writing is all or an error.  [WriteReply] always returns; it sends
    nothing for a reply code above 8, and otherwise either the whole ten-byte
    reply or, with an error, a proper beginning of it, however the
    transport splits the writes. *)
Theorem WriteReply_exact w reply :
  ∃ r w', WriteReply w reply = Some (r, w')
    ∧ match r with
      | Ok _ => (reply ≤ 8)%Z ∧ written w' = written w ++ wire [5; reply; 0; 1; 0; 0; 0; 0; 0; 0]%Z
      | Err (UnsupportedReply _) => (8 < reply)%Z ∧ w' = w
      | Err e => (e = WriteFailed ∨ e = ShortWrite)
          ∧ ∃ sent, written w' = written w ++ sent ∧ sent `prefix_of` wire [5; reply; 0; 1; 0; 0; 0; 0; 0; 0]%Z
      end.
Proof.
  unfold WriteReply, validReply, ReplyAddressNotSupported. destruct (reply <=? 8)%Z eqn:E; reflect_bools; cbn [negb].
  - destruct (writeAllLoop_exact _ w (wire [Version; reply; 0; AddressIPv4; 0; 0; 0; 0; 0; 0]%Z) (le_n _))
      as (r & w' & Hw & Hr). eexists _, _. split; [exact Hw|].
    destruct r as [[]|e]; [done|]. by destruct Hr as [[->| ->] Hr]; (split; [auto|]).
  - eexists _, _. split; [done|]. done.
Qed.

(** Method negotiation selects no-authentication exactly when the client
    offered it, over a greeting of at most 257 bytes of which nothing else is
    consumed. *)
Theorem ReadGreeting_negotiation reader g rest :
  ReadGreeting reader = Ok (g, rest) →
  ∃ frame, reader = frame ++ rest ∧ length frame ≤ 257 ∧ 0 < length (Methods g)
    ∧ SelectNoAuth g = (if bool_decide (MethodNoAuth ∈ Methods g) then MethodNoAuth else MethodNoAcceptable)
    ∧ ∀ rest', ReadGreeting (frame ++ rest') = Ok (g, rest').
Proof.
  unfold ReadGreeting. destruct (readFull 2 reader) as [[[|v [|n [|? ?]]] r]|] eqn:Hr; try done.
  pose proof (readFull_more _ _ _ _ Hr) as Hm. apply readFull_Some in Hr as [-> _].
  destruct (code v =? Version)%Z eqn:Hv; cbn [negb]; [|done].
  destruct (code n =? 0)%Z eqn:Hn; [done|].
  destruct (readFull (Z.to_nat (code n)) r) as [[ms r1]|] eqn:Hr1; [|done].
  pose proof (readFull_more _ _ _ _ Hr1) as Hm1. apply readFull_Some in Hr1 as [-> Hl].
  intros [= <- <-]. apply Z.eqb_neq in Hn as Hn'. pose proof (code_range n).
  exists ([v; n] ++ ms). split_and!.
  - by rewrite <- app_assoc.
  - rewrite length_app. simpl. lia.
  - cbn. rewrite length_fmap. lia.
  - unfold SelectNoAuth, Offers. cbn [Methods].
    assert (∀ l, offersLoop l MethodNoAuth = bool_decide (MethodNoAuth ∈ l)) as ->; [|done].
    induction l as [|m l IH]; [by rewrite bool_decide_eq_false_2 by apply not_elem_of_nil|]. cbn [offersLoop].
    rewrite IH. destruct (m =? MethodNoAuth)%Z eqn:E; reflect_bools; symmetry.
    + apply bool_decide_eq_true_2. subst. by left.
    + apply bool_decide_ext. rewrite elem_of_cons. naive_solver.
  - intros rest'. rewrite <- app_assoc, Hm, Hv, Hn. cbn [negb]. by rewrite Hm1.
Qed.

(** ** Witnesses *)

Definition sampleSocksRequest : bytes :=
  wire [5; 1; 0; 3; 4]%Z ++ "host" ++ wire [0; 80]%Z ++ "hello".

Lemma ReadRequest_framing_witness :
  ∃ frame, sampleSocksRequest = frame ++ ("hello" : bytes)
    ∧ ∀ rest', isOk (ReadRequest (frame ++ rest')) = true.
Proof.
  destruct (ReadRequest_framing sampleSocksRequest
    {| SocksRequest_Command := 1; SocksRequest_Host := "host"; SocksRequest_Port := 80 |} "hello")
    as (frame & Hf & _ & _ & _ & _ & Hr); [by vm_compute|].
  exists frame. split; [exact Hf|]. intros rest'. by rewrite Hr.
Defined.

Lemma ReadRequest_domain_roundtrip_witness :
  ReadRequest sampleSocksRequest
  = Ok ({| SocksRequest_Command := 1; SocksRequest_Host := "host"; SocksRequest_Port := 80 |}, "hello" : bytes).
Proof. apply (ReadRequest_domain_roundtrip "host" 80 "hello"); [by vm_compute|simpl; lia|lia]. Defined.

Lemma ReadGreeting_negotiation_witness :
  ∃ g, ReadGreeting (wire [5; 2; 2; 0; 5]%Z) = Ok (g, wire [5]%Z) ∧ SelectNoAuth g = 0%Z.
Proof.
  exists {| Methods := [2; 0]%Z |}.
  assert (ReadGreeting (wire [5; 2; 2; 0; 5]%Z) = Ok ({| Methods := [2; 0]%Z |}, wire [5]%Z)) as Hok by by vm_compute.
  split; [exact Hok|]. destruct (ReadGreeting_negotiation _ _ _ Hok) as (frame & _ & _ & _ & -> & _).
  by vm_compute.
Defined.
