(* ===== verification/Relay.v ===== *)
(** The bytes of a tunnel: [relayStreams] of server/http.go and [relay] of
    link/bridge.go.  Two goroutines copy between two connections, one in each
    direction; each step below is one call of theirs, and the steps of the two
    interleave.  What the peers deliver and take is given from the start and
    quantified over; [RelayPeers] has peers that react. *)

From S2P Require Import Prelude GoStrings GoBufio.

(** ** Connections *)

(** The two halves of a connection.  [inbound] is what its reads return;
    [readDeadline] is the deadline in force, as the idle time it was set with,
    and [readCalls] the deadlines that were in force at each [Read]. *)
Record ReadHalf := {
  inbound : reader;
  readDeadline : option Z;
  readCalls : list (option Z);
  hasCloseRead : bool;
  readClosed : bool;
}.

(** [outcomes] tells for each write whether it takes everything or stops after
    so many bytes, with an error or short; once it is used up, writes succeed.
    [received] is what the other side has been sent. *)
Record WriteHalf := {
  outcomes : list (option nat);
  received : bytes;
  writeFailed : bool;
  writeDeadline : option Z;
  writeCalls : list (option Z);
  hasCloseWrite : bool;
  writeClosed : bool;
}.

Record TCPConn := {
  readHalf : ReadHalf;
  writeHalf : WriteHalf;
}.

(** What the two relays differ in: the idle time their deadlines are set with,
    if any, and whether the source is closed for reading at the end. *)
Record RelayMode := {
  idle : option Z;
  closesRead : bool;
}.

(** [deadlineReader.Read], or [Read] itself without an idle time. *)
Definition relayRead (mode : RelayMode) (size : nat) (h : ReadHalf) : bytes * option ReadError * ReadHalf :=
  let deadline := match idle mode with Some t => Some t | None => readDeadline h end in
  let '(data, err, rd) := readOnce size (inbound h) in
  (data, err,
   {| inbound := rd; readDeadline := deadline; readCalls := readCalls h ++ [deadline];
      hasCloseRead := hasCloseRead h; readClosed := readClosed h |}).

(** [deadlineWriter.Write]; the flag tells whether everything was taken. *)
Definition relayWrite (mode : RelayMode) (data : bytes) (h : WriteHalf) : bool * WriteHalf :=
  let deadline := match idle mode with Some t => Some t | None => writeDeadline h end in
  let '(taken, rest) :=
    match outcomes h with
    | [] => (length data, [])
    | None :: rest => (length data, rest)
    | Some n :: rest => (n, rest)
    end in
  let ok := length data <=? taken in
  (ok,
   {| outcomes := rest; received := received h ++ take taken data; writeFailed := writeFailed h || negb ok;
      writeDeadline := deadline; writeCalls := writeCalls h ++ [deadline]; hasCloseWrite := hasCloseWrite h;
      writeClosed := writeClosed h |}).

Definition closeWrite (h : WriteHalf) : WriteHalf :=
  {| outcomes := outcomes h; received := received h; writeFailed := writeFailed h; writeDeadline := writeDeadline h;
     writeCalls := writeCalls h; hasCloseWrite := hasCloseWrite h; writeClosed := writeClosed h || hasCloseWrite h |}.

Definition closeRead (h : ReadHalf) : ReadHalf :=
  {| inbound := inbound h; readDeadline := readDeadline h; readCalls := readCalls h; hasCloseRead := hasCloseRead h;
     readClosed := readClosed h || hasCloseRead h |}.

(** ** One direction *)

(** Where a copying goroutine is: before a [Read], before the [Write] of what
    was read, before closing the destination for writing, before closing the
    source for reading, or done. *)
Inductive copyPC :=
| CopyReading
| CopyWriting (data : bytes) (err : option ReadError)
| CopyClosingWrite
| CopyClosingRead
| CopyDone.

#[export] Instance copyPC_eq_dec : EqDecision copyPC.
Proof. solve_decision. Defined.

(** After what was read has been dealt with: the loop of [io.Copy] ends at the
    first error of the source, [io.EOF] included. *)
Definition afterRead (err : option ReadError) : copyPC :=
  match err with Some _ => CopyClosingWrite | None => CopyReading end.

(** One call of the goroutine; [None] when it is done. *)
Definition copyStep (mode : RelayMode) (pc : copyPC) (source : ReadHalf) (destination : WriteHalf)
    : option (copyPC * ReadHalf * WriteHalf) :=
  match pc with
  | CopyReading =>
      let '(data, err, source) := relayRead mode copyBuffer source in
      Some (if bool_decide (data = []) then afterRead err else CopyWriting data err, source, destination)
  | CopyWriting data err =>
      let '(ok, destination) := relayWrite mode data destination in
      Some (if ok then afterRead err else CopyClosingWrite, source, destination)
  | CopyClosingWrite => Some (CopyClosingRead, source, closeWrite destination)
  | CopyClosingRead => Some (CopyDone, if closesRead mode then closeRead source else source, destination)
  | CopyDone => None
  end.

(** [copyRelay] and [copyHalf]: the goroutine run on its own. *)
Fixpoint copyAll (fuel : nat) (mode : RelayMode) (pc : copyPC) (source : ReadHalf) (destination : WriteHalf)
    : copyPC * ReadHalf * WriteHalf :=
  match fuel with
  | 0 => (pc, source, destination)
  | S fuel =>
      match copyStep mode pc source destination with
      | None => (pc, source, destination)
      | Some (pc, source, destination) => copyAll fuel mode pc source destination
      end
  end.

(** The calls a goroutine still has to make, at most: every read consumes a
    delivery of the source or a part of one. *)
Definition copyFuel (pc : copyPC) (source : ReadHalf) : nat :=
  match pc with
  | CopyReading => 2 * remaining (inbound source) + 3
  | CopyWriting _ _ => 2 * remaining (inbound source) + 4
  | CopyClosingWrite => 2
  | CopyClosingRead => 1
  | CopyDone => 0
  end.

(** ** Both directions *)

Record RelayState := {
  relayClient : TCPConn;
  relayBackend : TCPConn;
  forth : copyPC;
  back : copyPC;
}.

Definition stepForth (mode : RelayMode) (r : RelayState) : option RelayState :=
  '(pc, source, destination) ←
    copyStep mode (forth r) (readHalf (relayClient r)) (writeHalf (relayBackend r));
  Some {| relayClient := {| readHalf := source; writeHalf := writeHalf (relayClient r) |};
          relayBackend := {| readHalf := readHalf (relayBackend r); writeHalf := destination |};
          forth := pc; back := back r |}.

Definition stepBack (mode : RelayMode) (r : RelayState) : option RelayState :=
  '(pc, source, destination) ←
    copyStep mode (back r) (readHalf (relayBackend r)) (writeHalf (relayClient r));
  Some {| relayClient := {| readHalf := readHalf (relayClient r); writeHalf := destination |};
          relayBackend := {| readHalf := source; writeHalf := writeHalf (relayBackend r) |};
          forth := forth r; back := pc |}.

Inductive relayStep (mode : RelayMode) : RelayState → RelayState → Prop :=
| StepForth r r' : stepForth mode r = Some r' → relayStep mode r r'
| StepBack r r' : stepBack mode r = Some r' → relayStep mode r r'.

Definition relayStarted (client backend : TCPConn) : RelayState :=
  {| relayClient := client; relayBackend := backend; forth := CopyReading; back := CopyReading |}.

(** The relay without interleaving: one direction after the other. *)
Definition relayResult (mode : RelayMode) (client backend : TCPConn) : TCPConn * TCPConn :=
  let fuel := copyFuel CopyReading in
  let '(_, clientRead, backendWrite) :=
    copyAll (fuel (readHalf client)) mode CopyReading (readHalf client) (writeHalf backend) in
  let '(_, backendRead, clientWrite) :=
    copyAll (fuel (readHalf backend)) mode CopyReading (readHalf backend) (writeHalf client) in
  ({| readHalf := clientRead; writeHalf := clientWrite |}, {| readHalf := backendRead; writeHalf := backendWrite |}).

(** server/http.go: idle deadlines, and both halves are closed; link/bridge.go:
    neither. *)
Definition connectHandshakeTimeout : Z := 10 * 1000000000.
Definition connectIdleTimeout : Z := 120 * 1000000000.
Definition tunnelMode : RelayMode := {| idle := Some connectIdleTimeout; closesRead := true |}.
Definition bridgeMode : RelayMode := {| idle := None; closesRead := false |}.

(** [relayStreams] and [copyRelay] of server/http.go. *)
Definition tunnelCopy := copyStep tunnelMode.
Definition tunnelRelay := relayResult tunnelMode.

(** [relay] and [copyHalf] of link/bridge.go. *)
Definition bridgeCopy := copyStep bridgeMode.
Definition bridgeRelay := relayResult bridgeMode.

(** ** One direction runs to its end *)

Lemma readOnce_left space rd data err rd' :
  0 < space → readOnce space rd = (data, err, rd') → data = [] ∧ err = Some EOF ∨ remaining rd' < remaining rd.
Proof.
  intros Hs. unfold readOnce, remaining. destruct rd as [|[d e] rest]; [intros [= <- <- <-]; by left|].
  destruct (length d <=? space) eqn:Hle; reflect_bools; intros [= <- <- <-]; right; cbn; rewrite !length_app.
  - lia.
  - rewrite length_drop. lia.
Qed.

Lemma copyBuffer_pos : 0 < copyBuffer.
Proof. apply Nat.ltb_lt. by vm_compute. Qed.

Section Direction.
Context (mode : RelayMode).

Lemma copyStep_None pc source destination : copyStep mode pc source destination = None ↔ pc = CopyDone.
Proof.
  destruct pc; cbn; try done.
  - by destruct (relayRead _ _ _) as [[??]?].
  - by destruct (relayWrite _ _ _) as [??].
Qed.

Lemma copyStep_fuel pc source destination pc' source' destination' :
  copyStep mode pc source destination = Some (pc', source', destination') → copyFuel pc' source' < copyFuel pc source.
Proof.
  destruct pc as [|data err| | |]; cbn [copyStep]; [| | | |done].
  - unfold relayRead. destruct (readOnce _ _) as [[d e] rd] eqn:Hr. intros [= <- <- _].
    apply (readOnce_left _ _ _ _ _ copyBuffer_pos) in Hr.
    case_bool_decide; [destruct e|]; cbn [copyFuel afterRead inbound]; destruct Hr as [[? ?]|?]; done || lia.
  - destruct (relayWrite _ _ _) as [ok d]. intros [= <- <- _]. destruct ok, err; cbn; lia.
  - intros [= <- <- _]. cbn. lia.
  - intros [= <- <- _]. cbn. lia.
Qed.

Lemma copyAll_done fuel source destination :
  copyAll fuel mode CopyDone source destination = (CopyDone, source, destination).
Proof. by destruct fuel. Qed.

(** More fuel than needed changes nothing. *)
Lemma copyAll_fuel fuel fuel' pc source destination :
  copyFuel pc source ≤ fuel → copyFuel pc source ≤ fuel' →
  copyAll fuel mode pc source destination = copyAll fuel' mode pc source destination.
Proof.
  revert fuel' pc source destination. induction fuel as [|fuel IH]; intros fuel' pc source destination Hf Hf'.
  { destruct pc; cbn in Hf; try lia. by rewrite !copyAll_done. }
  destruct (decide (pc = CopyDone)) as [->|Hne]; [by rewrite !copyAll_done|].
  destruct fuel' as [|fuel']; [destruct pc; cbn in Hf'; lia || done|]. cbn [copyAll].
  destruct (copyStep mode pc source destination) as [[[pc1 s1] d1]|] eqn:Hstep; [|done].
  apply copyStep_fuel in Hstep. apply IH; lia.
Qed.

Definition copyEnd (pc : copyPC) (source : ReadHalf) (destination : WriteHalf) : copyPC * ReadHalf * WriteHalf :=
  copyAll (copyFuel pc source) mode pc source destination.

Lemma copyEnd_step pc source destination pc' source' destination' :
  copyStep mode pc source destination = Some (pc', source', destination') →
  copyEnd pc source destination = copyEnd pc' source' destination'.
Proof.
  intros Hstep. apply copyStep_fuel in Hstep as Hlt. unfold copyEnd.
  destruct (copyFuel pc source) as [|fuel]; [lia|]. cbn [copyAll]. rewrite Hstep. apply copyAll_fuel; lia.
Qed.

Lemma copyEnd_pc pc source destination : fst (fst (copyEnd pc source destination)) = CopyDone.
Proof.
  remember (copyFuel pc source) as n eqn:Hn. revert pc source destination Hn.
  induction (lt_wf n) as [n _ IH]. intros pc source destination ->.
  destruct (copyStep mode pc source destination) as [[[pc' s'] d']|] eqn:Hstep.
  - rewrite (copyEnd_step _ _ _ _ _ _ Hstep). apply copyStep_fuel in Hstep. by eapply IH.
  - apply copyStep_None in Hstep as ->. unfold copyEnd. by rewrite copyAll_done.
Qed.
End Direction.

(** ** The interleaving does not matter *)

Section Interleaving.
Context (mode : RelayMode).

(** Where a relay is bound to end. *)
Definition relayEnd (r : RelayState) : RelayState :=
  let '(pc, clientRead, backendWrite) := copyEnd mode (forth r) (readHalf (relayClient r)) (writeHalf (relayBackend r)) in
  let '(pc', backendRead, clientWrite) := copyEnd mode (back r) (readHalf (relayBackend r)) (writeHalf (relayClient r)) in
  {| relayClient := {| readHalf := clientRead; writeHalf := clientWrite |};
     relayBackend := {| readHalf := backendRead; writeHalf := backendWrite |}; forth := pc; back := pc' |}.

Definition relayFuel (r : RelayState) : nat :=
  copyFuel (forth r) (readHalf (relayClient r)) + copyFuel (back r) (readHalf (relayBackend r)).

Lemma relayStep_inv r r' : relayStep mode r r' → relayEnd r' = relayEnd r ∧ relayFuel r' < relayFuel r.
Proof.
  unfold relayEnd, relayFuel. destruct 1 as [r r' Hs|r r' Hs]; unfold stepForth, stepBack in Hs;
    destruct (copyStep _ _ _ _) as [[[pc s] d]|] eqn:Hstep; cbn in Hs; [|done| |done]; injection Hs as <-; cbn;
    rewrite (copyEnd_step mode _ _ _ _ _ _ Hstep); apply copyStep_fuel in Hstep; split; done || lia.
Qed.

Lemma relay_steps n r r' : nsteps (relayStep mode) n r r' → relayEnd r' = relayEnd r ∧ n + relayFuel r' ≤ relayFuel r.
Proof.
  induction 1 as [r|n r1 r2 r3 Hstep _ [IH1 IH2]]; [done|]. apply relayStep_inv in Hstep as [He Hf].
  split; [by rewrite IH1|lia].
Qed.

Lemma relay_stuck r : (∀ r', ¬ relayStep mode r r') → forth r = CopyDone ∧ back r = CopyDone.
Proof.
  intros Hstuck. split.
  - apply (copyStep_None mode _ (readHalf (relayClient r)) (writeHalf (relayBackend r))).
    destruct (copyStep _ _ _ _) as [[[pc s] d]|] eqn:Hstep; [|done].
    edestruct Hstuck. apply StepForth. unfold stepForth. rewrite Hstep. done.
  - apply (copyStep_None mode _ (readHalf (relayBackend r)) (writeHalf (relayClient r))).
    destruct (copyStep _ _ _ _) as [[[pc s] d]|] eqn:Hstep; [|done].
    edestruct Hstuck. apply StepBack. unfold stepBack. rewrite Hstep. done.
Qed.

Lemma relayEnd_done r : forth r = CopyDone → back r = CopyDone → relayEnd r = r.
Proof.
  destruct r as [[] [] f b]; cbn. by intros -> ->.
Qed.

(** From every state a run leads to where it is bound to end. *)
Lemma relay_reaches r : rtc (relayStep mode) r (relayEnd r).
Proof.
  remember (relayFuel r) as n eqn:Hn. revert r Hn. induction (lt_wf n) as [n _ IH]. intros r ->.
  destruct (decide (forth r = CopyDone ∧ back r = CopyDone)) as [[Hf Hb]|Hne]; [by rewrite relayEnd_done|].
  assert (∃ r', relayStep mode r r') as [r' Hstep].
  { apply not_and_l in Hne as [Hne|Hne].
    - destruct (copyStep mode (forth r) (readHalf (relayClient r)) (writeHalf (relayBackend r))) as [[[pc s] d]|] eqn:E;
        [|by apply copyStep_None in E]. eexists. apply StepForth. unfold stepForth. by rewrite E.
    - destruct (copyStep mode (back r) (readHalf (relayBackend r)) (writeHalf (relayClient r))) as [[[pc s] d]|] eqn:E;
        [|by apply copyStep_None in E]. eexists. apply StepBack. unfold stepBack. by rewrite E. }
  eapply rtc_l; [done|]. apply relayStep_inv in Hstep as [<- Hlt]. by eapply IH.
Qed.

Definition relayFinal (client backend : TCPConn) : RelayState :=
  {| relayClient := fst (relayResult mode client backend); relayBackend := snd (relayResult mode client backend);
     forth := CopyDone; back := CopyDone |}.

Lemma relayEnd_started client backend : relayEnd (relayStarted client backend) = relayFinal client backend.
Proof.
  unfold relayEnd, relayFinal. cbn [relayStarted relayClient relayBackend forth back]. unfold relayResult.
  pose proof (copyEnd_pc mode CopyReading (readHalf client) (writeHalf backend)) as H1.
  pose proof (copyEnd_pc mode CopyReading (readHalf backend) (writeHalf client)) as H2. unfold copyEnd in *.
  destruct (copyAll _ mode CopyReading (readHalf client) _) as [[p1 s1] d1].
  destruct (copyAll _ mode CopyReading (readHalf backend) _) as [[p2 s2] d2].
  cbn in H1, H2. by subst.
Qed.

Lemma relayFinal_reached client backend :
  rtc (relayStep mode) (relayStarted client backend) (relayFinal client backend).
Proof. rewrite <- relayEnd_started. apply relay_reaches. Qed.

(** How the two goroutines of a relay interleave does not matter.  Every
    schedule ends, after a number of calls that what the peers send bounds, and
    ends in the state that running one direction after the other produces. *)
Lemma relay_schedules client backend n r :
  nsteps (relayStep mode) n (relayStarted client backend) r →
  rtc (relayStep mode) r (relayFinal client backend)
  ∧ ((∀ r', ¬ relayStep mode r r') → r = relayFinal client backend)
  ∧ n ≤ 2 * (remaining (inbound (readHalf client)) + remaining (inbound (readHalf backend))) + 6.
Proof.
  intros [He Hn]%relay_steps. rewrite <- relayEnd_started, <- He. split_and!; [apply relay_reaches| |].
  - intros [? ?]%relay_stuck. by rewrite relayEnd_done.
  - unfold relayFuel at 2 in Hn. cbn in Hn. lia.
Qed.
End Interleaving.

(** ** What arrives *)

(** What a goroutine will still pass on if no write fails. *)
Definition toCome (pc : copyPC) (source : ReadHalf) : bytes :=
  match pc with
  | CopyReading => delivered (inbound source)
  | CopyWriting data err => data ++ noError err (delivered (inbound source))
  | _ => []
  end.

Definition closedWrite (pc : copyPC) : bool := match pc with CopyClosingRead | CopyDone => true | _ => false end.

Definition closedRead (pc : copyPC) : bool := match pc with CopyDone => true | _ => false end.

Definition ending (pc : copyPC) : bool := match pc with CopyReading | CopyWriting _ _ => false | _ => true end.

(** The state of one direction that began with [source0] and [destination0]. *)
Record copyInv (mode : RelayMode) (source0 : ReadHalf) (destination0 : WriteHalf)
    (pc : copyPC) (source : ReadHalf) (destination : WriteHalf) : Prop := {
  copy_prefix : received destination `prefix_of` received destination0 ++ delivered (inbound source0);
  copy_grows : received destination0 `prefix_of` received destination;
  copy_whole : if writeFailed destination then ending pc = true
               else received destination ++ toCome pc source = received destination0 ++ delivered (inbound source0);
  copy_closed : writeClosed destination = closedWrite pc && hasCloseWrite destination0;
  copy_supports : hasCloseWrite destination = hasCloseWrite destination0 ∧ hasCloseRead source = hasCloseRead source0;
  copy_readClosed : readClosed source = readClosed source0 || (closedRead pc && closesRead mode && hasCloseRead source0);
  copy_deadlines : ∀ t, idle mode = Some t → ∃ n m,
    readCalls source = readCalls source0 ++ replicate n (Some t)
    ∧ writeCalls destination = writeCalls destination0 ++ replicate m (Some t);
}.

Lemma afterRead_toCome err source : toCome (afterRead err) source = noError err (delivered (inbound source)).
Proof. by destruct err. Qed.

Lemma afterRead_going err : closedRead (afterRead err) = false.
Proof. by destruct err. Qed.

Lemma afterRead_open err : closedWrite (afterRead err) = false.
Proof. by destruct err. Qed.

Lemma copyStep_inv mode source0 destination0 pc source destination pc' source' destination' :
  copyStep mode pc source destination = Some (pc', source', destination') →
  copyInv mode source0 destination0 pc source destination →
  copyInv mode source0 destination0 pc' source' destination'.
Proof.
  intros Hstep [Hp Hg Hw Hc [Hs1 Hs2] Hrc Hd]. destruct pc as [|data err| | |]; cbn [copyStep] in Hstep.
  - unfold relayRead in Hstep. destruct (readOnce _ _) as [[d e] rd] eqn:Hr. apply readOnce_spec in Hr as [_ Hr].
    injection Hstep as <- <- <-.
    assert (∀ s, inbound s = rd → toCome (if bool_decide (d = []) then afterRead e else CopyWriting d e) s
                                  = delivered (inbound source)) as Hcome.
    { intros s <-. rewrite Hr. case_bool_decide as Hnil; [subst d; apply afterRead_toCome|done]. }
    destruct (writeFailed destination) eqn:Hf; [done|].
    constructor; cbn; rewrite ?Hf; try done.
    + by rewrite Hcome.
    + rewrite Hc. case_bool_decide; [by rewrite afterRead_open|done].
    + rewrite Hrc. case_bool_decide; [by rewrite afterRead_going|done].
    + intros t Ht. rewrite Ht. destruct (Hd t Ht) as (n & m & Hn & Hm). exists (S n), m. split; [|done].
      by rewrite Hn, <- app_assoc, replicate_S_end.
  - unfold relayWrite in Hstep.
    destruct (match outcomes destination with [] => _ | None :: _ => _ | Some _ :: _ => _ end) as [taken rest].
    injection Hstep as <- <- <-. destruct (writeFailed destination) eqn:Hf; [done|]. cbn [toCome] in Hw.
    destruct (length data <=? taken) eqn:Hok; reflect_bools; constructor; cbn; rewrite ?Hf; try done.
    + rewrite take_ge, <- Hw, app_assoc by done. by apply prefix_app_r.
    + etrans; [done|]. by apply prefix_app_r.
    + by rewrite take_ge, afterRead_toCome, <- app_assoc by done.
    + by rewrite afterRead_open.
    + by rewrite afterRead_going.
    + intros t Ht. rewrite Ht. destruct (Hd t Ht) as (n & m & Hn & Hm). exists n, (S m). split; [done|].
      by rewrite Hm, <- app_assoc, replicate_S_end.
    + rewrite <- Hw. apply prefix_app. rewrite <- (take_drop taken data) at 2. rewrite <- app_assoc. by apply prefix_app_r.
    + etrans; [done|]. by apply prefix_app_r.
    + intros t Ht. rewrite Ht. destruct (Hd t Ht) as (n & m & Hn & Hm). exists n, (S m). split; [done|].
      by rewrite Hm, <- app_assoc, replicate_S_end.
  - injection Hstep as <- <- <-. constructor; cbn; try done. by rewrite Hc, Hs1.
  - injection Hstep as <- <- <-. cbn in Hrc. rewrite orb_false_r in Hrc.
    destruct (closesRead mode) eqn:Hmode; constructor; cbn; rewrite ?Hrc, ?Hs2, ?Hmode, ?orb_false_r; done.
  - done.
Qed.

Section Faithful.
Context (mode : RelayMode).

(** What one direction has done to the destination it started with; [finished]
    is whether its goroutine is done. *)
Definition passedOn (finished : bool) (source0 destination0 source destination : TCPConn) : Prop :=
  let whole := received (writeHalf destination0) ++ delivered (inbound (readHalf source0)) in
  received (writeHalf destination) `prefix_of` whole
  ∧ received (writeHalf destination0) `prefix_of` received (writeHalf destination)
  ∧ (writeClosed (writeHalf destination) || finished = true → writeFailed (writeHalf destination) = false →
       received (writeHalf destination) = whole)
  ∧ ∀ t, idle mode = Some t → ∃ n m,
      readCalls (readHalf source) = readCalls (readHalf source0) ++ replicate n (Some t)
      ∧ writeCalls (writeHalf destination) = writeCalls (writeHalf destination0) ++ replicate m (Some t).

Definition directionInv (source0 destination0 : TCPConn) (pc : copyPC) (source destination : TCPConn) : Prop :=
  copyInv mode (readHalf source0) (writeHalf destination0) pc (readHalf source) (writeHalf destination).

Definition writable (c : TCPConn) : Prop := writeFailed (writeHalf c) = false ∧ writeClosed (writeHalf c) = false.

Lemma directionInv_passedOn source0 destination0 pc source destination :
  directionInv source0 destination0 pc source destination →
  passedOn (bool_decide (pc = CopyDone)) source0 destination0 source destination.
Proof.
  intros [Hp Hg Hw Hc Hs _ Hd]. split_and!; [done|done| |done]. intros Hclosed Hf. rewrite Hf in Hw. rewrite Hc in Hclosed.
  destruct pc; cbn in Hclosed, Hw; try done; by rewrite app_nil_r in Hw.
Qed.

Lemma directionInv_started source0 destination0 :
  writable destination0 → directionInv source0 destination0 CopyReading source0 destination0.
Proof.
  intros [Hf Hc]. constructor; cbn; rewrite ?Hf; try done; [by apply prefix_app_r|by rewrite orb_false_r|].
  intros t Ht. exists 0, 0. by rewrite !app_nil_r.
Qed.

Lemma relayStep_directions client backend r r' :
  relayStep mode r r' →
  directionInv client backend (forth r) (relayClient r) (relayBackend r)
  ∧ directionInv backend client (back r) (relayBackend r) (relayClient r) →
  directionInv client backend (forth r') (relayClient r') (relayBackend r')
  ∧ directionInv backend client (back r') (relayBackend r') (relayClient r').
Proof.
  unfold directionInv. destruct 1 as [r r' Hs|r r' Hs]; unfold stepForth, stepBack in Hs;
    destruct (copyStep _ _ _ _) as [[[pc s] d]|] eqn:Hstep; cbn in Hs; [|done| |done]; injection Hs as <-; cbn;
    intros [Hf Hb]; split; try done; by eapply copyStep_inv.
Qed.

(** What the end of a direction does: the destination is closed for writing and
    the source for reading, where they support it and the relay does so. *)
Definition halfClosed (source0 destination0 source destination : TCPConn) : Prop :=
  writeClosed (writeHalf destination) = hasCloseWrite (writeHalf destination0)
  ∧ readClosed (readHalf source) = readClosed (readHalf source0) || (closesRead mode && hasCloseRead (readHalf source0)).

Lemma directionInv_halfClosed source0 destination0 source destination :
  directionInv source0 destination0 CopyDone source destination → halfClosed source0 destination0 source destination.
Proof. intros [_ _ _ Hc _ Hrc _]. split; [by rewrite Hc|by rewrite Hrc]. Qed.

(** A relay is transparent.  Between two connections that are still open
    for writing, at every moment and whatever fails, each side has been sent a
    prefix of what the other side delivered and nothing else; a side is told
    that the stream is over only once all of it was passed on, unless a write
    to it failed; every call is made under a deadline set anew; and a
    direction that has ended has half-closed both connections. *)
Theorem relay_transparent client backend r :
  writable client → writable backend → rtc (relayStep mode) (relayStarted client backend) r →
  passedOn (bool_decide (forth r = CopyDone)) client backend (relayClient r) (relayBackend r)
  ∧ passedOn (bool_decide (back r = CopyDone)) backend client (relayBackend r) (relayClient r)
  ∧ (forth r = CopyDone → halfClosed client backend (relayClient r) (relayBackend r))
  ∧ (back r = CopyDone → halfClosed backend client (relayBackend r) (relayClient r)).
Proof.
  intros Hc Hb Hrun.
  assert (directionInv client backend (forth r) (relayClient r) (relayBackend r)
    ∧ directionInv backend client (back r) (relayBackend r) (relayClient r)) as [Hforth Hback].
  { apply (rtc_preserves (relayStep mode) (λ r, directionInv client backend (forth r) (relayClient r) (relayBackend r)
      ∧ directionInv backend client (back r) (relayBackend r) (relayClient r)) _ _ Hrun).
    - intros s s'. apply relayStep_directions.
    - split; by apply directionInv_started. }
  split_and!; [by eapply directionInv_passedOn..| |].
  - intros Hf. rewrite Hf in Hforth. by apply directionInv_halfClosed.
  - intros Hf. rewrite Hf in Hback. by apply directionInv_halfClosed.
Qed.
End Faithful.

(** ** Connections for examples *)

Definition sampleHalf (sends : reader) : ReadHalf :=
  {| inbound := sends; readDeadline := None; readCalls := []; hasCloseRead := true; readClosed := false |}.

Definition sampleConn (sends : reader) (takes : list (option nat)) : TCPConn :=
  {| readHalf := sampleHalf sends;
     writeHalf := {| outcomes := takes; received := []; writeFailed := false; writeDeadline := None; writeCalls := [];
                     hasCloseWrite := true; writeClosed := false |} |}.

(** A client that sends two pieces and stops, and a backend that answers and is
    cut off after two bytes of what it is sent. *)
Definition sampleClient : TCPConn := sampleConn [("hel" : bytes, None); ("lo" : bytes, None)] [].
Definition sampleServerEnd : TCPConn := sampleConn [("hi" : bytes, Some EOF)] [Some 2].
