(* ===== verification/RelayPeers.v ===== *)
(** The relay of server/http.go and link/bridge.go between peers that react.
    What a peer delivers, and what it takes of a write, is decided while the
    relay runs, by a peer that may have seen everything it was sent; a call
    that has nothing to return yet blocks.  Every such run is one of [Relay],
    where both are given from the start. *)

From S2P Require Import Prelude GoStrings GoBufio Relay.

(** ** Runs with peers *)

(** The side of the relay a connection is on; its goroutine copies from it. *)
Inductive relaySide := ClientSide | BackendSide.

#[export] Instance relaySide_eq_dec : EqDecision relaySide.
Proof. solve_decision. Defined.

(** What happens next: a peer delivers bytes, the end of its stream or an
    error (an expired deadline among them); a peer settles how much of the next
    write to it is taken; a goroutine makes its next call. *)
Inductive relayEvent :=
| PeerSends (s : relaySide) (delivery : bytes * option ReadError)
| PeerTakes (s : relaySide) (outcome : option nat)
| Copies (s : relaySide).

Definition sendsMore (deliveries : reader) (c : TCPConn) : TCPConn :=
  {| readHalf := {| inbound := inbound (readHalf c) ++ deliveries; readDeadline := readDeadline (readHalf c);
                    readCalls := readCalls (readHalf c); hasCloseRead := hasCloseRead (readHalf c);
                    readClosed := readClosed (readHalf c) |};
     writeHalf := writeHalf c |}.

Definition takesMore (settled : list (option nat)) (c : TCPConn) : TCPConn :=
  {| readHalf := readHalf c;
     writeHalf := {| outcomes := outcomes (writeHalf c) ++ settled; received := received (writeHalf c);
                     writeFailed := writeFailed (writeHalf c); writeDeadline := writeDeadline (writeHalf c);
                     writeCalls := writeCalls (writeHalf c); hasCloseWrite := hasCloseWrite (writeHalf c);
                     writeClosed := writeClosed (writeHalf c) |} |}.

Definition onSide (s : relaySide) (f : TCPConn → TCPConn) (r : RelayState) : RelayState :=
  match s with
  | ClientSide => {| relayClient := f (relayClient r); relayBackend := relayBackend r; forth := forth r; back := back r |}
  | BackendSide => {| relayClient := relayClient r; relayBackend := f (relayBackend r); forth := forth r; back := back r |}
  end.

(** Whether the next call of a goroutine returns: a [Read] when something was
    delivered, a [Write] when the peer has settled it, a close at once. *)
Definition returns (pc : copyPC) (source : ReadHalf) (destination : WriteHalf) : bool :=
  match pc with
  | CopyReading => negb (bool_decide (inbound source = []))
  | CopyWriting _ _ => negb (bool_decide (outcomes destination = []))
  | _ => true
  end.

Definition peerStep (mode : RelayMode) (e : relayEvent) (r : RelayState) : option RelayState :=
  match e with
  | PeerSends s delivery => Some (onSide s (sendsMore [delivery]) r)
  | PeerTakes s outcome => Some (onSide s (takesMore [outcome]) r)
  | Copies ClientSide =>
      if returns (forth r) (readHalf (relayClient r)) (writeHalf (relayBackend r)) then stepForth mode r else None
  | Copies BackendSide =>
      if returns (back r) (readHalf (relayBackend r)) (writeHalf (relayClient r)) then stepBack mode r else None
  end.

Fixpoint peerRun (mode : RelayMode) (events : list relayEvent) (r : RelayState) : option RelayState :=
  match events with
  | [] => Some r
  | e :: events => r' ← peerStep mode e r; peerRun mode events r'
  end.

(** What a side delivered and settled in a run, and how many calls were made. *)
Definition sent (s : relaySide) (events : list relayEvent) : reader :=
  omap (λ e, match e with PeerSends s' d => if bool_decide (s' = s) then Some d else None | _ => None end) events.

Definition settled (s : relaySide) (events : list relayEvent) : list (option nat) :=
  omap (λ e, match e with PeerTakes s' o => if bool_decide (s' = s) then Some o else None | _ => None end) events.

Definition copyCalls (events : list relayEvent) : nat :=
  length (omap (λ e, match e with Copies s => Some s | _ => None end) events).

(** A connection with what its side does in a run given from the start. *)
Definition foretold (s : relaySide) (events : list relayEvent) (c : TCPConn) : TCPConn :=
  takesMore (settled s events) (sendsMore (sent s events) c).

(** ** Every run is a run of [Relay] *)

Definition foresee (events : list relayEvent) (r : RelayState) : RelayState :=
  onSide ClientSide (foretold ClientSide events) (onSide BackendSide (foretold BackendSide events) r).

Lemma foretold_nil s c : foretold s [] c = c.
Proof. destruct c as [[] []]. unfold foretold, sendsMore, takesMore. cbn. by rewrite !app_nil_r. Qed.

Lemma foresee_nil r : foresee [] r = r.
Proof. destruct r. unfold foresee, onSide. cbn. by rewrite !foretold_nil. Qed.

Lemma foresee_started events client backend :
  foresee events (relayStarted client backend)
  = relayStarted (foretold ClientSide events client) (foretold BackendSide events backend).
Proof. done. Qed.

Lemma readOnce_more size rd more :
  rd ≠ [] → readOnce size (rd ++ more) = (fst (readOnce size rd), snd (readOnce size rd) ++ more).
Proof. destruct rd as [|[d e] rd]; [done|]. intros _. cbn. by destruct (length d <=? size). Qed.

(** A call that returns does the same whatever comes later. *)
Lemma copyStep_more mode pc c d pc' source' destination' deliveries taken :
  returns pc (readHalf c) (writeHalf d) = true →
  copyStep mode pc (readHalf c) (writeHalf d) = Some (pc', source', destination') →
  copyStep mode pc (readHalf (sendsMore deliveries c)) (writeHalf (takesMore taken d))
  = Some (pc', readHalf (sendsMore deliveries {| readHalf := source'; writeHalf := writeHalf c |}),
          writeHalf (takesMore taken {| readHalf := readHalf d; writeHalf := destination' |})).
Proof.
  destruct pc as [|data err| | |]; cbn [returns copyStep]; intros Hready.
  - apply negb_true_iff, bool_decide_eq_false in Hready. unfold relayRead. cbn [sendsMore readHalf inbound].
    rewrite readOnce_more by done. destruct (readOnce copyBuffer (inbound (readHalf c))) as [[x e] rd]. cbn.
    by intros [= <- <- <-].
  - apply negb_true_iff, bool_decide_eq_false in Hready. unfold relayWrite. cbn [takesMore writeHalf outcomes].
    destruct (outcomes (writeHalf d)) as [|[n|] rest]; [done|..]; by intros [= <- <- <-].
  - by intros [= <- <- <-].
  - intros [= <- <- <-]. by destruct (closesRead mode).
  - done.
Qed.

Lemma peerStep_foresee mode e r r' events :
  peerStep mode e r = Some r' →
  match e with
  | Copies _ => relayStep mode (foresee (e :: events) r) (foresee events r')
  | _ => foresee (e :: events) r = foresee events r'
  end.
Proof.
  destruct e as [s d|s o|s]; cbn [peerStep].
  - intros [= <-]. destruct s; unfold foresee, foretold, onSide, sendsMore, takesMore; cbn; by rewrite <- app_assoc.
  - intros [= <-]. destruct s; unfold foresee, foretold, onSide, sendsMore, takesMore; cbn; by rewrite <- app_assoc.
  - destruct s; (destruct (returns _ _ _) eqn:Hready; [|done]); unfold stepForth, stepBack; intros Hstep;
      destruct (copyStep _ _ _ _) as [[[pc s] d]|] eqn:Hcopy in Hstep; cbn in Hstep; try done; injection Hstep as <-.
    + apply StepForth. unfold stepForth. eapply copyStep_more in Hcopy; [|done].
      change (foresee (Copies ClientSide :: events) r) with (foresee events r). cbn in Hcopy |- *. by rewrite Hcopy.
    + apply StepBack. unfold stepBack. eapply copyStep_more in Hcopy; [|done].
      change (foresee (Copies BackendSide :: events) r) with (foresee events r). cbn in Hcopy |- *. by rewrite Hcopy.
Qed.

Lemma peerRun_foresee mode events r r' :
  peerRun mode events r = Some r' → nsteps (relayStep mode) (copyCalls events) (foresee events r) r'.
Proof.
  revert r. induction events as [|e events IH]; intros r; cbn [peerRun].
  - intros [= <-]. rewrite foresee_nil. apply nsteps_O.
  - destruct (peerStep mode e r) as [r1|] eqn:He; [|done]. intros Hrun%IH.
    apply (peerStep_foresee mode e r r1 events) in He. destruct e; [by rewrite He..|]. by eapply nsteps_l.
Qed.

(** ** The property *)

(** What a goroutine that makes no call is doing: it has ended, waits for its
    source to deliver something, or for its destination to take something. *)
Definition waits (pc : copyPC) (source destination : TCPConn) : Prop :=
  pc = CopyDone ∨ pc = CopyReading ∧ inbound (readHalf source) = []
  ∨ ∃ data err, pc = CopyWriting data err ∧ outcomes (writeHalf destination) = [].

Lemma no_copy_waits mode pc source destination :
  (if returns pc (readHalf source) (writeHalf destination) then copyStep mode pc (readHalf source) (writeHalf destination) else None)
  = None → waits pc source destination.
Proof.
  destruct (returns pc _ _) eqn:Hready; [intros ->%copyStep_None; by left|]. intros _. right.
  destruct pc as [|data err| | |]; cbn in Hready; try done; apply negb_false_iff, bool_decide_eq_true in Hready; [by left|right; by exists data, err].
Qed.

(** C21: a relay between peers that react is transparent and ends.  However the
    calls of the two goroutines interleave with what the peers deliver and
    take, each side has at every moment been sent a prefix of what the other
    has delivered so far, and nothing else; a side is told that the stream is
    over only once all of it was passed on, unless a write to it failed; every
    call is made under a deadline set anew; a direction that has ended has
    half-closed both connections; the number of calls is bounded by what the
    peers delivered; and a goroutine makes no call only if it has ended or
    waits for a peer. *)
Theorem relay_reacts mode client backend events r :
  writable client → writable backend → peerRun mode events (relayStarted client backend) = Some r →
  let clientAll := foretold ClientSide events client in
  let backendAll := foretold BackendSide events backend in
  passedOn mode (bool_decide (forth r = CopyDone)) clientAll backendAll (relayClient r) (relayBackend r)
  ∧ passedOn mode (bool_decide (back r = CopyDone)) backendAll clientAll (relayBackend r) (relayClient r)
  ∧ (forth r = CopyDone → halfClosed mode client backend (relayClient r) (relayBackend r))
  ∧ (back r = CopyDone → halfClosed mode backend client (relayBackend r) (relayClient r))
  ∧ copyCalls events ≤ 2 * (remaining (inbound (readHalf clientAll)) + remaining (inbound (readHalf backendAll))) + 6
  ∧ (peerStep mode (Copies ClientSide) r = None → waits (forth r) (relayClient r) (relayBackend r))
  ∧ (peerStep mode (Copies BackendSide) r = None → waits (back r) (relayBackend r) (relayClient r)).
Proof.
  intros Hclient Hbackend Hrun clientAll backendAll. apply peerRun_foresee in Hrun. rewrite foresee_started in Hrun.
  destruct (relay_transparent mode clientAll backendAll r) as (Hforth & Hback & Hfc & Hbc);
    [by destruct Hclient|by destruct Hbackend|by eapply rtc_nsteps_2|].
  apply relay_schedules in Hrun as (_ & _ & Hbound). split_and!; [done|done|exact Hfc|exact Hbc|exact Hbound|..].
  - cbn [peerStep]. intros Hnone. apply (no_copy_waits mode). destruct (returns _ _ _); [|done].
    unfold stepForth in Hnone. by destruct (copyStep _ _ _ _) as [[[? ?] ?]|].
  - cbn [peerStep]. intros Hnone. apply (no_copy_waits mode). destruct (returns _ _ _); [|done].
    unfold stepBack in Hnone. by destruct (copyStep _ _ _ _) as [[[? ?] ?]|].
Qed.

(** ** Witness: a backend that answers once it was sent something, and ends
    its stream. *)

Definition reactingEvents : list relayEvent :=
  [PeerSends ClientSide ("hello" : bytes, None); Copies ClientSide; PeerTakes BackendSide None; Copies ClientSide;
   PeerSends BackendSide ("hi" : bytes, Some EOF); Copies BackendSide; PeerTakes ClientSide None; Copies BackendSide;
   Copies BackendSide; Copies BackendSide].

Lemma relay_reacts_witness :
  ∃ r, peerRun tunnelMode reactingEvents (relayStarted (sampleConn [] []) (sampleConn [] [])) = Some r
    ∧ back r = CopyDone ∧ received (writeHalf (relayClient r)) = "hi" ∧ writeClosed (writeHalf (relayClient r)) = true
    ∧ waits (forth r) (relayClient r) (relayBackend r).
Proof.
  destruct (peerRun tunnelMode reactingEvents (relayStarted (sampleConn [] []) (sampleConn [] []))) as [r|] eqn:Hrun;
    [|exfalso; revert Hrun; by vm_compute].
  assert (back r = CopyDone ∧ received (writeHalf (relayClient r)) = "hi" ∧ peerStep tunnelMode (Copies ClientSide) r = None)
    as (Hdone & Hreceived & Hwaits) by (vm_compute in Hrun; injection Hrun as <-; by vm_compute).
  destruct (relay_reacts tunnelMode (sampleConn [] []) (sampleConn [] []) reactingEvents r) as (_ & _ & _ & Hclosed & _ & Hw & _);
    [done|done|exact Hrun|].
  exists r. split_and!; [done|done|done|by apply Hclosed|by apply Hw].
Defined.
