(* ===== verification/Sessions.v ===== *)
(** server/lifecycle.go and server/group.go: ownership of hijacked streams,
    the drain at shutdown, and the lifecycle of one and of several listeners. *)

From S2P Require Import Prelude.

(** ** [connectionSessions] *)

(** Connections are interface values compared by identity. *)
Abbreviation conn := nat.

(** The fields of the struct.  [sessionDrained] is whether the channel
    [drained] is closed, [sessionCancelled] whether the context is cancelled;
    [sessionClosed] records the connections [Close] was called on. *)
Record Sessions := {
  sessionDraining : bool;
  sessionCancelled : bool;
  sessionDrained : bool;
  sessionItems : gset conn;
  sessionClosed : gset conn;
}.

Definition newConnectionSessions : Sessions :=
  {| sessionDraining := false; sessionCancelled := false; sessionDrained := false;
     sessionItems := ∅; sessionClosed := ∅ |}.

(** [closeDrainedLocked]: the channel is closed at most once. *)
Definition closeDrainedLocked (s : Sessions) : Sessions :=
  if sessionDrained s then s
  else {| sessionDraining := sessionDraining s; sessionCancelled := sessionCancelled s; sessionDrained := true;
          sessionItems := sessionItems s; sessionClosed := sessionClosed s |}.

(** [connection.Close()]. *)
Definition closeConn (c : conn) (s : Sessions) : Sessions :=
  {| sessionDraining := sessionDraining s; sessionCancelled := sessionCancelled s; sessionDrained := sessionDrained s;
     sessionItems := sessionItems s; sessionClosed := {[c]} ∪ sessionClosed s |}.

Definition setItems (items : gset conn) (s : Sessions) : Sessions :=
  {| sessionDraining := sessionDraining s; sessionCancelled := sessionCancelled s; sessionDrained := sessionDrained s;
     sessionItems := items; sessionClosed := sessionClosed s |}.

Definition setDraining (s : Sessions) : Sessions :=
  {| sessionDraining := true; sessionCancelled := true; sessionDrained := sessionDrained s;
     sessionItems := sessionItems s; sessionClosed := sessionClosed s |}.

(** [add]: [None] is a nil connection. *)
Definition addSession (connection : option conn) (s : Sessions) : bool * Sessions :=
  match connection with
  | None => (false, s)
  | Some c =>
      if sessionDraining s then (false, closeConn c s)
      else (true, setItems ({[c]} ∪ sessionItems s) s)
  end.

Definition removeSession (c : conn) (s : Sessions) : Sessions :=
  let s := setItems (sessionItems s ∖ {[c]}) s in
  if sessionDraining s && bool_decide (sessionItems s = ∅) then closeDrainedLocked s else s.

Definition beginDrain (s : Sessions) : Sessions :=
  if sessionDraining s then s
  else
    let s := setDraining s in
    if bool_decide (sessionItems s = ∅) then closeDrainedLocked s else s.

(** The part of [forceClose] under the mutex: the connections it took over are
    returned, to be closed after the mutex is released. *)
Definition forceCloseLocked (s : Sessions) : list conn * Sessions :=
  let s := setDraining s in
  let items := elements (sessionItems s) in
  (items, closeDrainedLocked (setItems ∅ s)).

(** ** Concurrent use

    Every critical section is one step; the connections a [forceClose] has
    taken over are closed one by one by later steps. *)
Record SessionSystem := {
  sessions : Sessions;
  pendingClose : list conn;
}.

Inductive sessionStep : SessionSystem → SessionSystem → Prop :=
| SessionAdd s c :
    sessionStep s {| sessions := snd (addSession c (sessions s)); pendingClose := pendingClose s |}
| SessionRemove s c :
    sessionStep s {| sessions := removeSession c (sessions s); pendingClose := pendingClose s |}
| SessionBeginDrain s :
    sessionStep s {| sessions := beginDrain (sessions s); pendingClose := pendingClose s |}
| SessionForceClose s items s' :
    forceCloseLocked (sessions s) = (items, s') →
    sessionStep s {| sessions := s'; pendingClose := pendingClose s ++ items |}
| SessionClosePending s c before after :
    pendingClose s = before ++ c :: after →
    sessionStep s {| sessions := closeConn c (sessions s); pendingClose := before ++ after |}.

Definition sessionsStarted : SessionSystem := {| sessions := newConnectionSessions; pendingClose := [] |}.

(** What every reachable state satisfies: the drained channel is closed
    exactly when a drain began and no stream is left; a drain cancels pending
    dials. *)
Definition sessionsInv (s : Sessions) : Prop :=
  (sessionDrained s = true ↔ sessionDraining s = true ∧ sessionItems s = ∅)
  ∧ (sessionDraining s = sessionCancelled s).

Lemma sessionStep_inv s s' : sessionStep s s' → sessionsInv (sessions s) → sessionsInv (sessions s').
Proof.
  unfold sessionsInv.
  destruct 1 as [s [c|]|s c|s|s items s' Hf|s c before after Hp]; cbn; intros [Hd Hc].
  - destruct (sessionDraining (sessions s)) eqn:E; cbn; rewrite ?E; split; try done.
    rewrite Hd. split; intros [? ?]; [done|done].
  - done.
  - unfold removeSession, closeDrainedLocked. cbn.
    destruct (sessionDraining (sessions s)) eqn:E; cbn [andb]; [|cbn; rewrite E; split; [|done]; rewrite Hd; naive_solver].
    case_bool_decide; cbn.
    + destruct (sessionDrained (sessions s)) eqn:Ed; cbn; rewrite ?E, ?Ed; done.
    + rewrite E. split; [|done]. split; [|naive_solver]. intros [_ Hi]%Hd. rewrite Hi in *. set_solver.
  - unfold beginDrain, closeDrainedLocked. destruct (sessionDraining (sessions s)) eqn:E; [rewrite E; done|]. cbn.
    case_bool_decide; cbn.
    + destruct (sessionDrained (sessions s)) eqn:Ed; cbn; rewrite ?Ed; done.
    + split; [|done]. rewrite Hd. naive_solver.
  - injection Hf as <- <-. unfold closeDrainedLocked. cbn.
    destruct (sessionDrained (sessions s)) eqn:Ed; cbn; rewrite ?Ed; done.
  - done.
Qed.

(** No connection is forgotten: one that was accepted stays owned until it is
    removed by its handler, and one that a forced close found, or that comes
    too late, is closed or about to be. *)
Lemma sessionStep_draining s s' :
  sessionStep s s' → sessionDraining (sessions s) = true →
  sessionDraining (sessions s') = true ∧ sessionItems (sessions s') ⊆ sessionItems (sessions s).
Proof.
  destruct 1 as [s [c|]|s c|s|s items s' Hf|s c before after Hp]; cbn; intros Hd; rewrite ?Hd; try done.
  - unfold removeSession, closeDrainedLocked. cbn. rewrite Hd. cbn [andb]. case_bool_decide; cbn; [|set_solver].
    destruct (sessionDrained (sessions s)); cbn; set_solver.
  - unfold beginDrain. by rewrite Hd.
  - injection Hf as <- <-. unfold closeDrainedLocked. cbn. destruct (sessionDrained (sessions s)); cbn; set_solver.
Qed.

(** ** Properties *)

(** C18: however the operations interleave, the channel a shutdown waits on is
    closed exactly when a drain has begun and no stream is left, draining
    cancels pending dials, and a drain is permanent: from then on no stream
    is added and a connection that is offered is closed. *)
Theorem connectionSessions_drain s :
  rtc sessionStep sessionsStarted s →
  (sessionDrained (sessions s) = true ↔ sessionDraining (sessions s) = true ∧ sessionItems (sessions s) = ∅)
  ∧ sessionCancelled (sessions s) = sessionDraining (sessions s)
  ∧ (sessionDraining (sessions s) = true →
       (∀ c, fst (addSession (Some c) (sessions s)) = false
          ∧ c ∈ sessionClosed (snd (addSession (Some c) (sessions s))))
       ∧ ∀ s', rtc sessionStep s s' →
           sessionDraining (sessions s') = true ∧ sessionItems (sessions s') ⊆ sessionItems (sessions s)).
Proof.
  intros Hrun. assert (sessionsInv (sessions s)) as [Hd Hc].
  { apply (rtc_preserves sessionStep (λ s, sessionsInv (sessions s)) _ _ Hrun); [apply sessionStep_inv|].
    unfold sessionsInv. cbn. naive_solver. }
  split; [done|]. split; [done|]. intros Hdrain. split.
  - intros c. cbn. rewrite Hdrain. cbn. set_solver.
  - intros s' Hrun'.
    apply (rtc_preserves sessionStep (λ t, sessionDraining (sessions t) = true
             ∧ sessionItems (sessions t) ⊆ sessionItems (sessions s)) _ _ Hrun'); [|done].
    intros t t' Hstep [Ht Hsub]. destruct (sessionStep_draining _ _ Hstep Ht). split; [done|]. by etrans.
Qed.

(** A forced close reaches every stream it finds: whatever else happens
    meanwhile, once the connections it took over have been dealt with, all
    the streams that were owned when it began are closed, and the shutdown is
    no longer waiting. *)
Theorem connectionSessions_forceClose s s1 s2 :
  forceCloseLocked (sessions s) = (elements (sessionItems (sessions s)), s1) →
  rtc sessionStep {| sessions := s1; pendingClose := pendingClose s ++ elements (sessionItems (sessions s)) |} s2 →
  pendingClose s2 = [] →
  sessionItems (sessions s) ⊆ sessionClosed (sessions s2) ∧ sessionDrained (sessions s2) = true.
Proof.
  intros Hforce Hrun Hnil. set (items := sessionItems (sessions s)) in *.
  assert (items ⊆ sessionClosed (sessions s2) ∪ list_to_set (pendingClose s2)
          ∧ sessionDrained (sessions s2) = true) as [Hsub Hd].
  { apply (rtc_preserves sessionStep (λ t, items ⊆ sessionClosed (sessions t) ∪ list_to_set (pendingClose t)
             ∧ sessionDrained (sessions t) = true) _ _ Hrun).
    - intros t t' Hstep [Hi Hd].
      destruct Hstep as [t [c|]|t c|t|t its t' Hf|t c before after Hp]; cbn in *.
      + destruct (sessionDraining _); cbn; split; done || set_solver.
      + done.
      + unfold removeSession, closeDrainedLocked. cbn. destruct (_ && _); cbn; [|done]. rewrite Hd. done.
      + unfold beginDrain, closeDrainedLocked. destruct (sessionDraining _); [done|]. cbn.
        case_bool_decide; cbn; [|done]. rewrite Hd. done.
      + injection Hf as <- <-. unfold closeDrainedLocked. cbn. rewrite Hd. cbn. split; [set_solver|done].
      + rewrite Hp in Hi. split; [set_solver|done].
    - injection Hforce as <-. cbn. unfold closeDrainedLocked. cbn.
      rewrite list_to_set_app_L, list_to_set_elements_L. destruct (sessionDrained (sessions s)) eqn:E; cbn.
      + split; [set_solver|done].
      + split; [set_solver|done]. }
  rewrite Hnil in Hsub. split; [set_solver|done].
Qed.

Lemma connectionSessions_drain_witness :
  let s := {| sessions := beginDrain (snd (addSession (Some 7) newConnectionSessions)); pendingClose := [] |} in
  rtc sessionStep sessionsStarted s ∧ sessionDrained (sessions s) = false.
Proof.
  intros s. assert (rtc sessionStep sessionsStarted s) as Hrun.
  { eapply rtc_l; [apply (SessionAdd sessionsStarted (Some 7))|].
    eapply rtc_l; [apply SessionBeginDrain|]. apply rtc_refl. }
  split; [exact Hrun|]. apply not_true_is_false.
  destruct (connectionSessions_drain s Hrun) as (Hd & _ & _). rewrite Hd. intros [_ Habs].
  assert (7 ∈ sessionItems (sessions s)) as Hin by (apply (bool_decide_unpack _); by vm_compute).
  rewrite Habs in Hin. by apply not_elem_of_empty in Hin.
Defined.

Lemma connectionSessions_forceClose_witness :
  let s := {| sessions := snd (addSession (Some 7) newConnectionSessions); pendingClose := [] |} in
  ∃ s2, 7 ∈ sessionClosed (sessions s2) ∧ sessionDrained (sessions s2) = true.
Proof.
  intros s. set (s1 := snd (forceCloseLocked (sessions s))).
  set (t := {| sessions := closeConn 7 s1; pendingClose := [] |}). exists t.
  assert (forceCloseLocked (sessions s) = (elements (sessionItems (sessions s)), s1)) as Hf by done.
  destruct (connectionSessions_forceClose s s1 t Hf) as [Hsub Hd].
  - replace (pendingClose s ++ elements (sessionItems (sessions s))) with [7] by by vm_compute.
    eapply rtc_l; [|apply rtc_refl]. by apply (SessionClosePending {| sessions := s1; pendingClose := [7] |} 7 [] []).
  - done.
  - split; [|exact Hd]. apply Hsub. apply (bool_decide_unpack _); by vm_compute.
Defined.

(** ** [dialContext] *)

(** A dial under the context that [dialContext] derives: whether the request's
    context is done, whether the derived one was cancelled, whether the
    [AfterFunc] on the request is still registered, and, as ghost state,
    whether the function it returned has been called. *)
Record DialSystem := {
  dialSessions : SessionSystem;
  requestDone : bool;
  dialCancelled : bool;
  afterFuncArmed : bool;
  dialReleased : bool;
}.

Definition dialContext (s : SessionSystem) (requestDone : bool) : DialSystem :=
  {| dialSessions := s; requestDone := requestDone; dialCancelled := false; afterFuncArmed := true;
     dialReleased := false |}.

(** The returned function. *)
Definition releaseDial (d : DialSystem) : DialSystem :=
  {| dialSessions := dialSessions d; requestDone := requestDone d; dialCancelled := true; afterFuncArmed := false;
     dialReleased := true |}.

(** A derived context is done with its parent. *)
Definition dialDone (d : DialSystem) : bool := sessionCancelled (sessions (dialSessions d)) || dialCancelled d.

Inductive dialStep : DialSystem → DialSystem → Prop :=
| DialSessions d s :
    sessionStep (dialSessions d) s →
    dialStep d {| dialSessions := s; requestDone := requestDone d; dialCancelled := dialCancelled d;
                  afterFuncArmed := afterFuncArmed d; dialReleased := dialReleased d |}
| DialRequestEnds d :
    dialStep d {| dialSessions := dialSessions d; requestDone := true; dialCancelled := dialCancelled d;
                  afterFuncArmed := afterFuncArmed d; dialReleased := dialReleased d |}
| DialAfterFunc d :
    requestDone d = true → afterFuncArmed d = true →
    dialStep d {| dialSessions := dialSessions d; requestDone := true; dialCancelled := true;
                  afterFuncArmed := false; dialReleased := dialReleased d |}
| DialRelease d : dialStep d (releaseDial d).

Definition dialInv (d : DialSystem) : Prop :=
  sessionsInv (sessions (dialSessions d))
  ∧ (dialCancelled d = negb (afterFuncArmed d))
  ∧ (dialCancelled d = true → requestDone d = true ∨ dialReleased d = true).

Lemma dialStep_inv d d' : dialStep d d' → dialInv d → dialInv d'.
Proof.
  unfold dialInv. destruct 1 as [d s Hs|d|d Hr Ha|d]; cbn; intros (Hi & Hc & Hd); split_and!; try done; try naive_solver.
  by eapply sessionStep_inv.
Qed.

Lemma sessionStep_cancelled s s' :
  sessionStep s s' → sessionCancelled (sessions s) = true → sessionCancelled (sessions s') = true.
Proof.
  destruct 1 as [s [c|]|s c|s|s items s' Hf|s c before after Hp]; cbn; try done; intros Hc.
  - by destruct (sessionDraining _).
  - unfold removeSession, closeDrainedLocked. by repeat case_match.
  - unfold beginDrain, closeDrainedLocked. by repeat case_match.
  - injection Hf as <- <-. unfold closeDrainedLocked. by repeat case_match.
Qed.

Lemma dialStep_done d d' : dialStep d d' → dialDone d = true → dialDone d' = true.
Proof.
  unfold dialDone. destruct 1 as [d s Hs|d|d Hr Ha|d]; cbn; rewrite ?orb_true_r; try done.
  rewrite !orb_true_iff. intros [Hc|Hc]; [left; by eapply sessionStep_cancelled|by right].
Qed.

(** A pending dial is given up exactly for a reason: its context is done only
    when a drain has begun, the request has ended or the dial is over; once a
    drain has begun it is done and stays so; and after the end of the request
    it is done or about to be. *)
Theorem dialContext_cancelled s ended d :
  rtc sessionStep sessionsStarted s → rtc dialStep (dialContext s ended) d →
  (dialDone d = true → sessionDraining (sessions (dialSessions d)) = true ∨ requestDone d = true ∨ dialReleased d = true)
  ∧ (sessionDraining (sessions (dialSessions d)) = true → ∀ d', rtc dialStep d d' → dialDone d' = true)
  ∧ (requestDone d = true → dialDone d = true ∨ ∃ d', dialStep d d' ∧ dialDone d' = true).
Proof.
  intros Hs Hd. assert (sessionsInv (sessions s)) as Hs0.
  { apply (rtc_preserves sessionStep (λ s, sessionsInv (sessions s)) _ _ Hs); [apply sessionStep_inv|].
    unfold sessionsInv. cbn. naive_solver. }
  assert (dialInv d) as ([_ Hc] & Ha & Hr)
    by (apply (rtc_preserves dialStep dialInv _ _ Hd); [apply dialStep_inv|by split_and!]).
  unfold dialDone. split_and!.
  - rewrite orb_true_iff. intros [Hx|Hx]; [left; congruence|right; by apply Hr].
  - intros Hdrain d' Hd'. apply (rtc_preserves dialStep (λ d, dialDone d = true) _ _ Hd'); [apply dialStep_done|].
    unfold dialDone. by rewrite <- Hc, Hdrain.
  - intros Hreq. destruct (afterFuncArmed d) eqn:Harm; [right|left; rewrite Ha; apply orb_true_r].
    eexists. split; [by apply DialAfterFunc|]. cbn. apply orb_true_r.
Qed.

(** ** [Serve] *)

Inductive ServeFailure (E : Type) := ServerClosed | ListenerClosed | OtherFailure (e : E).
Arguments ServerClosed {E}.
Arguments ListenerClosed {E}.
Arguments OtherFailure {E} e.

Inductive LifecycleError (E : Type) :=
| GracefulShutdown (e : E)
| ServeFailed (e : E)
| LengthMismatch
| StoppedUnexpectedly.
Arguments GracefulShutdown {E} e.
Arguments ServeFailed {E} e.
Arguments LengthMismatch {E}.
Arguments StoppedUnexpectedly {E}.

Section Serve.
Context {E : Type}.

(** [normalizeServeError] of what [http.Server.Serve] returned. *)
Definition normalizeServeError (err : ServeFailure E) : option (LifecycleError E) :=
  match err with
  | ServerClosed | ListenerClosed => None
  | OtherFailure e => Some (ServeFailed e)
  end.

(** What the outside world does during one [Serve]: whether the server
    returned before the context was cancelled and with what, whether the
    handler owns hijacked sessions, whether they drained before the timeout,
    and the result of [Shutdown]. *)
Record ServeWorld := {
  serveReturnedFirst : bool;
  serveReturns : ServeFailure E;
  ownsSessions : bool;
  drainedInTime : bool;
  shutdownReturns : option E;
}.

Inductive ServeAction := BeginSessionDrain | ShutdownServer | ForceCloseSessions | CloseServer | AwaitServe.

#[export] Instance ServeAction_eq_dec : EqDecision ServeAction.
Proof. solve_decision. Defined.

(** [func Serve]: its calls in order, and its result. *)
Definition Serve (w : ServeWorld) : list ServeAction * option (LifecycleError E) :=
  let drain := if ownsSessions w then [BeginSessionDrain] else [] in
  let awaitDrain := if ownsSessions w && negb (drainedInTime w) then [ForceCloseSessions] else [] in
  let closing :=
    match shutdownReturns w with
    | Some _ => CloseServer :: (if ownsSessions w then [ForceCloseSessions] else [])
    | None => []
    end in
  let await := if serveReturnedFirst w then [] else [AwaitServe] in
  let serveErr := normalizeServeError (serveReturns w) in
  (drain ++ [ShutdownServer] ++ awaitDrain ++ closing ++ await,
   match shutdownReturns w with
   | Some e => Some (GracefulShutdown e)
   | None => serveErr
   end).

(** The body of the loop that collects the remaining results. *)
Definition keepFirst (result err : option (LifecycleError E)) : option (LifecycleError E) :=
  match result, err with
  | None, Some e => Some e
  | _, _ => result
  end.

(** [func ServeAll], given the results of the group's [Serve] calls in the
    order in which they arrive. *)
Definition ServeAll (nservers nlisteners : nat) (parentStopped : bool)
    (results : list (option (LifecycleError E))) : option (LifecycleError E) :=
  if (nservers =? 0) || negb (nservers =? nlisteners) then Some LengthMismatch
  else
    match results with
    | [] => Some LengthMismatch
    | first :: rest =>
        let result := foldl keepFirst first rest in
        match result with
        | None => if negb parentStopped then Some StoppedUnexpectedly else None
        | Some e => Some e
        end
    end.

(** A listener group succeeds exactly when it was asked to stop and every
    listener ended without an error, in whatever order they ended; otherwise
    the first error in that order is the one reported. *)
Theorem ServeAll_result n parentStopped results :
  n = length results → n ≠ 0 →
  (ServeAll n n parentStopped results = None ↔ parentStopped = true ∧ Forall (λ r, r = None) results)
  ∧ (∀ before e after, results = before ++ Some e :: after → Forall (λ r, r = None) before →
       ServeAll n n parentStopped results = Some e).
Proof.
  intros -> Hn. unfold ServeAll. rewrite Nat.eqb_refl, (proj2 (Nat.eqb_neq _ _) Hn). cbn [orb negb].
  assert (∀ rest (e : LifecycleError E),
    foldl keepFirst (Some e) rest = Some e)
    as Hsome by (induction rest as [|[?|] ? IH]; intros ?; simpl; auto).
  assert (∀ rest,
    foldl keepFirst None rest = None
    ↔ Forall (λ r : option (LifecycleError E), r = None) rest) as Hnone.
  { induction rest as [|[e|] rest IH]; simpl; [by split| |].
    - rewrite Hsome, Forall_cons. by split; [|intros [? _]].
    - rewrite IH, Forall_cons. by split; [|intros [_ ?]]. }
  assert (∀ before e after, Forall (λ r, r = None) before →
    foldl keepFirst None
      (before ++ Some e :: after) = Some e) as Hfirst.
  { intros before e after Hb. rewrite foldl_app, (proj2 (Hnone before) Hb). simpl. apply Hsome. }
  destruct results as [|first rest]; [done|].
  assert (foldl keepFirst first rest
    = foldl keepFirst None (first :: rest)) as ->
    by by destruct first.
  split.
  - rewrite <- Hnone. destruct (foldl _ None (first :: rest)); [naive_solver|].
    destruct parentStopped; naive_solver.
  - intros before e after -> Hb. by rewrite Hfirst.
Qed.

(** When sessions are owned, the drain begins before the server is shut down,
    and they are forced closed if either the drain or the shutdown fails. *)
Lemma Serve_sessions w :
  ownsSessions w = true →
  (∃ rest, fst (Serve w) = BeginSessionDrain :: ShutdownServer :: rest)
  ∧ (ForceCloseSessions ∈ fst (Serve w) ↔ drainedInTime w = false ∨ shutdownReturns w ≠ None).
Proof.
  unfold Serve. intros ->. split; [eexists; reflexivity|].
  destruct (drainedInTime w), (shutdownReturns w), (serveReturnedFirst w); cbn; rewrite !elem_of_cons, ?elem_of_nil;
    naive_solver.
Qed.
End Serve.

Lemma ServeAll_result_witness :
  ServeAll (E := nat) 2 2 true [None; Some (ServeFailed 3)] = Some (ServeFailed 3).
Proof.
  destruct (ServeAll_result (E := nat) 2 true [None; Some (ServeFailed 3)]) as [_ H]; [done|done|].
  apply (H [None] (ServeFailed 3) []); [done|]. by repeat constructor.
Defined.
