(* ===== verification/Shutdown.v ===== *)
(** server/lifecycle.go: the shutdown of a listener.  [Serve] waits, drains and
    closes while the handlers of hijacked streams go on; its calls and the
    handlers' critical sections interleave.  The handler is one that owns its
    hijacked streams, as the handler of server/http.go does; the function
    [Serve] also covers one that does not. *)

From S2P Require Import Prelude Sessions.

Section Shutdown.
Context {E : Type}.

(** What [Serve] knows of its server's end: nothing yet, or its error. *)
Abbreviation served := (option (option (LifecycleError E))).

(** Where [Serve] is: in its [select], before the drain, in [Shutdown], in the
    wait for the drained channel, closing what a forced close took over, before
    the close of the server, closing what the second forced close took over,
    waiting for the server, or gone. *)
Inductive servePC :=
| ServeWaiting
| ServeDraining (first : served)
| ServeShutting (first : served)
| ServeAwaiting (first : served) (shutdownErr : option E)
| ServeForcing (first : served) (shutdownErr : option E) (items : list conn)
| ServeClosing (first : served) (err : E)
| ServeForcingAgain (first : served) (err : E) (items : list conn)
| ServeJoining (first : served) (shutdownErr : option E)
| ServeReturned (result : option (LifecycleError E)).

(** The calls of [Serve] so far, and, as ghost state, the streams that were
    ever registered and those their handlers have given up. *)
Record ServeSystem := {
  pcOf : servePC;
  table : Sessions;
  calls : list ServeAction;
  registered : gset conn;
  givenUp : gset conn;
}.

Definition goTo (pc : servePC) (t : Sessions) (done : list ServeAction) (s : ServeSystem) : ServeSystem :=
  {| pcOf := pc; table := t; calls := calls s ++ done; registered := registered s; givenUp := givenUp s |}.

(** After the wait for the drain. *)
Definition afterDrain (first : served) (shutdownErr : option E) : servePC :=
  match shutdownErr with Some err => ServeClosing first err | None => ServeJoining first None end.

Definition serveResult (shutdownErr : option E) (serveErr : option (LifecycleError E)) : option (LifecycleError E) :=
  match shutdownErr with Some e => Some (GracefulShutdown e) | None => serveErr end.

Inductive serveStep : ServeSystem → ServeSystem → Prop :=
| ServerEnds s err :
    pcOf s = ServeWaiting → serveStep s (goTo (ServeDraining (Some (normalizeServeError err))) (table s) [] s)
| ContextEnds s :
    pcOf s = ServeWaiting → serveStep s (goTo (ServeDraining None) (table s) [] s)
| DrainBegins s first :
    pcOf s = ServeDraining first →
    serveStep s (goTo (ServeShutting first) (beginDrain (table s)) [BeginSessionDrain] s)
| ShutdownReturns s first err :
    pcOf s = ServeShutting first → serveStep s (goTo (ServeAwaiting first err) (table s) [ShutdownServer] s)
| DrainSeen s first err :
    pcOf s = ServeAwaiting first err → sessionDrained (table s) = true →
    serveStep s (goTo (afterDrain first err) (table s) [] s)
| TimeoutSeen s first err items t :
    pcOf s = ServeAwaiting first err → forceCloseLocked (table s) = (items, t) →
    serveStep s (goTo (ServeForcing first err items) t [ForceCloseSessions] s)
| ForceCloses s first err c items :
    pcOf s = ServeForcing first err (c :: items) →
    serveStep s (goTo (ServeForcing first err items) (closeConn c (table s)) [] s)
| ForceDone s first err :
    pcOf s = ServeForcing first err [] → serveStep s (goTo (afterDrain first err) (table s) [] s)
| ServerCloses s first err items t :
    pcOf s = ServeClosing first err → forceCloseLocked (table s) = (items, t) →
    serveStep s (goTo (ServeForcingAgain first err items) t [CloseServer; ForceCloseSessions] s)
| ForceClosesAgain s first err c items :
    pcOf s = ServeForcingAgain first err (c :: items) →
    serveStep s (goTo (ServeForcingAgain first err items) (closeConn c (table s)) [] s)
| ForceDoneAgain s first err :
    pcOf s = ServeForcingAgain first err [] → serveStep s (goTo (ServeJoining first (Some err)) (table s) [] s)
| ServerJoined s err shutdownErr :
    pcOf s = ServeJoining None shutdownErr →
    serveStep s (goTo (ServeReturned (serveResult shutdownErr (normalizeServeError err))) (table s) [AwaitServe] s)
| ServerKnown s serveErr shutdownErr :
    pcOf s = ServeJoining (Some serveErr) shutdownErr →
    serveStep s (goTo (ServeReturned (serveResult shutdownErr serveErr)) (table s) [] s)
| HandlerAdds s c added t :
    addSession (Some c) (table s) = (added, t) →
    serveStep s {| pcOf := pcOf s; table := t; calls := calls s;
                   registered := if added then {[c]} ∪ registered s else registered s; givenUp := givenUp s |}
| HandlerRemoves s c :
    serveStep s {| pcOf := pcOf s; table := removeSession c (table s); calls := calls s; registered := registered s;
                   givenUp := {[c]} ∪ givenUp s |}
| HandlerCloses s c :
    serveStep s {| pcOf := pcOf s; table := closeConn c (table s); calls := calls s; registered := registered s;
                   givenUp := givenUp s |}.

Definition serveBegun : ServeSystem :=
  {| pcOf := ServeWaiting; table := newConnectionSessions; calls := []; registered := ∅; givenUp := ∅ |}.

(** ** The invariant *)

(** The connections a forced close has taken over and not closed yet. *)
Definition taken (pc : servePC) : list conn :=
  match pc with ServeForcing _ _ items | ServeForcingAgain _ _ items => items | _ => [] end.

(** What the calls so far and the state of the table are at each point, for
    the [ServeWorld] that the choices of the run make. *)
Definition forced (late : bool) : list ServeAction := if late then [ForceCloseSessions] else [].

Definition drainedBy (s : ServeSystem) (log : list ServeAction) : Prop :=
  sessionDrained (table s) = true ∧ ∃ late, calls s = [BeginSessionDrain; ShutdownServer] ++ forced late ++ log.

(** The result known so far is one that [http.Server.Serve] can give. *)
Definition firstOk (first : served) : Prop :=
  match first with Some serveErr => ∃ err, serveErr = normalizeServeError err | None => True end.

Definition pcOk (s : ServeSystem) : Prop :=
  match pcOf s with
  | ServeWaiting => calls s = []
  | ServeDraining first => firstOk first ∧ calls s = []
  | ServeShutting first => firstOk first ∧ sessionDraining (table s) = true ∧ calls s = [BeginSessionDrain]
  | ServeAwaiting first _ =>
      firstOk first ∧ sessionDraining (table s) = true ∧ calls s = [BeginSessionDrain; ShutdownServer]
  | ServeForcing first _ _ | ServeClosing first _ | ServeJoining first None => firstOk first ∧ drainedBy s []
  | ServeForcingAgain first _ _ | ServeJoining first (Some _) =>
      firstOk first ∧ drainedBy s [CloseServer; ForceCloseSessions]
  | ServeReturned result =>
      sessionDrained (table s) = true ∧ ∃ w : ServeWorld, ownsSessions w = true ∧ Serve w = (calls s, result)
  end.

Record serveInv (s : ServeSystem) : Prop := {
  sinv_sessions : sessionsInv (table s);
  sinv_accounted : ∀ c, c ∈ registered s →
    c ∈ sessionItems (table s) ∨ c ∈ givenUp s ∨ c ∈ sessionClosed (table s) ∨ c ∈ taken (pcOf s);
  sinv_pc : pcOk s;
}.

(** *** The operations of the table *)

Lemma addSession_inv c t : sessionsInv t → sessionsInv (snd (addSession c t)).
Proof. apply (sessionStep_inv _ _ (SessionAdd {| sessions := t; pendingClose := [] |} c)). Qed.

Lemma removeSession_inv c t : sessionsInv t → sessionsInv (removeSession c t).
Proof. apply (sessionStep_inv _ _ (SessionRemove {| sessions := t; pendingClose := [] |} c)). Qed.

Lemma beginDrain_inv t : sessionsInv t → sessionsInv (beginDrain t).
Proof. apply (sessionStep_inv _ _ (SessionBeginDrain {| sessions := t; pendingClose := [] |})). Qed.

Lemma forceCloseLocked_inv t items t' : forceCloseLocked t = (items, t') → sessionsInv t → sessionsInv t'.
Proof. intros Hf. apply (sessionStep_inv _ _ (SessionForceClose {| sessions := t; pendingClose := [] |} items t' Hf)). Qed.

Lemma beginDrain_spec t :
  sessionDraining (beginDrain t) = true ∧ sessionItems (beginDrain t) = sessionItems t
  ∧ sessionClosed (beginDrain t) = sessionClosed t.
Proof.
  unfold beginDrain, closeDrainedLocked. destruct (sessionDraining t) eqn:Hd; [done|]. cbn.
  case_bool_decide; cbn; [|done]. by destruct (sessionDrained t).
Qed.

Lemma forceCloseLocked_spec t items t' :
  forceCloseLocked t = (items, t') →
  items = elements (sessionItems t) ∧ sessionDrained t' = true ∧ sessionItems t' = ∅ ∧ sessionClosed t' = sessionClosed t.
Proof. intros [= <- <-]. unfold closeDrainedLocked. cbn. by destruct (sessionDrained t) eqn:Hd; cbn; rewrite ?Hd. Qed.

Lemma removeSession_spec c t :
  sessionDraining (removeSession c t) = sessionDraining t
  ∧ (sessionDrained t = true → sessionDrained (removeSession c t) = true)
  ∧ sessionItems (removeSession c t) = sessionItems t ∖ {[c]}
  ∧ sessionClosed (removeSession c t) = sessionClosed t.
Proof. unfold removeSession, closeDrainedLocked. cbn. by repeat case_match. Qed.

Lemma addSession_spec c t :
  let t' := snd (addSession (Some c) t) in
  sessionDraining t' = sessionDraining t ∧ sessionDrained t' = sessionDrained t
  ∧ sessionItems t ⊆ sessionItems t' ∧ sessionClosed t ⊆ sessionClosed t'
  ∧ (fst (addSession (Some c) t) = true → c ∈ sessionItems t').
Proof. cbn. destruct (sessionDraining t) eqn:Hd; cbn; rewrite ?Hd; set_solver. Qed.

(** *** Every step keeps the invariant *)

(** A handler's critical section changes neither where [Serve] is nor its
    calls, and a drain and its end are permanent. *)
Lemma pcOk_handler s s' :
  pcOf s' = pcOf s → calls s' = calls s →
  (sessionDraining (table s) = true → sessionDraining (table s') = true) →
  (sessionDrained (table s) = true → sessionDrained (table s') = true) →
  pcOk s → pcOk s'.
Proof.
  intros Hpc Hcalls Hdraining Hdrained. unfold pcOk, drainedBy. rewrite Hpc, Hcalls.
  destruct (pcOf s); try case_match; naive_solver.
Qed.

(** Every stream the table or a forced close lets go of has been dealt with. *)
Lemma serveStep_accounted s s' :
  serveStep s s' →
  (∀ c, c ∈ registered s → c ∈ sessionItems (table s) ∨ c ∈ givenUp s ∨ c ∈ sessionClosed (table s) ∨ c ∈ taken (pcOf s)) →
  ∀ c, c ∈ registered s' →
    c ∈ sessionItems (table s') ∨ c ∈ givenUp s' ∨ c ∈ sessionClosed (table s') ∨ c ∈ taken (pcOf s').
Proof.
  intros Hstep H.
  destruct Hstep as [s err Hpc|s Hpc|s first Hpc|s first err Hpc|s first err Hpc Hd|s first err items t Hpc Hf
    |s first err c items Hpc|s first err Hpc|s first err items t Hpc Hf|s first err c items Hpc|s first err Hpc
    |s err e Hpc|s err e Hpc|s c added t Hadd|s c|s c];
    try (rewrite Hpc in H); cbn in H |- *; intros d Hin; try specialize (H d Hin).
  1-2,4: naive_solver.
  - destruct (beginDrain_spec (table s)) as (_ & -> & ->). naive_solver.
  - destruct err; cbn; naive_solver.
  - destruct (forceCloseLocked_spec _ _ _ Hf) as (-> & _ & -> & ->). rewrite elem_of_elements. destruct H as [?|[?|[?|[]%not_elem_of_nil]]]; auto.
  - set_solver.
  - destruct err; cbn; naive_solver.
  - destruct (forceCloseLocked_spec _ _ _ Hf) as (-> & _ & -> & ->). rewrite elem_of_elements. destruct H as [?|[?|[?|[]%not_elem_of_nil]]]; auto.
  - set_solver.
  - naive_solver.
  - naive_solver.
  - naive_solver.
  - pose proof (addSession_spec c (table s)) as Hs. rewrite Hadd in Hs. cbn in Hs.
    destruct added; set_solver.
  - destruct (removeSession_spec c (table s)) as (_ & _ & -> & ->). destruct (decide (d = c)); set_solver.
  - set_solver.
Qed.

Lemma pcOk_drained s log :
  drainedBy s log → sessionDrained (table s) = true.
Proof. by intros [? _]. Qed.

(** The calls of a drained [Serve] that goes on. *)
Lemma drainedBy_go s pc t log done :
  drainedBy s log → sessionDrained t = true → drainedBy (goTo pc t done s) (log ++ done).
Proof.
  intros (_ & late & Hc) Ht. split; [done|]. exists late. cbn. by rewrite Hc, <- !(assoc_L (++)).
Qed.

(** What [Serve] returns is what the function [Serve] gives for the world the
    run has chosen. *)
Lemma serve_world (first : served) shutdownErr late err :
  ∃ w : ServeWorld (E := E), ownsSessions w = true ∧
  Serve w = (([BeginSessionDrain; ShutdownServer] ++ forced late
              ++ match shutdownErr with Some _ => [CloseServer; ForceCloseSessions] | None => [] end)
             ++ (match first with Some _ => [] | None => [AwaitServe] end), serveResult shutdownErr (normalizeServeError err)).
Proof.
  exists {| serveReturnedFirst := bool_decide (is_Some first); serveReturns := err; ownsSessions := true;
            drainedInTime := negb late; shutdownReturns := shutdownErr |}.
  split; [done|]. by destruct first, shutdownErr, late.
Qed.

Lemma serveStep_pc s s' : serveStep s s' → sessionsInv (table s) → pcOk s → pcOk s'.
Proof.
  intros Hstep Hinv H.
  destruct Hstep as [s err Hpc|s Hpc|s first Hpc|s first err Hpc|s first err Hpc Hd|s first err items t Hpc Hf
    |s first err c items Hpc|s first err Hpc|s first err items t Hpc Hf|s first err c items Hpc|s first err Hpc
    |s err e Hpc|s err e Hpc|s c added t Hadd|s c|s c];
    try (unfold pcOk in H |- *; rewrite Hpc in H; cbn in H |- *).
  - rewrite H. split; [by eexists|done].
  - by rewrite H.
  - destruct H as [? ->]. split_and!; [done| |done]. apply beginDrain_spec.
  - destruct H as (? & ? & ->). by split_and!.
  - destruct H as (? & _ & Hc). destruct err; cbn; (split; [done|]); (split; [done|]); exists false; cbn; by rewrite Hc.
  - destruct H as (? & _ & Hc). split; [done|].
    destruct (forceCloseLocked_spec _ _ _ Hf) as (_ & ? & _). split; [done|]. exists true. cbn. by rewrite Hc.
  - destruct H as [? H]. split; [done|]. by apply (drainedBy_go _ _ _ _ [] H), (pcOk_drained _ _ H).
  - destruct H as [? H]. pose proof (pcOk_drained _ _ H).
    destruct err; cbn; (split; [done|]); by apply (drainedBy_go _ _ _ _ [] H).
  - destruct H as [? H]. split; [done|]. destruct (forceCloseLocked_spec _ _ _ Hf) as (_ & ? & _).
    by apply (drainedBy_go _ _ _ _ [CloseServer; ForceCloseSessions] H).
  - destruct H as [? H]. split; [done|]. by apply (drainedBy_go _ _ _ _ [] H), (pcOk_drained _ _ H).
  - destruct H as [? H]. split; [done|]. by apply (drainedBy_go _ _ _ _ [] H), (pcOk_drained _ _ H).
  - assert (drainedBy s (match e with Some _ => [CloseServer; ForceCloseSessions] | None => [] end)) as (Hd & late & Hc) by (destruct e; apply H).
    split; [done|]. rewrite Hc. by apply (serve_world None).
  - assert (firstOk (Some err) ∧ drainedBy s (match e with Some _ => [CloseServer; ForceCloseSessions] | None => [] end))
      as ((f & ->) & Hd & late & Hc) by (destruct e; apply H).
    split; [done|]. rewrite Hc. by apply (serve_world (Some (normalizeServeError f))).
  - pose proof (addSession_spec c (table s)) as Hs. rewrite Hadd in Hs. cbn in Hs. destruct Hs as (Ha & Hb & _).
    apply (pcOk_handler s); cbn; congruence.
  - destruct (removeSession_spec c (table s)) as (Ha & Hb & _). apply (pcOk_handler s); cbn; congruence || auto.
  - by apply (pcOk_handler s).
Qed.

Lemma serveStep_inv s s' : serveStep s s' → serveInv s → serveInv s'.
Proof.
  intros Hstep [Hi Ha Hp]. split; [|by eapply serveStep_accounted|by eapply serveStep_pc].
  destruct Hstep as [| |s first Hpc| | |s first err items t Hpc Hf| | |s first err items t Hpc Hf| | | | |s c added t Hadd| |];
    cbn; try done.
  - by apply beginDrain_inv.
  - by eapply forceCloseLocked_inv.
  - by eapply forceCloseLocked_inv.
  - apply (addSession_inv (Some c)) in Hi. by rewrite Hadd in Hi.
  - by apply removeSession_inv.
Qed.

Lemma serveReachable_inv s : rtc serveStep serveBegun s → serveInv s.
Proof.
  intros Hrun. apply (rtc_preserves serveStep serveInv _ _ Hrun); [apply serveStep_inv|].
  split; [split; [by split; [|intros [? _]]|done]|done|done].
Qed.

Lemma serve_progress s :
  (∃ result, pcOf s = ServeReturned result) ∨ ∃ s', serveStep s s' ∧ (pcOf s' ≠ pcOf s).
Proof.
  destruct (pcOf s) as [|first|first|first err|first err items|first err|first err items|first err|result] eqn:Hpc;
    [right..|left; by eexists].
  - eexists. split; [by apply ContextEnds|done].
  - eexists. split; [by eapply DrainBegins|done].
  - eexists. split; [by apply (ShutdownReturns _ first None)|done].
  - destruct (forceCloseLocked (table s)) eqn:Hf. eexists. split; [by eapply TimeoutSeen|done].
  - destruct items as [|c items].
    + eexists. split; [by eapply ForceDone|by destruct err].
    + eexists. split; [by eapply ForceCloses|]. cbn. intros [= H]. by apply (f_equal length) in H; cbn in H; lia.
  - destruct (forceCloseLocked (table s)) eqn:Hf. eexists. split; [by eapply ServerCloses|done].
  - destruct items as [|c items].
    + eexists. split; [by eapply ForceDoneAgain|done].
    + eexists. split; [by eapply ForceClosesAgain|]. cbn. intros [= H]. by apply (f_equal length) in H; cbn in H; lia.
  - destruct first as [serveErr|]; eexists.
    + split; [by eapply ServerKnown|done].
    + split; [by apply (ServerJoined _ ServerClosed err)|done].
Qed.
End Shutdown.

(** ** Properties *)

(** C19: a shutdown leaves no stream behind: however the handlers of hijacked
    streams interleave with [Serve], it can always go on; once it has
    returned, its calls and its result are those of the function [Serve], no
    stream is registered, every stream that was ever registered was given up
    by its handler or has been closed, and a connection that is offered later
    is refused and closed. *)
Theorem Serve_shutdown {E} (s : ServeSystem (E := E)) :
  rtc serveStep serveBegun s →
  ((∃ result, pcOf s = ServeReturned result) ∨ ∃ s', serveStep s s' ∧ pcOf s' ≠ pcOf s)
  ∧ ∀ result, pcOf s = ServeReturned result →
      (∃ w, ownsSessions w = true ∧ Serve w = (calls s, result))
      ∧ sessionItems (table s) = ∅
      ∧ (∀ c, c ∈ registered s → c ∈ givenUp s ∨ c ∈ sessionClosed (table s))
      ∧ ∀ c, fst (addSession (Some c) (table s)) = false ∧ c ∈ sessionClosed (snd (addSession (Some c) (table s))).
Proof.
  intros Hrun. destruct (serveReachable_inv s Hrun) as [[Hd _] Ha Hp]. split; [apply serve_progress|].
  intros result Hpc. unfold pcOk in Hp. rewrite Hpc in Hp. destruct Hp as [Hdrained Hw].
  destruct (proj1 Hd Hdrained) as [Hdraining Hitems]. split_and!; [done|done| |].
  - intros c Hc. specialize (Ha c Hc). rewrite Hitems, Hpc in Ha. cbn in Ha. set_solver.
  - intros c. cbn. rewrite Hdraining. cbn. set_solver.
Qed.

(** ** Witnesses *)

(** A stream is registered, the context ends, the drain times out and the
    stream is closed. *)
Lemma Serve_shutdown_witness :
  ∃ s : ServeSystem (E := nat), rtc serveStep serveBegun s ∧ pcOf s = ServeReturned None
  ∧ 7 ∈ sessionClosed (table s)
  ∧ calls s = [BeginSessionDrain; ShutdownServer; ForceCloseSessions; AwaitServe].
Proof.
  eassert (rtc serveStep (serveBegun (E := nat)) _) as Hrun.
  { eapply rtc_l; [by apply (HandlerAdds _ 7)|].
    eapply rtc_l; [by apply ContextEnds|].
    eapply rtc_l; [by eapply DrainBegins|].
    eapply rtc_l; [by apply (ShutdownReturns _ None None)|].
    eapply rtc_l; [by eapply (TimeoutSeen _ _ _ [7]); vm_compute|].
    eapply rtc_l; [by eapply ForceCloses|].
    eapply rtc_l; [by eapply ForceDone|].
    eapply rtc_l; [by apply (ServerJoined _ ServerClosed)|]. apply rtc_refl. }
  eexists. split; [exact Hrun|]. split; [done|]. split; [|done].
  destruct (Serve_shutdown _ Hrun) as (_ & H). destruct (H None) as (_ & _ & Hclosed & _); [done|].
  destruct (Hclosed 7) as [Habs|]; [|by apply not_elem_of_empty in Habs|done].
  apply (bool_decide_unpack _); by vm_compute.
Defined.
