(* ===== verification/Group.v ===== *)
(** server/group.go: several listeners under one lifecycle.  Every listener
    runs the [Serve] of [Shutdown] in a goroutine of its own under a context
    they share; the first result cancels it. *)

From S2P Require Import Prelude.
From S2P Require Import Sessions.
From S2P Require Import Shutdown.

Section Group.
Context {E : Type}.
Abbreviation outcome := (option (LifecycleError E)).

(** Where [ServeAll] is: waiting for the first result, with it, having looked
    at the parent's context, collecting, or gone. *)
Inductive groupPC :=
| GroupWaiting
| GroupFirst (first : outcome)
| GroupSampled (parentStopped : bool) (first : outcome)
| GroupCollecting (parentStopped : bool) (result : outcome) (todo : nat)
| GroupReturned (result : outcome).

(** [queue] is the channel [results]; [sent] are the members whose goroutines
    have ended and, as ghost state, [received] the results taken from the
    channel. *)
Record GroupSystem := {
  groupAt : groupPC;
  members : list (ServeSystem (E := E));
  parentDone : bool;
  groupCancelled : bool;
  queue : list outcome;
  sent : list nat;
  received : list outcome;
}.

Definition atPC (pc : groupPC) (s : GroupSystem) : GroupSystem :=
  {| groupAt := pc; members := members s; parentDone := parentDone s; groupCancelled := groupCancelled s;
     queue := queue s; sent := sent s; received := received s |}.

(** [<-results]. *)
Definition receiveResult (pc : groupPC) (err : outcome) (rest : list outcome) (s : GroupSystem) : GroupSystem :=
  {| groupAt := pc; members := members s; parentDone := parentDone s; groupCancelled := groupCancelled s;
     queue := rest; sent := sent s; received := received s ++ [err] |}.

(** The last lines of [ServeAll]. *)
Definition concludeGroup (parentStopped : bool) (result : outcome) : outcome :=
  match result with
  | None => if negb parentStopped then Some StoppedUnexpectedly else None
  | Some e => Some e
  end.

Inductive groupStep : GroupSystem → GroupSystem → Prop :=
| MemberMoves s i m m' :
    members s !! i = Some m → serveStep m m' →
    (pcOf m = ServeWaiting → pcOf m' = ServeDraining None → parentDone s || groupCancelled s = true) →
    groupStep s {| groupAt := groupAt s; members := <[i:=m']> (members s); parentDone := parentDone s;
                   groupCancelled := groupCancelled s; queue := queue s; sent := sent s; received := received s |}
| MemberSends s i m err :
    members s !! i = Some m → pcOf m = ServeReturned err → i ∉ sent s →
    groupStep s {| groupAt := groupAt s; members := members s; parentDone := parentDone s;
                   groupCancelled := groupCancelled s; queue := queue s ++ [err]; sent := sent s ++ [i];
                   received := received s |}
| ParentStops s :
    groupStep s {| groupAt := groupAt s; members := members s; parentDone := true;
                   groupCancelled := groupCancelled s; queue := queue s; sent := sent s; received := received s |}
| FirstArrives s first rest :
    groupAt s = GroupWaiting → queue s = first :: rest → groupStep s (receiveResult (GroupFirst first) first rest s)
| ParentSampled s first :
    groupAt s = GroupFirst first → groupStep s (atPC (GroupSampled (parentDone s) first) s)
| GroupCancels s parentStopped first :
    groupAt s = GroupSampled parentStopped first →
    groupStep s {| groupAt := GroupCollecting parentStopped first (length (members s) - 1); members := members s;
                   parentDone := parentDone s; groupCancelled := true; queue := queue s; sent := sent s;
                   received := received s |}
| NextArrives s parentStopped result todo err rest :
    groupAt s = GroupCollecting parentStopped result (S todo) → queue s = err :: rest →
    groupStep s (receiveResult (GroupCollecting parentStopped (keepFirst result err) todo) err rest s)
| GroupEnds s parentStopped result :
    groupAt s = GroupCollecting parentStopped result 0 →
    groupStep s (atPC (GroupReturned (concludeGroup parentStopped result)) s).

(** After the check of the lengths: one goroutine for each of [n] servers. *)
Definition groupStarted (n : nat) : GroupSystem :=
  {| groupAt := GroupWaiting; members := replicate n serveBegun; parentDone := false; groupCancelled := false;
     queue := []; sent := []; received := [] |}.

(** ** The invariant *)

Definition returnedWith (ms : list (ServeSystem (E := E))) (i : nat) (err : outcome) : Prop :=
  ∃ m, ms !! i = Some m ∧ pcOf m = ServeReturned err.

(** What [ServeAll] knows, by the results it has received. *)
Definition groupOk (s : GroupSystem) : Prop :=
  match groupAt s with
  | GroupWaiting => received s = []
  | GroupFirst first => received s = [first]
  | GroupSampled parentStopped first => received s = [first] ∧ (parentStopped = true → parentDone s = true)
  | GroupCollecting parentStopped result todo =>
      (∃ first rest, received s = first :: rest ∧ result = foldl keepFirst first rest)
      ∧ length (received s) + todo = length (members s) ∧ (parentStopped = true → parentDone s = true)
  | GroupReturned result =>
      length (received s) = length (members s)
      ∧ ∃ parentStopped, (parentStopped = true → parentDone s = true)
          ∧ ServeAll (length (members s)) (length (members s)) parentStopped (received s) = result
  end.

(** Whether a listener was, or is being, shut down although its server had not
    ended. *)
Definition stoppedForContext (m : ServeSystem (E := E)) : bool :=
  bool_decide (AwaitServe ∈ calls m)
  || match pcOf m with
     | ServeDraining None | ServeShutting None | ServeAwaiting None _ | ServeForcing None _ _ | ServeClosing None _
     | ServeForcingAgain None _ _ | ServeJoining None _ => true
     | _ => false
     end.

Definition causeOk (s : GroupSystem) : Prop :=
  (groupCancelled s = true → received s ≠ [])
  ∧ Forall (λ m, stoppedForContext m = true → parentDone s = true ∨ groupCancelled s = true) (members s).

Record groupInv (s : GroupSystem) : Prop := {
  ginv_size : members s ≠ [];
  ginv_members : Forall serveInv (members s);
  ginv_sent : NoDup (sent s);
  ginv_results : Forall2 (returnedWith (members s)) (sent s) (received s ++ queue s);
  ginv_pc : groupOk s;
  ginv_cause : causeOk s;
}.

(** A member that has returned stays so, whatever its handlers still do. *)
Lemma serveStep_returned (m m' : ServeSystem (E := E)) err :
  serveStep m m' → pcOf m = ServeReturned err → pcOf m' = ServeReturned err.
Proof. destruct 1; cbn; intros Hpc; congruence. Qed.

Lemma returnedWith_insert ms i m m' j err :
  ms !! i = Some m → serveStep m m' → returnedWith ms j err → returnedWith (<[i:=m']> ms) j err.
Proof.
  intros Hi Hstep (mj & Hj & Hpc). destruct (decide (i = j)) as [->|Hne].
  - exists m'. rewrite list_lookup_insert_eq by by eapply lookup_lt_Some. split; [done|].
    eapply serveStep_returned; [done|]. congruence.
  - exists mj. by rewrite list_lookup_insert_ne.
Qed.

Lemma groupStep_results s s' :
  groupStep s s' → NoDup (sent s) → Forall2 (returnedWith (members s)) (sent s) (received s ++ queue s) →
  NoDup (sent s') ∧ Forall2 (returnedWith (members s')) (sent s') (received s' ++ queue s').
Proof.
  intros Hstep Hnd Hr.
  destruct Hstep as [s i m m' Hi Hm _|s i m err Hi Hpc Hnew|s|s first rest _ Hq|s first _|s ps first _
    |s ps result todo err rest _ Hq|s ps result _]; cbn; try done.
  - split; [done|]. eapply Forall2_impl; [done|]. intros j err. by eapply returnedWith_insert.
  - rewrite (assoc_L (++)). split.
    + apply NoDup_app. split_and!; [done|set_solver|apply NoDup_singleton].
    + apply Forall2_app; [done|]. constructor; [by exists m|constructor].
  - by rewrite Hq, cons_middle, (assoc_L (++)) in Hr.
  - by rewrite Hq, cons_middle, (assoc_L (++)) in Hr.
Qed.

Lemma ServeAll_conclude n parentStopped first rest :
  n ≠ 0 → ServeAll n n parentStopped (first :: rest) = concludeGroup parentStopped (foldl keepFirst first rest).
Proof. intros Hn. unfold ServeAll. by rewrite Nat.eqb_refl, (proj2 (Nat.eqb_neq _ _) Hn). Qed.

Lemma groupStep_pc s s' : groupStep s s' → members s ≠ [] → groupOk s → groupOk s'.
Proof.
  intros Hstep Hne H.
  destruct Hstep as [s i m m' Hi Hm _|s i m err Hi Hpc Hnew|s|s first rest Hpc Hq|s first Hpc|s ps first Hpc
    |s ps result todo err rest Hpc Hq|s ps result Hpc]; unfold groupOk in *; cbn; try (rewrite Hpc in H; cbn in H).
  - destruct (groupAt s); rewrite ?length_insert; done.
  - done.
  - destruct (groupAt s); naive_solver.
  - by rewrite H.
  - done.
  - destruct H as [-> ?]. split_and!; [by exists first, []| |done]. cbn. destruct (members s); [done|cbn; lia].
  - destruct H as ((first & rest' & Hrec & ->) & Hlen & Hps). rewrite Hrec in *. split_and!; [|rewrite length_app in *; cbn in *; lia|done].
    exists first, (rest' ++ [err]). by rewrite foldl_app.
  - destruct H as ((first & rest' & Hrec & ->) & Hlen & Hps). rewrite Hrec in *. split; [lia|]. exists ps.
    split; [done|]. apply ServeAll_conclude. by destruct (members s).
Qed.

Lemma serveStep_stopped (m m' : ServeSystem (E := E)) :
  serveStep m m' → stoppedForContext m' = true →
  stoppedForContext m = true ∨ pcOf m = ServeWaiting ∧ pcOf m' = ServeDraining None.
Proof.
  unfold stoppedForContext. rewrite !orb_true_iff, !bool_decide_eq_true.
  destruct 1 as [m err Hpc|m Hpc|m first Hpc|m first err Hpc|m first err Hpc Hd|m first err items t Hpc Hf
    |m first err c items Hpc|m first err Hpc|m first err items t Hpc Hf|m first err c items Hpc|m first err Hpc
    |m err e Hpc|m err e Hpc|m c added t Hadd|m c|m c]; try rewrite Hpc; cbn; try done;
    rewrite ?elem_of_app, ?elem_of_cons, ?elem_of_nil; try (destruct err; cbn); naive_solver.
Qed.

Lemma groupStep_cause s s' : groupStep s s' → groupOk s → causeOk s → causeOk s'.
Proof.
  unfold causeOk, groupOk. intros Hstep Hok [Hc Hm].
  destruct Hstep as [s i m m' Hi Hmove Hctx|s i m err Hi Hpc Hnew|s|s first rest Hpc Hq|s first Hpc|s ps first Hpc
    |s ps result todo err rest Hpc Hq|s ps result Hpc]; cbn; try (split; [done|exact Hm]).
  - split; [done|]. apply Forall_insert; [done|]. intros Hs.
    destruct (serveStep_stopped _ _ Hmove Hs) as [Hs'|[Hw Hw']].
    + by apply (Forall_lookup_1 _ _ _ _ Hm Hi).
    + by apply orb_true_iff, Hctx.
  - split; [done|]. eapply Forall_impl; [exact Hm|]. naive_solver.
  - split; [by intros _ [_ ?]%app_nil|exact Hm].
  - rewrite Hpc in Hok. destruct Hok as [-> _]. split; [done|]. eapply Forall_impl; [exact Hm|]. naive_solver.
  - split; [by intros _ [_ ?]%app_nil|exact Hm].
Qed.

Lemma groupStep_inv s s' : groupStep s s' → groupInv s → groupInv s'.
Proof.
  intros Hstep [Hne Hm Hnd Hr Hp Hc]. destruct (groupStep_results _ _ Hstep Hnd Hr) as [??].
  split; [| |done|done|by eapply groupStep_pc|by eapply groupStep_cause]; destruct Hstep as [s i m m' Hi Hmove _| | | | | | |]; cbn; try done.
  - intros Habs%(f_equal length). rewrite length_insert in Habs. by destruct (members s).
  - apply Forall_insert; [done|]. eapply serveStep_inv; [done|]. by eapply Forall_lookup_1.
Qed.

Lemma groupReachable_inv n s : n ≠ 0 → rtc groupStep (groupStarted n) s → groupInv s.
Proof.
  intros Hn Hrun. apply (rtc_preserves groupStep groupInv _ _ Hrun); [apply groupStep_inv|].
  split; cbn; [by destruct n| |constructor|constructor|done|split; [done|by apply Forall_replicate]].
  apply Forall_replicate, serveReachable_inv, rtc_refl.
Qed.

Lemma groupStep_size s s' : groupStep s s' → length (members s') = length (members s).
Proof. destruct 1; cbn; rewrite ?length_insert; done. Qed.

(** Distinct members of a group of [n], as many as it has, are all of it. *)
Lemma returned_all ms order (errs : list outcome) :
  NoDup order → Forall2 (returnedWith ms) order errs → length ms ≤ length errs → order ≡ₚ seq 0 (length ms).
Proof.
  intros Hnd Hall Hlen. apply submseteq_length_Permutation; [|rewrite length_seq, (Forall2_length _ _ _ Hall); done].
  apply NoDup_submseteq; [done|]. intros i [j Hj]%list_elem_of_lookup.
  destruct (Forall2_lookup_l _ _ _ _ _ Hall Hj) as (err & _ & m & Hm & _).
  apply elem_of_seq. apply lookup_lt_Some in Hm. lia.
Qed.

Lemma serveInv_returned (m : ServeSystem (E := E)) err :
  serveInv m → pcOf m = ServeReturned err →
  sessionItems (table m) = ∅ ∧ ∀ c, c ∈ registered m → c ∈ givenUp m ∨ c ∈ sessionClosed (table m).
Proof.
  intros [[Hd _] Ha Hp] Hpc. unfold pcOk in Hp. rewrite Hpc in Hp, Ha. destruct Hp as [Hdrained _].
  destruct (proj1 Hd Hdrained) as [_ Hitems]. split; [done|]. intros c Hc. specialize (Ha c Hc).
  rewrite Hitems in Ha. cbn in Ha. set_solver.
Qed.
End Group.

(** ** Properties *)

(** C20: the listeners of a group live and end together: however they and
    their streams interleave, none is shut down before its server has ended
    unless the parent stopped or another result had arrived; and once
    [ServeAll] has returned, every listener has, none owns a stream or has left
    one open that its handler did not give up, and the result is that of the
    function [ServeAll] on their results in the order of arrival, so it is no
    error only if the parent stopped and no listener failed. *)
Theorem ServeAll_group {E} n (s : GroupSystem (E := E)) :
  n ≠ 0 → rtc groupStep (groupStarted n) s →
  (∀ m, m ∈ members s → stoppedForContext m = true → parentDone s = true ∨ received s ≠ [])
  ∧ ∀ result, groupAt s = GroupReturned result →
      (∃ order, order ≡ₚ seq 0 n ∧ Forall2 (returnedWith (members s)) order (received s))
      ∧ (∀ m, m ∈ members s →
           sessionItems (table m) = ∅ ∧ ∀ c, c ∈ registered m → c ∈ givenUp m ∨ c ∈ sessionClosed (table m))
      ∧ (∃ parentStopped, ServeAll n n parentStopped (received s) = result
           ∧ (parentStopped = true → parentDone s = true))
      ∧ (result = None → parentDone s = true ∧ Forall (λ err, err = None) (received s)).
Proof.
  intros Hn Hrun. destruct (groupReachable_inv n s Hn Hrun) as [Hne Hm Hnd Hr Hp [Hcancel Hcause]]. split.
  { intros m Hin Hs. rewrite Forall_forall in Hcause. destruct (Hcause m Hin Hs); [by left|right; auto]. }
  intros result Hpc. assert (length (members s) = n) as Hsize.
  { apply (rtc_preserves groupStep (λ s, length (members s) = n) _ _ Hrun); [|by cbn; rewrite length_replicate].
    intros t t' Hstep Ht. by rewrite (groupStep_size _ _ Hstep). }
  unfold groupOk in Hp. rewrite Hpc, Hsize in Hp. destruct Hp as (Hlen & ps & Hps & Hresult).
  assert (sent s ≡ₚ seq 0 n) as Hall.
  { rewrite <- Hsize. eapply returned_all; [done|exact Hr|]. rewrite length_app. lia. }
  assert (queue s = []) as Hqueue.
  { apply Forall2_length in Hr. rewrite Hall, length_seq, length_app in Hr. apply nil_length_inv. lia. }
  rewrite Hqueue, (right_id_L [] (++)) in Hr. split_and!.
  - by exists (sent s).
  - intros m [i Hi]%list_elem_of_lookup. assert (i ∈ sent s) as [j Hj]%list_elem_of_lookup.
    { rewrite Hall. apply elem_of_seq. apply lookup_lt_Some in Hi. lia. }
    destruct (Forall2_lookup_l _ _ _ _ _ Hr Hj) as (err & _ & m' & Hm' & Hret). simplify_eq.
    eapply serveInv_returned; [|done]. by eapply Forall_lookup_1.
  - by exists ps.
  - intros ->. destruct (proj1 (proj1 (ServeAll_result n ps (received s) (eq_sym Hlen) Hn)) Hresult). auto.
Qed.

(** ** Witnesses *)

(** One step of a witness: a step of a member, or one of the group. *)
Tactic Notation "memberStep" constr(i) uconstr(step) :=
  eapply rtc_l; [eapply (MemberMoves _ i); [reflexivity|eapply step; reflexivity|done]|]; cbn.
Tactic Notation "oneStep" uconstr(step) := eapply rtc_l; [eapply step; (reflexivity || set_solver)|]; cbn.

(** The first of two listeners fails; the second is shut down and closed after
    a failed shutdown. *)
Lemma ServeAll_group_witness :
  ∃ s : GroupSystem (E := nat), rtc groupStep (groupStarted 2) s ∧ groupAt s = GroupReturned (Some (ServeFailed 3))
  ∧ parentDone s = false ∧ received s = [Some (ServeFailed 3); Some (GracefulShutdown 4)]
  ∧ ∀ m, m ∈ members s → sessionItems (table m) = ∅.
Proof.
  eassert (rtc groupStep (groupStarted (E := nat) 2) _) as Hrun.
  { memberStep 0 (ServerEnds _ (OtherFailure 3)). memberStep 0 DrainBegins.
    memberStep 0 (ShutdownReturns _ _ None).
    memberStep 0 DrainSeen. memberStep 0 ServerKnown.
    oneStep (MemberSends _ 0). oneStep FirstArrives. oneStep ParentSampled. oneStep GroupCancels.
    memberStep 1 ContextEnds. memberStep 1 DrainBegins.
    memberStep 1 (ShutdownReturns _ _ (Some 4)).
    memberStep 1 DrainSeen. memberStep 1 ServerCloses. memberStep 1 ForceDoneAgain.
    memberStep 1 (ServerJoined _ ServerClosed).
    oneStep (MemberSends _ 1). oneStep NextArrives. oneStep GroupEnds. apply rtc_refl. }
  eexists. split; [exact Hrun|]. split; [done|]. split; [done|]. split; [done|].
  destruct (ServeAll_group 2 _ (Nat.neq_succ_0 1) Hrun) as (_ & H).
  destruct (H _ eq_refl) as (_ & Hm & _). intros m Hin. by destruct (Hm m Hin).
Defined.
