(* ===== verification/Bridge.v ===== *)
(** link/bridge.go: the local side of a link, which accepts clients, dials a
    remote stream for each and relays between the two.  The accept loop, the
    watcher of the context and the goroutine of every client interleave; each
    step below is one critical section or one call of theirs. *)

From S2P Require Import Prelude Sessions.

(** ** [connections] *)

(** [tableClosed] records the connections [Close] was called on. *)
Record Connections := {
  tableClosing : bool;
  tableItems : gset conn;
  tableClosed : gset conn;
}.

Definition newConnections : Connections := {| tableClosing := false; tableItems := ∅; tableClosed := ∅ |}.

Definition closeIn (c : conn) (t : Connections) : Connections :=
  {| tableClosing := tableClosing t; tableItems := tableItems t; tableClosed := {[c]} ∪ tableClosed t |}.

Definition addConnection (c : conn) (t : Connections) : bool * Connections :=
  if tableClosing t then (false, closeIn c t)
  else (true, {| tableClosing := false; tableItems := {[c]} ∪ tableItems t; tableClosed := tableClosed t |}).

Definition removeConnection (c : conn) (t : Connections) : Connections :=
  {| tableClosing := tableClosing t; tableItems := tableItems t ∖ {[c]}; tableClosed := tableClosed t |}.

(** [connections.Close] up to the release of its mutex: the connections to
    close are copied and stay in the table. *)
Definition closeTableLocked (t : Connections) : list conn * Connections :=
  (elements (tableItems t),
   {| tableClosing := true; tableItems := tableItems t; tableClosed := tableClosed t |}).

(** ** The goroutine of one client *)

Inductive deferred := DeferRemove (c : conn) | DeferClose (c : conn).

Definition runDeferred (d : deferred) (t : Connections) : Connections :=
  match d with DeferRemove c => removeConnection c t | DeferClose c => closeIn c t end.

(** Where the goroutine is: in [dial], before the test of the context, before
    [active.Add(remote)], in [relay] (with the copies that are done), or
    running the calls it has deferred. *)
Inductive streamPC :=
| Dialing
| Dialed (remote : conn)
| Adding (remote : conn)
| Relaying (remote : conn) (toRemoteDone toClientDone : bool)
| Unwinding (calls : list deferred).

Record Stream := {
  client : conn;
  dialled : option conn;
  pc : streamPC;
}.

Definition clientDefers (s : Stream) : list deferred := [DeferRemove (client s); DeferClose (client s)].

Definition at_ (s : Stream) (pc : streamPC) : Stream := {| client := client s; dialled := dialled s; pc := pc |}.

(** What a step waits for: only the program and the runtime, or also a peer,
    the dialer, the listener's network or the owner of the context.  A call that
    blocks returns by itself for a reason the program has given it: [dial] when
    its context has ended, a copy when its source has been closed, [Accept] when
    the listener has. *)
Inductive cause := Program | Outside.

(** A step of the goroutine; [None] is its end ([streams.Done]).  [dial]
    returns a connection nobody has seen. *)
Inductive streamStep (contextEnded : bool) :
  cause → Stream → Connections → gset conn → option Stream → Connections → gset conn → Prop :=
| DialFails k s t o :
    pc s = Dialing → (k = Program → contextEnded = true) →
    streamStep contextEnded k s t o (Some (at_ s (Unwinding (clientDefers s)))) t o
| DialSucceeds s t o remote :
    pc s = Dialing → remote ∉ o →
    streamStep contextEnded Outside s t o
      (Some {| client := client s; dialled := Some remote; pc := Dialed remote |}) t ({[remote]} ∪ o)
| TestContext s t o remote :
    pc s = Dialed remote →
    streamStep contextEnded Program s t o
      (Some (at_ s (if contextEnded then Unwinding (DeferClose remote :: clientDefers s) else Adding remote))) t o
| AddRemote s t o remote added t' :
    pc s = Adding remote → addConnection remote t = (added, t') →
    streamStep contextEnded Program s t o
      (Some (at_ s (if added then Relaying remote false false
                    else Unwinding (DeferClose remote :: clientDefers s)))) t' o
| CopyToRemoteEnds k s t o remote back :
    pc s = Relaying remote false back → (k = Program → client s ∈ tableClosed t) →
    streamStep contextEnded k s t o (Some (at_ s (Relaying remote true back))) t o
| CopyToClientEnds k s t o remote forth :
    pc s = Relaying remote forth false → (k = Program → remote ∈ tableClosed t) →
    streamStep contextEnded k s t o (Some (at_ s (Relaying remote forth true))) t o
| RelayEnds s t o remote :
    pc s = Relaying remote true true →
    streamStep contextEnded Program s t o
      (Some (at_ s (Unwinding (DeferRemove remote :: DeferClose remote :: clientDefers s)))) t o
| RunDeferred s t o d calls :
    pc s = Unwinding (d :: calls) →
    streamStep contextEnded Program s t o (Some (at_ s (Unwinding calls))) (runDeferred d t) o
| StreamDone s t o :
    pc s = Unwinding [] → streamStep contextEnded Program s t o None t o.

(** ** [Serve] *)

Inductive BridgeError := ListenerRequired | DialerRequired | DrainRequired.

(** The checks of the arguments. *)
Definition serveArguments (hasListener hasDialer : bool) (drain : Z) : option BridgeError :=
  if negb hasListener then Some ListenerRequired
  else if negb hasDialer then Some DialerRequired
  else if (drain <=? 0)%Z then Some DrainRequired
  else None.

(** Where the accept loop is: in [Accept], before the test of the context,
    before [active.Add(client)], before [active.Close] after a failure, in the
    final [select], closing the connections it has taken over and then waiting
    for the goroutines, or gone.  The error is what [Serve] returns. *)
Inductive mainPC (E : Type) :=
| Accepting
| Accepted (c : conn)
| AddingClient (c : conn)
| Failing (err : E)
| Draining
| Closing (err : option E) (pending : list conn)
| Returned (err : option E).
Arguments Accepting {E}.
Arguments Accepted {E} c.
Arguments AddingClient {E} c.
Arguments Failing {E} err.
Arguments Draining {E}.
Arguments Closing {E} err pending.
Arguments Returned {E} err.

(** [opened] is ghost state: every connection that [Accept] or [dial] has
    returned. *)
Record Bridge (E : Type) := {
  main : mainPC E;
  bridgeContextEnded : bool;
  listenerClosed : bool;
  active : Connections;
  streams : list Stream;
  opened : gset conn;
}.
Arguments Build_Bridge {E}.
Arguments main {E} b : rename.
Arguments bridgeContextEnded {E} b : rename.
Arguments listenerClosed {E} b : rename.
Arguments active {E} b : rename.
Arguments streams {E} b : rename.
Arguments opened {E} b : rename.

Section System.
Context {E : Type}.
Implicit Types b : Bridge E.

Definition moved b (pc : mainPC E) (t : Connections) : Bridge E :=
  Build_Bridge pc (bridgeContextEnded b) (listenerClosed b) t (streams b) (opened b).

Inductive bridgeMove : cause → Bridge E → Bridge E → Prop :=
| EndContext b :
    bridgeContextEnded b = false →
    bridgeMove Outside b (Build_Bridge (main b) true (listenerClosed b) (active b) (streams b) (opened b))
| WatcherCloses b :
    bridgeContextEnded b = true → listenerClosed b = false →
    bridgeMove Program b (Build_Bridge (main b) true true (active b) (streams b) (opened b))
| AcceptClient b c :
    main b = Accepting → c ∉ opened b →
    bridgeMove Outside b (Build_Bridge (Accepted c) (bridgeContextEnded b) (listenerClosed b) (active b) (streams b)
                               ({[c]} ∪ opened b))
| AcceptFails k b err isErrClosed :
    main b = Accepting → (k = Program → listenerClosed b = true ∧ isErrClosed = true) →
    bridgeMove k b (moved b (if bridgeContextEnded b || isErrClosed then Draining else Failing err) (active b))
| TestAccepted b c :
    main b = Accepted c →
    bridgeMove Program b (if bridgeContextEnded b then moved b Draining (closeIn c (active b))
                  else moved b (AddingClient c) (active b))
| AddClient b c added t :
    main b = AddingClient c → addConnection c (active b) = (added, t) →
    bridgeMove Program b (if added
                  then Build_Bridge Accepting (bridgeContextEnded b) (listenerClosed b) t
                         (streams b ++ [{| client := c; dialled := None; pc := Dialing |}]) (opened b)
                  else moved b Draining t)
| FailureCloses b err items t :
    main b = Failing err → closeTableLocked (active b) = (items, t) → bridgeMove Program b (moved b (Closing (Some err) items) t)
| DrainExpires b items t :
    main b = Draining → closeTableLocked (active b) = (items, t) → bridgeMove Program b (moved b (Closing None items) t)
| Drained b :
    main b = Draining → streams b = [] → bridgeMove Program b (moved b (Returned None) (active b))
| CloseOne b err before c after :
    main b = Closing err (before ++ c :: after) →
    bridgeMove Program b (moved b (Closing err (before ++ after)) (closeIn c (active b)))
| StreamsDone b err :
    main b = Closing err [] → streams b = [] → bridgeMove Program b (moved b (Returned err) (active b))
| StreamMoves k b before s after s' t o :
    streams b = before ++ s :: after →
    streamStep (bridgeContextEnded b) k s (active b) (opened b) s' t o →
    bridgeMove k b (Build_Bridge (main b) (bridgeContextEnded b) (listenerClosed b) t
                               (before ++ option_list s' ++ after) o).

(** A run takes steps of both kinds. *)
Definition bridgeStep b b' : Prop := ∃ k, bridgeMove k b b'.

Definition bridgeStarted : Bridge E := Build_Bridge Accepting false false newConnections [] ∅.
End System.

(** ** The invariant *)

Definition mentions (s : Stream) : list conn := client s :: option_list (dialled s).

Definition deferredConn (d : deferred) : conn := match d with DeferRemove c | DeferClose c => c end.

Definition closesOf (calls : list deferred) : list conn :=
  omap (λ d, match d with DeferClose c => Some c | DeferRemove _ => None end) calls.

(** The connections a goroutine is still going to close. *)
Definition owes (s : Stream) : list conn :=
  match pc s with Unwinding calls => closesOf calls | _ => mentions s end.

Definition held {E} (pc : mainPC E) : list conn :=
  match pc with Accepted c | AddingClient c => [c] | _ => [] end.

(** The program counter agrees with the rest of the state, and the table owns
    what it should. *)
Definition streamOk (t : Connections) (s : Stream) : Prop :=
  match pc s with
  | Dialing => dialled s = None ∧ client s ∈ tableItems t
  | Dialed r | Adding r => dialled s = Some r ∧ client s ∈ tableItems t
  | Relaying r _ _ => dialled s = Some r ∧ client s ∈ tableItems t ∧ r ∈ tableItems t
  | Unwinding calls => ∀ d, d ∈ calls → deferredConn d ∈ mentions s
  end.

Definition mainOk {E} (b : Bridge E) : Prop :=
  match main b with
  | Closing _ pending =>
      tableClosing (active b) = true
      ∧ ∀ c, c ∈ tableItems (active b) → c ∈ tableClosed (active b) ∨ c ∈ pending
  | Returned _ => streams b = []
  | _ => tableClosing (active b) = false
  end.

Record bridgeInv {E} (b : Bridge E) : Prop := {
  inv_owned : ∀ c, c ∈ opened b →
    c ∈ tableClosed (active b) ∨ c ∈ held (main b) ∨ ∃ s, s ∈ streams b ∧ c ∈ owes s;
  inv_distinct : NoDup (held (main b) ++ (streams b ≫= mentions));
  inv_opened : ∀ c, c ∈ held (main b) ++ (streams b ≫= mentions) → c ∈ opened b;
  inv_streams : ∀ s, s ∈ streams b → streamOk (active b) s;
  inv_main : mainOk b;
}.

(** What a step of one goroutine does to the shared state. *)
Record streamEffect (s : Stream) (t : Connections) (o : gset conn)
    (s' : option Stream) (t' : Connections) (o' : gset conn) : Prop := {
  eff_owes : ∀ c, c ∈ owes s → c ∈ tableClosed t' ∨ c ∈ option_list s' ≫= owes;
  eff_closed : tableClosed t ⊆ tableClosed t';
  eff_opened : o ⊆ o' ∧ ∀ c, c ∈ o' → c ∈ o ∨ c ∈ option_list s' ≫= owes;
  eff_mentions : s' = None ∧ o' = o ∨ ∃ s1, s' = Some s1 ∧
    (mentions s1 = mentions s ∧ o' = o ∨ ∃ r, mentions s1 = mentions s ++ [r] ∧ r ∉ o ∧ o' = {[r]} ∪ o);
  eff_ok : ∀ s1, s' = Some s1 → streamOk t' s1;
  eff_others : ∀ s1, (∀ c, c ∈ mentions s1 → c ∉ mentions s) → streamOk t s1 → streamOk t' s1;
  eff_closing : tableClosing t' = tableClosing t ∧ (tableClosing t = true → tableItems t' ⊆ tableItems t);
}.

Lemma streamOk_mono t t' s :
  (∀ c, c ∈ mentions s → c ∈ tableItems t → c ∈ tableItems t') → streamOk t s → streamOk t' s.
Proof.
  unfold streamOk, mentions. intros Hsub. destruct (pc s) as [|r|r|r ? ?|calls]; [..|done].
  - intros [Hd Hc]. split; [done|]. apply Hsub; [by left|done].
  - intros [Hd Hc]. split; [done|]. apply Hsub; [by left|done].
  - intros [Hd Hc]. split; [done|]. apply Hsub; [by left|done].
  - intros (Hd & Hc & Hr). rewrite Hd in Hsub. split_and!; [done|by apply Hsub; [left|]|].
    apply Hsub; [right; by left|done].
Qed.

Lemma elem_of_owes c s calls : pc s = Unwinding calls → c ∈ closesOf calls → c ∈ owes s.
Proof. unfold owes. by intros ->. Qed.

(** A step that leaves the table and the opened connections alone. *)
Lemma streamEffect_local s t o s1 :
  mentions s1 = mentions s → (∀ c, c ∈ owes s → c ∈ owes s1) → streamOk t s1 → streamEffect s t o (Some s1) t o.
Proof.
  intros Hm Ho Hok. constructor; cbn; rewrite ?app_nil_r.
  - intros c Hc. right. by apply Ho.
  - done.
  - split; [done|]. by left.
  - right. exists s1. split; [done|]. by left.
  - by intros ? [= <-].
  - done.
  - done.
Qed.

Lemma unwinds_ok s t calls :
  pc s = Unwinding calls → (∀ d, d ∈ calls → deferredConn d ∈ mentions s) → streamOk t s.
Proof. unfold streamOk. by intros ->. Qed.

(** [dial] returns a connection. *)
Lemma streamEffect_dialled s t o r :
  pc s = Dialing → r ∉ o → streamOk t s →
  streamEffect s t o (Some {| client := client s; dialled := Some r; pc := Dialed r |}) t ({[r]} ∪ o).
Proof.
  unfold streamOk. intros Hpc Hr Hok. rewrite Hpc in Hok. destruct Hok as [Hd Hc].
  constructor; cbn; rewrite ?app_nil_r; unfold owes, mentions; rewrite ?Hpc, ?Hd; cbn.
  - set_solver.
  - done.
  - set_solver.
  - right. eexists. split; [done|]. right. exists r. done.
  - by intros ? [= <-].
  - done.
  - done.
Qed.

(** [active.Add(remote)]. *)
Lemma streamEffect_add s t o r added t' :
  pc s = Adding r → addConnection r t = (added, t') → streamOk t s →
  streamEffect s t o (Some (at_ s (if added then Relaying r false false
                                   else Unwinding (DeferClose r :: clientDefers s)))) t' o.
Proof.
  unfold streamOk. intros Hpc Hadd Hok. rewrite Hpc in Hok. destruct Hok as [Hd Hc].
  unfold addConnection in Hadd. destruct (tableClosing t) eqn:Hcl; injection Hadd as <- <-;
    constructor; cbn; rewrite ?app_nil_r; unfold owes, mentions; rewrite ?Hpc, ?Hd; cbn; try set_solver.
  - right. eexists. split; [done|]. by left; cbn; rewrite Hd.
  - intros ? [= <-]. eapply unwinds_ok; [done|]. unfold mentions. cbn. rewrite Hd. set_solver.
  - right. eexists. split; [done|]. by left; cbn; rewrite Hd.
  - intros ? [= <-]. unfold streamOk. cbn. rewrite Hd. set_solver.
  - intros s1 _. apply streamOk_mono. set_solver.
  - by rewrite Hcl.
Qed.

(** One of the deferred calls. *)
Lemma streamEffect_deferred s t o d calls :
  pc s = Unwinding (d :: calls) → streamOk t s → streamEffect s t o (Some (at_ s (Unwinding calls))) (runDeferred d t) o.
Proof.
  unfold streamOk. intros Hpc Hok. rewrite Hpc in Hok.
  constructor; cbn; rewrite ?app_nil_r; unfold owes, mentions; rewrite ?Hpc; cbn.
  - destruct d; cbn; set_solver.
  - destruct d; cbn; set_solver.
  - set_solver.
  - right. eexists. split; [done|]. by left.
  - intros ? [= <-]. eapply unwinds_ok; [done|]. intros d' Hd'. apply Hok. by right.
  - intros s1 Hdis. assert (deferredConn d ∈ mentions s) as Hd by (apply Hok; by left).
    apply streamOk_mono. intros c Hc Hin. destruct d; cbn in *; [|done]. set_solver.
  - destruct d; cbn; set_solver.
Qed.

Lemma streamStep_effect ctx k s t o s' t' o' :
  streamStep ctx k s t o s' t' o' → streamOk t s → streamEffect s t o s' t' o'.
Proof.
  intros Hstep Hok. destruct Hstep as
    [k s t o Hpc _|s t o r Hpc Hr|s t o r Hpc|s t o r added t' Hpc Hadd|k s t o r back Hpc _|k s t o r forth Hpc _|s t o r Hpc
    |s t o d calls Hpc|s t o Hpc];
    [|by apply streamEffect_dialled| |by eapply streamEffect_add| | | |by apply streamEffect_deferred|];
    unfold streamOk in Hok; rewrite Hpc in Hok.
  - destruct Hok as [Hd Hc]. apply streamEffect_local; [done|..].
    + unfold owes, mentions. rewrite Hpc, Hd. cbn. done.
    + eapply unwinds_ok; [done|]. unfold mentions, clientDefers. cbn. set_solver.
  - destruct Hok as [Hd Hc]. destruct ctx; apply streamEffect_local; try done.
    + unfold owes, mentions. rewrite Hpc, Hd. cbn. set_solver.
    + eapply unwinds_ok; [done|]. unfold mentions, clientDefers. cbn. rewrite Hd. set_solver.
    + unfold owes, mentions. rewrite Hpc. done.
  - destruct Hok as (Hd & Hc & Hr). apply streamEffect_local; [done|..|done].
    unfold owes, mentions. rewrite Hpc. done.
  - destruct Hok as (Hd & Hc & Hr). apply streamEffect_local; [done|..|done].
    unfold owes, mentions. rewrite Hpc. done.
  - destruct Hok as (Hd & Hc & Hr). apply streamEffect_local; [done|..].
    + unfold owes, mentions. rewrite Hpc, Hd. cbn. set_solver.
    + eapply unwinds_ok; [done|]. unfold mentions, clientDefers. cbn. rewrite Hd. set_solver.
  - constructor; cbn; unfold owes; rewrite ?Hpc; cbn; try done; [set_solver|set_solver|by left].
Qed.

Section Invariant.
Context {E : Type}.
Implicit Types b : Bridge E.

(** A step of the accept loop that only changes its program counter and the
    set of closed connections. *)
Lemma inv_moved b pc t :
  bridgeInv b → tableItems t = tableItems (active b) → tableClosed (active b) ⊆ tableClosed t →
  held pc = [] → (∀ c, c ∈ held (main b) → c ∈ tableClosed t) → mainOk (moved b pc t) → bridgeInv (moved b pc t).
Proof.
  intros [Ho Hd Hop Hs _] Hi Hc Hh Hheld Hm. constructor; cbn; rewrite ?Hh; cbn; [..|done].
  - intros c [?|[?|?]]%Ho; [left; set_solver|left; by apply Hheld|by right; right].
  - by apply NoDup_app in Hd as (_ & _ & ?).
  - intros c Hin. apply Hop. apply elem_of_app. by right.
  - intros s Hin. apply (streamOk_mono (active b)); [by rewrite Hi|by apply Hs].
Qed.

(** A step of a goroutine. *)
Lemma inv_stream b before s after s' t o :
  bridgeInv b → streams b = before ++ s :: after → streamEffect s (active b) (opened b) s' t o →
  bridgeInv (Build_Bridge (main b) (bridgeContextEnded b) (listenerClosed b) t (before ++ option_list s' ++ after) o).
Proof.
  intros [Ho Hd Hop Hs Hm] Hsplit Heff. destruct Heff as [Howes Hclosed [Hoo Ho'] Hmen Hok Hothers [Hcl Hitems]].
  rewrite Hsplit in *. rewrite bind_app, bind_cons in Hd, Hop.
  assert (∀ s1, s1 ∈ before ++ after → ∀ c, c ∈ mentions s1 → c ∉ mentions s) as Hdis.
  { intros s1 Hin c Hc1 Hc. apply NoDup_app in Hd as (_ & _ & Hd). apply NoDup_app in Hd as (_ & Hd1 & Hd2).
    apply NoDup_app in Hd2 as (_ & Hd2 & _). apply elem_of_app in Hin as [Hin|Hin].
    - apply (Hd1 c); [apply list_elem_of_bind; by exists s1|]. apply elem_of_app. by left.
    - apply (Hd2 c Hc). apply list_elem_of_bind. by exists s1. }
  constructor; cbn.
  - intros c [Hc|Hc]%Ho'; [|right; right; destruct s' as [s1|]; cbn in Hc; [|by apply elem_of_nil in Hc];
      rewrite app_nil_r in Hc; exists s1; split; [set_solver|done]].
    apply Ho in Hc as [Hc|[Hc|(s1 & Hin & Hc)]]; [left; set_solver|by right; left|].
    apply elem_of_app in Hin as [Hin|[->|Hin]%elem_of_cons].
    + right; right. exists s1. split; [set_solver|done].
    + apply Howes in Hc as [?|Hc]; [by left|]. right; right. destruct s' as [s1|]; cbn in Hc; [|by apply elem_of_nil in Hc].
      rewrite app_nil_r in Hc. exists s1. split; [set_solver|done].
    + right; right. exists s1. split; [set_solver|done].
  - destruct Hmen as [[-> ->]|(s1 & -> & Hmen)]; cbn.
    + rewrite bind_app. revert Hd.
      assert (held (main b) ++ (before ≫= mentions) ++ mentions s ++ (after ≫= mentions)
              ≡ₚ mentions s ++ held (main b) ++ (before ≫= mentions) ++ (after ≫= mentions)) as -> by solve_Permutation.
      by intros (_ & _ & ?)%NoDup_app.
    + rewrite bind_app, bind_cons. destruct Hmen as [[-> ->]|(r & -> & Hr & ->)]; [done|].
      assert (r ∉ held (main b) ++ (before ≫= mentions) ++ mentions s ++ (after ≫= mentions)) as Hnew by naive_solver.
      assert (held (main b) ++ (before ≫= mentions) ++ (mentions s ++ [r]) ++ (after ≫= mentions)
              ≡ₚ r :: held (main b) ++ (before ≫= mentions) ++ mentions s ++ (after ≫= mentions)) as ->
        by solve_Permutation. by apply NoDup_cons.
  - intros c. destruct Hmen as [[-> ->]|(s1 & -> & Hmen)]; cbn.
    + rewrite bind_app. intros Hc. apply Hop. rewrite !elem_of_app in Hc. rewrite !elem_of_app. clear -Hc. tauto.
    + rewrite bind_app, bind_cons. destruct Hmen as [[-> ->]|(r & -> & Hr & ->)]; [apply Hop|].
      intros Hc. destruct (decide (c = r)); [set_solver|]. apply elem_of_union_r, Hop.
      rewrite !elem_of_app, list_elem_of_singleton in Hc. rewrite !elem_of_app. clear -Hc n. tauto.
  - intros s1 Hin. assert (s1 ∈ before ++ after ∨ s' = Some s1) as [Hin'| ->] by (destruct s'; set_solver).
    + apply Hothers; [by apply Hdis|]. apply Hs. set_solver.
    + by apply Hok.
  - unfold mainOk in *. cbn. destruct (main b); try congruence.
    + destruct Hm as [Hm Hp]. split; [congruence|]. intros c Hc.
      destruct (Hp c) as [?|?]; [by apply Hitems|left; set_solver|by right].
    + rewrite Hsplit in Hm. by destruct before.
Qed.

Lemma bridgeStep_inv b b' : bridgeStep b b' → bridgeInv b → bridgeInv b'.
Proof.
  intros [k Hstep] Hinv.
  destruct Hstep as [b Hctx|b Hctx Hopen|b c Hm Hc|k b err closed Hm _|b c Hm|b c added t Hm Hadd|b err items t Hm Hclose
    |b items t Hm Hclose|b Hm Hs|b err before c after Hm|b err Hm Hs|k b before s after s' t o Hsplit Hstep].
  - by destruct Hinv.
  - by destruct Hinv.
  - destruct Hinv as [Ho Hd Hop Hs Hmain]. unfold mainOk in Hmain. rewrite Hm in *. cbn in *. constructor; cbn; try done.
    + intros x. rewrite elem_of_union, elem_of_singleton. intros [->|[?|[?|?]]%Ho]; [right; left; set_solver|by left| |by right; right].
      by apply elem_of_nil in H.
    + apply NoDup_cons. split; [|done]. intros Hin. by apply Hc, Hop.
    + intros x [->|Hin]%elem_of_cons; [set_solver|]. apply elem_of_union_r. by apply Hop.
  - pose proof (inv_main _ Hinv) as Hmain. unfold mainOk in Hmain. rewrite Hm in Hmain.
    destruct (_ || _); apply inv_moved; try done; rewrite Hm; set_solver.
  - pose proof (inv_main _ Hinv) as Hmain. unfold mainOk in Hmain. rewrite Hm in Hmain. destruct (bridgeContextEnded b).
    + apply inv_moved; try done; cbn; [set_solver|]. rewrite Hm. cbn. set_solver.
    + destruct Hinv as [Ho Hd Hop Hs _]. rewrite Hm in *. by constructor.
  - pose proof (inv_main _ Hinv) as Hmain. unfold mainOk in Hmain. rewrite Hm in Hmain.
    unfold addConnection in Hadd. rewrite Hmain in Hadd. injection Hadd as <- <-.
    destruct Hinv as [Ho Hd Hop Hs _]. rewrite Hm in *. cbn in *. constructor; cbn.
    + intros x [?|[->%list_elem_of_singleton|(s & ? & ?)]]%Ho; [by left|..]; right; right.
      * eexists. split; [apply elem_of_app; right; by left|]. cbn. set_solver.
      * exists s. split; [set_solver|done].
    + rewrite bind_app, bind_singleton. unfold mentions at 2. cbn.
      assert ((streams b ≫= mentions) ++ [c] ≡ₚ c :: (streams b ≫= mentions)) as -> by solve_Permutation. done.
    + rewrite bind_app, bind_singleton. cbn. intros x Hx. apply Hop. set_solver.
    + intros s [Hin| ->%list_elem_of_singleton]%elem_of_app.
      * apply (streamOk_mono (active b)); [cbn; set_solver|by apply Hs].
      * unfold streamOk. cbn. set_solver.
    + done.
  - injection Hclose as <- <-. apply inv_moved; try done; [rewrite Hm; set_solver|]. split; [done|]. cbn. set_solver.
  - injection Hclose as <- <-. apply inv_moved; try done; [rewrite Hm; set_solver|]. split; [done|]. cbn. set_solver.
  - apply inv_moved; try done. rewrite Hm. set_solver.
  - pose proof (inv_main _ Hinv) as Hmain. unfold mainOk in Hmain. rewrite Hm in Hmain. destruct Hmain as [Hcl Hp].
    apply inv_moved; try done; cbn; [set_solver|rewrite Hm; set_solver|]. split; [done|]. cbn. set_solver.
  - apply inv_moved; try done. rewrite Hm. set_solver.
  - eapply inv_stream; [done..|]. eapply streamStep_effect; [done|]. apply (inv_streams _ Hinv). rewrite Hsplit. set_solver.
Qed.

Lemma bridgeStarted_inv : bridgeInv (bridgeStarted (E := E)).
Proof. constructor; cbn; try set_solver; constructor. Qed.

Lemma reachable_inv b : rtc bridgeStep bridgeStarted b → bridgeInv b.
Proof. intros Hrun. apply (rtc_preserves _ bridgeInv _ _ Hrun); [apply bridgeStep_inv|apply bridgeStarted_inv]. Qed.

Lemma inv_returned b err : bridgeInv b → main b = Returned err → streams b = [] ∧ opened b ⊆ tableClosed (active b).
Proof.
  intros [Ho _ _ _ Hm] Hret. unfold mainOk in Hm. rewrite Hret in *. split; [done|]. intros c Hc.
  rewrite Hm in Ho. apply Ho in Hc as [?|[?|(s & Hin & _)]]; [done|set_solver|set_solver].
Qed.

(** What a forced close has gone through holds no relay between open
    connections. *)
Lemma inv_relays_closed b err s r forth back :
  bridgeInv b → main b = Closing err [] → s ∈ streams b → pc s = Relaying r forth back →
  client s ∈ tableClosed (active b) ∧ r ∈ tableClosed (active b).
Proof.
  intros [_ _ _ Hs Hm] Hcl Hin Hpc. unfold mainOk in Hm. rewrite Hcl in Hm. destruct Hm as [_ Hm].
  apply Hs in Hin. unfold streamOk in Hin. rewrite Hpc in Hin. destruct Hin as (_ & Hc & Hr).
  split; [destruct (Hm _ Hc)|destruct (Hm _ Hr)]; set_solver.
Qed.

(** C14: the bridge releases what it opened, however the accept loop, the
    context and the clients interleave: when [Serve] has returned, no goroutine
    is left and every connection it accepted or dialled is closed; and once a
    forced close has gone through its list, every relay still running runs
    between two closed connections, so that it ends. *)
Theorem bridge_releases b :
  rtc bridgeStep bridgeStarted b →
  (∀ err, main b = Returned err → streams b = [] ∧ opened b ⊆ tableClosed (active b))
  ∧ (∀ err s remote forth back, main b = Closing err [] → s ∈ streams b → pc s = Relaying remote forth back →
       client s ∈ tableClosed (active b) ∧ remote ∈ tableClosed (active b)).
Proof.
  intros Hinv%reachable_inv. split; [intros err; by apply inv_returned|].
  intros err s r forth back. by apply inv_relays_closed.
Qed.
End Invariant.

(** ** Witness: a client is accepted and relayed, the listener is closed, and
    the drain expires. *)

Definition relayed : Stream := {| client := 1; dialled := Some 2; pc := Relaying 2 false false |}.

Definition expiredTable : Connections :=
  {| tableClosing := true; tableItems := {[2]} ∪ ({[1]} ∪ ∅); tableClosed := {[2]} ∪ ({[1]} ∪ ∅) |}.

Definition expired : Bridge unit :=
  Build_Bridge (Closing None []) false false expiredTable [relayed] ({[2]} ∪ ({[1]} ∪ ∅)).

Lemma expired_reachable : rtc bridgeStep bridgeStarted expired.
Proof.
  assert (elements (tableItems expiredTable) = [2; 1]) as Hitems by by vm_compute.
  eapply rtc_l; [eexists; by apply (AcceptClient _ 1)|]. eapply rtc_l; [eexists; by apply (TestAccepted _ 1)|].
  eapply rtc_l; [eexists; by eapply (AddClient _ 1)|]. cbn.
  eapply rtc_l; [eexists; eapply (StreamMoves _ _ [] _ []); [done|by apply (DialSucceeds _ _ _ _ 2)]|]. cbn.
  eapply rtc_l; [eexists; eapply (StreamMoves _ _ [] _ []); [done|by apply (TestContext _ _ _ _ 2)]|]. cbn.
  eapply rtc_l; [eexists; eapply (StreamMoves _ _ [] _ []); [done|by eapply (AddRemote _ _ _ _ 2)]|]. cbn.
  eapply rtc_l; [eexists; by apply (AcceptFails Outside _ tt true)|]. cbn.
  eapply rtc_l; [eexists; eapply (DrainExpires _ [2; 1]); [done|unfold closeTableLocked; by f_equal]|]. cbn.
  eapply rtc_l; [eexists; by apply (CloseOne _ None [2] 1 [])|]. cbn.
  eapply rtc_l; [eexists; by apply (CloseOne _ None [] 2 [])|]. apply rtc_refl.
Qed.

Lemma bridge_releases_witness : 1 ∈ tableClosed (active expired) ∧ 2 ∈ tableClosed (active expired).
Proof.
  apply (proj2 (bridge_releases expired expired_reachable) None relayed 2 false false); [done|by left|done].
Defined.
