(* ===== verification/BridgeShutdown.v ===== *)
(** link/bridge.go: the shutdown of [Serve] comes to an end. *)

From S2P Require Import Prelude Sessions Bridge.

(** ** A measure of the work that is left *)

(** What a goroutine can still do: the rest of its dialogue, and one action
    for each call it has deferred.  Registering a connection also makes a
    forced close longer by one. *)
Definition streamWork (s : Stream) : nat :=
  match pc s with
  | Dialing => 12
  | Dialed _ => 11
  | Adding _ => 10
  | Relaying _ toRemoteDone toClientDone => 8 - Nat.b2n toRemoteDone - Nat.b2n toClientDone
  | Unwinding calls => S (length calls)
  end.

Definition streamsWork (l : list Stream) : nat := sum_list (streamWork <$> l).
Arguments streamsWork l : simpl never.

(** The accept loop: one client that it already holds can still become a
    goroutine. *)
Definition mainWork {E} (pc : mainPC E) (t : Connections) : nat :=
  match pc with
  | AddingClient _ => 18 + size (tableItems t)
  | Accepting => 4 + size (tableItems t)
  | Accepted _ => 3 + size (tableItems t)
  | Failing _ | Draining => 2 + size (tableItems t)
  | Closing _ pending => S (length pending)
  | Returned _ => 0
  end.

Definition bridgeWork {E} (b : Bridge E) : nat :=
  mainWork (main b) (active b) + streamsWork (streams b)
  + (if bridgeContextEnded b then 0 else 1) + (if listenerClosed b then 0 else 1).

(** The shutdown has begun: the context has ended, or the accept loop is
    over. *)
Definition shuttingDown {E} (b : Bridge E) : Prop :=
  bridgeContextEnded b = true ∨
  match main b with Failing _ | Draining | Closing _ _ | Returned _ => True | _ => False end.

(** ** Every step is some of that work *)

Lemma streamsWork_app l k : streamsWork (l ++ k) = streamsWork l + streamsWork k.
Proof. unfold streamsWork. induction l as [|s l IH]; [done|]. cbn. cbn in IH. lia. Qed.

Lemma size_insert (c : conn) (X : gset conn) : size ({[c]} ∪ X) ≤ S (size X).
Proof.
  destruct (decide (c ∈ X)) as [Hin|Hout].
  - assert ({[c]} ∪ X = X) as -> by set_solver. lia.
  - rewrite size_union by set_solver. rewrite size_singleton. lia.
Qed.

Lemma addConnection_size c t added t' :
  addConnection c t = (added, t') → size (tableItems t') ≤ (if added then 1 else 0) + size (tableItems t).
Proof.
  unfold addConnection. destruct (tableClosing t); intros [= <- <-]; cbn; [lia|]. apply size_insert.
Qed.

Lemma runDeferred_size d t : size (tableItems (runDeferred d t)) ≤ size (tableItems t).
Proof. destruct d; cbn; [apply subseteq_size; set_solver|done]. Qed.

(** A step of a goroutine, with what it can do to the length of a forced
    close. *)
Lemma streamStep_work ctx k s t o s' t' o' :
  streamStep ctx k s t o s' t' o' →
  streamsWork (option_list s') < streamWork s
  ∧ streamsWork (option_list s') + size (tableItems t') < streamWork s + size (tableItems t).
Proof.
  unfold streamsWork.
  destruct 1 as [k s t o Hpc _|s t o r Hpc Hr|s t o r Hpc|s t o r added t' Hpc Hadd|k s t o r back Hpc _|k s t o r forth Hpc _|s t o r Hpc
    |s t o d calls Hpc|s t o Hpc]; cbn; unfold streamWork; rewrite Hpc; cbn; try (split; lia).
  - destruct ctx; cbn; lia.
  - apply addConnection_size in Hadd. destruct added; cbn; lia.
  - destruct back; cbn; lia.
  - destruct forth; cbn; lia.
  - pose proof (runDeferred_size d t). lia.
Qed.

Section Shutdown.
Context {E : Type}.
Implicit Types b : Bridge E.

Lemma mainWork_table (pc : mainPC E) t t' n n' :
  n' < n → n' + size (tableItems t') < n + size (tableItems t) → mainWork pc t' + n' < mainWork pc t + n.
Proof. intros. destruct pc; cbn; lia. Qed.

(** While it shuts down, a bridge cannot take a step that does not bring the
    end nearer. *)
Lemma bridgeStep_work b b' : bridgeStep b b' → shuttingDown b → bridgeWork b' < bridgeWork b ∧ shuttingDown b'.
Proof.
  intros [k Hstep] Hdown. unfold bridgeWork, shuttingDown in *.
  destruct Hstep as [b Hctx|b Hctx Hopen|b c Hm Hc|k b err closed Hm _|b c Hm|b c added t Hm Hadd|b err items t Hm Hclose
    |b items t Hm Hclose|b Hm Hs|b err before c after Hm|b err Hm Hs|k b before s after s' t o Hsplit Hstep];
    cbn [main active streams bridgeContextEnded listenerClosed moved] in *; try rewrite Hm in *.
  - rewrite Hctx. split; [lia|by left].
  - rewrite Hopen, Hctx. split; [lia|by left].
  - destruct Hdown as [Hctx|[]]. rewrite Hctx. split; [cbn; lia|by left].
  - destruct Hdown as [Hctx|[]]. rewrite Hctx. cbn. rewrite ?Hctx. split; [lia|by left].
  - destruct Hdown as [Hctx|[]]. rewrite Hctx. cbn. rewrite Hctx. split; [lia|by left].
  - destruct Hdown as [Hctx|[]]. apply addConnection_size in Hadd. destruct added; cbn; rewrite Hctx; (split; [|by left]).
    + rewrite streamsWork_app. change (streamsWork [_]) with 12. lia.
    + lia.
  - injection Hclose as <- <-. split; [|by right]. cbn [mainWork]. change (length (elements ?X)) with (size X). lia.
  - injection Hclose as <- <-. split; [|by right]. cbn [mainWork]. change (length (elements ?X)) with (size X). lia.
  - split; [cbn; lia|by right].
  - split; [cbn; rewrite !length_app; cbn; lia|by right].
  - split; [cbn; lia|by right].
  - apply streamStep_work in Hstep as [Hless Hsize]. split; [|done].
    rewrite Hsplit, !streamsWork_app. change (streamsWork (s :: after)) with (streamWork s + streamsWork after).
    pose proof (mainWork_table (main b) _ _ _ _ Hless Hsize). lia.
Qed.

Lemma shutdown_bounded n b b' : nsteps bridgeStep n b b' → shuttingDown b → n + bridgeWork b' ≤ bridgeWork b ∧ shuttingDown b'.
Proof.
  induction 1 as [b|n b b1 b' Hstep _ IH]; [done|]. intros Hdown. apply bridgeStep_work in Hstep as [Hless Hdown1]; [|done].
  apply IH in Hdown1 as [? ?]. split; [lia|done].
Qed.

(** ** It never gets stuck *)

(** A goroutine that waits for a dialer whose context has not ended. *)
Definition awaitsDialer b : Prop := bridgeContextEnded b = false ∧ ∃ s, s ∈ streams b ∧ pc s = Dialing.

(** A goroutine goes on by itself, unless it waits for the dialer or relays
    between connections that are not closed. *)
Lemma streamStep_progress ctx s t o :
  (pc s = Dialing → ctx = true) →
  (∀ r forth back, pc s = Relaying r forth back → client s ∈ tableClosed t ∧ r ∈ tableClosed t) →
  ∃ s' t' o', streamStep ctx Program s t o s' t' o'.
Proof.
  destruct s as [c d pc]. cbn. intros Hdial Hrelay. destruct pc as [|r|r|r toRemote toClient|calls].
  - do 3 eexists. apply DialFails; [done|]. intros _. by apply Hdial.
  - do 3 eexists. by eapply TestContext.
  - destruct (addConnection r t) as [added t'] eqn:Hadd. do 3 eexists. by eapply AddRemote.
  - destruct (Hrelay r toRemote toClient eq_refl). destruct toRemote; [destruct toClient|]; do 3 eexists;
      [by eapply RelayEnds|by eapply CopyToClientEnds|by eapply CopyToRemoteEnds].
  - destruct calls as [|call calls]; do 3 eexists; [by eapply StreamDone|by eapply RunDeferred].
Qed.

(** The waits of [Serve] itself end: the watcher closes the listener, which
    ends [Accept]; the drain has a timeout; and a forced close ends the relays,
    so that the goroutines end. *)
Lemma bridge_progress `{!Inhabited E} b :
  bridgeInv b → shuttingDown b → (∃ r, main b = Returned r) ∨ (∃ b', bridgeMove Program b b') ∨ awaitsDialer b.
Proof.
  intros Hinv Hdown. unfold shuttingDown in Hdown.
  destruct (main b) as [|c|c|e| |e pending|r] eqn:Hm; [right..|left; by exists r].
  - destruct Hdown as [Hctx|[]]. left. destruct (listenerClosed b) eqn:Hl; [|eexists; by apply WatcherCloses].
    eexists. by apply (AcceptFails Program _ inhabitant true).
  - left. eexists. by apply TestAccepted.
  - left. destruct (addConnection c (active b)) as [added t] eqn:Hadd. eexists. by eapply AddClient.
  - left. eexists. by eapply FailureCloses.
  - left. eexists. by eapply DrainExpires.
  - destruct pending as [|c pending]; [|left; eexists; by eapply (CloseOne _ e [] c pending)].
    destruct (streams b) as [|s l] eqn:Hs; [left; eexists; by eapply StreamsDone|].
    assert (pc s = Dialing ∧ bridgeContextEnded b = false ∨ (pc s = Dialing → bridgeContextEnded b = true)) as [[Hpc Hctx]|Hdial]
      by (destruct (bridgeContextEnded b); [right; done|destruct (pc s); naive_solver]).
    { right. split; [done|]. exists s. rewrite Hs. split; [by left|done]. }
    left. destruct (streamStep_progress (bridgeContextEnded b) s (active b) (opened b) Hdial) as (s' & t & o & Hstep).
    { intros r forth back Hpc. eapply inv_relays_closed; [done|done| |done]. rewrite Hs. by left. }
    eexists. by eapply (StreamMoves _ _ [] s l).
Qed.

(** Once the context has ended, a failure to accept is no failure. *)
Definition cancelled b : Prop :=
  bridgeContextEnded b = true
  ∧ match main b with Failing _ | Closing (Some _) _ | Returned (Some _) => False | _ => True end.

Lemma bridgeStep_cancelled b b' : bridgeStep b b' → cancelled b → cancelled b'.
Proof.
  intros [k Hstep] [Hctx Hquiet]. unfold cancelled.
  destruct Hstep as [b Hopen|b _ Hopen|b c Hm Hc|k b err closed Hm _|b c Hm|b c added t Hm Hadd|b err items t Hm Hclose
    |b items t Hm Hclose|b Hm Hs|b err before c after Hm|b err Hm Hs|k b before s after s' t o Hsplit Hstep];
    cbn [main bridgeContextEnded moved] in *; try rewrite Hm in Hquiet; rewrite ?Hctx; cbn; try done; try (by destruct err).
  by destruct added.
Qed.

(** Steps of the program alone lead to the return, or to a goroutine that
    waits for the dialer. *)
Lemma bridge_reaches `{!Inhabited E} n b :
  bridgeWork b < n → bridgeInv b → shuttingDown b →
  ∃ b', rtc (bridgeMove Program) b b' ∧ ((∃ r, main b' = Returned r) ∨ awaitsDialer b').
Proof.
  revert b. induction n as [|n IH]; intros b Hn Hinv Hdown; [lia|].
  destruct (bridge_progress b Hinv Hdown) as [Hret|[[b1 Hstep]|Hwait]];
    [exists b; split; [apply rtc_refl|by left]| |exists b; split; [apply rtc_refl|by right]].
  assert (bridgeStep b b1) as Hany by by eexists.
  destruct (bridgeStep_work _ _ Hany Hdown) as [Hless Hdown1].
  destruct (IH b1) as (b' & Hrun & Hend); [lia|by eapply bridgeStep_inv|done|].
  exists b'. split; [by eapply rtc_l|done].
Qed.

(** C15: the bridge shuts down by itself.  Once the context has ended or the
    accept loop is over, whatever the scheduler, the clients and the dialer do:
    no run is longer than a bound that the connections and goroutines of that
    moment give; and as long as [Serve] has not returned, its own steps lead it
    there even if no client, no peer and no listener ever does anything again:
    the watcher closes the listener, which ends [Accept], the drain expires,
    and the forced close ends every relay.  The one thing it may have to wait
    for is a dialer whose context has not ended, so never after a
    cancellation, and then it returns no error. *)
Theorem bridge_shutdown `{!Inhabited E} b :
  rtc bridgeStep bridgeStarted b → shuttingDown b →
  (∀ n b', nsteps bridgeStep n b b' → n ≤ bridgeWork b)
  ∧ (∀ b', rtc bridgeStep b b' →
       ∃ b'', rtc (bridgeMove Program) b' b''
         ∧ ((∃ r, main b'' = Returned r)
            ∨ bridgeContextEnded b'' = false ∧ ∃ s, s ∈ streams b'' ∧ pc s = Dialing))
  ∧ (cancelled b → ∀ b', rtc bridgeStep b b' →
       ∃ b'', rtc (bridgeMove Program) b' b'' ∧ main b'' = Returned None).
Proof.
  intros Hreach Hdown. assert (∀ b', rtc bridgeStep b b' → ∃ b'', rtc (bridgeMove Program) b' b''
    ∧ ((∃ r, main b'' = Returned r) ∨ awaitsDialer b'')) as Hend.
  { intros b' Hrun. apply (bridge_reaches (S (bridgeWork b'))); [lia|apply reachable_inv; by transitivity b|].
    apply (rtc_preserves _ shuttingDown _ _ Hrun); [|done]. intros x y Hxy Hx. by apply (bridgeStep_work x y). }
  split_and!.
  - intros n b' Hrun. apply shutdown_bounded in Hrun as [? _]; [lia|done].
  - exact Hend.
  - intros Hc b' Hrun. destruct (Hend b' Hrun) as (b2 & Hrun2 & Hb2). exists b2. split; [done|].
    assert (cancelled b2) as [Hctx Hq].
    { apply (rtc_preserves bridgeStep cancelled b b2); [|apply bridgeStep_cancelled|done].
      transitivity b'; [done|]. clear -Hrun2. induction Hrun2 as [x|x y z Hxy _ IH]; [apply rtc_refl|].
      eapply rtc_l; [by exists Program|done]. }
    destruct Hb2 as [[r Hr]|[Habs _]]; [|congruence]. rewrite Hr in Hq |- *. by destruct r.
Qed.
End Shutdown.

(** ** Witness: the forced close of [Bridge], with one relay still to end. *)

Lemma bridge_shutdown_witness :
  ¬ nsteps bridgeStep 12 expired expired ∧ ∃ b'', rtc (bridgeMove Program) expired b''
    ∧ ((∃ r, main b'' = Returned r) ∨ bridgeContextEnded b'' = false ∧ ∃ s, s ∈ streams b'' ∧ pc s = Dialing).
Proof.
  destruct (bridge_shutdown expired expired_reachable) as (Hbound & Hend & _); [by right|]. split.
  - intros Hrun%Hbound. change (bridgeWork expired) with 11 in Hrun. lia.
  - apply (Hend expired), rtc_refl.
Defined.
