(* ===== verification/Tailcat.v ===== *)
(** link/tailcat_adapter.go: the two ends of a link on top of the Tailcat
    library, which is not modelled itself: the dialer of the left side, the
    listener that hands Tailcat's streams to the bridge on the right side, and
    the lifetime of the right side. *)

From S2P Require Import Prelude GoStrings Pairing Sessions.

(** ** [TailcatDialer] *)

(** A client of the library and what its calls do to the outside. *)
Class TailcatClient (W C E : Type) := {
  dialTCPPort : Z → W → result C E * W;
  drainClient : W → option E * W;
  closeClient : W → option E * W;
}.

Inductive DialerError :=
| InvalidLinkPairing
| FactoryRequired
| FactoryReturnedNil.

(** The fields of the struct; [closeErr] is the joined error, as a list. *)
Record TailcatDialer (E : Type) := {
  dialerPort : Z;
  dialerClosed : bool;
  closeOnceDone : bool;
  closeErr : list E;
}.
Arguments Build_TailcatDialer {E}.
Arguments dialerPort {E} t : rename.
Arguments dialerClosed {E} t : rename.
Arguments closeOnceDone {E} t : rename.
Arguments closeErr {E} t : rename.

Inductive DialError (E : Type) := DialerNotInitialized | DialerErrClosed | DialFailed (err : E).
Arguments DialerNotInitialized {E}.
Arguments DialerErrClosed {E}.
Arguments DialFailed {E} err.

(** [errors.Join]: the errors that are not nil. *)
Definition joinErrors {E} (errs : list (option E)) : list E := omap id errs.

Section Dialer.
Context `{TailcatLibrary} {W C E : Type} `{!TailcatClient W C E}.

(** [newTailcatDialer]; the factory tells whether it returned a client. *)
Definition newTailcatDialer (pairing : Pairing) (factory : option (bytes → bool))
    : result (TailcatDialer E) DialerError :=
  refuse InvalidLinkPairing
    when (RemotePort pairing =? 0)%Z || negb (validTailcatAddress (Pairing_Address pairing)) ;;
  match factory with
  | None => Err FactoryRequired
  | Some factory =>
      refuse FactoryReturnedNil when negb (factory (Pairing_Address pairing)) ;;
      Ok (Build_TailcatDialer (RemotePort pairing) false false [])
  end.

(** [NewTailcatDialer]: the factory of the real client never fails. *)
Definition NewTailcatDialer (pairing : Pairing) : result (TailcatDialer E) DialerError :=
  newTailcatDialer pairing (Some (λ _, true)).

(** [Dial] and [Close]; [None] is a nil dialer or one without a client. *)
Definition TailcatDialer_Dial (d : option (TailcatDialer E)) (w : W) : result C (DialError E) * W :=
  match d with
  | None => (Err DialerNotInitialized, w)
  | Some d =>
      if dialerClosed d then (Err DialerErrClosed, w)
      else let '(r, w) := dialTCPPort (dialerPort d) w in (wrap DialFailed r, w)
  end.

Definition TailcatDialer_Close (d : option (TailcatDialer E)) (w : W) : list E * option (TailcatDialer E) * W :=
  match d with
  | None => ([], None, w)
  | Some d =>
      if closeOnceDone d then (closeErr d, Some d, w)
      else
        let '(drainErr, w) := drainClient w in
        let '(closeErr, w) := closeClient w in
        let joined := joinErrors [drainErr; closeErr] in
        (joined, Some (Build_TailcatDialer (dialerPort d) true true joined), w)
  end.

(** A dialer is made for exactly the valid pairings, and dials their port. *)
Lemma NewTailcatDialer_Ok pairing d :
  NewTailcatDialer pairing = Ok d ↔
  RemotePort pairing ≠ 0%Z ∧ validTailcatAddress (Pairing_Address pairing) = true
  ∧ d = Build_TailcatDialer (RemotePort pairing) false false [].
Proof.
  unfold NewTailcatDialer, newTailcatDialer. destruct (RemotePort pairing =? 0)%Z eqn:Hp; cbn [orb]; reflect_bools.
  - split; [done|]. by intros [? _].
  - destruct (validTailcatAddress _); cbn [negb]; [|split; [done|naive_solver]].
    split; [by intros [= <-]|]. by intros (_ & _ & ->).
Qed.

Inductive DialerCall := CallDial | CallClose.

Inductive DialerAnswer := AnswerDial (r : result C (DialError E)) | AnswerClose (errs : list E).

(** A sequence of calls. *)
Fixpoint dialerRun (calls : list DialerCall) (d : option (TailcatDialer E)) (w : W)
    : list DialerAnswer * option (TailcatDialer E) * W :=
  match calls with
  | [] => ([], d, w)
  | CallDial :: calls =>
      let '(r, w) := TailcatDialer_Dial d w in
      let '(answers, d, w) := dialerRun calls d w in (AnswerDial r :: answers, d, w)
  | CallClose :: calls =>
      let '(errs, d, w) := TailcatDialer_Close d w in
      let '(answers, d, w) := dialerRun calls d w in (AnswerClose errs :: answers, d, w)
  end.

(** Closing a dialer is final and idempotent: after the first [Close], no
    sequence of calls reaches the client again, every [Dial] is refused as
    closed and every [Close] reports the error of the first. *)
Theorem TailcatDialer_close_final d w errs d' w' calls :
  closeOnceDone d = false → TailcatDialer_Close (Some d) w = (errs, d', w') →
  dialerRun calls d' w' =
    ((λ call, match call with CallDial => AnswerDial (Err DialerErrClosed) | CallClose => AnswerClose errs end) <$> calls,
     d', w').
Proof.
  intros Hd Hclose. unfold TailcatDialer_Close in Hclose. rewrite Hd in Hclose.
  destruct (drainClient w) as [e1 w1]. destruct (closeClient w1) as [e2 w2]. injection Hclose as <- <- <-.
  induction calls as [|[] calls IH]; [done|..]; cbn; by rewrite IH.
Qed.
End Dialer.

(** ** [tailcatListener] *)

Definition tailcatListenerBacklog : nat := 64.

(** Where a call of [Accept] is: before the first [select], before the second
    one, holding a connection it has not checked yet, or returned. *)
Inductive acceptPC :=
| AcceptPolling
| AcceptSelecting
| AcceptChecking (c : conn)
| AcceptDelivered (c : conn)
| AcceptErrClosed.

(** The state of a listener, the calls of [Accept] made so far, and, as ghost
    state, the connections [Handle] was given and those closed here.
    [closeHolds] tells that [Close] is inside its critical section, where it
    empties the queue; nobody else then gets the mutex. *)
Record TailcatListener := {
  incoming : list conn;
  closedChannel : bool;
  listenerClosing : bool;
  closeHolds : bool;
  accepts : list acceptPC;
  offered : list conn;
  dropped : list conn;
}.

Definition newTailcatListener : TailcatListener :=
  {| incoming := []; closedChannel := false; listenerClosing := false; closeHolds := false;
     accepts := []; offered := []; dropped := [] |}.

(** [Handle]: under the mutex. *)
Definition Handle (connection : option conn) (l : TailcatListener) : TailcatListener :=
  match connection with
  | None => l
  | Some c =>
      if negb (listenerClosing l) && (length (incoming l) <? tailcatListenerBacklog) then
        {| incoming := incoming l ++ [c]; closedChannel := closedChannel l; listenerClosing := listenerClosing l;
           closeHolds := closeHolds l; accepts := accepts l; offered := c :: offered l; dropped := dropped l |}
      else
        {| incoming := incoming l; closedChannel := closedChannel l; listenerClosing := listenerClosing l;
           closeHolds := closeHolds l; accepts := accepts l; offered := c :: offered l; dropped := c :: dropped l |}
  end.

Definition withAccepts (queue : list conn) (calls : list acceptPC) (closed : list conn) (l : TailcatListener)
    : TailcatListener :=
  {| incoming := queue; closedChannel := closedChannel l; listenerClosing := listenerClosing l;
     closeHolds := closeHolds l; accepts := calls; offered := offered l; dropped := closed ++ dropped l |}.

Definition closeSection (holds : bool) (queue closed : list conn) (l : TailcatListener) : TailcatListener :=
  {| incoming := queue; closedChannel := true; listenerClosing := true;
     closeHolds := holds; accepts := accepts l; offered := offered l; dropped := closed ++ dropped l |}.

(** A step of one call of [Accept], with the queue it leaves and what it
    closes. *)
Inductive acceptStep (l : TailcatListener) : acceptPC → acceptPC → list conn → list conn → Prop :=
| AcceptPolls :
    acceptStep l AcceptPolling (if closedChannel l then AcceptErrClosed else AcceptSelecting) (incoming l) []
| AcceptSeesClosed :
    closedChannel l = true → acceptStep l AcceptSelecting AcceptErrClosed (incoming l) []
| AcceptReceives c queue :
    incoming l = c :: queue → acceptStep l AcceptSelecting (AcceptChecking c) queue []
| AcceptChecks c :
    closeHolds l = false →
    acceptStep l (AcceptChecking c)
      (if listenerClosing l then AcceptErrClosed else AcceptDelivered c) (incoming l)
      (if listenerClosing l then [c] else []).

Inductive listenerStep : TailcatListener → TailcatListener → Prop :=
| ListenerHandle l connection :
    closeHolds l = false → (∀ c, connection = Some c → c ∉ offered l) → listenerStep l (Handle connection l)
| ListenerAccept l : listenerStep l (withAccepts (incoming l) (accepts l ++ [AcceptPolling]) [] l)
| ListenerAcceptMoves l before a after a' queue closed :
    accepts l = before ++ a :: after → acceptStep l a a' queue closed →
    listenerStep l (withAccepts queue (before ++ a' :: after) closed l)
| ListenerCloseBegins l :
    closeHolds l = false → listenerClosing l = false → listenerStep l (closeSection true (incoming l) [] l)
| ListenerCloseDrains l c queue :
    closeHolds l = true → incoming l = c :: queue → listenerStep l (closeSection true queue [c] l)
| ListenerCloseEnds l :
    closeHolds l = true → incoming l = [] → listenerStep l (closeSection false [] [] l).

Definition checking (a : acceptPC) : list conn := match a with AcceptChecking c => [c] | _ => [] end.
Definition deliveredBy (a : acceptPC) : list conn := match a with AcceptDelivered c => [c] | _ => [] end.

Record listenerInv (l : TailcatListener) : Prop := {
  linv_accounted :
    offered l ≡ₚ incoming l ++ (accepts l ≫= checking) ++ (accepts l ≫= deliveredBy) ++ dropped l;
  linv_distinct : NoDup (offered l);
  linv_backlog : length (incoming l) ≤ tailcatListenerBacklog;
  linv_closed : listenerClosing l = true → closeHolds l = false → incoming l = [];
  linv_holds : closeHolds l = true → listenerClosing l = true;
}.

Lemma listenerStep_inv l l' : listenerStep l l' → listenerInv l → listenerInv l'.
Proof.
  intros Hstep [Ha Hd Hb Hc Hh].
  destruct Hstep as [l connection Hfree Hnew|l|l before a after a' queue closed Hsplit Hstep|l Hfree Hcl|l c queue Hholds Hq
    |l Hholds Hq].
  - destruct connection as [c|]; [|by constructor]. specialize (Hnew c eq_refl). unfold Handle.
    destruct (listenerClosing l) eqn:Ecl, (_ <? _) eqn:Eb; cbn [negb andb]; reflect_bools; constructor; cbn; rewrite ?Ecl; try done.
    all: try (by apply NoDup_cons).
    all: try (rewrite Ha; solve_Permutation).
    rewrite length_app. cbn. lia.
  - constructor; cbn; try done. rewrite !bind_app, !bind_singleton. cbn. by rewrite !app_nil_r.
  - rewrite Hsplit, !bind_app, !bind_cons in Ha.
    destruct Hstep as [|Hsig|c queue Hq|c Hfree]; constructor; cbn; try done; try (rewrite !bind_app, !bind_cons; cbn).
    + by destruct (closedChannel l).
    + done.
    + rewrite Ha, Hq. cbn. solve_Permutation.
    + rewrite Hq in Hb. cbn in Hb. lia.
    + intros Hx Hy. specialize (Hc Hx Hy). congruence.
    + rewrite Ha. destruct (listenerClosing l); cbn; solve_Permutation.
  - constructor; cbn; try done. 
  - constructor; cbn; try done; [|rewrite Hq in Hb; cbn in Hb; lia]. rewrite Ha, Hq. solve_Permutation.
  - constructor; cbn; try done; [|lia]. rewrite Ha, Hq. solve_Permutation.
Qed.

Lemma newTailcatListener_inv : listenerInv newTailcatListener.
Proof. constructor; cbn; try done; [constructor|unfold tailcatListenerBacklog; lia]. Qed.

(** C34: the listener neither loses a stream nor hands out one it has closed:
    in every reachable state each stream Tailcat offered is, exactly once, in
    the queue of at most 64, in the hands of an [Accept] that has not checked
    it yet, returned by an [Accept], or closed; and after [Close] the queue is
    empty, an offered stream is closed at once and an [Accept] that still
    holds one closes it. *)
Theorem tailcatListener_accounts l :
  rtc listenerStep newTailcatListener l →
  offered l ≡ₚ incoming l ++ (accepts l ≫= checking) ++ (accepts l ≫= deliveredBy) ++ dropped l
  ∧ NoDup (offered l) ∧ length (incoming l) ≤ tailcatListenerBacklog
  ∧ (listenerClosing l = true → closeHolds l = false →
       incoming l = [] ∧ (∀ c, dropped (Handle (Some c) l) = c :: dropped l)
       ∧ ∀ c a queue closed, acceptStep l (AcceptChecking c) a queue closed → a = AcceptErrClosed ∧ closed = [c]).
Proof.
  intros Hrun. assert (listenerInv l) as [Ha Hd Hb Hc Hh].
  { apply (rtc_preserves _ listenerInv _ _ Hrun); [apply listenerStep_inv|apply newTailcatListener_inv]. }
  split_and!; [done..|]. intros Hcl Hfree. split_and!; [by apply Hc|intros c; unfold Handle; by rewrite Hcl|].
  inversion_clear 1. by rewrite Hcl.
Qed.

(** A stream is queued, the listener is closed around an [Accept] that has
    just taken it. *)
Definition caughtListener : TailcatListener :=
  {| incoming := []; closedChannel := true; listenerClosing := true; closeHolds := false;
     accepts := [AcceptChecking 7]; offered := [7]; dropped := [] |}.

Lemma caught_reachable : rtc listenerStep newTailcatListener caughtListener.
Proof.
  eapply rtc_l; [apply (ListenerHandle _ (Some 7)); [done|intros c _; apply not_elem_of_nil]|]. cbn.
  eapply rtc_l; [apply ListenerAccept|]. cbn.
  eapply rtc_l; [by eapply (ListenerAcceptMoves _ [] _ []); [|apply AcceptPolls]|]. cbn.
  eapply rtc_l; [by eapply (ListenerAcceptMoves _ [] _ []); [|by apply (AcceptReceives _ 7 [])]|]. cbn.
  eapply rtc_l; [by apply ListenerCloseBegins|]. cbn.
  eapply rtc_l; [by apply ListenerCloseEnds|]. apply rtc_refl.
Qed.

Lemma tailcatListener_accounts_witness :
  NoDup (offered caughtListener)
  ∧ ∀ a queue closed, acceptStep caughtListener (AcceptChecking 7) a queue closed → a = AcceptErrClosed ∧ closed = [7].
Proof.
  destruct (tailcatListener_accounts caughtListener caught_reachable) as (_ & Hdistinct & _ & Hclosed).
  destruct (Hclosed eq_refl eq_refl) as (_ & _ & Hcheck). split; [exact Hdistinct|exact (Hcheck 7)].
Defined.

(** ** The production server and the listener's address *)

(** The fields of a [tailcat.Server] that [newProductionTailcatServer] sets:
    the ranges of served ports, and the handler it finds for a port. *)
Record ProductionServer (H : Type) := {
  servedTCPPorts : list (Z * Z);
  onTCP : Z → option H;
}.
Arguments servedTCPPorts {H} p : rename.
Arguments onTCP {H} p _ : rename.

Definition newProductionTailcatServer {H} (port : Z) (handler : H) : ProductionServer H :=
  {| servedTCPPorts := [(port, port)]; onTCP requested := if negb (requested =? port)%Z then None else Some handler |}.

Definition tailcatNetwork : bytes := "tailcat".
Definition tailcatListenerAddress (port : Z) : bytes := "tailcat:" ++ itoa port.

(** Exactly the ports that are served have a handler. *)
Lemma newProductionTailcatServer_ports {H} port (handler : H) requested :
  is_Some (onTCP (newProductionTailcatServer port handler) requested)
  ↔ ∃ first final, (first, final) ∈ servedTCPPorts (newProductionTailcatServer port handler) ∧ (first ≤ requested ≤ final)%Z.
Proof.
  cbn. split.
  - destruct (requested =? port)%Z eqn:Hp; cbn [negb]; [|by intros []]. reflect_bools. intros _. exists port, port.
    split; [by left|lia].
  - intros (first & final & [= -> ->]%list_elem_of_singleton & Hr). rewrite (proj2 (Z.eqb_eq _ _)) by lia. by eexists.
Qed.

(** ** [serveTailcat] *)

Inductive ServeTailcatError (E : Type) :=
| TailcatPortRequired
| TailcatDialerRequired
| PairingOutputRequired
| TailcatDrainRequired
| ServerFactoryRequired
| ServerFactoryReturnedNil
| StartFailed (err : E)
| StartContext
| InvalidPairingAddress
| WritePairingFailed (err : E)
| WritePairingShort
| BridgeFailed (err : E)
| DrainFailed (err : E)
| ServerCloseFailed (err : E).
Arguments TailcatPortRequired {E}.
Arguments TailcatDialerRequired {E}.
Arguments PairingOutputRequired {E}.
Arguments TailcatDrainRequired {E}.
Arguments ServerFactoryRequired {E}.
Arguments ServerFactoryReturnedNil {E}.
Arguments StartFailed {E} err.
Arguments StartContext {E}.
Arguments InvalidPairingAddress {E}.
Arguments WritePairingFailed {E} err.
Arguments WritePairingShort {E}.
Arguments BridgeFailed {E} err.
Arguments DrainFailed {E} err.
Arguments ServerCloseFailed {E} err.

(** What the first event of [startTailcatServer] is: the server has started,
    or failed to, or the context ended before. *)
Inductive StartOutcome (E : Type) := ServerStarted (err : option E) | ContextFirst.
Arguments ServerStarted {E} err.
Arguments ContextFirst {E}.

(** What the outside does in one run.  [drainDeadline] is whether the drain's
    error is its deadline. *)
Record TailcatRun (E : Type) := {
  factoryMakes : option bool;
  startOutcome : StartOutcome E;
  serverAddress : bytes;
  writePairing : bytes → nat * option E;
  bridgeErr : option E;
  drainErr : option E;
  drainDeadline : bool;
  serverCloseErr : option E;
}.
Arguments factoryMakes {E} t : rename.
Arguments startOutcome {E} t : rename.
Arguments serverAddress {E} t : rename.
Arguments writePairing {E} t _ : rename.
Arguments bridgeErr {E} t : rename.
Arguments drainErr {E} t : rename.
Arguments drainDeadline {E} t : rename.
Arguments serverCloseErr {E} t : rename.

Inductive TailcatAction :=
| CreateServer (port : Z)
| StartServer
| CloseServerOnceStarted
| CloseListener
| WritePairing (line : bytes)
| ServeBridge
| DrainServer
| CloseServer.

#[export] Instance TailcatAction_eq_dec : EqDecision TailcatAction.
Proof. solve_decision. Defined.

Section ServeTailcat.
Context `{TailcatLibrary} {E : Type}.

Definition asErr {A B} (f : A → B) (err : option A) : option B := f <$> err.

(** [startTailcatServer]. *)
Definition startTailcatServer (r : TailcatRun E) : list TailcatAction * list (ServeTailcatError E) :=
  match startOutcome r with
  | ServerStarted None => ([StartServer], [])
  | ServerStarted (Some err) =>
      ([StartServer; CloseServer], joinErrors [Some (StartFailed err); asErr ServerCloseFailed (serverCloseErr r)])
  | ContextFirst => ([StartServer; CloseServerOnceStarted], [StartContext])
  end.

(** The body between the start of the server and the deferred calls. *)
Definition serveStarted (port : Z) (r : TailcatRun E) : list TailcatAction * list (ServeTailcatError E) :=
  if negb (validTailcatAddress (serverAddress r)) then ([], [InvalidPairingAddress])
  else
    let line := Encode {| RemotePort := port; Pairing_Address := serverAddress r |} ++ ["010"%char] in
    let '(written, err) := writePairing r line in
    match err with
    | Some err => ([WritePairing line], [WritePairingFailed err])
    | None =>
        if negb (written =? length line) then ([WritePairing line], [WritePairingShort])
        else
          let drained := if drainDeadline r then None else drainErr r in
          ([WritePairing line; ServeBridge; DrainServer],
           joinErrors [asErr BridgeFailed (bridgeErr r); asErr DrainFailed drained])
    end.

(** [serveTailcat]: what it does, and its error, as a list. *)
Definition serveTailcat (port : Z) (hasDialer hasOutput : bool) (drain : Z) (r : TailcatRun E)
    : list TailcatAction * list (ServeTailcatError E) :=
  if (port =? 0)%Z then ([], [TailcatPortRequired])
  else if negb hasDialer then ([], [TailcatDialerRequired])
  else if negb hasOutput then ([], [PairingOutputRequired])
  else if (drain <=? 0)%Z then ([], [TailcatDrainRequired])
  else
    match factoryMakes r with
    | None => ([], [ServerFactoryRequired])
    | Some false => ([CreateServer port], [ServerFactoryReturnedNil])
    | Some true =>
        let '(starting, startErr) := startTailcatServer r in
        if negb (bool_decide (length startErr = 0)) then (CreateServer port :: starting ++ [CloseListener], startErr)
        else
          let '(body, errs) := serveStarted port r in
          (CreateServer port :: starting ++ body ++ [CloseListener; CloseServer],
           errs ++ joinErrors [asErr ServerCloseFailed (serverCloseErr r)])
    end.

(** [ServeTailcat]: the factory makes a production server. *)
Definition ServeTailcat (port : Z) (hasDialer hasOutput : bool) (drain : Z) (r : TailcatRun E)
    : list TailcatAction * list (ServeTailcatError E) :=
  serveTailcat port hasDialer hasOutput drain
    {| factoryMakes := Some true; startOutcome := startOutcome r; serverAddress := serverAddress r;
       writePairing := writePairing r; bridgeErr := bridgeErr r; drainErr := drainErr r;
       drainDeadline := drainDeadline r; serverCloseErr := serverCloseErr r |}.

(** How often an action closes the server, at once or as soon as its start is
    over. *)
Definition closesServer (a : TailcatAction) : Prop := a = CloseServer ∨ a = CloseServerOnceStarted.

#[export] Instance closesServer_dec a : Decision (closesServer a).
Proof. apply _. Defined.

Lemma serveStarted_actions port r a :
  a ∈ fst (serveStarted port r) →
  (∃ line, a = WritePairing line ∧ line = Encode {| RemotePort := port; Pairing_Address := serverAddress r |} ++ ["010"%char]
     ∧ validTailcatAddress (serverAddress r) = true)
  ∨ a = ServeBridge ∨ a = DrainServer.
Proof.
  unfold serveStarted. destruct (validTailcatAddress _) eqn:Hv; cbn [negb]; [|set_solver].
  destruct (writePairing r _) as [n [e|]]; [set_solver|]. destruct (n =? _); cbn [negb]; set_solver.
Qed.

(** C33: the right side of a link leaves nothing running and announces nothing
    it does not serve: in every run that starts a server the server is closed
    exactly once and the listener is closed; the only text written is the
    pairing of the served port with a valid address; and streams are only
    served after that line was written whole. *)
Theorem serveTailcat_cleanup port hasDialer hasOutput drain r actions errs :
  serveTailcat port hasDialer hasOutput drain r = (actions, errs) →
  (StartServer ∈ actions → length (filter closesServer actions) = 1 ∧ CloseListener ∈ actions)
  ∧ (∀ line, WritePairing line ∈ actions →
       line = Encode {| RemotePort := port; Pairing_Address := serverAddress r |} ++ ["010"%char]
       ∧ port ≠ 0%Z ∧ validTailcatAddress (serverAddress r) = true)
  ∧ (ServeBridge ∈ actions → ∃ line before after,
       actions = before ++ [WritePairing line; ServeBridge] ++ after ∧ writePairing r line = (length line, None)).
Proof.
  unfold serveTailcat. destruct (port =? 0)%Z eqn:Hp; [intros [= <- <-]; set_solver|].
  destruct hasDialer, hasOutput; cbn [negb]; try (intros [= <- <-]; set_solver).
  destruct (drain <=? 0)%Z; [intros [= <- <-]; set_solver|].
  destruct (factoryMakes r) as [[]|]; [|intros [= <- <-]; set_solver..]. reflect_bools.
  unfold startTailcatServer. destruct (startOutcome r) as [[e|]|]; cbn [joinErrors omap].
  - intros [= <- <-]. split_and!; [intros _; split; [done|set_solver]|set_solver|set_solver].
  - rewrite bool_decide_eq_true_2 by done. cbn [negb]. destruct (serveStarted port r) as [body errs'] eqn:Hbody.
    intros [= <- <-]. pose proof (serveStarted_actions port r) as Hacts. rewrite Hbody in Hacts. cbn in Hacts.
    split_and!.
    + intros _. split; [|set_solver].
      assert (filter closesServer body = []) as Hnone.
      { destruct (filter closesServer body) as [|a rest] eqn:Ef; [done|]. exfalso.
        assert (a ∈ filter closesServer body) as [Hcl Ha]%list_elem_of_filter by (rewrite Ef; by left).
        destruct Hcl as [->| ->]; apply Hacts in Ha; naive_solver. }
      change (filter closesServer _) with (filter closesServer (body ++ [CloseListener; CloseServer])).
      by rewrite filter_app, Hnone.
    + intros line Hin. assert (WritePairing line ∈ body) as Hin' by set_solver. naive_solver.
    + intros Hin. assert (ServeBridge ∈ body) as Hin' by set_solver. clear Hacts Hin. unfold serveStarted in Hbody.
      destruct (negb _); [injection Hbody as <- <-; set_solver|]. destruct (writePairing r _) as [n [e|]] eqn:Hw;
        [injection Hbody as <- <-; set_solver|]. destruct (n =? _) eqn:Hn; cbn [negb] in Hbody;
        injection Hbody as <- <-; [|set_solver]. reflect_bools. subst n.
      by eexists _, [CreateServer port; StartServer], _.
  - intros [= <- <-]. split_and!; [intros _; split; [done|set_solver]|set_solver|set_solver].
Qed.
End ServeTailcat.

(** ** Witnesses *)

(** A client that logs its calls and cannot be closed without an error. *)
Definition loggedClient : TailcatClient (list bytes) bytes unit := {|
  dialTCPPort port log := (Ok (itoa port), log ++ ["dial" : bytes]);
  drainClient log := (None, log ++ ["drain" : bytes]);
  closeClient log := (Some tt, log ++ ["close" : bytes]);
|}.

Definition openDialer : TailcatDialer unit := Build_TailcatDialer 8080%Z false false [].

Definition closedDialer : TailcatDialer unit := Build_TailcatDialer 8080%Z true true [tt].

Lemma TailcatDialer_close_final_witness :
  @dialerRun _ _ _ loggedClient [CallDial; CallClose] (Some closedDialer) ["drain" : bytes; "close" : bytes] =
    ([AnswerDial (Err DialerErrClosed); AnswerClose [tt]], Some closedDialer, ["drain" : bytes; "close" : bytes]).
Proof.
  exact (@TailcatDialer_close_final _ _ _ loggedClient openDialer [] [tt] (Some closedDialer)
           ["drain" : bytes; "close" : bytes] [CallDial; CallClose] eq_refl eq_refl).
Defined.

(** The pairing is written, the bridge runs, the drain hits its deadline and
    closing fails. *)
Definition sampleRun : TailcatRun unit := {|
  factoryMakes := Some true;
  startOutcome := ServerStarted None;
  serverAddress := "tcat";
  writePairing line := (length line, None);
  bridgeErr := None;
  drainErr := Some tt;
  drainDeadline := true;
  serverCloseErr := Some tt;
|}.

Lemma serveTailcat_cleanup_witness :
  snd (@serveTailcat wordLibrary unit 8080 true true 1 sampleRun) = [ServerCloseFailed tt]
  ∧ length (filter closesServer (fst (@serveTailcat wordLibrary unit 8080 true true 1 sampleRun))) = 1.
Proof.
  destruct (@serveTailcat wordLibrary unit 8080 true true 1 sampleRun) as [actions errs] eqn:E.
  destruct (@serveTailcat_cleanup wordLibrary unit 8080 true true 1 sampleRun actions errs E) as [Hclosed _].
  vm_compute in E. injection E as <- <-. split; [done|].
  apply Hclosed. apply (bool_decide_unpack _); by vm_compute.
Defined.
