(* ===== verification/Ingress.v ===== *)
(** link/tailcat_adapter.go: the right side of a link, where [Serve] takes its
    clients from a [tailcatListener].  The steps of both run side by side; a
    call of [Accept] is made by the accept loop and returns to it. *)

From S2P Require Import Prelude Sessions Bridge Tailcat.

Definition unfinished (a : acceptPC) : bool :=
  match a with AcceptPolling | AcceptSelecting | AcceptChecking _ => true | AcceptDelivered _ | AcceptErrClosed => false end.

Section Ingress.
Context {E : Type}.

Abbreviation Ingress := (TailcatListener * Bridge E)%type.

Implicit Types (l : TailcatListener) (b : Bridge E).

(** Connections are told apart by identity: a stream Tailcat offers and a
    connection [dial] returns are new to both sides. *)
Inductive ingressStep : Ingress → Ingress → Prop :=
| IngressOffers l b connection :
    closeHolds l = false → (∀ c, connection = Some c → c ∉ offered l ∧ c ∉ opened b) →
    ingressStep (l, b) (Handle connection l, b)
| IngressCalls l b :
    main b = Accepting → (∀ a, a ∈ accepts l → unfinished a = false) →
    ingressStep (l, b) (withAccepts (incoming l) (accepts l ++ [AcceptPolling]) [] l, b)
| IngressWaits l b before a after a' queue closed :
    accepts l = before ++ a :: after → acceptStep l a a' queue closed → unfinished a' = true →
    ingressStep (l, b) (withAccepts queue (before ++ a' :: after) closed l, b)
| IngressDelivers l b b' before a after c queue closed :
    accepts l = before ++ a :: after → acceptStep l a (AcceptDelivered c) queue closed →
    main b = Accepting → bridgeStep b b' → main b' = Accepted c →
    ingressStep (l, b) (withAccepts queue (before ++ AcceptDelivered c :: after) closed l, b')
| IngressRefuses l b b' before a after queue closed :
    accepts l = before ++ a :: after → acceptStep l a AcceptErrClosed queue closed →
    main b = Accepting → bridgeStep b b' → main b' = Draining →
    ingressStep (l, b) (withAccepts queue (before ++ AcceptErrClosed :: after) closed l, b')
| IngressCloses l l' b :
    listenerStep l l' → accepts l' = accepts l → offered l' = offered l → ingressStep (l, b) (l', b)
| IngressServes l b b' :
    bridgeStep b b' → main b' = main b ∨ main b ≠ Accepting →
    (∀ c, c ∈ opened b' → c ∉ opened b → c ∉ offered l) →
    ingressStep (l, b) (l, b').

Definition ingressStarted : Ingress := (newTailcatListener, bridgeStarted).

(** ** The invariant *)

Record ingressInv (i : Ingress) : Prop := {
  iinv_listener : listenerInv (fst i);
  iinv_bridge : bridgeInv (snd i);
  iinv_delivered : ∀ c, c ∈ (accepts (fst i) ≫= deliveredBy) → c ∈ opened (snd i);
  iinv_calls : ∀ a, a ∈ accepts (fst i) → unfinished a = true → main (snd i) = Accepting;
  iinv_one : length (filter (λ a, unfinished a = true) (accepts (fst i))) ≤ 1;
}.

(** A bridge never forgets a connection, and what the accept loop holds has
    been opened. *)
Lemma bridgeStep_opened b b' : bridgeStep b b' → bridgeInv b → opened b ⊆ opened b'.
Proof.
  intros [k Hstep] Hinv. destruct Hstep as [| |b c Hm Hc| |b c Hm|b c added t Hm Hadd| | | | | |k b before s after s' t o Hsplit Hstep];
    try done; cbn; [set_solver|by destruct (bridgeContextEnded b)|by destruct added|].
  apply streamStep_effect in Hstep as Heff; [by apply Heff|]. apply (inv_streams _ Hinv). rewrite Hsplit. set_solver.
Qed.

Lemma accepted_opened b c : bridgeInv b → main b = Accepted c → c ∈ opened b.
Proof. intros Hinv Hm. apply (inv_opened _ Hinv). rewrite Hm. cbn. by left. Qed.

Lemma calls_one before a after :
  length (filter (λ a, unfinished a = true) (before ++ a :: after)) ≤ 1 → unfinished a = true →
  ∀ x, x ∈ before ++ after → unfinished x = false.
Proof.
  rewrite filter_app, filter_cons. intros Hlen Ha x Hx. rewrite decide_True in Hlen by done. rewrite length_app in Hlen. cbn in Hlen.
  destruct (unfinished x) eqn:Hu; [exfalso|done].
  assert (x ∈ filter (λ a, unfinished a = true) (before ++ after)) as Hin by (by apply list_elem_of_filter).
  rewrite filter_app in Hin. apply elem_of_app in Hin as [Hin|Hin]; apply list_elem_of_split in Hin as (k1 & k2 & Hk);
    rewrite Hk, length_app in Hlen; cbn in Hlen; lia.
Qed.

Lemma acceptStep_unfinished l a a' queue closed : acceptStep l a a' queue closed → unfinished a = true.
Proof. by destruct 1. Qed.

Lemma finished_one before a after :
  (∀ x, x ∈ before ++ after → unfinished x = false) → length (filter (λ a, unfinished a = true) (before ++ a :: after)) ≤ 1.
Proof.
  intros Hdone. assert (∀ k, (∀ x, x ∈ k → unfinished x = false) → filter (λ a, unfinished a = true) k = []) as Hnone.
  { intros k Hk. destruct (filter _ k) as [|x rest] eqn:Hf; [done|exfalso].
    assert (x ∈ filter (λ a, unfinished a = true) k) as [Hx Hin]%list_elem_of_filter by (rewrite Hf; by left).
    by rewrite Hk in Hx. }
  rewrite filter_app, filter_cons, !Hnone by set_solver. destruct (decide _); cbn; lia.
Qed.

(** A move of a call of [Accept], whatever the bridge does with it. *)
Lemma ingressInv_moves l b b' before a after a' queue closed :
  ingressInv (l, b) → accepts l = before ++ a :: after → acceptStep l a a' queue closed →
  bridgeInv b' → opened b ⊆ opened b' → (∀ c, a' = AcceptDelivered c → c ∈ opened b') →
  (unfinished a' = true → main b' = Accepting) →
  ingressInv (withAccepts queue (before ++ a' :: after) closed l, b').
Proof.
  intros [Hl _ Hd _ H1] Hsplit Hstep Hb' Hsub Hdel Hmain. cbn [fst snd] in *. rewrite Hsplit in H1, Hd.
  pose proof (calls_one before a after H1 (acceptStep_unfinished _ _ _ _ _ Hstep)) as Hdone.
  constructor; cbn; [|done| | |by apply finished_one].
  - eapply listenerStep_inv; [by eapply ListenerAcceptMoves|done].
  - intros c. rewrite bind_app, bind_cons, !elem_of_app. rewrite bind_app, bind_cons in Hd. intros [Hin|[Hin|Hin]].
    + apply Hsub, Hd. rewrite elem_of_app. by left.
    + destruct a'; cbn in Hin; try by apply elem_of_nil in Hin. apply list_elem_of_singleton in Hin as ->. by apply Hdel.
    + apply Hsub, Hd. rewrite !elem_of_app. by right; right.
  - intros x Hx Hu. apply elem_of_app in Hx as [Hx|[->|Hx]%elem_of_cons]; [|by apply Hmain|];
      (rewrite Hdone in Hu; [done|]); apply elem_of_app; auto.
Qed.

Lemma ingressStep_inv i i' : ingressStep i i' → ingressInv i → ingressInv i'.
Proof.
  intros Hstep Hinv.
  destruct Hstep as [l b connection Hfree Hnew|l b Hm Hdone|l b before a after a' queue closed Hsplit Hstep Hun
    |l b b' before a after c queue closed Hsplit Hstep Hm Hbs Hm'|l b b' before a after queue closed Hsplit Hstep Hm Hbs Hm'
    |l l' b Hstep Ha Ho|l b b' Hbs Hm Hnew].
  - destruct Hinv as [Hl Hb Hd Hc H1]. cbn [fst snd] in *.
    assert (accepts (Handle connection l) = accepts l) as Heq by (destruct connection; [cbn; by destruct (_ && _)|done]).
    constructor; cbn [fst snd]; rewrite ?Heq; try done. eapply listenerStep_inv; [|done]. apply ListenerHandle; [done|].
    intros c Hcon. by apply Hnew.
  - destruct Hinv as [Hl Hb Hd Hc H1]. cbn [fst snd] in *. constructor; cbn; [|done| | |].
    + eapply listenerStep_inv; [apply ListenerAccept|done].
    + intros c. rewrite bind_app, bind_singleton. cbn. rewrite app_nil_r. apply Hd.
    + intros a Hin Hu. apply elem_of_app in Hin as [Hin| ->%list_elem_of_singleton]; [by rewrite Hdone in Hu|done].
    + apply finished_one. rewrite app_nil_r. done.
  - eapply ingressInv_moves; [done..|apply Hinv|done|by intros c ->|]. intros _.
    apply (iinv_calls _ Hinv a); [cbn; rewrite Hsplit; set_solver|by eapply acceptStep_unfinished].
  - assert (bridgeInv b') as Hb' by (eapply bridgeStep_inv; [done|apply Hinv]).
    eapply ingressInv_moves; [done..|by eapply bridgeStep_opened; [|apply Hinv]| |done].
    intros c' [= <-]. by apply accepted_opened.
  - eapply ingressInv_moves; [done..|eapply bridgeStep_inv; [done|apply Hinv]|by eapply bridgeStep_opened; [|apply Hinv]|done|done].
  - destruct Hinv as [Hl Hb Hd Hc H1]. cbn [fst snd] in *. constructor; cbn [fst snd]; rewrite ?Ha; try done.
    by eapply listenerStep_inv.
  - destruct Hinv as [Hl Hb Hd Hc H1]. cbn [fst snd] in *. constructor; cbn [fst snd]; try done.
    + by eapply bridgeStep_inv.
    + intros c Hin. by eapply bridgeStep_opened; [| |apply Hd].
    + intros a Hin Hu. apply Hc in Hin as Hacc; [|done]. destruct Hm as [->|Hm]; [done|by destruct Hm].
Qed.

(** C35: the right side of a link loses no stream.  However Tailcat's offers,
    the accept loop, the clients' goroutines and the closing of the listener
    interleave: once [Serve] has returned and the listener is closed, every
    stream that was ever offered has been closed, by the listener, by an
    [Accept] that found it closed, or by the bridge. *)
Theorem ingress_releases l b err :
  rtc ingressStep ingressStarted (l, b) →
  main b = Returned err → listenerClosing l = true → closeHolds l = false →
  ∀ c, c ∈ offered l → c ∈ dropped l ∨ c ∈ tableClosed (active b).
Proof.
  intros Hrun Hret Hclosing Hfree c Hc. assert (ingressInv (l, b)) as [Hl Hb Hd Hcalls _].
  { apply (rtc_preserves _ ingressInv _ _ Hrun); [apply ingressStep_inv|].
    constructor; [apply newTailcatListener_inv|apply bridgeStarted_inv|cbn; set_solver|cbn; set_solver|cbn; lia]. }
  cbn [fst snd] in *. apply inv_returned in Hret as Hclosed; [|done]. destruct Hclosed as [_ Hsub].
  rewrite (linv_accounted _ Hl), !elem_of_app, (linv_closed _ Hl) in Hc by done.
  destruct Hc as [[]%elem_of_nil|[Hc|[Hc|Hc]]]; [|by right; apply Hsub, Hd|by left].
  apply list_elem_of_bind in Hc as (a & Hin & Ha). destruct a; try by apply elem_of_nil in Hin.
  apply Hcalls in Ha; [|done]. congruence.
Qed.
End Ingress.

(** ** Witness: one stream is accepted while the context ends, another one is
    still queued when the listener is closed. *)

Definition closedListener : TailcatListener :=
  {| incoming := []; closedChannel := true; listenerClosing := true; closeHolds := false;
     accepts := [AcceptDelivered 7]; offered := [8; 7]; dropped := [8] |}.

Definition returnedBridge : Bridge unit :=
  Build_Bridge (Returned None) true false
    {| tableClosing := false; tableItems := ∅; tableClosed := {[7]} ∪ ∅ |} [] ({[7]} ∪ ∅).

Lemma closed_reachable : rtc ingressStep ingressStarted (closedListener, returnedBridge).
Proof.
  eapply rtc_l; [by apply (IngressOffers _ _ (Some 7)); [|intros c _; split; [apply not_elem_of_nil|apply not_elem_of_empty]]|]. cbn.
  eapply rtc_l; [apply IngressCalls; [done|intros a Ha; by apply elem_of_nil in Ha]|]. cbn.
  eapply rtc_l; [by eapply (IngressWaits _ _ [] _ []); [|apply AcceptPolls|]|]. cbn.
  eapply rtc_l; [by eapply (IngressWaits _ _ [] _ []); [|by apply (AcceptReceives _ 7 [])|]|]. cbn.
  eapply rtc_l; [apply IngressServes; [eexists; by apply EndContext|by left|done]|]. cbn.
  eapply rtc_l; [eapply (IngressDelivers _ _ _ [] _ [] 7); [done|by apply AcceptChecks|done|eexists; by apply (AcceptClient _ 7)|done]|]. cbn.
  eapply rtc_l; [by apply (IngressOffers _ _ (Some 8)); [|intros c [= <-]; split; apply (bool_decide_unpack _); vm_compute]|]. cbn.
  eapply rtc_l; [apply IngressServes; [eexists; by apply (TestAccepted _ 7)|by right|done]|]. cbn.
  eapply rtc_l; [apply IngressServes; [eexists; by apply Drained|by right|done]|]. cbn.
  eapply rtc_l; [apply IngressCloses; [by apply ListenerCloseBegins|done|done]|]. cbn.
  eapply rtc_l; [apply IngressCloses; [by apply (ListenerCloseDrains _ 8 [])|done|done]|]. cbn.
  eapply rtc_l; [apply IngressCloses; [by apply ListenerCloseEnds|done|done]|]. apply rtc_refl.
Qed.

Lemma ingress_releases_witness :
  (7 ∈ dropped closedListener ∨ 7 ∈ tableClosed (active returnedBridge))
  ∧ (8 ∈ dropped closedListener ∨ 8 ∈ tableClosed (active returnedBridge)).
Proof.
  split; apply (ingress_releases closedListener returnedBridge None closed_reachable eq_refl eq_refl eq_refl);
    apply (bool_decide_unpack _); by vm_compute.
Defined.
