(* ===== verification/Explain.v ===== *)
(** explain/explain.go: evaluating routing and policy without opening any
    resource. *)

From S2P Require Import Prelude GoStrings GoNet GoUrl Path TlsConfig Mount Resolve Policy Config.

(** ** The code *)

Inductive ExplainOutcome := OutcomePermit | OutcomeReject | OutcomeNoMount | OutcomeUnsafePath | OutcomeAmbiguous.

#[export] Instance ExplainOutcome_eq_dec : EqDecision ExplainOutcome.
Proof. solve_decision. Defined.

Record ExplainRequest := {
  Explain_Path : bytes;
  Explain_URL : bytes;
  Explain_Source : bytes;
  Explain_Server : bytes;
  Explain_Protocol : bytes;
  Explain_Method : bytes;
}.

Record MountResult := {
  MountResult_Path : bytes;
  MountResult_Source : bytes;
  MountResult_NormalizedPath : bytes;
  MountResult_Target : bytes;
}.

Record ExplainResult := {
  Explained_Outcome : ExplainOutcome;
  Explained_Request : ExplainRequest;
  Explained_Mount : option MountResult;
  Explained_Policy : option PolicyDecision;
}.

Inductive ExplainError :=
| ExplainConfig (e : ConfigError)
| PathOrURLRequired
| SourceRequired
| ProtocolRequired
| ServerRequired
| MethodRequired
| InvalidRequestURL
| TargetUnparsed.

Section Explain.
Context `{UnicodeData}.

(** The mount request of a URL, and the request with its path filled in. *)
Definition urlMountRequest (request : ExplainRequest) : result (MountRequest * ExplainRequest) ExplainError :=
  match parseRequestURI (Explain_URL request) with
  | None => Err InvalidRequestURL
  | Some parsed =>
      refuse InvalidRequestURL
        when negb (isAbs parsed) || bool_decide (Host parsed = []) || negb (bool_decide (User parsed = None))
             || negb (bool_decide (Fragment parsed = [])) ;;
      let path := if bool_decide (escapedPath parsed = []) then "/" : bytes else escapedPath parsed in
      Ok ({| MountRequest_Path := path; MountRequest_Scheme := Scheme parsed; MountRequest_Authority := Host parsed;
             MountRequest_Server := Explain_Server request; MountRequest_Protocol := Explain_Protocol request |},
          {| Explain_Path := path; Explain_URL := Explain_URL request; Explain_Source := Explain_Source request;
             Explain_Server := Explain_Server request; Explain_Protocol := Explain_Protocol request;
             Explain_Method := Explain_Method request |})
  end.

(** [func Evaluate] of package explain. *)
Definition Explain (configured : Config) (request : ExplainRequest) : result ExplainResult ExplainError :=
  let! _ := wrap ExplainConfig (Config_Validate configured) in
  refuse PathOrURLRequired when Bool.eqb (blank (Explain_Path request)) (blank (Explain_URL request)) ;;
  refuse SourceRequired when blank (Explain_Source request) ;;
  refuse ProtocolRequired when blank (Explain_Protocol request) ;;
  refuse ServerRequired when blank (Explain_Server request) ;;
  refuse MethodRequired when blank (Explain_Method request) ;;
  let! (mountRequest, request) :=
    (if negb (bool_decide (Explain_URL request = [])) then urlMountRequest request
     else Ok ({| MountRequest_Path := Explain_Path request; MountRequest_Scheme := []; MountRequest_Authority := [];
                 MountRequest_Server := Explain_Server request;
                 MountRequest_Protocol := Explain_Protocol request |}, request)) in
  let stopped outcome :=
    Ok {| Explained_Outcome := outcome; Explained_Request := request; Explained_Mount := None;
          Explained_Policy := None |} in
  match ResolveFor (Mounts configured) mountRequest with
  | Err ErrNoMatch => stopped OutcomeNoMount
  | Err (ErrUnsafePath _) => stopped OutcomeUnsafePath
  | Err ErrAmbiguous => stopped OutcomeAmbiguous
  | Ok matched =>
      let! target := orElse (parseURL (Match_Target matched)) TargetUnparsed in
      let decision := Evaluate (Policies configured)
        {| PolicyRequest_Source := Explain_Source request; PolicyRequest_Protocol := Explain_Protocol request;
           PolicyRequest_Destination := hostname target; PolicyRequest_Method := Explain_Method request;
           PolicyRequest_Mount := Mount_Pattern (Match_Mount matched) |} in
      Ok {| Explained_Outcome := if Allowed decision then OutcomePermit else OutcomeReject;
            Explained_Request := request;
            Explained_Mount := Some {| MountResult_Path := Mount_Path (Match_Mount matched);
                                       MountResult_Source := Mount_Source (Match_Mount matched);
                                       MountResult_NormalizedPath := Match_NormalizedPath matched;
                                       MountResult_Target := Match_Target matched |};
            Explained_Policy := Some decision |}
  end.
End Explain.
