(* ===== verification/HttpHeader.v ===== *)
(** The header handling of server/http.go, with the canonical header keys of
    Go's [net/http]. *)

From S2P Require Import Prelude GoStrings GoUtf8.

(** ** [http.CanonicalHeaderKey] *)

(** Bytes of a token. *)
Definition tokenByte (c : ascii) : bool :=
  inRange 48 57 c || inRange 65 90 c || inRange 97 122 c || bool_decide (c ∈ ("!#$%&'*+-.^_`|~" : bytes)).

Fixpoint canonicalLoop (upper : bool) (s : bytes) : bytes :=
  match s with
  | [] => []
  | c :: rest =>
      let c' := if upper then upperByte c else lowerByte c in
      c' :: canonicalLoop (bool_decide (c' = "-"%char)) rest
  end.

(** A key with a byte that is not a token byte is left as it is. *)
Definition CanonicalHeaderKey (s : bytes) : bytes :=
  if forallb tokenByte s then canonicalLoop true s else s.

(** ** The code *)

(** [http.Header]: values by key. *)
Abbreviation Header := (gmap bytes (list bytes)).

(** [Header.Values]. *)
Definition headerValues (h : Header) (key : bytes) : list bytes := default [] (h !! CanonicalHeaderKey key).

(** The keys of the map [hopByHopHeaders]. *)
Definition hopByHopHeaders : list bytes :=
  ["Connection" : bytes; "Keep-Alive" : bytes; "Proxy-Authenticate" : bytes; "Proxy-Authorization" : bytes;
   "Proxy-Connection" : bytes; "Te" : bytes; "Trailer" : bytes; "Transfer-Encoding" : bytes; "Upgrade" : bytes].

(** Its value is only looked at by evaluation. *)
#[global] Opaque hopByHopHeaders.

Section Sanitize.
Context `{UnicodeData}.

(** The names listed by one Connection value. *)
Definition connectionNames (value : bytes) : list bytes :=
  filter (λ name, name ≠ []) ((λ name, CanonicalHeaderKey (trimSpace name)) <$> splitByte value ",").

(** The first loop of [sanitizeHeader], over the entries in the order in which
    it visits the map. *)
Definition connectionHeaders (entries : list (bytes * list bytes)) : gset bytes :=
  foldl (λ names '(key, values),
           if equalFold key "Connection"
           then list_to_set (values ≫= connectionNames) ∪ names else names) ∅ entries.

(** One iteration of the second loop. *)
Definition sanitizeEntry (names : gset bytes) (result : Header) (entry : bytes * list bytes) : Header :=
  let '(key, values) := entry in
  let canonical := CanonicalHeaderKey key in
  if bool_decide (canonical = []) then result
  else if bool_decide (canonical ∈ hopByHopHeaders) then result
  else if bool_decide (canonical ∈ names) then result
  else <[canonical := default [] (result !! canonical) ++ values]> result.

(** Both loops, with the orders in which they visit the map: Go picks one anew
    for each. *)
Definition sanitizeEntries (first second : list (bytes * list bytes)) : Header :=
  foldl (sanitizeEntry (connectionHeaders first)) ∅ second.

(** [sanitizeHeader] with one of these orders; [sanitizeHeader_iff] says what the
    others change. *)
Definition sanitizeHeader (source : Header) : Header := sanitizeEntries (map_to_list source) (map_to_list source).

Definition cloneHeader (source : Header) : Header := sanitizeHeader source.

(** The loop of [copyResponseHeader] over the sanitized entries. *)
Definition copyResponseHeader (destination source : Header) : Header :=
  foldl (λ destination '(key, values), <[key := default [] (destination !! key) ++ values]> destination)
    destination (map_to_list (sanitizeHeader source)).

(** ** Lemmas *)

Definition dropped (names : gset bytes) (key : bytes) : Prop :=
  key = [] ∨ key ∈ hopByHopHeaders ∨ key ∈ names.

#[global] Instance dropped_dec names key : Decision (dropped names key).
Proof. unfold dropped. apply _. Defined.

Lemma sanitizeEntry_eq names result key values :
  sanitizeEntry names result (key, values) =
  if decide (dropped names (CanonicalHeaderKey key)) then result
  else <[CanonicalHeaderKey key := default [] (result !! CanonicalHeaderKey key) ++ values]> result.
Proof.
  unfold sanitizeEntry, dropped. repeat case_bool_decide; case_decide; try done; exfalso; tauto.
Qed.

Lemma elem_of_connectionHeaders entries name :
  name ∈ connectionHeaders entries ↔
  ∃ key values value part, (key, values) ∈ entries ∧ equalFold key "Connection" = true
    ∧ value ∈ values ∧ part ∈ splitByte value "," ∧ name = CanonicalHeaderKey (trimSpace part) ∧ name ≠ [].
Proof.
  unfold connectionHeaders. induction entries as [|[key values] entries IH] using rev_ind; [set_solver|].
  rewrite foldl_app. cbn [foldl]. destruct (equalFold key "Connection") eqn:E.
  - rewrite elem_of_union, IH, elem_of_list_to_set, list_elem_of_bind. split.
    + intros [(value & Hn & Hv)|(k & vs & v & part & Hin & H')].
      * apply list_elem_of_filter in Hn as [Hne (part & -> & Hp)%list_elem_of_fmap].
        exists key, values, value, part. split; [set_solver|done].
      * exists k, vs, v, part. split; [set_solver|done].
    + intros (k & vs & v & part & [Hin|Hin%list_elem_of_singleton]%elem_of_app & Hk & Hv & Hp & Hn & Hne).
      * right. exists k, vs, v, part. done.
      * left. injection Hin as -> ->. exists v. split; [|done]. apply list_elem_of_filter. split; [done|].
        apply list_elem_of_fmap. eauto.
  - rewrite IH. split.
    + intros (k & vs & v & part & Hin & H'). exists k, vs, v, part. split; [set_solver|done].
    + intros (k & vs & v & part & [Hin|Hin%list_elem_of_singleton]%elem_of_app & Hk & H').
      * exists k, vs, v, part. done.
      * injection Hin as -> ->. congruence.
Qed.

(** The values a sanitized header has under a key. *)
Lemma foldl_sanitize names entries result key :
  foldl (sanitizeEntry names) result entries !! key =
  if decide (dropped names key) then result !! key
  else match filter (λ e : bytes * list bytes, CanonicalHeaderKey (fst e) = key) entries with
       | [] => result !! key
       | kept => Some (default [] (result !! key) ++ concat (snd <$> kept))
       end.
Proof.
  revert result. induction entries as [|[k vs] entries IH]; intros result; [by case_decide|].
  cbn [foldl]. rewrite IH, sanitizeEntry_eq.
  destruct (decide (CanonicalHeaderKey k = key)) as [Hk|Hk].
  - rewrite filter_cons_True by done. rewrite Hk. case_decide; [done|]. rewrite lookup_insert_eq. cbn [from_option id].
    destruct (filter _ entries) as [|e es]; csimpl; [by rewrite app_nil_r|]. f_equal. unfold id. by rewrite <- app_assoc.
  - rewrite filter_cons_False by done.
    assert ((if decide (dropped names (CanonicalHeaderKey k)) then result
             else <[CanonicalHeaderKey k := default [] (result !! CanonicalHeaderKey k) ++ vs]> result) !! key
            = result !! key) as ->; [|by destruct (filter _ entries)].
    destruct (decide (dropped names (CanonicalHeaderKey k))); [reflexivity|]. by rewrite lookup_insert_ne.
Qed.

(** A name some Connection field lists. *)
Definition listedByConnection (source : Header) (name : bytes) : Prop :=
  ∃ key values value part, source !! key = Some values ∧ equalFold key "Connection" = true
    ∧ value ∈ values ∧ part ∈ splitByte value "," ∧ name = CanonicalHeaderKey (trimSpace part).

(** ** Properties *)

(** The visiting orders only show in the order of the values. *)
Lemma sanitizeEntries_order source first second key :
  first ≡ₚ map_to_list source → second ≡ₚ map_to_list source →
  option_Forall2 (≡ₚ) (sanitizeEntries first second !! key) (sanitizeHeader source !! key).
Proof.
  intros H1 H2. unfold sanitizeHeader, sanitizeEntries. rewrite !foldl_sanitize, lookup_empty.
  replace (connectionHeaders first) with (connectionHeaders (map_to_list source)).
  2:{ apply set_eq. intros name. rewrite !elem_of_connectionHeaders. by setoid_rewrite H1. }
  destruct (decide _); [constructor|].
  pose proof (filter_Permutation (λ e : bytes * list bytes, CanonicalHeaderKey (fst e) = key) _ _ H2) as Hf.
  destruct (filter _ second) as [|e l], (filter _ (map_to_list source)) as [|e' l'].
  - constructor.
  - by apply Permutation_nil_l in Hf.
  - by apply Permutation_nil_r in Hf.
  - constructor. cbn [default from_option app]. by rewrite Hf.
Qed.

(** C16: exactly the end-to-end fields cross the gateway.  A field is kept, under
    its canonical key and with all the values of the fields that share the key,
    if and only if it is not a hop-by-hop field and no Connection field lists
    it; and the orders in which the two loops visit the map can change nothing
    but the order of the values of one key. *)
Theorem sanitizeHeader_iff source key :
  (∀ values, sanitizeHeader source !! key = Some values ↔
     key ≠ [] ∧ key ∉ hopByHopHeaders ∧ ¬ listedByConnection source key
     ∧ (∃ k, is_Some (source !! k) ∧ CanonicalHeaderKey k = key)
     ∧ values = concat (snd <$> filter (λ e : bytes * list bytes, CanonicalHeaderKey (fst e) = key)
                                (map_to_list source)))
  ∧ ∀ first second, first ≡ₚ map_to_list source → second ≡ₚ map_to_list source →
      option_Forall2 (≡ₚ) (sanitizeEntries first second !! key) (sanitizeHeader source !! key).
Proof.
  split; [intros values|intros first second; by apply sanitizeEntries_order].
  unfold sanitizeHeader, sanitizeEntries. rewrite foldl_sanitize, lookup_empty.
  assert (key ≠ [] → key ∈ connectionHeaders (map_to_list source) ↔ listedByConnection source key) as Hlisted.
  { intros Hne. rewrite elem_of_connectionHeaders. unfold listedByConnection.
    setoid_rewrite elem_of_map_to_list. naive_solver. }
  assert ((∃ k, is_Some (source !! k) ∧ CanonicalHeaderKey k = key)
          ↔ filter (λ e : bytes * list bytes, CanonicalHeaderKey (fst e) = key) (map_to_list source) ≠ []) as ->.
  { split.
    - intros (k & [vs Hvs] & Hk) Hnil. assert ((k, vs) ∈ ([] : list (bytes * list bytes))) as Hin.
      { rewrite <- Hnil. apply list_elem_of_filter. split; [done|]. by apply elem_of_map_to_list. }
      by apply not_elem_of_nil in Hin.
    - intros Hne. destruct (filter _ _) as [|[k vs] l] eqn:E; [done|].
      assert ((k, vs) ∈ filter (λ e : bytes * list bytes, CanonicalHeaderKey (fst e) = key) (map_to_list source))
        as [Hk Hin%elem_of_map_to_list]%list_elem_of_filter by (rewrite E; by left).
      exists k. split; [by eexists|done]. }
  destruct (decide (dropped _ key)) as [Hd|Hd]; unfold dropped in Hd.
  - split; [done|]. intros (Hne & Hh & Hl & _). destruct Hd as [?|[?|Hc]]; [done..|].
    destruct Hl. by apply Hlisted.
  - assert (key ≠ [] ∧ key ∉ hopByHopHeaders ∧ ¬ listedByConnection source key) as (? & ? & ?).
    { assert (key ≠ []) as Hne by tauto. rewrite <- Hlisted by done. tauto. }
    destruct (filter _ _) as [|e l]; cbn [default from_option app].
    + split; [done|]. by intros (_ & _ & _ & ? & _).
    + split; [intros [= <-]; by split_and!|by intros (_ & _ & _ & _ & ->)].
Qed.
End Sanitize.

(** A response from a backend that lists [X-Internal] in its Connection field. *)
Theorem sanitizeHeader_example :
  let U := asciiUnicode in
  let source := {[("Connection" : bytes) := ["close, x-internal" : bytes]; ("X-Internal" : bytes) := ["1" : bytes];
                  ("Content-Type" : bytes) := ["text/plain" : bytes]; ("Te" : bytes) := ["trailers" : bytes]]} in
  map_to_list (sanitizeHeader source) = [("Content-Type" : bytes, ["text/plain" : bytes])].
Proof. intros U source. vm_compute. reflexivity. Qed.
