(* ===== verification/HttpFrontend.v ===== *)
(** operation/operation.go and server/http.go: the HTTP frontend, from a parsed
    request to the response or the tunnel, with the backend connector behind
    an interface. *)

From S2P Require Import Prelude GoStrings GoNet GoUrl Path TlsConfig Mount Resolve Policy ClientAddr Config.
From S2P Require Import GoBufio Sessions HttpHeader.

(** ** Operations and results (operation.go) *)

Inductive OperationOutcome :=
| OutcomePassthrough | OutcomeSuccess | OutcomeNotFound | OutcomePermissionDenied | OutcomeUpstreamFailure
| OtherOutcome (value : Z).

#[export] Instance OperationOutcome_eq_dec : EqDecision OperationOutcome.
Proof. solve_decision. Defined.

Record Fetch := {
  Fetch_Method : bytes;
  Fetch_Resource : bytes;
  Fetch_Metadata : Header;
  Fetch_Body : bytes;
}.

Record ListOp := {
  List_Resource : bytes;
  List_Metadata : Header;
}.

(** The body is read through [http.MaxBytesReader] of the given limit. *)
Record StoreOp := {
  Store_Method : bytes;
  Store_Resource : bytes;
  Store_Metadata : Header;
  Store_Body : bytes;
  Store_Limit : Z;
  Store_Size : Z;
}.

Record Relay := {
  Relay_Network : bytes;
  Relay_Address : bytes;
}.

#[export] Instance Relay_eq_dec : EqDecision Relay.
Proof. solve_decision. Defined.

(** The bodies of results are open [io.ReadCloser]s of a type [B]. *)
Record OperationResult (B : Type) := {
  Result_Outcome : OperationOutcome;
  Result_Status : Z;
  Result_Metadata : Header;
  Result_Body : option B;
}.
Arguments Build_OperationResult {B}.
Arguments Result_Outcome {B} o : rename.
Arguments Result_Status {B} o : rename.
Arguments Result_Metadata {B} o : rename.
Arguments Result_Body {B} o : rename.

(** An error value, by what [errors.Is] and [errors.As] find in its chain. *)
Record OperationError := {
  isDenied : bool;
  isTooLarge : bool;
  isUnsupported : bool;
}.

Definition plainError : OperationError := {| isDenied := false; isTooLarge := false; isUnsupported := false |}.
Definition errUnsupported : OperationError := {| isDenied := false; isTooLarge := false; isUnsupported := true |}.
Definition errStoreBodyTooLarge : OperationError := {| isDenied := false; isTooLarge := true; isUnsupported := false |}.

(** What the frontend asks of a connector; [None] is a connector that does not
    implement the optional interface.  Calls act on the world outside. *)
Class MountConnector (W B : Type) := {
  FetchForMount : Mount → Fetch → W → result (OperationResult B) OperationError * W;
  StoreForMount : option (Mount → StoreOp → W → result (OperationResult B) OperationError * W);
  ListForMount : option (Mount → ListOp → W → result (OperationResult B) OperationError * W);
}.

(** [Read], with the size of the buffer, and [Close] of a body; [bodyReads]
    bounds how often it can still be read without an error. *)
Class ResultBody (W B : Type) := {
  bodyRead : nat → B → W → bytes * option ReadError * B * W;
  bodyClose : B → W → W;
  bodyReads : B → nat;
}.

Class ResultBodyLaws (W B : Type) `{!ResultBody W B} := {
  bodyRead_progress size body (w : W) chunk body' w' :
    0 < size → bodyRead size body w = (chunk, None, body', w') → bodyReads body' < bodyReads body;
}.

(** ** Requests and responses *)

(** [Request_Writes n] is whether the client takes the [n]-th write of a
    response body. *)
Record HTTPRequest := {
  Request_Method : bytes;
  Request_URL : URL;
  Request_URI : bytes;
  Request_Header : Header;
  Request_RemoteAddr : bytes;
  Request_ContentLength : Z;
  Request_Body : bytes;
  Request_Writes : nat → bool;
}.

Record Response := {
  Response_Status : Z;
  Response_Header : Header;
  Response_Body : bytes;
}.

(** A handler answers, or aborts the connection in the middle of an answer. *)
Inductive Served := Responded (r : Response) | AbortedAfter (r : Response).

(** [http.Error]. *)
Definition httpError (message : bytes) (status : Z) : Response :=
  {| Response_Status := status;
     Response_Header := {[("Content-Type" : bytes) := ["text/plain; charset=utf-8" : bytes];
                          ("X-Content-Type-Options" : bytes) := ["nosniff" : bytes]]};
     Response_Body := message ++ ["010"%char] |}.

Definition StatusBadRequest : Z := 400.
Definition StatusForbidden : Z := 403.
Definition StatusNotFound : Z := 404.
Definition StatusMethodNotAllowed : Z := 405.
Definition StatusRequestEntityTooLarge : Z := 413.
Definition StatusInternalServerError : Z := 500.
Definition StatusNotImplemented : Z := 501.
Definition StatusBadGateway : Z := 502.

(** net/http refuses to write a body with these statuses. *)
Definition bodyAllowedForStatus (status : Z) : bool :=
  negb ((100 <=? status)%Z && (status <=? 199)%Z || (status =? 204)%Z || (status =? 304)%Z).

Definition reasonText (r : ReasonCode) : bytes :=
  match r with
  | ReasonDefaultDeny => "default_deny"
  | ReasonExplicitPermit => "explicit_permit"
  | ReasonExplicitReject => "explicit_reject"
  end.

(** ** Helpers of the handler *)

(** [func resultHTTPStatus]. *)
Definition resultHTTPStatus {B} (r : OperationResult B) (method : bytes) : option Z :=
  match Result_Outcome r with
  | OutcomePassthrough =>
      if (Result_Status r <? 200)%Z || (599 <? Result_Status r)%Z then None else Some (Result_Status r)
  | OutcomeSuccess => if bool_decide (method = "PUT") then Some 204%Z else Some 200%Z
  | OutcomeNotFound => Some StatusNotFound
  | OutcomePermissionDenied => Some StatusForbidden
  | OutcomeUpstreamFailure => Some StatusBadGateway
  | OtherOutcome _ => None
  end.

(** [func remoteHost]. *)
Definition remoteHost (address : bytes) : bytes :=
  match splitHostPort address with
  | Some (host, _) => host
  | None => address
  end.

(** [prefixes] in [policySource]: [None] when one does not parse. *)
Fixpoint parsePrefixes (texts : list bytes) : option (list Prefix) :=
  match texts with
  | [] => Some []
  | text :: rest =>
      match parsePrefix text with
      | None => None
      | Some prefix => match parsePrefixes rest with Some l => Some (prefix :: l) | None => None end
      end
  end.

(** The loop of [policySource] over the servers. *)
Fixpoint policySourceLoop (servers : list Server) (serverName : bytes) (request : HTTPRequest) : option bytes :=
  match servers with
  | [] => Some (remoteHost (Request_RemoteAddr request))
  | frontend :: rest =>
      if negb (bool_decide (Server_Name frontend = serverName)) || bool_decide (ClientIPHeader frontend = [])
      then policySourceLoop rest serverName request
      else
        match parsePrefixes (TrustedProxies frontend) with
        | None => None
        | Some prefixes =>
            let forwarded := join (headerValues (Request_Header request) (ClientIPHeader frontend)) "," in
            match ResolveClient (Request_RemoteAddr request) forwarded prefixes with
            | Ok source => Some source
            | Err _ => None
            end
        end
  end.

Definition policySource (configured : Config) (serverName : bytes) (request : HTTPRequest) : option bytes :=
  policySourceLoop (Servers configured) serverName request.

Definition maxStoreBodyBytes : Z := Z.shiftl 32 20.

Section Frontend.
Context `{UnicodeData}.

Definition targetHostname (target : bytes) : bytes :=
  match parseURL target with
  | Some parsed => hostname parsed
  | None => []
  end.

(** [func backendResource]: the request query goes after the target's own. *)
Definition backendResource (target rawQuery : bytes) : option bytes :=
  match parseURL target with
  | None => None
  | Some parsed =>
      let query :=
        if bool_decide (rawQuery = []) then RawQuery parsed
        else if negb (bool_decide (RawQuery parsed = [])) then RawQuery parsed ++ "&" ++ rawQuery
        else rawQuery in
      Some (urlString {| Scheme := Scheme parsed; Opaque := Opaque parsed; User := User parsed; Host := Host parsed;
                         Path := GoUrl.Path parsed; RawPath := RawPath parsed; ForceQuery := ForceQuery parsed;
                         RawQuery := query; Fragment := Fragment parsed; RawFragment := RawFragment parsed;
                         OmitHost := OmitHost parsed |})
  end.

(** [func relayOperation]. *)
Definition relayOperation (target : bytes) : option Relay :=
  match parseURL target with
  | None => None
  | Some parsed =>
      if negb (equalFold (Scheme parsed) "tcp") || bool_decide (Host parsed = []) then None
      else match ValidateConnectAuthority (Host parsed) with
           | Ok _ => Some {| Relay_Network := "tcp"; Relay_Address := Host parsed |}
           | Err _ => None
           end
  end.
End Frontend.

(** ** Bodies *)

Section Body.
Context {W B : Type} `{!ResultBody W B}.

(** [io.Copy] of a body to the response: what the client took, and whether
    the copy ends without an error; nothing of a failed write arrives.
    [written] counts the writes. *)
Fixpoint copyLoop (fuel : nat) (accepts : nat → bool) (written : nat) (body : B) (w : W) : bytes * bool * B * W :=
  match fuel with
  | 0 => ([], false, body, w)
  | S fuel =>
      let '(chunk, err, body, w) := bodyRead copyBuffer body w in
      if bool_decide (chunk ≠ []) && negb (accepts written) then ([], false, body, w)
      else
        match err with
        | Some err => (chunk, bool_decide (err = EOF), body, w)
        | None =>
            let '(rest, ok, body, w) := copyLoop fuel accepts (if bool_decide (chunk ≠ []) then S written else written) body w in
            (chunk ++ rest, ok, body, w)
        end
  end.

Definition copyBody (accepts : nat → bool) (body : B) (w : W) : bytes * bool * B * W :=
  copyLoop (S (bodyReads body)) accepts 0 body w.
End Body.

(** ** The handler *)

Section Handler.
Context `{UnicodeData} {W B : Type} `{!MountConnector W B} `{!ResultBody W B}.
(** [h.snapshot] and [h.server]. *)
Context (snapshot : W → Config * W) (server : bytes).

(** The function literal passed to [Enforce]. *)
Definition callConnector (matched : Match) (request : HTTPRequest) (w : W)
    : result (OperationResult B) OperationError * W :=
  match backendResource (Match_Target matched) (RawQuery (Request_URL request)) with
  | None => (Err plainError, w)
  | Some resource =>
      let metadata := cloneHeader (Request_Header request) in
      if bool_decide (Request_Method request = "LIST") then
        match ListForMount with
        | None => (Err errUnsupported, w)
        | Some list => list (Match_Mount matched) {| List_Resource := resource; List_Metadata := metadata |} w
        end
      else if bool_decide (Request_Method request = "PUT") then
        if (maxStoreBodyBytes <? Request_ContentLength request)%Z then (Err errStoreBodyTooLarge, w)
        else
          match StoreForMount with
          | None => (Err plainError, w)
          | Some store =>
              store (Match_Mount matched)
                {| Store_Method := Request_Method request; Store_Resource := resource; Store_Metadata := metadata;
                   Store_Body := Request_Body request; Store_Limit := maxStoreBodyBytes;
                   Store_Size := Request_ContentLength request |} w
          end
      else
        FetchForMount (Match_Mount matched)
          {| Fetch_Method := Request_Method request; Fetch_Resource := resource; Fetch_Metadata := metadata;
             Fetch_Body := Request_Body request |} w
  end.

(** The variable [result] is assigned inside the function literal: [Enforce]
    runs over the world extended with it. *)
Definition emptyResult : OperationResult B :=
  {| Result_Outcome := OutcomePassthrough; Result_Status := 0; Result_Metadata := ∅; Result_Body := None |}.

Definition enforceCall (decision : PolicyDecision) (matched : Match) (request : HTTPRequest) (w : W)
    : result unit (EnforceError OperationError) * (OperationResult B * W) :=
  Enforce decision
    (Some (λ state : OperationResult B * W,
             let '(r, w) := callConnector matched request (snd state) in
             match r with
             | Ok result => (Ok tt, (result, w))
             | Err e => (Err e, (emptyResult, w))
             end))
    (emptyResult, w).

(** From the connector's result to the response.  The body is closed by a
    deferred call, also when the copy fails and the handler panics. *)
Definition respond (request : HTTPRequest) (result : OperationResult B) (w : W) : Served * W :=
  match resultHTTPStatus result (Request_Method request) with
  | None =>
      (Responded (httpError "invalid backend result" StatusBadGateway),
       match Result_Body result with Some body => bodyClose body w | None => w end)
  | Some status =>
      let header := copyResponseHeader ∅ (Result_Metadata result) in
      match Result_Body result with
      | None => (Responded {| Response_Status := status; Response_Header := header; Response_Body := [] |}, w)
      | Some body =>
          let accepts n := bodyAllowedForStatus status && Request_Writes request n in
          let '(data, ok, body, w) := copyBody accepts body w in
          let response := {| Response_Status := status; Response_Header := header; Response_Body := data |} in
          (if ok then Responded response else AbortedAfter response, bodyClose body w)
      end
  end.

Definition errorIs (test : OperationError → bool) (onDenied : bool) (e : EnforceError OperationError) : bool :=
  match e with
  | ErrDenied _ => onDenied
  | NextError e => test e
  end.

(** The answer to an error of [Enforce]. *)
Definition enforceResponse (reason : ReasonCode) (e : EnforceError OperationError) : Response :=
  if errorIs isDenied true e then httpError (reasonText reason) StatusForbidden
  else if errorIs isTooLarge false e then httpError "store body too large" StatusRequestEntityTooLarge
  else if errorIs isUnsupported false e then httpError "method not supported by backend" StatusMethodNotAllowed
  else httpError "backend fetch failed" StatusBadGateway.

(** [ServeHTTP] for every method but CONNECT. *)
Definition serveOperation (request : HTTPRequest) (w : W) : Served * W :=
  let url := Request_URL request in
  if isAbs url && (negb (bool_decide (User url = None)) || negb (bool_decide (Fragment url = [])))
  then (Responded (httpError "invalid absolute request target" StatusBadRequest), w)
  else
    let '(configured, w) := snapshot w in
    match ResolveFor (Mounts configured)
            {| MountRequest_Path := escapedPath url; MountRequest_Scheme := Scheme url;
               MountRequest_Authority := Host url; MountRequest_Server := server;
               MountRequest_Protocol := "http" |} with
    | Err ErrNoMatch => (Responded (httpError "no matching mount" StatusNotFound), w)
    | Err (ErrUnsafePath _) => (Responded (httpError "unsafe request path" StatusBadRequest), w)
    | Err ErrAmbiguous => (Responded (httpError "mount resolution failed" StatusInternalServerError), w)
    | Ok matched =>
        match policySource configured server request with
        | None => (Responded (httpError "invalid client address" StatusBadRequest), w)
        | Some source =>
            let decision := Evaluate (Policies configured)
              {| PolicyRequest_Source := source; PolicyRequest_Protocol := "http";
                 PolicyRequest_Destination := targetHostname (Match_Target matched);
                 PolicyRequest_Method := Request_Method request;
                 PolicyRequest_Mount := Mount_Pattern (Match_Mount matched) |} in
            let '(outcome, (result, w)) := enforceCall decision matched request w in
            match outcome with
            | Err e => (Responded (enforceResponse (Reason decision) e), w)
            | Ok _ => respond request result w
            end
        end
    end.

(** ** CONNECT *)

(** The resources of a tunnel.  The session table is part of the world, and
    other goroutines may use it during any of these calls. *)
Class RelayWorld := {
  isHijacker : bool;
  relayConnect : option (Relay → W → option conn * W);
  sessionsOf : W → Sessions;
  withSessions : Sessions → W → W;
  hijack : W → option conn * W;
  handshake : conn → conn → W → bool * W;
  relayStreams : conn → conn → W → W;
}.

Context `{!RelayWorld}.

Inductive ConnectServed := ConnectRefused (r : Response) | ConnectDropped | ConnectTunnelled.

Definition onSessions {A} (f : Sessions → A * Sessions) (w : W) : A * W :=
  let '(a, s) := f (sessionsOf w) in (a, withSessions s w).

Definition sessionsDo (f : Sessions → Sessions) (w : W) : W := withSessions (f (sessionsOf w)) w.

(** [beginSessionDrain] and [forceCloseSessions], what a shutdown asks of the
    handler; the second up to the closing of the connections it returns. *)
Definition beginSessionDrain (w : W) : W := sessionsDo beginDrain w.
Definition forceCloseSessions (w : W) : list conn * W := onSessions forceCloseLocked w.

(** The handler from the dial on; a returned [w] has run the deferred calls of
    the path taken, last registered first. *)
Definition tunnel (connect : Relay → W → option conn * W) (relay : Relay) (w : W) : ConnectServed * W :=
  let '(dialed, w) := connect relay w in
  match dialed with
  | None => (ConnectRefused (httpError "backend relay failed" StatusBadGateway), w)
  | Some backend =>
      let '(added, w) := onSessions (addSession (Some backend)) w in
      if negb added then (ConnectDropped, w)
      else
        let removeBackend := sessionsDo (removeSession backend) in
        let '(hijacked, w) := hijack w in
        match hijacked with
        | None => (ConnectDropped, removeBackend (sessionsDo (closeConn backend) w))
        | Some client =>
            let '(added, w) := onSessions (addSession (Some client)) w in
            if negb added then (ConnectDropped, removeBackend w)
            else
              let deferred w :=
                removeBackend (sessionsDo (removeSession client)
                  (sessionsDo (closeConn client) (sessionsDo (closeConn backend) w))) in
              let '(greeted, w) := handshake client backend w in
              if negb greeted then (ConnectDropped, deferred w)
              else (ConnectTunnelled, deferred (relayStreams client backend w))
        end
  end.

(** [func serveCONNECT]. *)
Definition serveCONNECT (request : HTTPRequest) (w : W) : ConnectServed * W :=
  let authority :=
    if bool_decide (Request_URI request = []) then Host (Request_URL request) else Request_URI request in
  match ValidateConnectAuthority authority with
  | Err _ => (ConnectRefused (httpError "invalid CONNECT authority" StatusBadRequest), w)
  | Ok _ =>
      let '(configured, w) := snapshot w in
      match ResolveFor (Mounts configured)
              {| MountRequest_Path := "/"; MountRequest_Scheme := "connect"; MountRequest_Authority := authority;
                 MountRequest_Server := server; MountRequest_Protocol := "http" |} with
      | Err ErrNoMatch => (ConnectRefused (httpError "no matching mount" StatusNotFound), w)
      | Err _ => (ConnectRefused (httpError "mount resolution failed" StatusInternalServerError), w)
      | Ok matched =>
          match policySource configured server request with
          | None => (ConnectRefused (httpError "invalid client address" StatusBadRequest), w)
          | Some source =>
              let decision := Evaluate (Policies configured)
                {| PolicyRequest_Source := source; PolicyRequest_Protocol := "http";
                   PolicyRequest_Destination := targetHostname (Match_Target matched);
                   PolicyRequest_Method := "CONNECT";
                   PolicyRequest_Mount := Mount_Pattern (Match_Mount matched) |} in
              if negb (Allowed decision)
              then (ConnectRefused (httpError (reasonText (Reason decision)) StatusForbidden), w)
              else if negb isHijacker
              then (ConnectRefused (httpError "CONNECT relay unavailable" StatusNotImplemented), w)
              else
                match relayConnect with
                | None => (ConnectRefused (httpError "CONNECT relay unavailable" StatusNotImplemented), w)
                | Some connect =>
                    match relayOperation (Match_Target matched) with
                    | None => (ConnectRefused (httpError "invalid relay target" StatusBadGateway), w)
                    | Some relay => tunnel connect relay w
                    end
                end
          end
      end
  end.

(** [func ServeHTTP]. *)
Definition ServeHTTP (request : HTTPRequest) (w : W) : (Served + ConnectServed) * W :=
  if bool_decide (Request_Method request = "CONNECT")
  then let '(served, w) := serveCONNECT request w in (inr served, w)
  else let '(served, w) := serveOperation request w in (inl served, w).
End Handler.

(** ** Properties *)

Section BodyProperties.
Context {W B : Type} `{!ResultBody W B} `{!ResultBodyLaws W B}.

(** The reads of a body up to its first error. *)
Inductive bodyYields : B → W → bytes → ReadError → B → W → Prop :=
| YieldsLast body w chunk err body' w' :
    bodyRead copyBuffer body w = (chunk, Some err, body', w') → bodyYields body w chunk err body' w'
| YieldsMore body w chunk body1 w1 rest err body' w' :
    bodyRead copyBuffer body w = (chunk, None, body1, w1) → bodyYields body1 w1 rest err body' w' →
    bodyYields body w (chunk ++ rest) err body' w'.

(** A copy that ends without an error has read the body to its end and given
    all of it to the client; any other has met an error of the body or a write
    the client did not take. *)
Lemma copyBody_spec accepts body w data ok body' w' :
  copyBody accepts body w = (data, ok, body', w') →
  (ok = true → bodyYields body w data EOF body' w')
  ∧ (ok = false → (∃ n, accepts n = false) ∨ ∃ err, err ≠ EOF ∧ bodyYields body w data err body' w').
Proof.
  unfold copyBody. generalize 0 at 1. remember (S (bodyReads body)) as fuel eqn:Hfuel.
  assert (bodyReads body < fuel) as Hlt by lia. clear Hfuel. revert body w data Hlt.
  induction fuel as [|fuel IH]; intros body w data Hlt n; [lia|]. cbn [copyLoop].
  destruct (bodyRead copyBuffer body w) as [[[chunk err] body1] w1] eqn:Hread.
  destruct (bool_decide (chunk ≠ []) && negb (accepts n)) eqn:Hw.
  { intros [= <- <- <- <-]. split; [done|]. intros _. left. exists n. by destruct (accepts n); [rewrite andb_comm in Hw|]. }
  destruct err as [err|].
  - intros [= <- <- <- <-]. clear Hw. case_bool_decide as He; [subst err|]; split; try done; intros _; [by constructor|].
    right. exists err. split; [done|by constructor].
  - destruct (copyLoop fuel accepts _ body1 w1) as [[[rest ok1] body2] w2] eqn:Hrest. intros [= <- -> -> ->].
    apply bodyRead_progress in Hread as Hless; [|apply Nat.ltb_lt; by vm_compute].
    apply IH in Hrest as [Hok Hbad]; [|lia]. split; intros E.
    + eapply YieldsMore; [done|auto].
    + destruct (Hbad E) as [?|(err & He & Hy)]; [by left|right]. exists err. split; [done|by eapply YieldsMore].
Qed.

(** One [Read] of [io.Copy]. *)
Definition readStep (from to : B * W) : Prop := ∃ chunk err, bodyRead copyBuffer (fst from) (snd from) = (chunk, err, fst to, snd to).

Lemma copyLoop_reads fuel accepts n body w data ok body' w' :
  copyLoop fuel accepts n body w = (data, ok, body', w') → rtc readStep (body, w) (body', w').
Proof.
  revert n body w data ok. induction fuel as [|fuel IH]; intros n body w data ok; cbn [copyLoop]; [by intros [= _ _ <- <-]|].
  destruct (bodyRead copyBuffer body w) as [[[chunk err] body1] w1] eqn:Hread.
  assert (readStep (body, w) (body1, w1)) as Hstep by by exists chunk, err.
  destruct (_ && _); [intros [= _ _ <- <-]; by apply rtc_once|].
  destruct err as [err|]; [intros [= _ _ <- <-]; by apply rtc_once|].
  destruct (copyLoop fuel accepts _ body1 w1) as [[[rest ok1] body2] w2] eqn:Hrest. intros [= _ _ -> ->].
  eapply rtc_l; [exact Hstep|by eapply IH].
Qed.

(** However the answer ends, a body is read some number of times and then
    closed, once. *)
Lemma respond_closes `{UnicodeData} request (result : OperationResult B) w body :
  Result_Body result = Some body →
  ∃ body' w', rtc readStep (body, w) (body', w') ∧ snd (respond request result w) = bodyClose body' w'.
Proof.
  intros Hbody. unfold respond. rewrite Hbody. destruct (resultHTTPStatus _ _) as [status|].
  - destruct (copyBody _ body w) as [[[data ok] body'] w'] eqn:Hcopy. exists body', w'. split; [|done].
    by eapply copyLoop_reads.
  - exists body, w. split; [constructor|done].
Qed.

Lemma respond_status `{UnicodeData} request (result : OperationResult B) w response w' :
  respond request result w = (Responded response, w') →
  Response_Status response = default StatusBadGateway (resultHTTPStatus result (Request_Method request)).
Proof.
  unfold respond. destruct (resultHTTPStatus _ _) as [status|]; [|by intros [= <- _]].
  destruct (Result_Body result) as [body|]; [|by intros [= <- _]].
  destruct (copyBody _ body w) as [[[data []] body'] w1]; [|done]. by intros [= <- _].
Qed.

(** An answer that is not aborted carries its body to the end. *)
Lemma respond_whole `{UnicodeData} request (result : OperationResult B) w status body response w' :
  resultHTTPStatus result (Request_Method request) = Some status → Result_Body result = Some body →
  respond request result w = (Responded response, w') →
  ∃ body' w1, bodyYields body w (Response_Body response) EOF body' w1 ∧ w' = bodyClose body' w1.
Proof.
  unfold respond. intros -> ->. destruct (copyBody _ body w) as [[[data ok] body'] w1] eqn:Hcopy.
  destruct ok; [|done]. intros [= <- <-]. exists body', w1. split; [|done]. cbn. by eapply copyBody_spec.
Qed.

Lemma respond_no_body `{UnicodeData} request (result : OperationResult B) w :
  Result_Body result = None → snd (respond request result w) = w.
Proof. intros Hbody. unfold respond. rewrite Hbody. by destruct (resultHTTPStatus _ _). Qed.
End BodyProperties.

Section Authorization.
Context `{UnicodeData} {W B : Type} `{!MountConnector W B} `{!ResultBody W B} `{!RelayWorld (W := W)}.
Context (snapshot : W → Config * W) (server : bytes).

(** The mount request and the policy decision of a request. *)
Definition operationMount (request : HTTPRequest) : MountRequest :=
  {| MountRequest_Path := escapedPath (Request_URL request); MountRequest_Scheme := Scheme (Request_URL request);
     MountRequest_Authority := Host (Request_URL request); MountRequest_Server := server;
     MountRequest_Protocol := "http" |}.

Definition connectAuthority (request : HTTPRequest) : bytes :=
  if bool_decide (Request_URI request = []) then Host (Request_URL request) else Request_URI request.

Definition connectMount (request : HTTPRequest) : MountRequest :=
  {| MountRequest_Path := "/"; MountRequest_Scheme := "connect";
     MountRequest_Authority := connectAuthority request; MountRequest_Server := server;
     MountRequest_Protocol := "http" |}.

Definition operationDecision (configured : Config) (method source : bytes) (matched : Match) : PolicyDecision :=
  Evaluate (Policies configured)
    {| PolicyRequest_Source := source; PolicyRequest_Protocol := "http";
       PolicyRequest_Destination := targetHostname (Match_Target matched);
       PolicyRequest_Method := method; PolicyRequest_Mount := Mount_Pattern (Match_Mount matched) |}.

(** How the handler goes on after the connector call. *)
Definition answerCall (decision : PolicyDecision) (request : HTTPRequest)
    (call : result (OperationResult B) OperationError * W) : Served * W :=
  match call with
  | (Ok result, w) => respond request result w
  | (Err e, w) => (Responded (enforceResponse (Reason decision) (NextError e)), w)
  end.

Lemma enforceCall_denied decision matched request w :
  Allowed decision = false →
  enforceCall decision matched request w = (Err (ErrDenied (Reason decision)), (emptyResult, w)).
Proof. unfold enforceCall, Enforce. by intros ->. Qed.

Lemma enforceCall_allowed decision matched request w :
  Allowed decision = true →
  enforceCall decision matched request w =
    match callConnector matched request w with
    | (Ok result, w') => (Ok tt, (result, w'))
    | (Err e, w') => (Err (NextError e), (emptyResult, w'))
    end.
Proof.
  unfold enforceCall, Enforce. intros ->. cbn [negb snd].
  by destruct (callConnector matched request w) as [[result|e] w'].
Qed.

(** The request target that is refused before anything is looked up. *)
Definition badTarget (request : HTTPRequest) : bool :=
  isAbs (Request_URL request)
  && (negb (bool_decide (User (Request_URL request) = None)) || negb (bool_decide (Fragment (Request_URL request) = []))).

(** The handler, by what mounts, client address and policy say. *)
Lemma serveOperation_cases request w configured w1 :
  snapshot w = (configured, w1) →
  serveOperation snapshot server request w =
    if badTarget request then (Responded (httpError "invalid absolute request target" StatusBadRequest), w)
    else
      match ResolveFor (Mounts configured) (operationMount request) with
      | Err ErrNoMatch => (Responded (httpError "no matching mount" StatusNotFound), w1)
      | Err (ErrUnsafePath _) => (Responded (httpError "unsafe request path" StatusBadRequest), w1)
      | Err ErrAmbiguous => (Responded (httpError "mount resolution failed" StatusInternalServerError), w1)
      | Ok matched =>
          match policySource configured server request with
          | None => (Responded (httpError "invalid client address" StatusBadRequest), w1)
          | Some source =>
              let decision := operationDecision configured (Request_Method request) source matched in
              if Allowed decision then answerCall decision request (callConnector matched request w1)
              else (Responded (httpError (reasonText (Reason decision)) StatusForbidden), w1)
          end
      end.
Proof.
  intros Hsnap. unfold serveOperation, badTarget. cbv zeta. destruct (_ && _); [done|]. rewrite Hsnap.
  fold (operationMount request). destruct (ResolveFor _ _) as [matched|[]]; [|done..].
  destruct (policySource configured server request) as [source|]; [|done].
  fold (operationDecision configured (Request_Method request) source matched).
  destruct (Allowed (operationDecision configured (Request_Method request) source matched)) eqn:Hallowed.
  - rewrite enforceCall_allowed by done. by destruct (callConnector matched request w1) as [[result|e] w'].
  - by rewrite enforceCall_denied.
Qed.

Lemma serveOperation_world request w configured w1 :
  snapshot w = (configured, w1) →
  snd (serveOperation snapshot server request w) = w
  ∨ snd (serveOperation snapshot server request w) = w1
  ∨ ∃ matched source, ResolveFor (Mounts configured) (operationMount request) = Ok matched
      ∧ policySource configured server request = Some source
      ∧ Allowed (operationDecision configured (Request_Method request) source matched) = true
      ∧ serveOperation snapshot server request w
        = answerCall (operationDecision configured (Request_Method request) source matched) request
            (callConnector matched request w1).
Proof.
  intros Hsnap. rewrite (serveOperation_cases _ _ _ _ Hsnap). destruct (badTarget request); [by left|right].
  destruct (ResolveFor _ _) as [matched|[]]; [|by left..].
  destruct (policySource configured server request) as [source|]; [|by left]. cbv zeta.
  destruct (Allowed (operationDecision configured (Request_Method request) source matched)) eqn:Hallowed; [right|by left].
  by exists matched, source.
Qed.

Lemma relayOperation_Some target relay :
  relayOperation target = Some relay →
  Relay_Network relay = "tcp" ∧ ValidateConnectAuthority (Relay_Address relay) = Ok tt.
Proof.
  unfold relayOperation. destruct (parseURL target) as [parsed|]; [|done].
  destruct (_ || _); [done|]. destruct (ValidateConnectAuthority _) as [[]|] eqn:Hv; [|done].
  by intros [= <-].
Qed.

Lemma serveCONNECT_world request w configured w1 :
  snapshot w = (configured, w1) →
  (∃ r, serveCONNECT snapshot server request w = (ConnectRefused r, w))
  ∨ (∃ r, serveCONNECT snapshot server request w = (ConnectRefused r, w1))
  ∨ ∃ matched source connect relay, ResolveFor (Mounts configured) (connectMount request) = Ok matched
      ∧ policySource configured server request = Some source
      ∧ Allowed (operationDecision configured "CONNECT" source matched) = true
      ∧ relayConnect = Some connect ∧ relayOperation (Match_Target matched) = Some relay
      ∧ serveCONNECT snapshot server request w = tunnel connect relay w1.
Proof.
  intros Hsnap. unfold serveCONNECT. fold (connectAuthority request).
  destruct (ValidateConnectAuthority _); [right|left; by eexists]. rewrite Hsnap. fold (connectMount request).
  destruct (ResolveFor _ _) as [matched|[]]; [|left; by eexists..].
  destruct (policySource configured server request) as [source|]; [|left; by eexists].
  fold (operationDecision configured "CONNECT" source matched).
  destruct (Allowed (operationDecision configured "CONNECT" source matched)) eqn:Hallowed; cbn [negb]; [|left; by eexists].
  destruct isHijacker; cbn [negb]; [|left; by eexists].
  destruct relayConnect as [connect|]; [|left; by eexists].
  destruct (relayOperation (Match_Target matched)) as [relay|] eqn:Hrelay; [right|left; by eexists].
  by exists matched, source, connect, relay.
Qed.

(** C11: nothing reaches a backend without permission.  Serving a request leaves
    the world as it was, or as reading the configuration snapshot left it,
    unless the mounts select a target, the client's address is known and the
    policy allows the operation on that target; and then what happens is the
    one connector call with the answering of its result, or the one tunnel, for
    the target the mount names, a tunnel going to a valid TCP authority. *)
Theorem ServeHTTP_authorized request w configured w1 :
  snapshot w = (configured, w1) →
  snd (ServeHTTP snapshot server request w) = w
  ∨ snd (ServeHTTP snapshot server request w) = w1
  ∨ (Request_Method request ≠ "CONNECT" ∧ ∃ matched source,
       ResolveFor (Mounts configured) (operationMount request) = Ok matched
       ∧ policySource configured server request = Some source
       ∧ Allowed (operationDecision configured (Request_Method request) source matched) = true
       ∧ snd (ServeHTTP snapshot server request w)
         = snd (answerCall (operationDecision configured (Request_Method request) source matched) request
                  (callConnector matched request w1)))
  ∨ (Request_Method request = "CONNECT" ∧ ∃ matched source connect relay,
       ResolveFor (Mounts configured) (connectMount request) = Ok matched
       ∧ policySource configured server request = Some source
       ∧ Allowed (operationDecision configured "CONNECT" source matched) = true
       ∧ relayConnect = Some connect ∧ relayOperation (Match_Target matched) = Some relay
       ∧ Relay_Network relay = "tcp" ∧ ValidateConnectAuthority (Relay_Address relay) = Ok tt
       ∧ snd (ServeHTTP snapshot server request w) = snd (tunnel connect relay w1)).
Proof.
  intros Hsnap. unfold ServeHTTP. case_bool_decide as Hm.
  - destruct (serveCONNECT_world request w configured w1 Hsnap)
      as [[r Hw]|[[r Hw]|(matched & source & connect & relay & ? & ? & ? & ? & Hr & Heq)]];
      [rewrite Hw; by left|rewrite Hw; by auto|].
    destruct (serveCONNECT snapshot server request w) as [served w'] eqn:E. cbn [snd].
    do 3 right. split; [done|]. exists matched, source, connect, relay.
    apply relayOperation_Some in Hr as Hrel. destruct Hrel. rewrite <- Heq. split_and!; done.
  - destruct (serveOperation_world request w configured w1 Hsnap)
      as [Hw|[Hw|(matched & source & ? & ? & ? & Hw)]];
      destruct (serveOperation snapshot server request w) as [served w'] eqn:E; cbn [snd] in *; [by left|by auto|].
    right; right; left. split; [done|]. exists matched, source. by rewrite <- Hw.
Qed.

End Authorization.

(** ** The life of a tunnel's connections *)

Section Tunnel.
Context {W : Type} `{!RelayWorld (W := W)}.

(** What the surroundings guarantee: the session table is a field of the
    world, and no call forgets that a connection was closed. *)
Class RelayLaws := {
  sessions_get s (w : W) : sessionsOf (withSessions s w) = s;
  hijack_closed w : sessionClosed (sessionsOf w) ⊆ sessionClosed (sessionsOf (snd (hijack w)));
  handshake_closed c d w : sessionClosed (sessionsOf w) ⊆ sessionClosed (sessionsOf (snd (handshake c d w)));
  relay_closed c d w : sessionClosed (sessionsOf w) ⊆ sessionClosed (sessionsOf (relayStreams c d w));
}.

Lemma removeSession_closed c s : sessionClosed (removeSession c s) = sessionClosed s.
Proof. unfold removeSession, closeDrainedLocked. by repeat case_match. Qed.

Lemma removeSession_items c s : sessionItems (removeSession c s) = sessionItems s ∖ {[c]}.
Proof. unfold removeSession, closeDrainedLocked. by repeat case_match. Qed.

(** Once a shutdown has begun, a tunnel that is still being set up is dropped,
    with its backend connection closed and not owned. *)
Lemma tunnel_after_drain `{!RelayLaws} connect relay w backend w0 :
  connect relay w = (Some backend, beginSessionDrain w0) →
  ∃ w', tunnel connect relay w = (ConnectDropped, w') ∧ backend ∈ sessionClosed (sessionsOf w')
    ∧ sessionItems (sessionsOf w') = sessionItems (sessionsOf (beginSessionDrain w0)).
Proof.
  intros Hdial. unfold tunnel. rewrite Hdial. unfold beginSessionDrain, sessionsDo, onSessions. cbn [addSession].
  assert (sessionDraining (beginDrain (sessionsOf w0)) = true) as Hdrain.
  { unfold beginDrain. destruct (sessionDraining (sessionsOf w0)) eqn:E; [done|]. unfold closeDrainedLocked. by repeat case_match. }
  rewrite !sessions_get, Hdrain. eexists. split; [done|]. rewrite !sessions_get. cbn. split; [set_solver|done].
Qed.

(** C22: a tunnel cleans up.  However the handler ends after it has dialled the
    backend, the backend connection is no longer owned by the session table
    and has been closed, with one exception: a drain that begins between the
    two registrations. *)
Theorem tunnel_cleanup `{!RelayLaws} connect relay w backend w0 served w' :
  connect relay w = (Some backend, w0) →
  tunnel connect relay w = (served, w') →
  sessionDraining (sessionsOf w0) = true ∧ backend ∈ sessionClosed (sessionsOf w')
  ∨ backend ∉ sessionItems (sessionsOf w')
    ∧ (backend ∈ sessionClosed (sessionsOf w')
       ∨ served = ConnectDropped
         ∧ sessionDraining (sessionsOf w0) = false
         ∧ sessionDraining (sessionsOf (snd (hijack
              (withSessions (setItems ({[backend]} ∪ sessionItems (sessionsOf w0)) (sessionsOf w0)) w0)))) = true).
Proof.
  intros Hdial. unfold tunnel. rewrite Hdial. unfold onSessions at 1. cbn [addSession].
  destruct (sessionDraining (sessionsOf w0)) eqn:Hdrain.
  { cbn [negb]. intros [= <- <-]. left. rewrite sessions_get. cbn. split; [done|set_solver]. }
  intros Hrun. right. revert Hrun. cbn [negb]. set (w1 := withSessions _ w0) in *.
  pose proof (hijack_closed w1) as Hmono. destruct (hijack w1) as [[client|] w2] eqn:Hh; cbn [snd] in *.
  - unfold onSessions at 1. cbn [addSession]. destruct (sessionDraining (sessionsOf w2)) eqn:Hd2; cbn [negb].
    + intros [= <- <-]. unfold sessionsDo. rewrite !sessions_get, removeSession_items. split; [set_solver|by right].
    + destruct (handshake client backend _) as [greeted w3] eqn:Hg.
      assert (∀ w4, backend ∉ sessionItems (sessionsOf (sessionsDo (removeSession backend)
                 (sessionsDo (removeSession client) (sessionsDo (closeConn client) (sessionsDo (closeConn backend) w4)))))
              ∧ backend ∈ sessionClosed (sessionsOf (sessionsDo (removeSession backend)
                 (sessionsDo (removeSession client) (sessionsDo (closeConn client) (sessionsDo (closeConn backend) w4))))))
        as Hdef.
      { intros w4. unfold sessionsDo. rewrite !sessions_get, removeSession_items, !removeSession_closed. cbn. set_solver. }
      destruct greeted; cbn [negb]; intros [= <- <-]; destruct (Hdef w3), (Hdef (relayStreams client backend w3)); auto.
  - intros [= <- <-]. unfold sessionsDo. rewrite !sessions_get, removeSession_items, removeSession_closed. cbn.
    split; [set_solver|]. left. set_solver.
Qed.
End Tunnel.
