(* ===== verification/Handler.v ===== *)
(** server/http.go: the constructors of the HTTP handler, and the adapter that
    serves every mount with one connector. *)

From S2P Require Import Prelude GoStrings GoNet GoUrl TlsConfig Mount Resolve Policy ClientAddr Config Sessions.
From S2P Require Import HttpHeader HttpFrontend.

(** A [fetchConnector]; [None] is one without the optional method. *)
Class FetchConnector (W B : Type) := {
  connectorFetch : Fetch → W → result (OperationResult B) OperationError * W;
  connectorStore : option (StoreOp → W → result (OperationResult B) OperationError * W);
  connectorList : option (ListOp → W → result (OperationResult B) OperationError * W);
}.

Section Handler.
Context {W B : Type} `{!ResultBody W B}.

(** [fixedMountConnector] has all three methods, whatever it wraps. *)
Definition fixedMountConnector (connector : FetchConnector W B) : MountConnector W B := {|
  FetchForMount _ fetch w := connectorFetch fetch w;
  StoreForMount := Some (λ _ store w,
    match connectorStore with None => (Err plainError, w) | Some f => f store w end);
  ListForMount := Some (λ _ list w,
    match connectorList with None => (Err errUnsupported, w) | Some f => f list w end);
|}.

(** The struct [httpHandler]; its session table starts out new and lives in
    the world. *)
Record HTTPHandler := {
  handlerServer : bytes;
  handlerSnapshot : W → Config * W;
  handlerConnector : MountConnector W B;
  handlerRelay : option (Relay → W → option conn * W);
  handlerSessions : Sessions;
}.

Definition NewReloadableHTTPHandlerWithRoutesAndRelay (server : bytes) (snapshot : W → Config * W)
    (connector : MountConnector W B) (relay : option (Relay → W → option conn * W)) : HTTPHandler :=
  {| handlerServer := server; handlerSnapshot := snapshot; handlerConnector := connector; handlerRelay := relay;
     handlerSessions := newConnectionSessions |}.

Definition NewReloadableHTTPHandlerWithRoutes (server : bytes) (snapshot : W → Config * W)
    (connector : MountConnector W B) : HTTPHandler :=
  NewReloadableHTTPHandlerWithRoutesAndRelay server snapshot connector None.

Definition NewReloadableHTTPHandler (server : bytes) (snapshot : W → Config * W) (connector : FetchConnector W B)
    : HTTPHandler :=
  NewReloadableHTTPHandlerWithRoutes server snapshot (fixedMountConnector connector).

(** The configuration has no servers of its own. *)
Definition NewHTTPHandlerForServer (server : bytes) (mounts : list Mount) (rules : list Rule)
    (connector : FetchConnector W B) : HTTPHandler :=
  let fixed := {| Servers := []; Mounts := mounts; Policies := rules |} in
  NewReloadableHTTPHandler server (λ w, (fixed, w)) connector.

Definition NewHTTPHandler (mounts : list Mount) (rules : list Rule) (connector : FetchConnector W B) : HTTPHandler :=
  NewHTTPHandlerForServer [] mounts rules connector.

(** Serving with a handler: the surroundings of tunnels, with the handler's
    relay connector. *)
Definition handlerRelayWorld (h : HTTPHandler) (surroundings : RelayWorld (W := W)) : RelayWorld := {|
  isHijacker := isHijacker;
  relayConnect := handlerRelay h;
  sessionsOf := sessionsOf;
  withSessions := withSessions;
  hijack := hijack;
  handshake := handshake;
  relayStreams := relayStreams;
|}.

Definition handlerServe `{UnicodeData} (h : HTTPHandler) (surroundings : RelayWorld (W := W)) (request : HTTPRequest)
    (w : W) : (Served + ConnectServed) * W :=
  @ServeHTTP _ W B (handlerConnector h) _ (handlerSnapshot h) (handlerServer h) (handlerRelayWorld h surroundings) request w.
End Handler.
Arguments HTTPHandler W B : clear implicits.

(** ** What a fixed handler does *)

Section Fixed.
Context `{UnicodeData} {W B : Type} `{!ResultBody W B} (connector : FetchConnector W B) (surroundings : RelayWorld (W := W)).

Context (server : bytes) (mounts : list Mount) (rules : list Rule).

Definition fixedHandler : HTTPHandler W B := NewHTTPHandlerForServer server mounts rules connector.

(** A handler for a fixed set of mounts only ever does what its connector can:
    it refuses every CONNECT without touching anything, leaves the world as it
    is for a method the connector lacks, and authorizes by the address of the
    peer, whatever forwarding headers the request carries. *)
Theorem fixedHandler_serves request w :
  (Request_Method request = "CONNECT" →
     ∃ r, handlerServe fixedHandler surroundings request w = (inr (ConnectRefused r), w))
  ∧ (Request_Method request = "LIST" ∧ connectorList (W := W) = None
     ∨ Request_Method request = "PUT" ∧ connectorStore (W := W) = None →
     snd (handlerServe fixedHandler surroundings request w) = w)
  ∧ (snd (handlerServe fixedHandler surroundings request w) ≠ w → ∃ matched,
       ResolveFor mounts (operationMount server request) = Ok matched
       ∧ Allowed (operationDecision {| Servers := []; Mounts := mounts; Policies := rules |} (Request_Method request)
                    (remoteHost (Request_RemoteAddr request)) matched) = true).
Proof.
  set (fixed := {| Servers := []; Mounts := mounts; Policies := rules |}).
  set (snapshot := λ w : W, (fixed, w)).
  assert (∀ m, Request_Method request = m → m ≠ "CONNECT" →
    handlerServe fixedHandler surroundings request w =
      let '(served, w) := @serveOperation _ W B (fixedMountConnector connector) _ snapshot server request w in (inl served, w))
    as Hop by (intros m <- Hm; unfold handlerServe, ServeHTTP; by rewrite bool_decide_eq_false_2).
  assert (∀ m, Request_Method request = m → m ≠ "CONNECT" →
    snd (handlerServe fixedHandler surroundings request w) = w
    ∨ ∃ matched, ResolveFor mounts (operationMount server request) = Ok matched
      ∧ Allowed (operationDecision fixed m (remoteHost (Request_RemoteAddr request)) matched) = true
      ∧ snd (handlerServe fixedHandler surroundings request w)
        = snd (answerCall (operationDecision fixed m (remoteHost (Request_RemoteAddr request)) matched) request
                 (@callConnector _ W B (fixedMountConnector connector) matched request w))) as Hworld.
  { intros m Hm Hne. rewrite (Hop m Hm Hne).
    destruct (@serveOperation_world _ W B (fixedMountConnector connector) _ snapshot server request w fixed w eq_refl)
      as [Hw|[Hw|(matched & source & Hr & Hs & Ha & Hw)]]; destruct (serveOperation _ _ _ _) as [served w'];
      cbn [snd] in *; [by left|by left|]. right. exists matched. injection Hs as <-. subst m. by rewrite <- Hw. }
  assert (Request_Method request = "CONNECT" →
    ∃ r, handlerServe fixedHandler surroundings request w = (inr (ConnectRefused r), w)) as Hconnect.
  { intros Hm. unfold handlerServe, ServeHTTP. rewrite bool_decide_eq_true_2 by done.
    change (handlerSnapshot fixedHandler) with snapshot. change (handlerServer fixedHandler) with server.
    destruct (@serveCONNECT_world _ W (handlerRelayWorld fixedHandler surroundings) snapshot server request w fixed w eq_refl)
      as [[r Hw]|[[r Hw]|(? & ? & ? & ? & _ & _ & _ & Habs & _)]]; [..|done]; exists r; by rewrite Hw. }
  split_and!; [done| |].
  - intros Hm. assert (Request_Method request ≠ "CONNECT") as Hne by (by destruct Hm as [[-> _]|[-> _]]).
    destruct (Hworld _ eq_refl Hne) as [?|(matched & _ & _ & ->)]; [done|]. unfold callConnector.
    destruct (backendResource _ _) as [resource|]; [|done].
    destruct Hm as [[-> Hno]|[-> Hno]]; cbn; rewrite Hno; [done|by destruct (_ <? _)%Z].
  - intros Hne. destruct (decide (Request_Method request = "CONNECT")) as [Hm|Hm].
    + destruct (Hconnect Hm) as [r Hr]. by rewrite Hr in Hne.
    + destruct (Hworld _ eq_refl Hm) as [?|(matched & ? & ? & _)]; [done|]. by exists matched.
Qed.
End Fixed.
