(* ===== verification/Gateway.v ===== *)
(** The parts put together: explanations against the running frontend, and a
    concrete world in which the frontend's theorems are instantiated. *)

From S2P Require Import Prelude GoStrings GoNet GoUrl Path TlsConfig Mount Resolve Policy ClientAddr Config.
From S2P Require Import GoBufio Store Sessions Explain HttpHeader HttpFrontend.

(** ** Explanations are predictions *)

Section Agreement.
Context `{UnicodeData} {W B : Type} `{!MountConnector W B} `{!ResultBody W B}.
Context (snapshot : W → Config * W) (server : bytes).

(** The question that corresponds to an origin-form request. *)
Definition explainRequest (request : HTTPRequest) (source : bytes) : ExplainRequest :=
  {| Explain_Path := escapedPath (Request_URL request); Explain_URL := []; Explain_Source := source;
     Explain_Server := server; Explain_Protocol := "http"; Explain_Method := Request_Method request |}.

(** The code shares no function between the two; this is the step they have in
    common. *)
Lemma Explain_origin configured request source result :
  Explain configured (explainRequest request source) = Ok result →
  Config_Validate configured = Ok tt
  ∧ match ResolveFor (Mounts configured)
            {| MountRequest_Path := escapedPath (Request_URL request); MountRequest_Scheme := [];
               MountRequest_Authority := []; MountRequest_Server := server; MountRequest_Protocol := "http" |} with
    | Err ErrNoMatch => Explained_Outcome result = OutcomeNoMount
    | Err (ErrUnsafePath _) => Explained_Outcome result = OutcomeUnsafePath
    | Err ErrAmbiguous => Explained_Outcome result = OutcomeAmbiguous
    | Ok matched =>
        let decision := operationDecision configured (Request_Method request) source matched in
        Explained_Policy result = Some decision
        ∧ Explained_Outcome result = (if Allowed decision then OutcomePermit else OutcomeReject)
        ∧ Explained_Mount result = Some {| MountResult_Path := Mount_Path (Match_Mount matched);
                                           MountResult_Source := Mount_Source (Match_Mount matched);
                                           MountResult_NormalizedPath := Match_NormalizedPath matched;
                                           MountResult_Target := Match_Target matched |}
    end.
Proof.
  unfold Explain. destruct (Config_Validate configured) as [[]|]; [|done]. cbn [wrap].
  destruct (Bool.eqb _ _); [done|]. do 4 (destruct (blank _); [done|]).
  cbn [explainRequest Explain_URL Explain_Path Explain_Source Explain_Server Explain_Protocol Explain_Method].
  rewrite bool_decide_eq_true_2 by done. cbn [negb].
  destruct (ResolveFor _ _) as [matched|[]]; [|by intros [= <-]..].
  unfold operationDecision, targetHostname.
  destruct (parseURL (Match_Target matched)) as [target|]; [|done]. cbn [orElse].
  by intros [= <-].
Qed.

(** C13: an explanation predicts the frontend.  For an origin-form request with
    the client address the frontend would compute, whatever [explain] answers
    is what serving the request does: the same mount, the same decision and
    reason, the corresponding status, and a connector call, whose result is the
    answer, exactly when the explanation permits it. *)
Theorem Explain_predicts request w configured w1 source result :
  snapshot w = (configured, w1) →
  Scheme (Request_URL request) = [] → Host (Request_URL request) = [] →
  policySource configured server request = Some source →
  Explain configured (explainRequest request source) = Ok result →
  match Explained_Outcome result with
  | OutcomeNoMount =>
      serveOperation snapshot server request w = (Responded (httpError "no matching mount" 404), w1)
  | OutcomeUnsafePath =>
      serveOperation snapshot server request w = (Responded (httpError "unsafe request path" 400), w1)
  | OutcomeAmbiguous =>
      serveOperation snapshot server request w = (Responded (httpError "mount resolution failed" 500), w1)
  | OutcomeReject => ∃ decision, Explained_Policy result = Some decision
      ∧ serveOperation snapshot server request w
        = (Responded (httpError (reasonText (Reason decision)) 403), w1)
  | OutcomePermit => ∃ matched, ResolveFor (Mounts configured) (operationMount server request) = Ok matched
      ∧ MountResult_Target <$> Explained_Mount result = Some (Match_Target matched)
      ∧ serveOperation snapshot server request w
        = answerCall (operationDecision configured (Request_Method request) source matched) request
            (callConnector matched request w1)
  end.
Proof.
  intros Hsnap Hscheme Hhost Hsource Hexplain. apply Explain_origin in Hexplain as [_ Hex].
  rewrite (serveOperation_cases _ _ _ _ _ _ Hsnap), Hsource.
  assert (badTarget request = false) as -> by (unfold badTarget, isAbs; by rewrite Hscheme).
  assert (operationMount server request =
    {| MountRequest_Path := escapedPath (Request_URL request); MountRequest_Scheme := [];
       MountRequest_Authority := []; MountRequest_Server := server; MountRequest_Protocol := "http" |}) as Hmount
    by (unfold operationMount; by rewrite Hscheme, Hhost).
  rewrite <- Hmount in Hex. destruct (ResolveFor _ _) as [matched|[]]; [|by rewrite Hex..].
  destruct Hex as (Hpolicy & Houtcome & Hm). cbv zeta in Houtcome |- *. rewrite Houtcome.
  destruct (Allowed (operationDecision configured (Request_Method request) source matched)) eqn:Ha.
  - exists matched. split; [done|]. by rewrite Hm.
  - by eexists.
Qed.
End Agreement.

(** ** A concrete world *)

Section World.
#[local] Existing Instance asciiUnicode.

(** A backend that logs the resources it is asked for, and a session table;
    [shuttingDown] makes a drain begin while a client is being hijacked. *)
Record TestWorld := {
  fetched : list bytes;
  table : Sessions;
  shuttingDown : bool;
}.

#[export] Instance test_connector : MountConnector TestWorld reader := {|
  FetchForMount m f w :=
    (Ok {| Result_Outcome := OutcomePassthrough; Result_Status := 200; Result_Metadata := ∅;
           Result_Body := Some [("hello" : bytes, None)] |},
     {| fetched := fetched w ++ [Fetch_Resource f]; table := table w; shuttingDown := shuttingDown w |});
  StoreForMount := None;
  ListForMount := None;
|}.

#[export] Instance test_body : ResultBody TestWorld reader := {|
  bodyRead size rd w := (readOnce size rd, w);
  bodyClose rd w := w;
  bodyReads rd := length rd + length (concat (fst <$> rd));
|}.

Definition withTable (s : Sessions) (w : TestWorld) : TestWorld :=
  {| fetched := fetched w; table := s; shuttingDown := shuttingDown w |}.

#[export] Instance test_relay : RelayWorld (W := TestWorld) := {|
  isHijacker := true;
  relayConnect := Some (λ relay w, (Some 1, w));
  sessionsOf := table;
  withSessions := withTable;
  hijack w := (Some 2, if shuttingDown w then withTable (beginDrain (table w)) w else w);
  handshake c d w := (true, w);
  relayStreams c d w := w;
|}.

#[export] Instance test_laws : RelayLaws (W := TestWorld).
Proof.
  split; [done| |done|done]. intros [f t []]; cbn; [|done]. unfold beginDrain, closeDrainedLocked.
  by repeat case_match.
Qed.

Definition testRule : Rule :=
  {| Rule_Effect := Permit; Rule_Priority := 0; Rule_Source := "192.0.2.0/24"; Rule_Protocol := "http";
     Rule_Destination := []; Rule_Method := []; Rule_Mount := [] |}.

Definition testMount (path source target : bytes) : Mount :=
  {| Mount_Path := path; Mount_Source := source; Mount_Target := target; Mount_Priority := 0; Mount_Server := [];
     Mount_Protocol := []; Mount_TLS := None |}.

Definition testConfig : Config :=
  {| Servers := [sampleServer];
     Mounts := [testMount "/app/*" [] "http://backend/v1/*";
                testMount [] "connect://db.example:5432" "tcp://10.0.0.5:5432"];
     Policies := [testRule] |}.

Definition testURL (path : bytes) : URL :=
  {| Scheme := []; Opaque := []; User := None; Host := []; GoUrl.Path := path; RawPath := []; ForceQuery := false;
     RawQuery := "q=1"; Fragment := []; RawFragment := []; OmitHost := false |}.

Definition testRequest (method path uri : bytes) : HTTPRequest :=
  {| Request_Method := method; Request_URL := testURL path; Request_URI := uri; Request_Header := ∅;
     Request_RemoteAddr := "192.0.2.7:4000"; Request_ContentLength := 0; Request_Body := [];
     Request_Writes n := true |}.

Definition testSnapshot (w : TestWorld) : Config * TestWorld := (testConfig, w).

Definition quiet : TestWorld := {| fetched := []; table := newConnectionSessions; shuttingDown := false |}.
Definition stopping : TestWorld := {| fetched := []; table := newConnectionSessions; shuttingDown := true |}.

Lemma ServeHTTP_authorized_witness :
  let request := testRequest "GET" "/app/a" "/app/a?q=1" in
  fetched (snd (ServeHTTP testSnapshot "web" request quiet)) = ["http://backend/v1/a?q=1" : bytes]
  ∧ ∃ matched, ResolveFor (Mounts testConfig) (operationMount "web" request) = Ok matched
      ∧ Match_Target matched = "http://backend/v1/a".
Proof.
  intros request.
  assert (fetched (snd (ServeHTTP testSnapshot "web" request quiet)) = ["http://backend/v1/a?q=1" : bytes])
    as Hfetched by by vm_compute.
  split; [exact Hfetched|].
  destruct (ServeHTTP_authorized testSnapshot "web" request quiet testConfig quiet eq_refl)
    as [Hw|[Hw|[(_ & matched & _ & Hres & _)|[Habs _]]]].
  - rewrite Hw in Hfetched. discriminate Hfetched.
  - rewrite Hw in Hfetched. discriminate Hfetched.
  - exists matched. split; [exact Hres|].
    assert (match ResolveFor (Mounts testConfig) (operationMount "web" request) with
            | Ok m => Match_Target m | Err _ => [] end = "http://backend/v1/a") as Ht by by vm_compute.
    by rewrite Hres in Ht.
  - discriminate Habs.
Defined.

Lemma Explain_predicts_witness :
  let request := testRequest "GET" "/other" "/other" in
  serveOperation testSnapshot "web" request quiet = (Responded (httpError "no matching mount" 404), quiet).
Proof.
  intros request. eassert (Explain testConfig (explainRequest "web" request "192.0.2.7") = Ok _) as Hex
    by (vm_compute; reflexivity).
  assert (policySource testConfig "web" request = Some ("192.0.2.7" : bytes)) as Hs by by vm_compute.
  exact (Explain_predicts testSnapshot "web" request quiet testConfig quiet "192.0.2.7" _
           eq_refl eq_refl eq_refl Hs Hex).
Defined.

(** A normal tunnel: both connections are closed at the end. *)
Lemma tunnel_cleanup_witness :
  let r := tunnel (λ relay w, (Some 1, w)) {| Relay_Network := "tcp"; Relay_Address := "h:1" |} quiet in
  fst r = ConnectTunnelled ∧ 1 ∉ sessionItems (sessionsOf (snd r)).
Proof.
  intros r. assert (fst r = ConnectTunnelled) as Ht by by vm_compute. split; [exact Ht|].
  destruct (tunnel_cleanup (λ relay w, (Some 1, w)) {| Relay_Network := "tcp"; Relay_Address := "h:1" |}
              quiet 1 quiet (fst r) (snd r) eq_refl) as [[Habs _]|[Hi _]].
  - apply surjective_pairing.
  - discriminate Habs.
  - exact Hi.
Defined.

(** The exception is real: when a drain begins after the backend was registered
    and before the client is, the handler returns with the backend connection
    neither closed nor owned by the session table, so that a forced close,
    which comes later, does not reach it either. *)
Theorem serveCONNECT_leaks_backend :
  let request := testRequest "CONNECT" [] "db.example:5432" in
  let '(served, w) := serveCONNECT testSnapshot "web" request stopping in
  served = ConnectDropped
  ∧ bool_decide (1 ∈ sessionClosed (table w)) = false ∧ bool_decide (1 ∈ sessionItems (table w)) = false
  ∧ 1 ∉ fst (forceCloseLocked (table w)).
Proof. vm_compute. split; [done|]. split; [done|]. split; [done|]. by intros ?%elem_of_nil. Qed.
End World.
