(* ===== verification/Tunnel.v ===== *)
(** server/http.go: CONNECT from the request to the last byte.  [serveCONNECT]
    is run over connections with the byte streams of [Relay], so that what the
    policy allowed and what the two peers see can be stated together. *)

From S2P Require Import Prelude GoStrings GoNet GoUrl GoBufio TlsConfig Mount Resolve Policy Config Sessions Relay.
From S2P Require Import Explain HttpHeader HttpFrontend Gateway.
From stdpp Require Import functions.

(** ** The greeting *)

Definition connectionEstablished : bytes :=
  "HTTP/1.1 200 Connection Established" ++ ["013"; "010"; "013"; "010"]%char.

Definition setReadDeadline (deadline : option Z) (c : TCPConn) : TCPConn :=
  let h := readHalf c in
  {| readHalf := {| inbound := inbound h; readDeadline := deadline; readCalls := readCalls h;
                    hasCloseRead := hasCloseRead h; readClosed := readClosed h |};
     writeHalf := writeHalf c |}.

Definition setWriteDeadline (deadline : option Z) (c : TCPConn) : TCPConn :=
  let h := writeHalf c in
  {| readHalf := readHalf c;
     writeHalf := {| outcomes := outcomes h; received := received h; writeFailed := writeFailed h;
                     writeDeadline := deadline; writeCalls := writeCalls h; hasCloseWrite := hasCloseWrite h;
                     writeClosed := writeClosed h |} |}.

(** [SetDeadline]. *)
Definition setDeadline (deadline : option Z) (c : TCPConn) : TCPConn :=
  setReadDeadline deadline (setWriteDeadline deadline c).

(** Between the registration of the client and the relay: the deadlines the
    HTTP server left behind are removed, and the status line, which fits the
    buffer, is written by one flush under a deadline of its own. *)
Definition greet (client backend : TCPConn) : bool * TCPConn * TCPConn :=
  let client := setDeadline None client in
  let backend := setDeadline None backend in
  let client := setWriteDeadline (Some connectHandshakeTimeout) client in
  let '(ok, half) := relayWrite bridgeMode connectionEstablished (writeHalf client) in
  let client := {| readHalf := readHalf client; writeHalf := half |} in
  (ok, if ok then setWriteDeadline None client else client, backend).

(** ** The world of a tunnel *)

(** The session table, and what every connection has still to deliver and has
    been sent; the input of a hijacked client begins with what the HTTP server
    had buffered. *)
Record NetWorld := {
  netSessions : Sessions;
  netConns : conn → TCPConn;
}.

Section Net.
(** Whether the response is an [http.Hijacker], the relay connector's dialer,
    and the client connection that hijacking yields. *)
Context (hijacker : bool) (dial : option (Relay → option conn)) (client : option conn).

Definition onConns (c d : conn) (f : TCPConn → TCPConn → TCPConn * TCPConn) (w : NetWorld) : NetWorld :=
  let '(c', d') := f (netConns w c) (netConns w d) in
  {| netSessions := netSessions w; netConns := <[c := c']> (<[d := d']> (netConns w)) |}.

#[export] Instance net_relay : RelayWorld (W := NetWorld) := {|
  isHijacker := hijacker;
  relayConnect := (λ dial relay w, (dial relay, w)) <$> dial;
  sessionsOf := netSessions;
  withSessions s w := {| netSessions := s; netConns := netConns w |};
  hijack w := (client, w);
  handshake c d w :=
    (fst (fst (greet (netConns w c) (netConns w d))),
     onConns c d (λ client backend, let '(_, client, backend) := greet client backend in (client, backend)) w);
  relayStreams c d w := onConns c d tunnelRelay w;
|}.

#[export] Instance net_laws : RelayLaws (W := NetWorld).
Proof. split; [done|done|..]; intros c d w; cbn; unfold onConns; by repeat case_match. Qed.

(** ** What the peers see *)

Lemma greet_true c b ok c' b' :
  greet c b = (ok, c', b') → ok = true → writable c → writable b →
  writable c' ∧ writable b'
  ∧ received (writeHalf c') = received (writeHalf c) ++ connectionEstablished
  ∧ received (writeHalf b') = received (writeHalf b)
  ∧ inbound (readHalf c') = inbound (readHalf c) ∧ inbound (readHalf b') = inbound (readHalf b)
  ∧ writeCalls (writeHalf c') = writeCalls (writeHalf c) ++ [Some connectHandshakeTimeout].
Proof.
  unfold greet, relayWrite. cbn [idle bridgeMode setWriteDeadline setDeadline setReadDeadline writeHalf outcomes].
  destruct (match outcomes (writeHalf c) with [] => _ | None :: _ => _ | Some _ :: _ => _ end) as [taken rest].
  destruct (length connectionEstablished <=? taken) eqn:Hok; [|by intros [= <- _ _]].
  intros [= <- <- <-] _ [Hcf Hcc] [Hbf Hbc]. reflect_bools. unfold writable. cbn. rewrite Hcf, take_ge by done. done.
Qed.

Lemma relayResult_passedOn mode c b :
  writable c → writable b →
  let '(c', b') := relayResult mode c b in
  passedOn mode true c b c' b' ∧ passedOn mode true b c b' c'.
Proof.
  intros Hc Hb. destruct (relayResult mode c b) as [c' b'] eqn:Hr.
  destruct (relay_transparent mode c b _ Hc Hb (relayFinal_reached mode c b)) as (H1 & H2 & _).
  unfold relayFinal in H1, H2. by rewrite Hr in H1, H2.
Qed.

Lemma onConns_spec c d f w c' d' :
  c ≠ d → f (netConns w c) (netConns w d) = (c', d') →
  netConns (onConns c d f w) c = c' ∧ netConns (onConns c d f w) d = d'.
Proof.
  intros Hne Hf. unfold onConns. rewrite Hf. cbn. split; [by rewrite fn_lookup_insert|].
  by rewrite fn_lookup_insert_ne, fn_lookup_insert.
Qed.

Lemma tunnel_transparent connect relay w b c w' :
  connect relay w = (Some b, w) → client = Some c → c ≠ b → writable (netConns w c) → writable (netConns w b) →
  tunnel connect relay w = (ConnectTunnelled, w') →
  (∃ c1, received (writeHalf c1) = received (writeHalf (netConns w c)) ++ connectionEstablished
    ∧ inbound (readHalf c1) = inbound (readHalf (netConns w c))
    ∧ ∃ b1, received (writeHalf b1) = received (writeHalf (netConns w b))
    ∧ inbound (readHalf b1) = inbound (readHalf (netConns w b))
    ∧ passedOn tunnelMode true c1 b1 (netConns w' c) (netConns w' b)
    ∧ passedOn tunnelMode true b1 c1 (netConns w' b) (netConns w' c))
  ∧ c ∈ sessionClosed (netSessions w') ∧ b ∈ sessionClosed (netSessions w')
  ∧ c ∉ sessionItems (netSessions w') ∧ b ∉ sessionItems (netSessions w').
Proof.
  intros Hdial Hc Hne Hfc Hfb. unfold tunnel. rewrite Hdial. unfold onSessions.
  destruct (addSession (Some b) _) as [[] s1]; cbn [negb]; [|done]. cbn [hijack net_relay]. rewrite Hc.
  destruct (addSession (Some c) _) as [[] s2]; cbn [negb]; [|done]. cbn [handshake net_relay].
  cbn [withSessions sessionsOf net_relay netConns netSessions].
  destruct (greet (netConns w c) (netConns w b)) as [[ok c1] b1] eqn:Hgreet. cbn [fst].
  destruct ok; cbn [negb]; [|done]. intros [= <-].
  destruct (greet_true _ _ _ _ _ Hgreet) as (Hf1 & Hf2 & Hr1 & Hr2 & Hi1 & Hi2 & _); [done..|].
  set (w1 := {| netSessions := s2; netConns := netConns w |}) in *.
  set (w2 := onConns c b _ w1).
  destruct (onConns_spec c b (λ client backend, let '(_, client, backend) := greet client backend in (client, backend))
              w1 c1 b1 Hne) as [Hc2 Hb2]; [by cbn; rewrite Hgreet|]. fold w2 in Hc2, Hb2.
  pose proof (relayResult_passedOn tunnelMode c1 b1 Hf1 Hf2) as Hpass.
  destruct (relayResult tunnelMode c1 b1) as [c3 b3] eqn:Hres. destruct Hpass as [Hforth Hback].
  destruct (onConns_spec c b tunnelRelay w2 c3 b3 Hne) as [Hc3 Hb3]; [by unfold tunnelRelay; rewrite Hc2, Hb2|].
  unfold sessionsDo. cbn [relayStreams sessionsOf withSessions net_relay netSessions netConns].
  set (w3 := onConns c b tunnelRelay w2) in *. rewrite Hc3, Hb3. split.
  - exists c1. split_and!; [done|done|]. by exists b1.
  - rewrite !removeSession_items, !removeSession_closed. cbn. set_solver.
Qed.

Context `{UnicodeData} (snapshot : NetWorld → Config * NetWorld) (server : bytes).

(** C12: a CONNECT tunnel is authorized and transparent.  When a tunnel was
    served, the policy allowed it, the connection dialled is the one of the TCP
    authority the mount names, the client was sent the 200 status line and after
    it exactly what the backend delivered, the backend exactly what the client
    delivered (each up to a write that failed, every call under the idle
    deadline), and both connections are closed and no longer owned by the
    session table. *)
Theorem serveCONNECT_transparent request w configured w' :
  snapshot w = (configured, w) →
  (∀ d relay b c, dial = Some d → d relay = Some b → client = Some c →
     c ≠ b ∧ writable (netConns w c) ∧ writable (netConns w b)) →
  serveCONNECT snapshot server request w = (ConnectTunnelled, w') →
  ∃ matched source relay b c c1 b1,
    ResolveFor (Mounts configured) (connectMount server request) = Ok matched
    ∧ policySource configured server request = Some source
    ∧ Allowed (operationDecision configured "CONNECT" source matched) = true
    ∧ relayOperation (Match_Target matched) = Some relay ∧ (dial ≫= λ d, d relay) = Some b ∧ client = Some c
    ∧ received (writeHalf c1) = received (writeHalf (netConns w c)) ++ connectionEstablished
    ∧ inbound (readHalf c1) = inbound (readHalf (netConns w c))
    ∧ received (writeHalf b1) = received (writeHalf (netConns w b))
    ∧ inbound (readHalf b1) = inbound (readHalf (netConns w b))
    ∧ passedOn tunnelMode true c1 b1 (netConns w' c) (netConns w' b)
    ∧ passedOn tunnelMode true b1 c1 (netConns w' b) (netConns w' c)
    ∧ c ∈ sessionClosed (netSessions w') ∧ b ∈ sessionClosed (netSessions w')
    ∧ c ∉ sessionItems (netSessions w') ∧ b ∉ sessionItems (netSessions w').
Proof.
  intros Hsnap Hopen Hserve. destruct (serveCONNECT_world snapshot server request w configured w Hsnap)
    as [[r Hw]|[[r Hw]|(matched & source & connect & relay & Hm & Hs & Ha & Hc & Hr & Heq)]];
    [by rewrite Hw in Hserve..|].
  rewrite Heq in Hserve. cbn [relayConnect net_relay] in Hc. destruct dial as [d|] eqn:Hd; [|done]. injection Hc as <-.
  assert (∃ b c, d relay = Some b ∧ client = Some c) as (b & c & Hb & Hc).
  { unfold tunnel in Hserve. cbn [hijack net_relay] in Hserve. destruct (d relay) as [b|]; [|done].
    destruct (onSessions _ _) as [[] ?]; cbn [negb] in Hserve; [|done]. destruct client as [c|]; [|done]. by exists b, c. }
  destruct (Hopen d relay b c eq_refl Hb Hc) as (Hne & Hfc & Hfb).
  destruct (tunnel_transparent (λ relay w, (d relay, w)) relay w b c w') as ((c1 & Hr1 & Hi1 & b1 & Hr2 & Hi2 & Hp1 & Hp2) & Hcl);
    [by rewrite Hb|done..|].
  exists matched, source, relay, b, c, c1, b1. split_and!; try done; apply Hcl.
Qed.
End Net.

(** ** Witness: the tunnel to the database of [testConfig]. *)

Section Witness.
#[local] Existing Instance asciiUnicode.

Definition dialDatabase (relay : Relay) : option conn :=
  if bool_decide (Relay_Address relay = "10.0.0.5:5432") then Some 1 else None.

Definition beforeTunnel : NetWorld :=
  {| netSessions := newConnectionSessions; netConns := λ c, if bool_decide (c = 2) then sampleClient else sampleServerEnd |}.

#[local] Instance database_relay : RelayWorld (W := NetWorld) := net_relay true (Some dialDatabase) (Some 2).

Lemma serveCONNECT_transparent_witness :
  let r := serveCONNECT (λ w, (testConfig, w)) "web" (testRequest "CONNECT" [] "db.example:5432") beforeTunnel in
  fst r = ConnectTunnelled
  ∧ received (writeHalf (netConns (snd r) 1)) = "he"
  ∧ (∃ x, received (writeHalf (netConns (snd r) 2)) = connectionEstablished ++ x)
  ∧ 1 ∈ sessionClosed (netSessions (snd r)).
Proof.
  intros r. assert (fst r = ConnectTunnelled) as Hr by by vm_compute. split; [exact Hr|]. split; [by vm_compute|].
  edestruct (serveCONNECT_transparent true (Some dialDatabase) (Some 2) (λ w, (testConfig, w)) "web"
               (testRequest "CONNECT" [] "db.example:5432") beforeTunnel testConfig (snd r))
    as (matched & source & relay & b & c & c1 & b1 & _ & _ & _ & _ & Hb & Hc & Hrc & _ & _ & _ & _ & Hp & _ & Hcl & _).
  - reflexivity.
  - intros d relay b c [= <-] Hd [= <-]. unfold dialDatabase in Hd. case_bool_decide; [|done]. by injection Hd as <-.
  - rewrite <- Hr. apply surjective_pairing.
  - injection Hc as <-. destruct Hp as (_ & [x Hx] & _). split.
    + exists x. by rewrite Hx, Hrc.
    + cbn in Hb. unfold dialDatabase in Hb. case_bool_decide; [|done]. by injection Hb as <-.
Defined.
End Witness.
