(* ===== verification/FtpReply.v ===== *)
(** connector/ftp.go: replies of an FTP server, how they are read within a
    bound, and the ports a passive-mode reply announces. *)

From S2P Require Import Prelude GoStrings GoUtf8 GoBufio.

Record FtpReply := {
  ftpCode : Z;
  ftpBody : bytes;
}.

#[export] Instance FtpReply_eq_dec : EqDecision FtpReply.
Proof. solve_decision. Defined.

Inductive FtpReplyError :=
| ReplyTooLarge
| ReplyReadFailed (err : ReadError)
| ReplyTooShort
| ReplyInvalidCode
| ReplyInvalidSeparator
| ReplyMultiline (err : FtpReplyError).

Inductive FtpPortError := PortMalformed.

#[export] Instance FtpReplyError_eq_dec : EqDecision FtpReplyError.
Proof. solve_decision. Defined.

(** ** The reader *)

Record FtpReplyReader := {
  replyReader : Bufio;
  maxBytes : nat;
}.

Definition defaultFTPMaxReplyBytes : Z := Z.shiftl 64 10.

Definition newFTPReplyReader (rd : reader) (max : Z) : FtpReplyReader :=
  let max := Z.to_nat (if (max <=? 0)%Z then defaultFTPMaxReplyBytes else max) in
  {| replyReader := newReaderSize rd (max + 1); maxBytes := max |}.

Definition lineFeed : ascii := "010"%char.
Definition carriageReturn : ascii := "013"%char.

(** [readLine]: the line without its end, and how many bytes it took. *)
Definition readLine (remaining : nat) (r : FtpReplyReader) : result (bytes * nat) FtpReplyError * FtpReplyReader :=
  if remaining <=? 0 then (Err ReplyTooLarge, r)
  else
    let '(raw, err, b) := readSlice lineFeed (replyReader r) in
    let r := {| replyReader := b; maxBytes := maxBytes r |} in
    if bool_decide (err = Some ErrBufferFull) || (remaining <? length raw) then (Err ReplyTooLarge, r)
    else
      match err with
      | Some err => (Err (ReplyReadFailed err), r)
      | None => (Ok (trimSuffix (trimSuffix raw [lineFeed]) [carriageReturn], length raw), r)
      end.

Definition parseFTPReplyStart (line : bytes) : result (Z * ascii) FtpReplyError :=
  refuse ReplyTooShort when length line <? 3 ;;
  match atoi (take 3 line) with
  | None => Err ReplyInvalidCode
  | Some code =>
      refuse ReplyInvalidCode when (code <? 100)%Z || (599 <? code)%Z ;;
      match line !! 3 with
      | None => Ok (code, " "%char)
      | Some separator =>
          refuse ReplyInvalidSeparator
            when negb (bool_decide (separator = " "%char)) && negb (bool_decide (separator = "-"%char)) ;;
          Ok (code, separator)
      end
  end.

(** The format verb [%03d] on the codes that are accepted. *)
Definition replyTerminator (code : Z) : bytes := itoa code ++ [" "%char].

(** One iteration of the loop over the lines of a reply; [next] is the rest of
    the loop, given what may still be read and the lines so far. *)
Definition replyBody (next : nat → list bytes → FtpReplyReader → result FtpReply FtpReplyError * FtpReplyReader)
    (code : Z) (remaining : nat) (lines : list bytes) (r : FtpReplyReader)
    : result FtpReply FtpReplyError * FtpReplyReader :=
  let '(read, r) := readLine remaining r in
  match read with
  | Err err => (Err (ReplyMultiline err), r)
  | Ok (line, consumed) =>
      let lines := lines ++ [line] in
      if hasPrefix line (replyTerminator code) then (Ok {| ftpCode := code; ftpBody := join lines [lineFeed] |}, r)
      else next (remaining - consumed) lines r
  end.

(** Every line takes at least one byte of what remains, so [remaining] is fuel
    enough ([replyLoop_step]); with nothing remaining the code gives up. *)
Fixpoint replyLoop (fuel : nat) (code : Z) (remaining : nat) (lines : list bytes) (r : FtpReplyReader)
    : result FtpReply FtpReplyError * FtpReplyReader :=
  match fuel with
  | 0 => (Err (ReplyMultiline ReplyTooLarge), r)
  | S fuel => replyBody (replyLoop fuel code) code remaining lines r
  end.

(** [ReadReply]; [readFTPReply] is another name for it. *)
Definition ReadReply (r : FtpReplyReader) : result FtpReply FtpReplyError * FtpReplyReader :=
  let '(read, r) := readLine (maxBytes r) r in
  match read with
  | Err err => (Err err, r)
  | Ok (line, used) =>
      match parseFTPReplyStart line with
      | Err err => (Err err, r)
      | Ok (code, separator) =>
          if negb (bool_decide (separator = "-"%char)) then (Ok {| ftpCode := code; ftpBody := line |}, r)
          else replyLoop (maxBytes r - used) code (maxBytes r - used) [line] r
      end
  end.

(** ** Ports of passive mode *)

(** [ftpParenthesizedReply]: between the first of each parenthesis. *)
Definition ftpParenthesizedReply (body : bytes) : result bytes FtpPortError :=
  match indexByte body "(", indexByte body ")" with
  | Some start, Some stop =>
      refuse PortMalformed when stop <=? start ;;
      Ok (take (stop - S start) (drop (S start) body))
  | _, _ => Err PortMalformed
  end.

Definition parseFTPPort (value : bytes) : result Z FtpPortError :=
  match atoi (trimSpace value) with
  | Some port => refuse PortMalformed when (port <? 1)%Z || (65535 <? port)%Z ;; Ok port
  | None => Err PortMalformed
  end.

(** [strings.Split(inside, delimiter)] with a delimiter of one byte. *)
Definition parseEPSVPort (body : bytes) : result Z FtpPortError :=
  let! inside := ftpParenthesizedReply body in
  refuse PortMalformed when length inside <? 5 ;;
  match inside with
  | delimiter :: _ =>
      match splitByte inside delimiter with
      | [a; b; c; port; d] =>
          refuse PortMalformed
            when negb (bool_decide (a = []) && bool_decide (b = []) && bool_decide (c = []) && bool_decide (d = [])) ;;
          parseFTPPort port
      | _ => Err PortMalformed
      end
  | [] => Err PortMalformed
  end.

(** The loop over the six numbers. *)
Fixpoint pasvValues (parts : list bytes) : result (list Z) FtpPortError :=
  match parts with
  | [] => Ok []
  | part :: parts =>
      match atoi (trimSpace part) with
      | Some value =>
          refuse PortMalformed when (value <? 0)%Z || (255 <? value)%Z ;;
          let! values := pasvValues parts in Ok (value :: values)
      | None => Err PortMalformed
      end
  end.

Definition parsePASVPort (body : bytes) : result Z FtpPortError :=
  let! inside := ftpParenthesizedReply body in
  let parts := splitByte inside "," in
  refuse PortMalformed when negb (length parts =? 6) ;;
  let! values := pasvValues parts in
  let port := (default 0 (values !! 4%nat) * 256 + default 0 (values !! 5%nat))%Z in
  refuse PortMalformed when (port =? 0)%Z ;;
  Ok port.

Example epsv_229 : parseEPSVPort "229 Entering Extended Passive Mode (|||6446|)" = Ok 6446%Z.
Proof. reflexivity. Qed.

Example pasv_227 : parsePASVPort "227 Entering Passive Mode (10,0,0,1,31,144)" = Ok 8080%Z.
Proof. reflexivity. Qed.

(** ** Lemmas: lines *)

(** A line on the wire: its text and whether a carriage return precedes the
    line feed. *)
Abbreviation wireLine := (bytes * bool)%type.

Definition lineWire (w : wireLine) : bytes := fst w ++ (if snd w then [carriageReturn] else []) ++ [lineFeed].

Definition lineOk (w : wireLine) : Prop :=
  lineFeed ∉ fst w ∧ (snd w = false → last (fst w) ≠ Some carriageReturn).

(** The buffer is longer than a reply may be. *)
Definition readerOk (r : FtpReplyReader) : Prop :=
  length (buffered (replyReader r)) ≤ bufSize (replyReader r) ∧ maxBytes r < bufSize (replyReader r).

Definition pending (r : FtpReplyReader) : bytes := available (replyReader r).

Lemma newFTPReplyReader_ok rd max : readerOk (newFTPReplyReader rd max).
Proof. unfold readerOk. cbn [replyReader maxBytes newFTPReplyReader newReaderSize buffered bufSize length]. lia. Qed.

Lemma trimSuffix_not s c : last s ≠ Some c → trimSuffix s [c] = s.
Proof.
  intros Hl. unfold trimSuffix. destruct (stripSuffix [c] s) as [t|] eqn:E; [|done].
  apply stripSuffix_Some in E as ->. by rewrite last_snoc in Hl.
Qed.

Lemma trimSuffix_lineWire w :
  lineOk w → trimSuffix (trimSuffix (lineWire w) [lineFeed]) [carriageReturn] = fst w.
Proof.
  destruct w as [l []]; intros [_ Hcr]; unfold lineWire; cbn [fst snd] in *; rewrite app_assoc, trimSuffix_app.
  - by rewrite trimSuffix_app.
  - rewrite app_nil_r. by apply trimSuffix_not, Hcr.
Qed.

Lemma lineWire_length w : 1 ≤ length (lineWire w).
Proof. unfold lineWire. rewrite !length_app. cbn. lia. Qed.

(** Every text before a line feed is a wire line. *)
Lemma wireLine_of l : lineFeed ∉ l → ∃ w, lineOk w ∧ l ++ [lineFeed] = lineWire w.
Proof.
  intros Hl. destruct (last l) as [c|] eqn:Hlast; [|by exists (l, false); unfold lineOk; cbn; rewrite Hlast].
  destruct (decide (c = carriageReturn)) as [->|Hc].
  - apply last_snoc_inv in Hlast as [l' ->]. exists (l', true). unfold lineOk, lineWire. cbn.
    split; [|by rewrite <- app_assoc]. split; [set_solver|done].
  - exists (l, false). unfold lineOk. cbn. rewrite Hlast. split; [|done]. split; [done|congruence].
Qed.

Lemma readLine_Ok remaining r line used r' :
  readerOk r → readLine remaining r = (Ok (line, used), r') →
  ∃ w, lineOk w ∧ line = fst w ∧ used = length (lineWire w) ∧ used ≤ remaining
    ∧ pending r = lineWire w ++ pending r' ∧ maxBytes r' = maxBytes r ∧ readerOk r'.
Proof.
  intros [Hlen Hmax]. unfold readLine. destruct (remaining <=? 0); [done|].
  destruct (readSlice lineFeed (replyReader r)) as [[raw err] b] eqn:Hread.
  destruct (_ || _) eqn:Hlong; [done|]. destruct err; [done|]. intros [= <- <- <-].
  apply readSlice_Ok in Hread as (l & -> & Hl & _ & Hav & Hsz & Hlen'); [|done].
  apply orb_false_iff in Hlong as [_ Hlong%Nat.ltb_ge].
  destruct (wireLine_of l Hl) as (w & Hw & Heq). exists w. rewrite Heq in Hlong, Hav |- *. unfold pending, readerOk. cbn [replyReader maxBytes].
  rewrite trimSuffix_lineWire by done. split_and!; try done. lia.
Qed.

Lemma readLine_wire remaining r w rest :
  readerOk r → progresses (upstream (replyReader r)) → lineOk w → pending r = lineWire w ++ rest →
  length (lineWire w) ≤ remaining → remaining ≤ maxBytes r →
  ∃ r', readLine remaining r = (Ok (fst w, length (lineWire w)), r') ∧ pending r' = rest
    ∧ maxBytes r' = maxBytes r ∧ readerOk r' ∧ progresses (upstream (replyReader r')).
Proof.
  intros [Hlen Hmax] Hprog Hw Hp Hfit Hrem. pose proof (lineWire_length w). unfold readLine.
  rewrite (proj2 (Nat.leb_gt _ _)) by lia.
  set (l := fst w ++ (if snd w then [carriageReturn] else [])).
  assert (lineWire w = l ++ [lineFeed]) as Hlw by (unfold lineWire, l; by rewrite app_assoc).
  destruct (readSlice_line lineFeed (replyReader r) l rest) as (b & Hread & Hav & Hsz & Hle & Hpr); try done.
  - unfold pending in Hp. rewrite Hp, Hlw. by rewrite <- app_assoc.
  - unfold l. destruct Hw as [Hw _]. destruct (snd w); set_solver.
  - rewrite Hlw, length_app in Hfit. cbn in Hfit. lia.
  - rewrite Hread, <- Hlw, bool_decide_eq_false_2 by done. cbn [orb].
    rewrite (proj2 (Nat.ltb_ge _ _)), trimSuffix_lineWire by done.
    eexists. split; [done|]. unfold pending, readerOk. cbn. split_and!; try done. lia.
Qed.

(** ** Lemmas: replies *)

(** The lines that make up one reply. *)
Definition replyGrammar (code : Z) (lines : list bytes) : Prop :=
  match lines with
  | [] => False
  | first :: rest =>
      ∃ separator, parseFTPReplyStart first = Ok (code, separator) ∧
        if bool_decide (separator = "-"%char)
        then ∃ middle final, rest = middle ++ [final] ∧ hasPrefix final (replyTerminator code) = true
               ∧ Forall (λ line, hasPrefix line (replyTerminator code) = false) middle
        else rest = []
  end.

Definition wireText (wire : list wireLine) : bytes := concat (lineWire <$> wire).

Lemma replyLoop_fuel fuel fuel' code remaining lines r :
  readerOk r → remaining ≤ fuel → remaining ≤ fuel' →
  replyLoop fuel code remaining lines r = replyLoop fuel' code remaining lines r.
Proof.
  revert fuel' remaining lines r. induction fuel as [|fuel IH]; intros [|fuel'] remaining lines r Hr Hf Hf'; [done|..].
  - replace remaining with 0 by lia. done.
  - replace remaining with 0 by lia. done.
  - cbn [replyLoop]. unfold replyBody. destruct (readLine remaining r) as [[[line used]|err] r'] eqn:Hread; [|done].
    apply readLine_Ok in Hread as (w & _ & _ & -> & Hle & _ & _ & Hr'); [|done]. pose proof (lineWire_length w).
    destruct (hasPrefix _ _); [done|]. apply IH; [done|lia..].
Qed.

(** The fuel is enough: the function satisfies the equation of the loop. *)
Lemma replyLoop_step code remaining lines r :
  readerOk r →
  replyLoop remaining code remaining lines r =
  replyBody (λ remaining, replyLoop remaining code remaining) code remaining lines r.
Proof.
  intros Hr. rewrite (replyLoop_fuel _ (S remaining)) by (done || lia). cbn [replyLoop]. unfold replyBody.
  destruct (readLine remaining r) as [[[line used]|err] r'] eqn:Hread; [|done].
  apply readLine_Ok in Hread as (w & _ & _ & -> & Hle & _ & _ & Hr'); [|done]. pose proof (lineWire_length w).
  destruct (hasPrefix _ _); [done|]. apply replyLoop_fuel; [done|lia..].
Qed.

Lemma replyLoop_Ok remaining code lines r reply r' :
  readerOk r → replyLoop remaining code remaining lines r = (Ok reply, r') →
  ∃ wire w, reply = {| ftpCode := code; ftpBody := join (lines ++ (fst <$> wire ++ [w])) [lineFeed] |}
    ∧ Forall lineOk (wire ++ [w]) ∧ hasPrefix (fst w) (replyTerminator code) = true
    ∧ Forall (λ line, hasPrefix line (replyTerminator code) = false) (fst <$> wire)
    ∧ pending r = wireText (wire ++ [w]) ++ pending r' ∧ length (wireText (wire ++ [w])) ≤ remaining
    ∧ maxBytes r' = maxBytes r ∧ readerOk r'.
Proof.
  revert lines r. induction remaining as [remaining IH] using lt_wf_ind. intros lines r Hr.
  rewrite replyLoop_step by done. unfold replyBody.
  destruct (readLine remaining r) as [[[line used]|err] r1] eqn:Hread; [|done].
  apply readLine_Ok in Hread as (w & Hw & -> & -> & Hle & Hp & Hmax & Hr1); [|done]. pose proof (lineWire_length w).
  destruct (hasPrefix (fst w) _) eqn:Hpre.
  - intros [= <- <-]. exists [], w. unfold wireText. cbn. rewrite app_nil_r.
    split_and!; try done. by apply Forall_singleton.
  - intros Hloop. apply IH in Hloop as (wire & w' & -> & Hok & Hterm & Hmid & Hp1 & Hlen & Hmax1 & Hr'); [|lia|done].
    exists (w :: wire), w'. unfold wireText in *. cbn. rewrite !length_app in *. split_and!; try done.
    + f_equal. by rewrite <- app_assoc.
    + by constructor.
    + by constructor.
    + rewrite Hp, Hp1. by rewrite app_assoc.
    + lia.
    + congruence.
Qed.

Lemma replyLoop_wire wire w remaining code lines r rest :
  readerOk r → progresses (upstream (replyReader r)) → Forall lineOk (wire ++ [w]) →
  hasPrefix (fst w) (replyTerminator code) = true →
  Forall (λ line, hasPrefix line (replyTerminator code) = false) (fst <$> wire) →
  pending r = wireText (wire ++ [w]) ++ rest → length (wireText (wire ++ [w])) ≤ remaining → remaining ≤ maxBytes r →
  ∃ r', replyLoop remaining code remaining lines r =
          (Ok {| ftpCode := code; ftpBody := join (lines ++ (fst <$> wire ++ [w])) [lineFeed] |}, r')
    ∧ pending r' = rest ∧ readerOk r' ∧ progresses (upstream (replyReader r')).
Proof.
  revert remaining lines r. unfold wireText.
  induction wire as [|v wire IH]; intros remaining lines r Hr Hprog Hok Hterm Hmid Hp Hlen Hrem; cbn in *.
  - rewrite app_nil_r in Hp, Hlen. apply Forall_cons in Hok as [Hw _].
    destruct (readLine_wire remaining r w rest) as (r' & Hread & Hrest & _ & Hr' & Hprog'); try done.
    exists r'. rewrite replyLoop_step by done. unfold replyBody. by rewrite Hread, Hterm.
  - apply Forall_cons in Hok as [Hv Hok]. apply Forall_cons in Hmid as [Hpre Hmid].
    rewrite length_app in Hlen. rewrite <- app_assoc in Hp.
    destruct (readLine_wire remaining r v (concat (lineWire <$> wire ++ [w]) ++ rest))
      as (r1 & Hread & Hrest & Hmax & Hr1 & Hprog1); [done..|lia|done|].
    destruct (IH (remaining - length (lineWire v)) (lines ++ [fst v]) r1) as (r' & Hloop & ? & ? & ?); try done; [lia..|].
    exists r'. rewrite replyLoop_step by done. unfold replyBody. rewrite Hread, Hpre, Hloop.
    split; [|done]. by rewrite <- app_assoc.
Qed.

Lemma parseFTPReplyStart_Ok line code separator :
  parseFTPReplyStart line = Ok (code, separator) →
  (100 ≤ code ≤ 599)%Z ∧ atoi (take 3 line) = Some code ∧ (separator = " "%char ∨ separator = "-"%char).
Proof.
  unfold parseFTPReplyStart. destruct (_ <? 3); [done|]. destruct (atoi (take 3 line)) as [n|] eqn:Hn; [|done].
  destruct (_ || _) eqn:Hrange; [done|]. reflect_bools.
  destruct (line !! 3) as [c|]; [|intros [= <- <-]; split_and!; auto; lia].
  destruct (_ && _) eqn:Hsep; [done|]. intros [= <- <-]. split_and!; [lia|lia|done|].
  apply andb_false_iff in Hsep. naive_solver (reflect_bools; eauto).
Qed.

(** C27: a reply is read exactly and within its bound, however the connection
    delivers it: a reply that is returned is the text of its lines, taken from
    the beginning of the stream in at most [maxBytes] bytes, with a code from
    100 to 599, a single line or several of which exactly the last repeats the
    code; and conversely the lines of such a reply are read as that reply,
    leaving the bytes that follow for the next one. *)
Theorem ReadReply_framing r :
  readerOk r →
  (∀ reply r', ReadReply r = (Ok reply, r') →
     ∃ wire, Forall lineOk wire ∧ replyGrammar (ftpCode reply) (fst <$> wire)
       ∧ ftpBody reply = join (fst <$> wire) [lineFeed] ∧ (100 ≤ ftpCode reply ≤ 599)%Z
       ∧ pending r = wireText wire ++ pending r' ∧ length (wireText wire) ≤ maxBytes r)
  ∧ (∀ wire code rest, progresses (upstream (replyReader r)) → Forall lineOk wire → replyGrammar code (fst <$> wire) →
       pending r = wireText wire ++ rest → length (wireText wire) ≤ maxBytes r →
       ∃ r', ReadReply r = (Ok {| ftpCode := code; ftpBody := join (fst <$> wire) [lineFeed] |}, r')
         ∧ pending r' = rest ∧ readerOk r').
Proof.
  intros Hr. split.
  - intros reply r'. unfold ReadReply. destruct (readLine (maxBytes r) r) as [[[line used]|err] r1] eqn:Hread; [|done].
    apply readLine_Ok in Hread as (w & Hw & -> & -> & Hle & Hp & Hmax & Hr1); [|done].
    destruct (parseFTPReplyStart (fst w)) as [[code sep]|err] eqn:Hstart; [|done].
    pose proof (parseFTPReplyStart_Ok _ _ _ Hstart) as (Hcode & _). case_bool_decide as Hsep; cbn [negb].
    + intros Hloop. rewrite Hmax in Hloop.
      apply replyLoop_Ok in Hloop as (wire & w' & -> & Hok & Hterm & Hmid & Hp1 & Hlen & _); [|done].
      exists (w :: wire ++ [w']). unfold wireText in *. cbn. rewrite length_app. split_and!; try done; try lia.
      * by constructor.
      * exists sep. rewrite bool_decide_eq_true_2 by done. split; [done|].
        exists (fst <$> wire), (fst w'). by rewrite fmap_app.
      * rewrite Hp, Hp1. by rewrite app_assoc.
    + intros [= <- <-]. exists [w]. unfold wireText. cbn. rewrite app_nil_r. split_and!; try done; try lia.
      * by apply Forall_singleton.
      * exists sep. by rewrite bool_decide_eq_false_2.
  - intros [|w wire] code rest Hprog Hok Hgram Hp Hlen; [done|]. apply Forall_cons in Hok as [Hw Hok].
    destruct Hgram as (sep & Hstart & Hgram). unfold wireText in *. cbn in Hp, Hlen.
    rewrite length_app in Hlen. rewrite <- app_assoc in Hp.
    destruct (readLine_wire (maxBytes r) r w (concat (lineWire <$> wire) ++ rest))
      as (r1 & Hread & Hrest & Hmax & Hr1 & Hprog1); [done..|lia|done|].
    unfold ReadReply. rewrite Hread, Hstart. case_bool_decide as Hsep; cbn [negb].
    + destruct Hgram as (mid & final & Hwire & Hterm & Hmid).
      destruct wire as [|v wire _] using rev_ind; [by destruct mid|].
      rewrite fmap_app in Hwire. apply snoc_inj in Hwire as [<- <-].
      destruct (replyLoop_wire wire v (maxBytes r - length (lineWire w)) code [fst w] r1 rest)
        as (r' & Hloop & ? & ? & _); try done; [unfold wireText; lia..|].
      exists r'. rewrite Hmax, Hloop. done.
    + exists r1. destruct wire; [|done]. cbn in *. done.
Qed.

(** ** Lemmas: ports *)

Lemma ftpParenthesizedReply_text before inside after :
  "("%char ∉ before → ")"%char ∉ before → ")"%char ∉ inside →
  ftpParenthesizedReply (before ++ "("%char :: inside ++ ")"%char :: after) = Ok inside.
Proof.
  intros Hb Hb' Hi. unfold ftpParenthesizedReply. rewrite indexByte_app by done.
  replace (before ++ "("%char :: inside ++ ")"%char :: after)
    with ((before ++ "("%char :: inside) ++ ")"%char :: after) at 1 by by rewrite <- app_assoc.
  rewrite indexByte_app by set_solver. rewrite length_app. cbn [length].
  rewrite (proj2 (Nat.leb_gt _ _)) by lia. rewrite drop_past.
  replace (length before + S (length inside) - S (length before)) with (length inside) by lia.
  by rewrite take_app_length.
Qed.

Lemma atoi_trim_itoa n : (0 ≤ n < 2 ^ 63)%Z → atoi (trimSpace (itoa n)) = Some n.
Proof. intros Hn. rewrite trimSpace_digits by (apply itoa_isDigit; lia). by apply atoi_itoa. Qed.

Lemma pasvValues_itoa values : Forall (λ v, 0 ≤ v ≤ 255)%Z values → pasvValues (itoa <$> values) = Ok values.
Proof.
  induction 1 as [|v values Hv _ IH]; [done|]. cbn. rewrite atoi_trim_itoa by lia.
  rewrite (proj2 (Z.ltb_ge v 0)), (proj2 (Z.ltb_ge 255 v)) by lia. cbn [orb]. fold (itoa <$> values). by rewrite IH.
Qed.

Lemma pasvValues_range parts values : pasvValues parts = Ok values → Forall (λ v, 0 ≤ v ≤ 255)%Z values.
Proof.
  revert values. induction parts as [|part parts IH]; intros values; cbn; [by intros [= <-]; constructor|].
  destruct (atoi _) as [v|]; [|done]. destruct (_ || _) eqn:Hrange; [done|].
  destruct (pasvValues parts) as [vs|]; [|done]. intros [= <-]. reflect_bools. constructor; [lia|by apply IH].
Qed.

Lemma passivePorts_in_range body port :
  parseEPSVPort body = Ok port ∨ parsePASVPort body = Ok port → (1 ≤ port ≤ 65535)%Z.
Proof.
  intros [H|H].
  - unfold parseEPSVPort in H. follow H. unfold parseFTPPort in H. destruct (atoi _) as [n|]; [|done].
    destruct (_ || _) eqn:Hrange in H; [done|]. injection H as <-. reflect_bools. lia.
  - unfold parsePASVPort in H. destruct (ftpParenthesizedReply body) as [inside|]; [|done].
    destruct (negb (_ =? 6)); [done|]. destruct (pasvValues _) as [values|] eqn:Hv; [|done].
    apply pasvValues_range in Hv.
    assert (∀ i, 0 ≤ default 0 (values !! i) ≤ 255)%Z as Hi.
    { intros i. destruct (values !! i) eqn:E; cbn; [|lia]. by eapply Forall_lookup_1 in Hv. }
    destruct (_ =? 0)%Z eqn:Hz; [done|]. injection H as <-. reflect_bools.
    pose proof (Hi 4). pose proof (Hi 5). lia.
Qed.

(** A port taken from a passive-mode reply is one that can be dialled;
    every port a server can announce in either form is understood, and nothing
    of the host in the reply matters. *)
Theorem passivePorts body port before after h1 h2 h3 h4 p1 p2 delimiter :
  (parseEPSVPort body = Ok port ∨ parsePASVPort body = Ok port → (1 ≤ port ≤ 65535)%Z)
  ∧ ("("%char ∉ before → ")"%char ∉ before →
     (Forall (λ v, 0 ≤ v ≤ 255)%Z [h1; h2; h3; h4; p1; p2] → (p1 * 256 + p2 ≠ 0)%Z →
        parsePASVPort (before ++ "("%char :: join (itoa <$> [h1; h2; h3; h4; p1; p2]) [","%char] ++ ")"%char :: after)
          = Ok (p1 * 256 + p2)%Z)
     ∧ ((1 ≤ port ≤ 65535)%Z → ¬ isDigit delimiter → delimiter ≠ ")"%char →
        parseEPSVPort (before ++ "("%char :: ([delimiter; delimiter; delimiter] ++ itoa port ++ [delimiter])
                         ++ ")"%char :: after) = Ok port)).
Proof.
  split; [apply passivePorts_in_range|]. intros Hb Hb'. split.
  - intros Hall Hnz. assert (∀ c, ¬ isDigit c → Forall (λ part, c ∉ part) (itoa <$> [h1; h2; h3; h4; p1; p2])) as Hno.
    { intros c Hc. apply Forall_fmap. eapply Forall_impl; [exact Hall|]. intros v Hv. cbn in *. apply itoa_notin; [lia|done]. }
    unfold parsePASVPort. rewrite ftpParenthesizedReply_text; [|done|done|].
    + rewrite splitByte_join by (done || by apply Hno, not_isDigit). cbn [length fmap list_fmap negb Nat.eqb].
      change [itoa h1; itoa h2; itoa h3; itoa h4; itoa p1; itoa p2] with (itoa <$> [h1; h2; h3; h4; p1; p2]).
      rewrite pasvValues_itoa by done. cbn. by rewrite (proj2 (Z.eqb_neq _ _)).
    + specialize (Hno ")"%char ltac:(by apply not_isDigit)). rewrite !fmap_cons, !Forall_cons in Hno.
      cbn [fmap list_fmap join] in *. set_solver.
  - intros Hp Hd Hne. unfold parseEPSVPort.
    assert (")"%char ∉ itoa port) by (apply itoa_notin; [lia|by apply not_isDigit]).
    assert (delimiter ∉ itoa port) by (apply itoa_notin; [lia|done]).
    rewrite ftpParenthesizedReply_text; [|done|done|set_solver].
    assert (1 ≤ length (itoa port)) by (pose proof (itoa_ne port); destruct (itoa port); [done|cbn; lia]).
    rewrite (proj2 (Nat.ltb_ge _ _)) by (rewrite !length_app; cbn; lia).
    cbn [app]. rewrite !splitByte_sep, splitByte_app by done. cbn [splitByte andb].
    unfold parseFTPPort. rewrite atoi_trim_itoa by lia. cbn.
    by rewrite (proj2 (Z.ltb_ge port 1)), (proj2 (Z.ltb_ge 65535 port)) by lia.
Qed.

(** ** Witnesses *)

(** A greeting of two lines, followed by one more byte, in two pieces. *)
Definition greetingPieces : reader :=
  [("220-hi" ++ [carriageReturn; lineFeed] ++ "22", None); ("0 ok" ++ [lineFeed] ++ "X", None)].

Lemma ReadReply_framing_witness :
  ∃ r', ReadReply (newFTPReplyReader greetingPieces 16) =
          (Ok {| ftpCode := 220; ftpBody := "220-hi" ++ [lineFeed] ++ "220 ok" |}, r') ∧ pending r' = "X".
Proof.
  destruct (ReadReply_framing (newFTPReplyReader greetingPieces 16) (newFTPReplyReader_ok _ _)) as [_ Hread].
  destruct (Hread [("220-hi" : bytes, true); ("220 ok" : bytes, false)] 220%Z "X") as (r' & Hr & Hp & _).
  - repeat (apply Forall_cons_2; [by left|]). apply Forall_nil_2.
  - repeat (apply Forall_cons_2; [split; [apply (bool_decide_unpack _); by vm_compute|done]|]). apply Forall_nil_2.
  - exists "-"%char. split; [by vm_compute|]. exists [], "220 ok". split_and!; [done|by vm_compute|apply Forall_nil_2].
  - by vm_compute.
  - apply Nat.leb_le. by vm_compute.
  - exists r'. split; [exact Hr|exact Hp].
Defined.

Lemma passivePorts_witness :
  parsePASVPort "227 Entering Passive Mode (10,0,0,1,31,144)" = Ok 8080%Z
  ∧ parseEPSVPort "229 Extended (|||8080|)" = Ok 8080%Z.
Proof.
  destruct (passivePorts [] 8080 "227 Entering Passive Mode " [] 10 0 0 1 31 144 "|") as [_ Hread].
  destruct (passivePorts [] 8080 "229 Extended " [] 10 0 0 1 31 144 "|") as [_ Hread'].
  destruct Hread as [Hpasv _]; [apply (bool_decide_unpack _); by vm_compute..|].
  destruct Hread' as [_ Hepsv]; [apply (bool_decide_unpack _); by vm_compute..|].
  split.
  - apply Hpasv; [|lia]. repeat (apply Forall_cons_2; [lia|]). apply Forall_nil_2.
  - apply Hepsv; [lia|by apply not_isDigit|done].
Defined.
