(* ===== verification/Ftp.v ===== *)
(** connector/ftp.go: the FTP connector, from an operation to the dialogue on
    the control connection, the data connection and the body of a transfer. *)

From S2P Require Import Prelude GoStrings GoNet GoUrl GoBufio Relay HttpFrontend FtpReply.

(** ** Errors *)

Inductive FtpError :=
| FtpUnsupportedMethod
| FtpDialerRequired
| FtpResourceParse
| FtpResourceScheme
| FtpResourceHost
| FtpDialControl
| FtpWrite
| FtpConnect (err : FtpReplyError)
| FtpUser (err : FtpReplyError)
| FtpPass (err : FtpReplyError)
| FtpType (err : FtpReplyError)
| FtpTypeRejected (code : Z)
| FtpNoRemoteAddress
| FtpPeerAddress
| FtpPeerNotIP
| FtpEpsv (err : FtpReplyError)
| FtpEpsvRejected (code : Z)
| FtpPasv (err : FtpReplyError)
| FtpPasvRejected (code : Z)
| FtpPort (err : FtpPortError)
| FtpDialData
| FtpStor (err : FtpReplyError)
| FtpStorCopy
| FtpStorCompletion (err : FtpReplyError)
| FtpTransferStart (command : bytes) (err : FtpReplyError)
| FtpUnsupportedCommand
| FtpContext.

(** ** Resources *)

Record FtpTarget := {
  ftpHost : bytes;
  ftpPath : bytes;
}.

Definition normalizeFTPPath (path : bytes) : bytes := if bool_decide (path = []) then "/" else path.

Section Resource.
Context `{UnicodeData}.

Definition parseFTPResource (resource : bytes) : result FtpTarget FtpError :=
  match parseURL resource with
  | None => Err FtpResourceParse
  | Some parsed =>
      refuse FtpResourceScheme when negb (equalFold (Scheme parsed) "ftp") ;;
      refuse FtpResourceHost when bool_decide (trimSpace (Host parsed) = []) ;;
      Ok {| ftpHost := Host parsed; ftpPath := normalizeFTPPath (GoUrl.Path parsed) |}
  end.
End Resource.

Definition ftpOutcome (code : Z) : OperationOutcome :=
  if (code =? 530)%Z || (code =? 532)%Z then OutcomePermissionDenied
  else if (code =? 550)%Z then OutcomeNotFound
  else OutcomeUpstreamFailure.

Definition ftpEPSVUnsupported (code : Z) : bool :=
  (code =? 500)%Z || (code =? 501)%Z || (code =? 502)%Z || (code =? 522)%Z.

(** ** The connector and its surroundings *)

(** Durations in nanoseconds. *)
Definition second : Z := 1000000000.
Definition defaultFTPDialTimeout : Z := 10 * second.
Definition defaultFTPControlTimeout : Z := 30 * second.
Definition defaultFTPDataTimeout : Z := 120 * second.

(** The struct [FTP]; [hasDialer] is whether the dialer is not nil. *)
Record FTP := {
  hasDialer : bool;
  dialTimeout : Z;
  controlTimeout : Z;
  dataTimeout : Z;
  maxReplyBytes : Z;
}.

Definition NewFTP : FTP :=
  {| hasDialer := true; dialTimeout := defaultFTPDialTimeout; controlTimeout := defaultFTPControlTimeout;
     dataTimeout := defaultFTPDataTimeout; maxReplyBytes := defaultFTPMaxReplyBytes |}.

Definition orDefault (value default : Z) : Z := if (0 <? value)%Z then value else default.

Definition dialTimeoutValue (f : FTP) : Z := orDefault (dialTimeout f) defaultFTPDialTimeout.
Definition controlTimeoutValue (f : FTP) : Z := orDefault (controlTimeout f) defaultFTPControlTimeout.
Definition dataTimeoutValue (f : FTP) : Z := orDefault (dataTimeout f) defaultFTPDataTimeout.
Definition maxReplyBytesValue (f : FTP) : Z := orDefault (maxReplyBytes f) defaultFTPMaxReplyBytes.

(** [ftpDeadlineConn]: a connection whose every [Read] and [Write] first sets
    its deadline, if it has a timeout. *)
Definition deadlineMode (timeout : Z) : RelayMode :=
  {| idle := if (0 <? timeout)%Z then Some timeout else None; closesRead := false |}.

Definition ftpDeadlineRead (timeout : Z) (size : nat) (h : ReadHalf) : bytes * option ReadError * ReadHalf :=
  relayRead (deadlineMode timeout) size h.

Definition ftpDeadlineWrite (timeout : Z) (data : bytes) (h : WriteHalf) : bool * WriteHalf :=
  relayWrite (deadlineMode timeout) data h.

(** A control connection: its remote address as text, the bytes the server
    sends, and whether each write will succeed. *)
Record FtpControl := {
  controlPeer : option bytes;
  controlInput : reader;
  controlWrites : list bool;
}.

(** What dialling an address yields, whether copying the body of a [STOR] to
    the data connection succeeds, and whether the context has ended by the
    time the call returns. *)
Record FtpOutside := {
  dialControl : bytes → option FtpControl;
  dialData : bytes → option reader;
  copyData : bool;
  contextEnded : bool;
}.

(** What the connector does, in order; every connection of a step
    [...Dialled] has the deadline of its reads and writes with it.
    [...Watched] is the call of [context.AfterFunc] that will close the
    connection when the context ends, [...Unwatched] the call of the function
    that it returned; what the context then does meanwhile is in
    [Cancellation]. *)
Inductive FtpAction :=
| ControlDialled (address : bytes) (timeout deadline : Z)
| ControlWatched
| Sent (line : bytes)
| Received (reply : FtpReply)
| DataDialled (address : bytes) (timeout deadline : Z)
| DataWatched
| BodyCopied
| DataUnwatched
| DataClosed
| ControlUnwatched
| ControlClosed.

#[export] Instance FtpAction_eq_dec : EqDecision FtpAction.
Proof. solve_decision. Defined.

(** ** The dialogue *)

(** The state of a call after the control connection was dialled;
    [dataStream] is set once the data connection is. *)
Record FtpSession := {
  replies : FtpReplyReader;
  writes : list bool;
  dataStream : option reader;
  trace : list FtpAction;
}.

(** A call either goes on with a value or stops: with an error, or with the
    outcome of a reply the server refused the operation with. *)
Inductive FtpStop := StopError (err : FtpError) | StopOutcome (outcome : OperationOutcome).

Definition FtpM (A : Type) : Type := FtpSession → result A FtpStop * FtpSession.

Definition ret {A} (a : A) : FtpM A := λ s, (Ok a, s).
Definition stop {A} (why : FtpStop) : FtpM A := λ s, (Err why, s).
Definition bind {A B} (m : FtpM A) (k : A → FtpM B) : FtpM B :=
  λ s, let '(r, s) := m s in match r with Ok a => k a s | Err why => (Err why, s) end.

Notation "'do!' x ':=' m ';' k" := (bind m (λ x, k))
  (at level 10, x pattern, m at level 99, k at level 200) : gateway_scope.
Notation "'stopping' why 'when' b ';' k" := (if b then stop why else k)
  (at level 10, why at level 99, b at level 99, k at level 200) : gateway_scope.

Definition act (a : FtpAction) : FtpM unit :=
  λ s, (Ok tt, {| replies := replies s; writes := writes s; dataStream := dataStream s; trace := trace s ++ [a] |}).

Definition lift {A E} (f : E → FtpError) (r : result A E) : FtpM A :=
  match r with Ok a => ret a | Err err => stop (StopError (f err)) end.

(** [readFTPReply], with the error of this call site. *)
Definition receive (f : FtpReplyError → FtpError) : FtpM FtpReply :=
  λ s, let '(r, rd) := ReadReply (replies s) in
       let s := {| replies := rd; writes := writes s; dataStream := dataStream s; trace := trace s |} in
       match r with
       | Ok reply => bind (act (Received reply)) (λ _, ret reply) s
       | Err err => (Err (StopError (f err)), s)
       end.

Definition commandLine (command : bytes) (args : list bytes) : bytes :=
  match args with
  | arg :: _ => if bool_decide (trimSpace arg = []) then command else command ++ " " ++ join args " "
  | [] => command
  end.

(** [writeFTPCommand]; [textproto.Writer] ends the line and flushes it. *)
Definition writeFTPCommand (command : bytes) (args : list bytes) : FtpM unit :=
  λ s, let '(ok, rest) := match writes s with [] => (true, []) | ok :: rest => (ok, rest) end in
       let s := {| replies := replies s; writes := rest; dataStream := dataStream s;
                   trace := trace s ++ [Sent (commandLine command args)] |} in
       if ok : bool then (Ok tt, s) else (Err (StopError FtpWrite), s).

Definition ftpControlPeerIP (peer : option bytes) : result bytes FtpError :=
  match peer with
  | None => Err FtpNoRemoteAddress
  | Some address =>
      match splitHostPort address with
      | None => Err FtpPeerAddress
      | Some (host, _) => orElse (parseIPString host) FtpPeerNotIP
      end
  end.

Definition ftpPassiveAddress (peer : option bytes) : FtpM bytes :=
  do! peer := lift id (ftpControlPeerIP peer);
  do! _ := writeFTPCommand "EPSV" [];
  do! reply := receive FtpEpsv;
  if (ftpCode reply =? 229)%Z then
    do! port := lift FtpPort (parseEPSVPort (ftpBody reply));
    ret (joinHostPort peer (itoa port))
  else
    stopping StopError (FtpEpsvRejected (ftpCode reply)) when negb (ftpEPSVUnsupported (ftpCode reply));
    do! _ := writeFTPCommand "PASV" [];
    do! reply := receive FtpPasv;
    stopping StopError (FtpPasvRejected (ftpCode reply)) when negb (ftpCode reply =? 227)%Z;
    do! port := lift FtpPort (parsePASVPort (ftpBody reply));
    ret (joinHostPort peer (itoa port)).

(** [operate] up to the passive address: the greeting, the login, binary
    mode. *)
Definition login : FtpM unit :=
  do! _ := receive FtpConnect;
  do! _ := writeFTPCommand "USER" ["anonymous" : bytes];
  do! reply := receive FtpUser;
  stopping StopOutcome (ftpOutcome (ftpCode reply))
    when negb (ftpCode reply =? 331)%Z && negb (ftpCode reply =? 230)%Z;
  do! _ := (if (ftpCode reply =? 331)%Z then
              do! _ := writeFTPCommand "PASS" ["anonymous@example.com" : bytes];
              do! reply := receive FtpPass;
              stopping StopOutcome (ftpOutcome (ftpCode reply)) when negb (ftpCode reply =? 230)%Z;
              ret tt
            else ret tt);
  do! _ := writeFTPCommand "TYPE" ["I" : bytes];
  do! reply := receive FtpType;
  stopping StopError (FtpTypeRejected (ftpCode reply)) when negb (ftpCode reply =? 200)%Z;
  ret tt.

Definition preliminary (code : Z) : bool := negb ((code <? 100)%Z || (199 <? code)%Z).
Definition completed (code : Z) : bool := negb ((code <? 200)%Z || (299 <? code)%Z).

(** The body of a transfer: what is left of the data connection and of the
    replies.  [bodyFinished] is both [closed] and the state of [finishOnce],
    which change together. *)
Record FtpTransferBody := {
  bodyCommand : bytes;
  bodyData : reader;
  bodyReplies : FtpReplyReader;
  bodyFinished : bool;
  bodyTrace : list FtpAction;
}.

(** The results of [operate] that are not errors. *)
Inductive FtpResult := FtpOutcome (outcome : OperationOutcome) | FtpTransfer (body : FtpTransferBody).

Section Operate.
Context `{UnicodeData}.

Definition ftpCommand (method : bytes) : bytes :=
  let command := toUpper method in
  if bool_decide (command = "PUT") then "STOR"
  else if bool_decide (command = "LIST") then "LIST"
  else if bool_decide (command = "GET") then "RETR"
  else command.

Definition dialDataConnection (f : FTP) (outside : FtpOutside) (address : bytes) : FtpM reader :=
  match dialData outside address with
  | None => stop (StopError FtpDialData)
  | Some stream =>
      λ s, (Ok stream,
            {| replies := replies s; writes := writes s; dataStream := Some stream;
               trace := trace s ++ [DataDialled address (dialTimeoutValue f) (dataTimeoutValue f); DataWatched] |})
  end.

(** [operate] after the data connection: the command and its replies. *)
Definition transfer (outside : FtpOutside) (command path : bytes) (data : reader) : FtpM FtpResult :=
  if bool_decide (command = "STOR") then
    do! _ := writeFTPCommand command [path];
    do! reply := receive FtpStor;
    stopping StopOutcome (ftpOutcome (ftpCode reply)) when negb (preliminary (ftpCode reply));
    stopping StopError FtpStorCopy when negb (copyData outside);
    do! _ := act BodyCopied;
    do! _ := act DataClosed;
    do! reply := receive FtpStorCompletion;
    stopping StopOutcome (ftpOutcome (ftpCode reply)) when negb (completed (ftpCode reply));
    ret (FtpOutcome OutcomeSuccess)
  else if bool_decide (command = "RETR") || bool_decide (command = "LIST") then
    do! _ := writeFTPCommand command [path];
    do! reply := receive (FtpTransferStart command);
    stopping StopOutcome (ftpOutcome (ftpCode reply)) when negb (preliminary (ftpCode reply));
    λ s, (Ok (FtpTransfer {| bodyCommand := command; bodyData := data; bodyReplies := replies s;
                             bodyFinished := false; bodyTrace := [] |}), s)
  else stop (StopError FtpUnsupportedCommand).

Definition dialogue (f : FTP) (outside : FtpOutside) (peer : option bytes) (method path : bytes) : FtpM FtpResult :=
  do! _ := login;
  do! address := ftpPassiveAddress peer;
  do! data := dialDataConnection f outside address;
  transfer outside (ftpCommand method) path data.

(** The deferred calls of [operate], and the calls of the body's [finish]. *)
Definition releaseActions (dialled : bool) : list FtpAction :=
  (if dialled then [DataUnwatched; DataClosed] else []) ++ [ControlUnwatched; ControlClosed].

Definition finishActions : list FtpAction := [DataUnwatched; ControlUnwatched; DataClosed; ControlClosed].

(** The deferred calls: unless the connections now belong to the body, both
    are given up and closed, the data connection first. *)
Definition release (r : result FtpResult FtpStop) (s : FtpSession) : list FtpAction :=
  match r with
  | Ok (FtpTransfer _) => trace s
  | _ => trace s ++ releaseActions match dataStream s with Some _ => true | None => false end
  end.

Definition operate (f : option FTP) (outside : FtpOutside) (method resource : bytes)
    : result FtpResult FtpError * list FtpAction :=
  let '(r, actions) :=
    match f with
    | None => (Err FtpDialerRequired, [])
    | Some f =>
        if negb (hasDialer f) then (Err FtpDialerRequired, [])
        else
          match parseFTPResource resource with
          | Err err => (Err err, [])
          | Ok parsed =>
              match dialControl outside (ftpHost parsed) with
              | None => (Err FtpDialControl, [])
              | Some control =>
                  let '(r, s) :=
                    dialogue f outside (controlPeer control) method (ftpPath parsed)
                      {| replies := newFTPReplyReader (controlInput control) (maxReplyBytesValue f);
                         writes := controlWrites control; dataStream := None;
                         trace := [ControlDialled (ftpHost parsed) (dialTimeoutValue f) (controlTimeoutValue f);
                                   ControlWatched] |} in
                  (match r with
                   | Ok result => Ok result
                   | Err (StopOutcome outcome) => Ok (FtpOutcome outcome)
                   | Err (StopError err) => Err err
                   end, release r s)
              end
          end
    end in
  (match r with Err _ => if contextEnded outside then Err FtpContext else r | _ => r end, actions).

Definition FTP_Fetch (f : option FTP) (outside : FtpOutside) (fetch : Fetch) : result FtpResult FtpError * list FtpAction :=
  if negb (bool_decide (Fetch_Method fetch = "GET")) then (Err FtpUnsupportedMethod, [])
  else operate f outside (Fetch_Method fetch) (Fetch_Resource fetch).

Definition FTP_List (f : option FTP) (outside : FtpOutside) (list : ListOp) : result FtpResult FtpError * List.list FtpAction :=
  operate f outside "LIST" (List_Resource list).

Definition FTP_Store (f : option FTP) (outside : FtpOutside) (store : StoreOp) : result FtpResult FtpError * list FtpAction :=
  if negb (bool_decide (Store_Method store = "PUT")) then (Err FtpUnsupportedMethod, [])
  else operate f outside (Store_Method store) (Store_Resource store).
End Operate.

(** ** Reasoning about the dialogue *)

(** A triple: from [P], a call that goes on establishes [Q], one that stops
    establishes [R]. *)
Definition triple {A} (P : FtpSession → Prop) (m : FtpM A) (Q : A → FtpSession → Prop)
    (R : FtpStop → FtpSession → Prop) : Prop :=
  ∀ s, P s → match m s with (Ok a, s') => Q a s' | (Err why, s') => R why s' end.

Lemma triple_ret {A} (P : FtpSession → Prop) (a : A) Q R : (∀ s, P s → Q a s) → triple P (ret a) Q R.
Proof. intros HQ s Hs. by apply HQ. Qed.

Lemma triple_stop {A} (P : FtpSession → Prop) why (Q : A → FtpSession → Prop) R :
  (∀ s, P s → R why s) → triple P (stop why) Q R.
Proof. intros HR s Hs. by apply HR. Qed.

Lemma triple_bind {A B} P (m : FtpM A) Q (k : A → FtpM B) Q' R :
  triple P m Q R → (∀ a, triple (Q a) (k a) Q' R) → triple P (bind m k) Q' R.
Proof.
  intros Hm Hk s Hs. specialize (Hm s Hs). unfold bind. destruct (m s) as [[a|why] s']; [|done]. by apply Hk.
Qed.

Lemma triple_if {A} (b : bool) P (m m' : FtpM A) Q R :
  (b = true → triple P m Q R) → (b = false → triple P m' Q R) → triple P (if b then m else m') Q R.
Proof. destruct b; auto. Qed.

Lemma triple_pure {A} (φ : Prop) P (m : FtpM A) Q R : (φ → triple P m Q R) → triple (λ s, φ ∧ P s) m Q R.
Proof. intros Hm s [Hφ Hs]. by apply Hm. Qed.

Lemma triple_ex {A B} (P : A → FtpSession → Prop) (m : FtpM B) Q R :
  (∀ x, triple (P x) m Q R) → triple (λ s, ∃ x, P x s) m Q R.
Proof. intros Hm s [x Hx]. by apply (Hm x). Qed.

Lemma triple_post {A} P (m : FtpM A) (Q Q' : A → FtpSession → Prop) R :
  triple P m Q R → (∀ a s, Q a s → Q' a s) → triple P m Q' R.
Proof. intros Hm HQ s Hs. specialize (Hm s Hs). destruct (m s) as [[a|why] s']; auto. Qed.

Definition sentLines (actions : list FtpAction) : list bytes :=
  omap (λ a, match a with Sent line => Some line | _ => None end) actions.

Definition dataDials (actions : list FtpAction) : list bytes :=
  omap (λ a, match a with DataDialled address _ _ => Some address | _ => None end) actions.

Definition isClose (a : FtpAction) : Prop := a = DataClosed ∨ a = ControlClosed.

#[export] Instance isClose_dec a : Decision (isClose a).
Proof. apply _. Defined.

(** The commands sent so far, the data addresses dialled and what was closed. *)
Record at_point (sent dials : list bytes) (closes : list FtpAction) (s : FtpSession) : Prop := {
  point_sent : sentLines (trace s) = sent;
  point_dials : dataDials (trace s) = dials;
  point_closes : filter isClose (trace s) = closes;
  point_data : dataStream s = None ↔ dials = [];
}.

(** One complete dialogue: whether the server asks for a password and whether
    it refuses EPSV. *)
Definition passLines (pass : bool) : list bytes := if pass then ["PASS anonymous@example.com" : bytes] else [].
Definition pasvLines (pasv : bool) : list bytes := if pasv then ["PASV" : bytes] else [].

Definition fullDialogue (pass pasv : bool) (command : bytes) : list bytes :=
  ("USER anonymous" : bytes) :: passLines pass ++ ["TYPE I" : bytes; "EPSV" : bytes] ++ pasvLines pasv ++ [command].

Definition begins (command : bytes) (sent : list bytes) : Prop :=
  ∃ pass pasv, sent `prefix_of` fullDialogue pass pasv command.

Definition stopped (command : bytes) (s : FtpSession) : Prop :=
  ∃ sent dials closes, at_point sent dials closes s ∧ begins command sent.

Section Dialogue.
Context (peer : option bytes) (command : bytes).

Abbreviation R := (λ _ : FtpStop, stopped command).

Lemma stop_at sent dials closes s :
  begins command sent →
  at_point sent dials closes s → stopped command s.
Proof. intros. by exists sent, dials, closes. Qed.

Lemma triple_receive sent dials closes f :
  begins command sent →
  triple (at_point sent dials closes) (receive f) (λ _, at_point sent dials closes) R.
Proof.
  intros Hb s [Hs Hdi Hc Hda]. unfold receive. destruct (ReadReply (replies s)) as [[reply|err] rd]; cbn.
  - constructor; cbn; try done; unfold sentLines, dataDials in *.
    + by rewrite omap_app, app_nil_r.
    + by rewrite omap_app, app_nil_r.
    + by rewrite filter_app, app_nil_r.
  - by apply (stop_at sent dials closes).
Qed.

Lemma triple_write sent dials closes name args :
  begins command (sent ++ [commandLine name args]) →
  triple (at_point sent dials closes) (writeFTPCommand name args)
    (λ _, at_point (sent ++ [commandLine name args]) dials closes) R.
Proof.
  intros Hb s [Hs Hdi Hc Hda]. unfold writeFTPCommand.
  destruct (match writes s with [] => _ | _ => _ end) as [ok rest].
  assert (at_point (sent ++ [commandLine name args]) dials closes
    {| replies := replies s; writes := rest; dataStream := dataStream s;
       trace := trace s ++ [Sent (commandLine name args)] |}) as Hat.
  { constructor; cbn; try done; unfold sentLines, dataDials in *.
    - rewrite omap_app, Hs. done.
    - by rewrite omap_app, app_nil_r.
    - by rewrite filter_app, app_nil_r. }
  destruct ok; [done|]. by eapply (stop_at _ dials closes).
Qed.

Lemma triple_lift {A E} sent dials closes (f : E → FtpError) (r : result A E) :
  begins command sent →
  triple (at_point sent dials closes) (lift f r) (λ a s, r = Ok a ∧ at_point sent dials closes s) R.
Proof.
  intros Hb. destruct r; cbn.
  - by apply triple_ret.
  - apply triple_stop. intros s. by apply stop_at.
Qed.

Definition loggedIn (pass : bool) : list bytes :=
  ("USER anonymous" : bytes) :: passLines pass ++ ["TYPE I" : bytes].

Lemma loggedIn_begins (pass pasv : bool) (sent : list bytes) :
  sent `prefix_of` loggedIn pass ++ ("EPSV" : bytes) :: pasvLines pasv ++ [command] → begins command sent.
Proof. intros Hp. exists pass, pasv. etrans; [exact Hp|]. by destruct pass, pasv. Qed.

Ltac beginning := apply (loggedIn_begins false false); eexists; reflexivity.
Ltac beginning_pass := apply (loggedIn_begins true false); eexists; reflexivity.

Lemma triple_login : triple (at_point [] [] []) login (λ _ s, ∃ pass, at_point (loggedIn pass) [] [] s) R.
Proof.
  unfold login. eapply triple_bind; [apply triple_receive; beginning|]. intros ?.
  eapply triple_bind; [apply triple_write; beginning|]. intros [].
  eapply triple_bind; [apply triple_receive; beginning|]. intros reply.
  apply triple_if; intros _; [apply triple_stop; intros s; apply stop_at; beginning|].
  eapply triple_bind with (Q := λ _ s, ∃ pass : bool,
    at_point (("USER anonymous" : bytes) :: passLines pass) [] [] s).
  - apply triple_if; intros _; [|apply triple_ret; intros s Hs; by exists false].
    eapply triple_bind; [apply triple_write; beginning_pass|]. intros [].
    eapply triple_bind; [apply triple_receive; beginning_pass|]. intros reply'.
    apply triple_if; intros _; [apply triple_stop; intros s; apply stop_at; beginning_pass|].
    apply triple_ret. intros s Hs. by exists true.
  - intros _. apply triple_ex. intros pass.
    assert (begins command (loggedIn pass)) as Hb.
    { apply (loggedIn_begins pass false). by eexists. }
    eapply triple_bind; [apply triple_write; by destruct pass|]. intros [].
    eapply triple_bind; [apply triple_receive; by destruct pass|]. intros reply'.
    apply triple_if; intros _; [apply triple_stop; intros s; apply stop_at; by destruct pass|].
    apply triple_ret. intros s Hs. by exists pass.
Qed.

(** What was sent once the passive address is known. *)
Definition passiveAsked (pass pasv : bool) : list bytes := loggedIn pass ++ ("EPSV" : bytes) :: pasvLines pasv.

Lemma passiveAsked_begins pass pasv sent :
  sent `prefix_of` passiveAsked pass pasv ++ [command] → begins command sent.
Proof.
  intros Hp. apply (loggedIn_begins pass pasv). etrans; [exact Hp|]. unfold passiveAsked. by rewrite <- app_assoc.
Qed.

Lemma triple_passive pass :
  triple (at_point (loggedIn pass) [] []) (ftpPassiveAddress peer)
    (λ _ s, ∃ pasv, at_point (passiveAsked pass pasv) [] [] s) R.
Proof.
  unfold ftpPassiveAddress.
  assert (∀ pasv sent, sent `prefix_of` passiveAsked pass pasv → begins command sent) as Hb.
  { intros pasv sent [k Hk]. apply (passiveAsked_begins pass pasv). exists (k ++ [command]). by rewrite Hk, app_assoc. }
  assert (begins command (loggedIn pass)) as Hb0 by (apply (Hb false); by exists ["EPSV" : bytes]).
  assert (begins command (loggedIn pass ++ ["EPSV" : bytes])) as Hb1 by (apply (Hb false); exists []; by rewrite app_nil_r).
  assert (begins command ((loggedIn pass ++ ["EPSV" : bytes]) ++ ["PASV" : bytes])) as Hb2.
  { apply (Hb true). exists []. unfold passiveAsked. by rewrite app_nil_r, <- app_assoc. }
  eapply triple_bind; [apply triple_lift; done|]. intros ip. apply triple_pure. intros _.
  eapply triple_bind; [apply triple_write; exact Hb1|]. intros [].
  eapply triple_bind; [apply triple_receive; exact Hb1|]. intros reply.
  apply triple_if; intros _.
  - eapply triple_bind; [apply triple_lift; exact Hb1|]. intros port.
    apply triple_ret. intros s [_ Hs]. by exists false.
  - apply triple_if; intros _; [apply triple_stop; intros s; apply stop_at; exact Hb1|].
    eapply triple_bind; [apply triple_write; exact Hb2|]. intros [].
    eapply triple_bind; [apply triple_receive; exact Hb2|]. intros reply'.
    apply triple_if; intros _; [apply triple_stop; intros s; apply stop_at; exact Hb2|].
    eapply triple_bind; [apply triple_lift; exact Hb2|]. intros port.
    apply triple_ret. intros s [_ Hs]. exists true. revert Hs. unfold passiveAsked. by rewrite <- app_assoc.
Qed.

Lemma triple_dialData f outside address pass pasv :
  triple (at_point (passiveAsked pass pasv) [] []) (dialDataConnection f outside address)
    (λ _, at_point (passiveAsked pass pasv) [address] []) R.
Proof.
  unfold dialDataConnection. destruct (dialData outside address) as [stream|].
  - intros s [Hs Hd Hc Hda]. constructor; cbn; unfold sentLines, dataDials in *; try done.
    + by rewrite omap_app, app_nil_r.
    + by rewrite omap_app, Hd.
    + by rewrite filter_app, app_nil_r.
  - apply triple_stop. intros s. apply stop_at, (passiveAsked_begins pass pasv). by eexists.
Qed.

Lemma triple_act sent dials closes a :
  (∀ line, a ≠ Sent line) → (∀ address t d, a ≠ DataDialled address t d) →
  triple (at_point sent dials closes) (act a) (λ _, at_point sent dials (closes ++ filter isClose [a])) R.
Proof.
  intros Hs Hd s [Hse Hdi Hc Hda]. cbn. constructor; cbn; unfold sentLines, dataDials in *; try done.
  - rewrite omap_app, Hse. destruct a; cbn; rewrite ?app_nil_r; naive_solver.
  - rewrite omap_app, Hdi. destruct a; cbn; rewrite ?app_nil_r; naive_solver.
  - by rewrite filter_app, Hc.
Qed.

Lemma triple_transfer outside name path data pass pasv address :
  command = commandLine name [path] →
  triple (at_point (passiveAsked pass pasv) [address] []) (transfer outside name path data)
    (λ r s, stopped command s ∧ match r with FtpTransfer b => filter isClose (trace s) = [] ∧ bodyFinished b = false | _ => True end) R.
Proof.
  intros Hcmd.
  assert (begins command (passiveAsked pass pasv)) as Hb0 by (apply (passiveAsked_begins pass pasv); by eexists).
  assert (begins command (passiveAsked pass pasv ++ [commandLine name [path]])) as Hb1.
  { apply (passiveAsked_begins pass pasv). by rewrite Hcmd. }
  unfold transfer. apply triple_if; intros _; [|apply triple_if; intros _].
  - eapply triple_bind; [apply triple_write; exact Hb1|]. intros [].
    eapply triple_bind; [apply triple_receive; exact Hb1|]. intros reply.
    apply triple_if; intros _; [apply triple_stop; intros s; apply stop_at; exact Hb1|].
    apply triple_if; intros _; [apply triple_stop; intros s; apply stop_at; exact Hb1|].
    eapply triple_bind; [by apply triple_act|]. intros [].
    eapply triple_bind; [by apply triple_act|]. intros [].
    eapply triple_bind; [apply triple_receive; exact Hb1|]. intros reply'.
    apply triple_if; intros _; [apply triple_stop; intros s; apply stop_at; exact Hb1|].
    apply triple_ret. intros s Hs. split; [|done]. by eapply stop_at.
  - eapply triple_bind; [apply triple_write; exact Hb1|]. intros [].
    eapply triple_bind; [apply triple_receive; exact Hb1|]. intros reply.
    apply triple_if; intros _; [apply triple_stop; intros s; apply stop_at; exact Hb1|].
    intros s Hs. split; [by eapply stop_at|]. split; [by destruct Hs|done].
  - apply triple_stop. intros s. apply stop_at; exact Hb0.
Qed.
End Dialogue.

(** ** Properties *)

Section Operation.
Context `{UnicodeData}.

Lemma triple_dialogue f outside peer method path :
  triple (at_point [] [] []) (dialogue f outside peer method path)
    (λ r s, stopped (commandLine (ftpCommand method) [path]) s
            ∧ match r with FtpTransfer b => filter isClose (trace s) = [] ∧ bodyFinished b = false | _ => True end)
    (λ _, stopped (commandLine (ftpCommand method) [path])).
Proof.
  unfold dialogue. eapply triple_bind; [apply triple_login|]. intros []. apply triple_ex. intros pass.
  eapply triple_bind; [apply triple_passive|]. intros address. apply triple_ex. intros pasv.
  eapply triple_bind; [by apply triple_dialData|]. intros data. by apply triple_transfer.
Qed.

Lemma sentLines_app a b : sentLines (a ++ b) = sentLines a ++ sentLines b.
Proof. apply omap_app. Qed.

Lemma dataDials_app a b : dataDials (a ++ b) = dataDials a ++ dataDials b.
Proof. apply omap_app. Qed.

Definition dialogueStart (f : FTP) (parsed : FtpTarget) (control : FtpControl) : FtpSession :=
  {| replies := newFTPReplyReader (controlInput control) (maxReplyBytesValue f);
     writes := controlWrites control; dataStream := None;
     trace := [ControlDialled (ftpHost parsed) (dialTimeoutValue f) (controlTimeoutValue f); ControlWatched] |}.

(** The result of a call that went through the dialogue. *)
Definition dialogueResult (q : result FtpResult FtpStop) (r : result FtpResult FtpError) : Prop :=
  match q with
  | Ok a => r = Ok a
  | Err (StopOutcome outcome) => r = Ok (FtpOutcome outcome)
  | Err (StopError _) => ∃ err, r = Err err
  end.

Lemma dialogue_stopped f outside parsed control method q s :
  dialogue f outside (controlPeer control) method (ftpPath parsed) (dialogueStart f parsed control) = (q, s) →
  stopped (commandLine (ftpCommand method) [ftpPath parsed]) s.
Proof.
  intros Hq. pose proof (triple_dialogue f outside (controlPeer control) method (ftpPath parsed) (dialogueStart f parsed control)) as Ht.
  rewrite Hq in Ht. specialize (Ht ltac:(by constructor)). by destruct q as [a|why]; [destruct Ht|].
Qed.

Lemma operate_run f outside method resource r actions :
  operate f outside method resource = (r, actions) →
  (actions = [] ∧ ∃ err, r = Err err) ∨
  ∃ f' parsed control q s,
    f = Some f' ∧ parseFTPResource resource = Ok parsed ∧ dialControl outside (ftpHost parsed) = Some control
    ∧ dialogue f' outside (controlPeer control) method (ftpPath parsed) (dialogueStart f' parsed control) = (q, s)
    ∧ actions = release q s ∧ dialogueResult q r.
Proof.
  unfold operate. destruct f as [f|]; [|intros [= <- <-]; left; split; [done|]; destruct (contextEnded _); eauto].
  destruct (hasDialer f); cbn [negb]; [|intros [= <- <-]; left; split; [done|]; destruct (contextEnded _); eauto].
  destruct (parseFTPResource resource) as [parsed|err];
    [|intros [= <- <-]; left; split; [done|]; destruct (contextEnded _); eauto].
  destruct (dialControl outside (ftpHost parsed)) as [control|] eqn:Hdial;
    [|intros [= <- <-]; left; split; [done|]; destruct (contextEnded _); eauto].
  fold (dialogueStart f parsed control). destruct (dialogue _ _ _ _ _ _) as [q s] eqn:Hq.
  intros [= <- <-]. right. exists f, parsed, control, q, s. split_and!; try done.
  destruct q as [a|[err|o]]; cbn; [done| |done]. destruct (contextEnded outside); eauto.
Qed.

(** What a part of the dialogue adds to the record. *)
Definition grows {A} (P : FtpAction → Prop) (m : FtpM A) : Prop :=
  ∀ s, ∃ t, trace (snd (m s)) = trace s ++ t ∧ Forall P t.

(** The actions on connections that are there. *)
Definition quiet (a : FtpAction) : Prop :=
  match a with Sent _ | Received _ | BodyCopied | DataClosed => True | _ => False end.

(** Between its first two and its last actions a call neither dials nor gives
    up the control connection. *)
Definition middle (a : FtpAction) : Prop :=
  match a with
  | ControlDialled _ _ _ | ControlWatched | ControlUnwatched | ControlClosed | DataUnwatched => False
  | _ => True
  end.

(** The actions of a transfer that is read to its end or closed, before it
    gives up its connections. *)
Definition closing (a : FtpAction) : Prop :=
  match a with DataClosed | Received _ => True | _ => False end.

Lemma closing_middle actions : Forall closing actions → Forall middle actions.
Proof. intros Hc. eapply Forall_impl; [exact Hc|]. by intros []. Qed.

Lemma quiet_middle actions : Forall quiet actions → Forall middle actions.
Proof. intros Hq. eapply Forall_impl; [exact Hq|]. by intros []. Qed.

Lemma quiet_no_dial actions : Forall quiet actions → dataDials actions = [].
Proof. induction 1 as [|a actions Ha _ IH]; [done|]. by destruct a. Qed.

Lemma middle_not_closed actions : Forall middle actions → ControlClosed ∉ actions.
Proof. rewrite Forall_forall. by intros Hmid Hin%Hmid. Qed.

Lemma grows_bind {A C} P (m : FtpM A) (k : A → FtpM C) : grows P m → (∀ a, grows P (k a)) → grows P (bind m k).
Proof.
  intros Hm Hk s. unfold bind. destruct (Hm s) as (t & Ht & Hmid). destruct (m s) as [[a|why] s1]; cbn [snd] in *; [|by exists t].
  destruct (Hk a s1) as (t' & -> & Hmid'). exists (t ++ t'). rewrite Ht, app_assoc. split; [done|by apply Forall_app].
Qed.

Lemma grows_pure {A} P (r : FtpSession → result A FtpStop) : grows P (λ s, (r s, s)).
Proof. intros s. exists []. by rewrite app_nil_r. Qed.

Lemma grows_lift {A E} P (f : E → FtpError) (r : result A E) : grows P (lift f r).
Proof. destruct r; apply (grows_pure P (λ _, _)). Qed.

Lemma grows_act a : quiet a → grows quiet (act a).
Proof. intros Ha s. exists [a]. split; [done|by repeat constructor]. Qed.

Lemma grows_receive f : grows quiet (receive f).
Proof.
  intros s. unfold receive. destruct (ReadReply (replies s)) as [[reply|err] rd]; [|exists []; by rewrite app_nil_r].
  exists [Received reply]. split; [done|by repeat constructor].
Qed.

Lemma grows_write name args : grows quiet (writeFTPCommand name args).
Proof.
  intros s. unfold writeFTPCommand. destruct (match writes s with [] => _ | _ => _ end) as [[] rest];
    exists [Sent (commandLine name args)]; (split; [done|by repeat constructor]).
Qed.

Ltac grow := repeat first
  [apply grows_lift | apply grows_receive | apply grows_write | by apply grows_act | apply grows_bind; intros | apply grows_pure
  | match goal with |- grows _ (if ?b then _ else _) => destruct b end].

Lemma grows_transfer outside command path data : grows quiet (transfer outside command path data).
Proof. unfold transfer. grow. Qed.

Lemma bind_Ok {A C} (m : FtpM A) (k : A → FtpM C) s c s' :
  bind m k s = (Ok c, s') → ∃ a s1, m s = (Ok a, s1) ∧ k a s1 = (Ok c, s').
Proof. unfold bind. destruct (m s) as [[a|why] s1]; [|done]. by exists a, s1. Qed.

Lemma receive_Ok f s reply s' : receive f s = (Ok reply, s') → trace s' = trace s ++ [Received reply].
Proof. unfold receive. destruct (ReadReply (replies s)) as [[r|err] rd]; [|done]. by intros [= -> <-]. Qed.

Lemma write_Ok name args s u s' : writeFTPCommand name args s = (Ok u, s') → trace s' = trace s ++ [Sent (commandLine name args)].
Proof. unfold writeFTPCommand. destruct (match writes s with [] => _ | _ => _ end) as [[] rest]; [|done]. by intros [= _ <-]. Qed.

Lemma lift_Ok {A E} (f : E → FtpError) (r : result A E) s a s' : lift f r s = (Ok a, s') → r = Ok a ∧ s' = s.
Proof. destruct r; [|done]. by intros [= -> <-]. Qed.

(** The server's part in the choice of a data address: the port, in its reply
    to the command. *)
Definition announces (peer : option bytes) (command : bytes) (reply : FtpReply) (address : bytes) : Prop :=
  ∃ ip port, ftpControlPeerIP peer = Ok ip ∧ address = joinHostPort ip (itoa port) ∧ (1 ≤ port ≤ 65535)%Z
    ∧ (command = "EPSV" ∧ ftpCode reply = 229%Z ∧ parseEPSVPort (ftpBody reply) = Ok port
       ∨ command = "PASV" ∧ ftpCode reply = 227%Z ∧ parsePASVPort (ftpBody reply) = Ok port).

Lemma passive_announces peer s address s' :
  ftpPassiveAddress peer s = (Ok address, s') →
  ∃ before command reply, trace s' = trace s ++ before ++ [Sent command; Received reply]
    ∧ Forall quiet before ∧ announces peer command reply address.
Proof.
  unfold ftpPassiveAddress. intros (ip & s1 & [Hip ->]%lift_Ok & Hrun)%bind_Ok.
  apply bind_Ok in Hrun as (u & s2 & Ht2%write_Ok & Hrun). apply bind_Ok in Hrun as (reply & s3 & Ht3%receive_Ok & Hrun).
  destruct (ftpCode reply =? 229)%Z eqn:H229.
  - apply bind_Ok in Hrun as (port & s4 & [Hport ->]%lift_Ok & [= <- <-]).
    exists [], "EPSV", reply. rewrite Ht3, Ht2, <- app_assoc. split_and!; [done|done|]. exists ip, port. reflect_bools.
    split_and!; [done..| | |by left]; eapply (passivePorts_in_range (ftpBody reply)); by left.
  - destruct (negb (ftpEPSVUnsupported _)); [done|].
    apply bind_Ok in Hrun as (u' & s4 & Ht4%write_Ok & Hrun). apply bind_Ok in Hrun as (reply' & s5 & Ht5%receive_Ok & Hrun).
    destruct (ftpCode reply' =? 227)%Z eqn:H227; [|done].
    apply bind_Ok in Hrun as (port & s6 & [Hport ->]%lift_Ok & [= <- <-]).
    exists [Sent "EPSV"; Received reply], "PASV", reply'. rewrite Ht5, Ht4, Ht3, Ht2, <- !app_assoc.
    split_and!; [done|by repeat constructor|]. exists ip, port. reflect_bools.
    split_and!; [done..| | |by right]; eapply (passivePorts_in_range (ftpBody reply')); by right.
Qed.

(** A dialogue dials the data connection at most once, right after the reply
    that announced it. *)
Lemma dialogue_trace f outside peer method path s :
  ∃ t, trace (snd (dialogue f outside peer method path s)) = trace s ++ t
    ∧ (Forall quiet t ∨ ∃ before command reply address after,
         t = before ++ [Sent command; Received reply;
                        DataDialled address (dialTimeoutValue f) (dataTimeoutValue f); DataWatched] ++ after
         ∧ Forall quiet before ∧ Forall quiet after ∧ announces peer command reply address).
Proof.
  assert (grows quiet login) as Hlogin by (unfold login; grow).
  assert (grows quiet (ftpPassiveAddress peer)) as Hpassive by (unfold ftpPassiveAddress; grow).
  unfold dialogue, bind at 1. destruct (Hlogin s) as (t1 & Ht1 & Hq1). destruct (login s) as [[u|why] s1]; cbn [snd] in *;
    [|exists t1; by split; [|left]].
  unfold bind at 1. destruct (Hpassive s1) as (t2 & Ht2 & Hq2).
  destruct (ftpPassiveAddress peer s1) as [[address|why] s2] eqn:Hp; cbn [snd] in *;
    [|exists (t1 ++ t2); rewrite Ht2, Ht1, app_assoc; split; [done|left; by apply Forall_app]].
  unfold bind, dialDataConnection. destruct (dialData outside address) as [stream|]; cbn;
    [|exists (t1 ++ t2); rewrite Ht2, Ht1, app_assoc; split; [done|left; by apply Forall_app]].
  match goal with |- context [transfer outside ?c path stream ?x] => destruct (grows_transfer outside c path stream x) as (t3 & -> & Hq3) end.
  apply passive_announces in Hp as (before & command & reply & Hp & Hq & Ha). cbn [trace]. rewrite Hp, Ht1.
  exists (t1 ++ before ++ [Sent command; Received reply;
                    DataDialled address (dialTimeoutValue f) (dataTimeoutValue f); DataWatched] ++ t3).
  rewrite <- !app_assoc. split; [done|]. right. exists (t1 ++ before), command, reply, address, t3.
  rewrite <- app_assoc. split_and!; [done|by apply Forall_app|done|done].
Qed.

Lemma transfer_body outside command path data s b s' :
  transfer outside command path data s = (Ok (FtpTransfer b), s') → bodyData b = data ∧ bodyTrace b = [].
Proof.
  unfold transfer. case_bool_decide.
  - intros (? & s1 & _ & H1)%bind_Ok. apply bind_Ok in H1 as (? & s2 & _ & H2). destruct (negb _); [done|].
    destruct (negb _); [done|]. do 2 apply bind_Ok in H2 as (? & ? & _ & H2). apply bind_Ok in H2 as (? & ? & _ & H2).
    by destruct (negb _).
  - destruct (_ || _); [|done]. intros (? & s1 & _ & H1)%bind_Ok. apply bind_Ok in H1 as (? & s2 & _ & H2).
    destruct (negb _); [done|]. by injection H2 as <- <-.
Qed.

(** Where the data of a transfer comes from. *)
Lemma dialogue_body f outside peer method path s b s' :
  dialogue f outside peer method path s = (Ok (FtpTransfer b), s') →
  bodyTrace b = [] ∧ ∃ address, address ∈ dataDials (trace s') ∧ dialData outside address = Some (bodyData b).
Proof.
  unfold dialogue. intros (? & s1 & _ & H1)%bind_Ok. apply bind_Ok in H1 as (address & s2 & _ & H2).
  apply bind_Ok in H2 as (data & s3 & Hdial & Htransfer). apply transfer_body in Htransfer as Hbody. destruct Hbody as [Hdata Htrace].
  split; [done|]. exists address. unfold dialDataConnection in Hdial.
  destruct (dialData outside address) as [stream|]; [|done]. injection Hdial as <- <-. rewrite Hdata. split; [|done].
  match type of Htransfer with _ ?x = _ => destruct (grows_transfer outside (ftpCommand method) path stream x) as (t & Ht & _) end.
  rewrite Htransfer in Ht. cbn in Ht. rewrite Ht, !dataDials_app. set_solver.
Qed.

(** The deferred calls send and dial nothing. *)
Lemma release_trace q s :
  ∃ rest, release q s = trace s ++ rest ∧ sentLines rest = [] ∧ dataDials rest = [].
Proof.
  unfold release. destruct q as [[o|b]|why]; [|exists []; by rewrite app_nil_r|]; eexists; (split; [done|]); by destruct (dataStream s).
Qed.

(** The bytes the connector writes, and a server that reads its commands line
    by line. *)
Definition controlWire (actions : list FtpAction) : bytes :=
  concat ((λ line, line ++ [carriageReturn; lineFeed]) <$> sentLines actions).

Definition readCommands (wire : bytes) : list bytes :=
  (λ line, trimSuffix line [carriageReturn]) <$> removelast (splitByte wire lineFeed).

Lemma readCommands_wire actions :
  Forall (λ line, lineFeed ∉ line) (sentLines actions) → readCommands (controlWire actions) = sentLines actions.
Proof.
  unfold readCommands, controlWire. induction 1 as [|line lines Hline _ IH]; [done|].
  rewrite fmap_cons, concat_cons, <- app_assoc. change ([carriageReturn; lineFeed] ++ ?x) with ([carriageReturn] ++ lineFeed :: x).
  rewrite app_assoc, splitByte_app by (rewrite elem_of_app, list_elem_of_singleton; by intros [?|?]).
  destruct (splitByte _ lineFeed) as [|piece pieces] eqn:Hsplit; [by apply splitByte_ne in Hsplit|].
  change (trimSuffix (line ++ [carriageReturn]) [carriageReturn] :: ((λ line, trimSuffix line [carriageReturn]) <$> removelast (piece :: pieces))
          = line :: lines). by rewrite trimSuffix_app, IH.
Qed.

Lemma dialogue_lines pass pasv command :
  lineFeed ∉ command → Forall (λ line, lineFeed ∉ line) (fullDialogue pass pasv command).
Proof.
  intros Hcommand. unfold fullDialogue.
  destruct pass, pasv; cbn [passLines pasvLines app];
    repeat (apply Forall_cons; split; [first [exact Hcommand|apply (bool_decide_unpack _); by vm_compute]|]); by apply Forall_nil.
Qed.

(** C7: the connector says nothing to the server but one dialogue, and lets
    the server choose no more than a port.  Whatever the server answers, the
    lines it writes are an initial part of the login, the passive request and
    the one command of the operation; if the path of the resource holds no line
    feed, these are the commands a server reads from the bytes written.  The one
    data connection that may be dialled goes to the address of the control
    connection's own peer, at the port that the reply received just before, to
    EPSV or PASV, announced. *)
Theorem operate_dialogue f outside method resource r actions :
  operate f outside method resource = (r, actions) → actions ≠ [] →
  ∃ parsed control, parseFTPResource resource = Ok parsed ∧ dialControl outside (ftpHost parsed) = Some control
    ∧ (∃ pass pasv, sentLines actions `prefix_of`
         fullDialogue pass pasv (commandLine (ftpCommand method) [ftpPath parsed]))
    ∧ (lineFeed ∉ ftpCommand method → lineFeed ∉ ftpPath parsed →
         readCommands (controlWire actions) = sentLines actions)
    ∧ length (dataDials actions) ≤ 1
    ∧ ∀ address, address ∈ dataDials actions →
        ∃ ip port before command reply timeout deadline after,
          ftpControlPeerIP (controlPeer control) = Ok ip
          ∧ address = joinHostPort ip (itoa port) ∧ (1 ≤ port ≤ 65535)%Z
          ∧ actions = before ++ [Sent command; Received reply; DataDialled address timeout deadline] ++ after
          ∧ (command = "EPSV" ∧ ftpCode reply = 229%Z ∧ parseEPSVPort (ftpBody reply) = Ok port
             ∨ command = "PASV" ∧ ftpCode reply = 227%Z ∧ parsePASVPort (ftpBody reply) = Ok port).
Proof.
  intros [[-> _]|(f' & parsed & control & q & s & -> & Hp & Hc & Hq & -> & _)]%operate_run Hne; [done|].
  exists parsed, control. split; [done|]. split; [done|].
  destruct (release_trace q s) as (rest & Hrel & Hsent & Hdial). rewrite Hrel, sentLines_app, dataDials_app, Hsent, Hdial, !app_nil_r.
  pose proof (dialogue_stopped f' outside parsed control method q s Hq) as (sent & dials & closes & [Hs _ _ _] & pass & pasv & Hb).
  rewrite <- Hs in Hb. split; [by exists pass, pasv|]. split.
  { intros Hmethod Hpath. unfold controlWire. rewrite sentLines_app, Hsent, app_nil_r.
    apply (readCommands_wire (trace s)). destruct Hb as [k Hb].
    eapply (Forall_app_l (sentLines (trace s)) k). rewrite <- Hb. apply dialogue_lines.
    unfold commandLine. case_bool_decide; [done|]. cbn. set_solver. }
  destruct (dialogue_trace f' outside (controlPeer control) method (ftpPath parsed) (dialogueStart f' parsed control)) as (t & Ht & Hcases).
  rewrite Hq in Ht. cbn [snd dialogueStart trace] in Ht. rewrite Ht, dataDials_app.
  destruct Hcases as [Hquiet%quiet_no_dial|(before & command & reply & address & after & -> & Hb1%quiet_no_dial & Hb2%quiet_no_dial & Ha)].
  - rewrite Hquiet. split; [cbn; lia|]. by intros ? ?%elem_of_nil.
  - rewrite !dataDials_app, Hb1, Hb2. cbn. split; [lia|]. intros ? ->%list_elem_of_singleton.
    destruct Ha as (ip & port & Hip & Haddr & Hport & Hann).
    exists ip, port, (ControlDialled (ftpHost parsed) (dialTimeoutValue f') (controlTimeoutValue f') :: ControlWatched :: before),
      command, reply, (dialTimeoutValue f'), (dataTimeoutValue f'), (DataWatched :: after ++ rest).
    split_and!; try (done || lia). cbn. by rewrite <- !app_assoc.
Qed.

(** What a call that dialled did, up to the connections it hands over. *)
Lemma operate_shape f outside method resource r actions :
  operate f outside method resource = (r, actions) →
  (actions = [] ∧ ∃ err, r = Err err) ∨
  ∃ address timeout deadline rest, Forall middle rest ∧
    match r with
    | Ok (FtpTransfer b) => actions = ControlDialled address timeout deadline :: ControlWatched :: rest
        ∧ bodyFinished b = false ∧ bodyTrace b = [] ∧ filter isClose actions = []
        ∧ ∃ data, data ∈ dataDials actions ∧ dialData outside data = Some (bodyData b)
    | _ => ∃ dialled, actions = ControlDialled address timeout deadline :: ControlWatched :: rest ++ releaseActions dialled
        ∧ (dialled = false → Forall quiet rest)
    end.
Proof.
  intros Hrun. apply operate_run in Hrun as Hsplit. destruct Hsplit as [?|(f' & parsed & control & q & s & -> & Hp & Hc & Hq & -> & Hr)]; [by left|right].
  pose proof (dialogue_stopped f' outside parsed control method q s Hq) as (sent & dials & closes & [_ Hdials _ Hdata] & _).
  destruct (dialogue_trace f' outside (controlPeer control) method (ftpPath parsed) (dialogueStart f' parsed control)) as (t & Htrace & Ht).
  pose proof (triple_dialogue f' outside (controlPeer control) method (ftpPath parsed) (dialogueStart f' parsed control) ltac:(by constructor)) as Hopen.
  rewrite Hq in Htrace, Hopen. cbn [snd dialogueStart trace] in Htrace.
  assert (Forall middle t) as Hmid.
  { destruct Ht as [Ht|(before & c & reply & address & after & -> & Hb & Ha & _)]; [by apply quiet_middle|].
    apply Forall_app. split; [by apply quiet_middle|]. do 4 (apply Forall_cons; split; [done|]). by apply quiet_middle. }
  exists (ftpHost parsed), (dialTimeoutValue f'), (controlTimeoutValue f'), t. split; [done|].
  assert (∀ q', (∀ b, q' ≠ Ok (FtpTransfer b)) → ∃ dialled, release q' s =
    ControlDialled (ftpHost parsed) (dialTimeoutValue f') (controlTimeoutValue f') :: ControlWatched :: t ++ releaseActions dialled
    ∧ (dialled = false → Forall quiet t)) as Hreleased.
  { intros q' Hno. exists (match dataStream s with Some _ => true | None => false end). split.
    - unfold release. rewrite Htrace. by destruct q' as [[|b]|]; [|destruct (Hno b)|].
    - destruct (dataStream s); [done|]. intros _. rewrite (proj1 Hdata), Htrace, dataDials_app in Hdials by done.
      destruct Ht as [?|(before & c & reply & address & after & -> & _)]; [done|].
      rewrite !dataDials_app in Hdials. cbn in Hdials. by destruct (dataDials before). }
  destruct q as [[o|b]|why]; cbn in Hr.
  - subst r. by apply Hreleased.
  - subst r. destruct Hopen as [_ [Hcl Hfin]]. apply dialogue_body in Hq as [Hb Hdial]. by split_and!.
  - destruct why as [err|o]; [destruct Hr as [? ->]|subst r]; by apply Hreleased.
Qed.

(** No connection is leaked: a call that returns the body of a transfer
    has dialled both connections, closed neither, and the body is not
    finished; every other call that dialled closes the control connection
    once, as its last action, and, if it dialled one, the data connection
    before. *)
Theorem operate_releases f outside method resource r actions :
  operate f outside method resource = (r, actions) →
  (∀ b, r = Ok (FtpTransfer b) → filter isClose actions = [] ∧ dataDials actions ≠ [] ∧ bodyFinished b = false)
  ∧ ((∀ b, r ≠ Ok (FtpTransfer b)) → actions ≠ [] → ∃ before,
       actions = before ++ [ControlClosed] ∧ ControlClosed ∉ before
       ∧ (dataDials actions ≠ [] → DataClosed ∈ before)).
Proof.
  intros [[-> [err ->]]|(address & timeout & deadline & rest & Hmid & Hr)]%operate_shape; [done|]. split.
  - intros b ->. destruct Hr as (-> & Hopen & _ & Hcl & data & Hdata & _). split_and!; [done| |done]. intros Hd.
    rewrite Hd in Hdata. by apply elem_of_nil in Hdata.
  - intros Hno _. assert (∃ dialled, actions = ControlDialled address timeout deadline :: ControlWatched :: rest ++ releaseActions dialled
        ∧ (dialled = false → Forall quiet rest)) as (dialled & -> & Hd) by (destruct r as [[o|b]|err]; [done|by destruct (Hno b)|done]).
    exists (ControlDialled address timeout deadline :: ControlWatched :: rest
            ++ (if dialled then [DataUnwatched; DataClosed] else []) ++ [ControlUnwatched]).
    unfold releaseActions. rewrite !app_comm_cons, <- !app_assoc. split; [done|]. apply middle_not_closed in Hmid. split.
    + destruct dialled; cbn; set_solver.
    + destruct dialled; [set_solver|]. specialize (Hd eq_refl). apply quiet_no_dial in Hd. intros Hne. destruct Hne.
      unfold dataDials in *. rewrite ?omap_app. cbn. by rewrite ?omap_app, Hd.
Qed.
End Operation.

(** ** Success of a [STOR] *)

Section StoreSuccess.
Context `{UnicodeData}.

Definition on (P : list FtpAction → option reader → Prop) (s : FtpSession) : Prop := P (trace s) (dataStream s).

Abbreviation noSuccess := (λ why (_ : FtpSession), why ≠ StopOutcome OutcomeSuccess).

Lemma ftpOutcome_failure code : ftpOutcome code ≠ OutcomeSuccess.
Proof. unfold ftpOutcome. destruct (_ || _); [done|]. by destruct (_ =? _)%Z. Qed.

Lemma refused_no_success {A} P code (Q : A → FtpSession → Prop) :
  triple P (stop (StopOutcome (ftpOutcome code))) Q noSuccess.
Proof. apply triple_stop. intros _ _ [= Hc]. by apply ftpOutcome_failure in Hc. Qed.

Lemma failed_no_success {A} P err (Q : A → FtpSession → Prop) : triple P (stop (StopError err)) Q noSuccess.
Proof. by apply triple_stop. Qed.

Lemma receive_trace P f :
  triple (on P) (receive f)
    (λ reply, on (λ t d, ∃ t0, t = t0 ++ [Received reply] ∧ P t0 d)) noSuccess.
Proof. intros s Hs. unfold receive. destruct (ReadReply _) as [[reply|err] rd]; cbn; [by exists (trace s)|done]. Qed.

Lemma write_trace P name args :
  triple (on P) (writeFTPCommand name args)
    (λ _, on (λ t d, ∃ t0, t = t0 ++ [Sent (commandLine name args)] ∧ P t0 d)) noSuccess.
Proof.
  intros s Hs. unfold writeFTPCommand. destruct (match writes s with [] => _ | _ => _ end) as [[] rest]; cbn; [|done].
  by exists (trace s).
Qed.

Lemma act_trace P a : triple (on P) (act a) (λ _, on (λ t d, ∃ t0, t = t0 ++ [a] ∧ P t0 d)) noSuccess.
Proof. intros s Hs. by exists (trace s). Qed.

Lemma lift_trace {A E} P (f : E → FtpError) (r : result A E) : triple P (lift f r) (λ _, P) noSuccess.
Proof. destruct r; cbn; [by apply triple_ret|apply failed_no_success]. Qed.

Definition anything (s : FtpSession) : Prop := True.

Lemma triple_pre {A} (P P' : FtpSession → Prop) (m : FtpM A) Q R :
  (∀ s, P' s → P s) → triple P m Q R → triple P' m Q R.
Proof. intros HP Hm s Hs. by apply Hm, HP. Qed.

Lemma receive_any f : triple anything (receive f) (λ _, anything) noSuccess.
Proof. eapply triple_pre; [|eapply triple_post; [apply (receive_trace (λ _ _, True))|done]]. done. Qed.

Lemma write_any name args : triple anything (writeFTPCommand name args) (λ _, anything) noSuccess.
Proof. eapply triple_pre; [|eapply triple_post; [apply (write_trace (λ _ _, True))|done]]. done. Qed.

Lemma login_any : triple anything login (λ _, anything) noSuccess.
Proof.
  unfold login. do 3 (eapply triple_bind; [apply receive_any || apply write_any|]; intros ?).
  apply triple_if; intros _; [apply refused_no_success|].
  eapply triple_bind with (Q := λ _, anything).
  - apply triple_if; intros _; [|by apply triple_ret].
    do 2 (eapply triple_bind; [apply receive_any || apply write_any|]; intros ?).
    apply triple_if; intros _; [apply refused_no_success|by apply triple_ret].
  - intros []. do 2 (eapply triple_bind; [apply receive_any || apply write_any|]; intros ?).
    apply triple_if; intros _; [apply failed_no_success|by apply triple_ret].
Qed.

Lemma passive_any peer : triple anything (ftpPassiveAddress peer) (λ _, anything) noSuccess.
Proof.
  unfold ftpPassiveAddress.
  do 3 (eapply triple_bind; [apply receive_any || apply write_any || apply lift_trace|]; intros ?).
  apply triple_if; intros _.
  { eapply triple_bind; [apply lift_trace|]. intros ?. by apply triple_ret. }
  apply triple_if; intros _; [apply failed_no_success|].
  do 2 (eapply triple_bind; [apply receive_any || apply write_any|]; intros ?).
  apply triple_if; intros _; [apply failed_no_success|].
  eapply triple_bind; [apply lift_trace|]. intros ?. by apply triple_ret.
Qed.

(** The trace of a store that succeeded, before the deferred calls. *)
Definition storeTrace (path : bytes) (t : list FtpAction) : Prop :=
  ∃ before start finish, t = before ++ [Sent (commandLine "STOR" [path]); Received start; BodyCopied; DataClosed; Received finish]
    ∧ preliminary (ftpCode start) = true ∧ completed (ftpCode finish) = true.

Lemma transfer_success outside command path data :
  triple (on (λ _ d, d ≠ None)) (transfer outside command path data)
    (λ r s, r = FtpOutcome OutcomeSuccess →
       command = "STOR" ∧ copyData outside = true ∧ storeTrace path (trace s) ∧ dataStream s ≠ None) noSuccess.
Proof.
  unfold transfer. apply triple_if; intros Hcmd; [|apply triple_if; intros _].
  - reflect_bools. subst command.
    eapply triple_bind; [apply write_trace|]. intros []. eapply triple_bind; [apply receive_trace|]. intros start.
    apply triple_if; intros Hstart; [apply refused_no_success|].
    apply triple_if; intros Hcopy; [apply failed_no_success|].
    eapply triple_bind; [apply act_trace|]. intros []. eapply triple_bind; [apply act_trace|]. intros [].
    eapply triple_bind; [apply receive_trace|]. intros finish.
    apply triple_if; intros Hfinish; [apply refused_no_success|].
    apply triple_ret. intros s (t5 & Ht5 & t4 & -> & t3 & -> & t2 & -> & t1 & -> & Hd) _. reflect_bools.
    split_and!; try done. exists t1, start, finish. split_and!; try done.
    rewrite Ht5. by rewrite <- !app_assoc.
  - eapply triple_bind; [apply write_trace|]. intros []. eapply triple_bind; [apply receive_trace|]. intros start.
    apply triple_if; intros Hstart; [apply refused_no_success|]. by intros s _.
  - apply failed_no_success.
Qed.

Lemma dialogue_success f outside peer method path :
  triple anything (dialogue f outside peer method path)
    (λ r s, r = FtpOutcome OutcomeSuccess →
       ftpCommand method = "STOR" ∧ copyData outside = true ∧ storeTrace path (trace s) ∧ dataStream s ≠ None) noSuccess.
Proof.
  unfold dialogue. eapply triple_bind; [apply login_any|]. intros [].
  eapply triple_bind; [apply passive_any|]. intros address.
  eapply triple_bind; [|intros data; apply transfer_success].
  unfold dialDataConnection. destruct (dialData outside address); [|apply failed_no_success].
  by intros s _.
Qed.

Lemma operate_success f outside method resource actions :
  operate f outside method resource = (Ok (FtpOutcome OutcomeSuccess), actions) → ftpCommand method = "STOR".
Proof.
  intros [[_ [err [=]]]|(f' & parsed & control & q & s & -> & _ & _ & Hq & _ & Hr)]%operate_run.
  pose proof (dialogue_success f' outside (controlPeer control) method (ftpPath parsed) (dialogueStart f' parsed control) I) as Ht.
  rewrite Hq in Ht. destruct q as [a|[err|o]]; cbn in Hr; [|by destruct Hr|congruence].
  injection Hr as <-. by apply Ht.
Qed.

(** C26: a store is reported as done only when it is: success is returned only
    for a [STOR] whose whole body was copied to the data connection, which was
    then closed, and which the server first accepted and finally confirmed
    with a 2xx reply. *)
Theorem operate_store_success f outside method resource actions :
  operate f outside method resource = (Ok (FtpOutcome OutcomeSuccess), actions) →
  ftpCommand method = "STOR" ∧ copyData outside = true ∧
  ∃ parsed before start finish,
    parseFTPResource resource = Ok parsed ∧ preliminary (ftpCode start) = true ∧ completed (ftpCode finish) = true
    ∧ actions = before ++ [Sent (commandLine "STOR" [ftpPath parsed]); Received start; BodyCopied; DataClosed;
                           Received finish; DataUnwatched; DataClosed; ControlUnwatched; ControlClosed].
Proof.
  intros [[_ [err [=]]]|(f' & parsed & control & q & s & -> & Hp & _ & Hq & -> & Hr)]%operate_run.
  pose proof (dialogue_success f' outside (controlPeer control) method (ftpPath parsed) (dialogueStart f' parsed control) I) as Ht.
  rewrite Hq in Ht. destruct q as [a|[err|o]]; cbn in Hr; [|by destruct Hr|congruence].
  injection Hr as <-. destruct (Ht eq_refl) as (Hcmd & Hcopy & (before & start & finish & Htrace & Hs & Hf) & Hdata).
  split_and!; [done..|]. exists parsed, before, start, finish. split_and!; [done..|].
  unfold release. destruct (dataStream s); [|done]. rewrite Htrace. by rewrite <- app_assoc.
Qed.
End StoreSuccess.

(** ** The body of a transfer *)

Inductive BodyError :=
| BodyEOF
| BodyClosedPipe
| BodyContext
| BodyDataRead (err : ReadError)
| BodyCompletion (err : FtpReplyError)
| BodyRejected (code : Z).

(** [finish]: the first call closes both connections. *)
Definition finishBody (b : FtpTransferBody) : FtpTransferBody :=
  if bodyFinished b then b
  else {| bodyCommand := bodyCommand b; bodyData := bodyData b; bodyReplies := bodyReplies b; bodyFinished := true;
          bodyTrace := bodyTrace b ++ finishActions |}.

Definition withData (rd : reader) (b : FtpTransferBody) : FtpTransferBody :=
  {| bodyCommand := bodyCommand b; bodyData := rd; bodyReplies := bodyReplies b; bodyFinished := bodyFinished b;
     bodyTrace := bodyTrace b |}.

(** [Read] with a buffer of [size] bytes; [ctxErr] is whether the context has
    ended when it is asked. *)
Definition readBody (size : nat) (ctxErr : bool) (b : FtpTransferBody) : bytes * option BodyError * FtpTransferBody :=
  if bodyFinished b then ([], Some BodyClosedPipe, b)
  else
    let '(read, err, rd) := readOnce size (bodyData b) in
    let b := withData rd b in
    match err with
    | None => (read, None, b)
    | Some err =>
        if ctxErr then (read, Some BodyContext, finishBody b)
        else if negb (bool_decide (err = EOF)) then (read, Some (BodyDataRead err), finishBody b)
        else
          let '(reply, replies) := ReadReply (bodyReplies b) in
          let b := {| bodyCommand := bodyCommand b; bodyData := bodyData b; bodyReplies := replies;
                      bodyFinished := bodyFinished b;
                      bodyTrace := bodyTrace b ++
                        DataClosed :: match reply with Ok reply => [Received reply] | Err _ => [] end |} in
          match reply with
          | Err err => (read, Some (BodyCompletion err), finishBody b)
          | Ok reply =>
              if negb (completed (ftpCode reply)) then (read, Some (BodyRejected (ftpCode reply)), finishBody b)
              else (read, Some BodyEOF, finishBody b)
          end
    end.

Definition closeBody (b : FtpTransferBody) : FtpTransferBody := finishBody b.

(** A reader that stops at the first error, as [io.Copy] does: one entry per
    call of [Read]. *)
Fixpoint readBodyAll (calls : list (nat * bool)) (b : FtpTransferBody) : bytes * option BodyError * FtpTransferBody :=
  match calls with
  | [] => ([], None, b)
  | (size, ctxErr) :: calls =>
      let '(read, err, b) := readBody size ctxErr b in
      match err with
      | Some err => (read, Some err, b)
      | None => let '(rest, err, b) := readBodyAll calls b in (read ++ rest, err, b)
      end
  end.

Lemma readBody_None size ctxErr b chunk b' :
  readBody size ctxErr b = (chunk, None, b') →
  bodyFinished b = false ∧ ∃ rd, readOnce size (bodyData b) = (chunk, None, rd) ∧ b' = withData rd b.
Proof.
  unfold readBody. destruct (bodyFinished b); [done|].
  destruct (readOnce size (bodyData b)) as [[data [err|]] rd]; [|intros [= -> <-]; split; [done|by exists rd]].
  destruct ctxErr; [done|]. case_bool_decide; cbn; [|done]. destruct (ReadReply _) as [[reply|] ?]; [|done].
  by destruct (completed _).
Qed.

(** Actions are only added to the record of a body. *)
Lemma readBody_trace size ctxErr b :
  bodyTrace b `prefix_of` bodyTrace (snd (readBody size ctxErr b)).
Proof.
  unfold readBody. destruct (bodyFinished b) eqn:Hf; [done|]. destruct (readOnce size (bodyData b)) as [[data [err|]] rd]; [|done].
  assert (∀ x, bodyTrace b `prefix_of` bodyTrace x → bodyTrace b `prefix_of` bodyTrace (finishBody x)) as Hfin.
  { intros x [t Ht]. unfold finishBody. destruct (bodyFinished x); [by exists t|]. cbn. rewrite Ht, <- app_assoc. by eexists. }
  destruct ctxErr; [by apply Hfin|]. case_bool_decide; cbn; [|by apply Hfin].
  destruct (ReadReply _) as [[reply|] ?]; [destruct (completed _)|]; apply Hfin; by eexists.
Qed.

Lemma finishBody_trace b : bodyTrace b `prefix_of` bodyTrace (finishBody b).
Proof. unfold finishBody. destruct (bodyFinished b); [done|by eexists]. Qed.

Lemma readBody_closed size ctxErr b : bodyFinished b = true → readBody size ctxErr b = ([], Some BodyClosedPipe, b).
Proof. unfold readBody. by intros ->. Qed.

(** The read that reports an error finishes the body. *)
Lemma readBody_last size ctxErr b chunk err b' :
  bodyFinished b = false → readBody size ctxErr b = (chunk, Some err, b') →
  chunk = delivered (bodyData b) ∧ bodyFinished b' = true
  ∧ (∃ mid, bodyTrace b' = bodyTrace b ++ mid ++ finishActions ∧ Forall closing mid)
  ∧ (err = BodyEOF → ∃ reply r, ReadReply (bodyReplies b) = (Ok reply, r) ∧ (200 ≤ ftpCode reply ≤ 299)%Z
       ∧ bodyTrace b' = bodyTrace b ++ [DataClosed; Received reply] ++ finishActions).
Proof.
  unfold readBody. intros Hopen. rewrite Hopen. destruct (readOnce size (bodyData b)) as [[data [rerr|]] rd] eqn:Honce; [|done].
  apply readOnce_spec in Honce as [_ Hdel]. cbn [noError] in Hdel. rewrite app_nil_r in Hdel. rewrite Hdel.
  destruct ctxErr.
  { intros [= <- <- <-]. unfold finishBody. cbn. rewrite Hopen. split_and!; try done. by exists []. }
  case_bool_decide as Heof; cbn [negb].
  - cbn [withData bodyReplies]. destruct (ReadReply (bodyReplies b)) as [[reply|rerr'] replies];
      [destruct (completed (ftpCode reply)) eqn:Hcode; cbn [negb]|]; intros [= <- <- <-]; unfold finishBody; cbn; rewrite Hopen;
      cbn; rewrite <- !app_assoc; (split_and!; [done|done|eexists (_ :: _); split; [done|by repeat constructor]|]); try done.
    intros _. exists reply, replies. split_and!; try done; unfold completed in Hcode; reflect_bools; lia.
  - intros [= <- <- <-]. unfold finishBody. cbn. rewrite Hopen. split_and!; try done. by exists [].
Qed.

Lemma readBodyAll_ends calls b read err b' :
  bodyFinished b = false → readBodyAll calls b = (read, Some err, b') →
  read = delivered (bodyData b) ∧ bodyFinished b' = true
  ∧ (∃ mid, bodyTrace b' = bodyTrace b ++ mid ++ finishActions ∧ Forall closing mid)
  ∧ (err = BodyEOF → ∃ reply r, ReadReply (bodyReplies b) = (Ok reply, r) ∧ (200 ≤ ftpCode reply ≤ 299)%Z
       ∧ bodyTrace b' = bodyTrace b ++ [DataClosed; Received reply] ++ finishActions).
Proof.
  revert b read. induction calls as [|[size ctxErr] calls IH]; intros b read Hopen; [done|]. cbn [readBodyAll].
  destruct (readBody size ctxErr b) as [[data [e|]] b1] eqn:Hread.
  - intros [= <- <- <-]. by eapply readBody_last.
  - apply readBody_None in Hread as (_ & rd & Honce & ->). apply readOnce_spec in Honce as [_ Hdel].
    destruct (readBodyAll calls (withData rd b)) as [[rest e'] b2] eqn:Hrest. intros [= <- -> <-].
    apply IH in Hrest as (-> & Hrest); [|done]. by rewrite Hdel.
Qed.

(** C17: a download never looks complete when it is not: whatever the buffers,
    a reader that has seen [io.EOF] has read everything the data connection
    delivered up to its own end, and the server has confirmed the transfer
    with a 2xx reply on the control connection; with any error both
    connections are closed, the control connection once and last, and every
    later [Read] fails without data. *)
Theorem transferBody_complete calls b read err b' :
  bodyFinished b = false → readBodyAll calls b = (read, Some err, b') →
  read `prefix_of` delivered (bodyData b)
  ∧ bodyFinished b' = true
  ∧ (∃ mid, bodyTrace b' = bodyTrace b ++ mid ++ finishActions ∧ ControlClosed ∉ mid)
  ∧ (∀ size ctxErr, readBody size ctxErr b' = ([], Some BodyClosedPipe, b'))
  ∧ (err = BodyEOF → read = delivered (bodyData b)
       ∧ ∃ reply r, ReadReply (bodyReplies b) = (Ok reply, r) ∧ (200 ≤ ftpCode reply ≤ 299)%Z
         ∧ bodyTrace b' = bodyTrace b ++ [DataClosed; Received reply] ++ finishActions).
Proof.
  intros Hopen Hread. apply readBodyAll_ends in Hread as (-> & Hf & (mid & Ht & Hmid) & Hconfirmed); [|done].
  split_and!; [done|done|exists mid; split; [done|by apply middle_not_closed, closing_middle]| |auto].
  intros size ctxErr. by apply readBody_closed.
Qed.

(** ** Witnesses *)

Definition crlf : bytes := [carriageReturn; lineFeed].

Definition replyText (lines : list bytes) : bytes := concat ((λ line, line ++ crlf) <$> lines).

(** A server that asks for a password, does not know EPSV and advertises a
    host of its own in its PASV reply. *)
Definition sampleControl : FtpControl := {|
  controlPeer := Some ("192.0.2.7:21" : bytes);
  controlInput :=
    [(replyText ["220-hello" : bytes; "220 ready" : bytes; "331 password" : bytes], None);
     (replyText ["230 in" : bytes; "200 binary" : bytes; "500 what" : bytes; "227 Passive (10,0,0,1,31,144)" : bytes;
                 "150 go" : bytes; "226 done" : bytes], None)];
  controlWrites := [];
|}.

Definition sampleOutside : FtpOutside := {|
  dialControl address := if bool_decide (address = "ftp.example") then Some sampleControl else None;
  dialData address := if bool_decide (address = "192.0.2.7:8080") then Some [("data" : bytes, None)] else None;
  copyData := true;
  contextEnded := false;
|}.

Definition smallFTP : FTP :=
  {| hasDialer := true; dialTimeout := 0; controlTimeout := 0; dataTimeout := 0; maxReplyBytes := 64 |}.

Definition sampleActions (method : bytes) : list FtpAction :=
  snd (@operate asciiUnicode (Some smallFTP) sampleOutside method "ftp://ftp.example/file").

Lemma operate_dialogue_witness :
  sentLines (sampleActions "GET") = fullDialogue true true "RETR /file"
  ∧ readCommands (controlWire (sampleActions "GET")) = sentLines (sampleActions "GET")
  ∧ ∀ address, address ∈ dataDials (sampleActions "GET") →
      ∃ before command reply timeout deadline after,
        sampleActions "GET" = before ++ [Sent command; Received reply; DataDialled address timeout deadline] ++ after.
Proof.
  split; [by vm_compute|].
  destruct (@operate asciiUnicode (Some smallFTP) sampleOutside "GET" "ftp://ftp.example/file") as [r actions] eqn:Hrun.
  destruct (@operate_dialogue asciiUnicode (Some smallFTP) sampleOutside "GET" "ftp://ftp.example/file" r actions Hrun)
    as (parsed & control & Hp & Hc & _ & Hwire & _ & Hdials).
  - intros ->. apply (f_equal snd) in Hrun. apply (f_equal length) in Hrun. by vm_compute in Hrun.
  - vm_compute in Hp. injection Hp as <-. unfold sampleActions. rewrite Hrun. split.
    + apply Hwire; apply (bool_decide_unpack _); by vm_compute.
    + intros address Hin. destruct (Hdials address Hin) as (_ & _ & before & command & reply & t & d & after & _ & _ & _ & Ha & _).
      by exists before, command, reply, t, d, after.
Defined.

Lemma operate_releases_witness :
  ∃ b, fst (@operate asciiUnicode (Some smallFTP) sampleOutside "LIST" "ftp://ftp.example/") = Ok (FtpTransfer b)
    ∧ bodyFinished b = false.
Proof.
  destruct (@operate asciiUnicode (Some smallFTP) sampleOutside "LIST" "ftp://ftp.example/") as [r actions] eqn:Hrun.
  pose proof (@operate_releases asciiUnicode _ _ _ _ _ _ Hrun) as [Hopen _].
  apply (f_equal fst) in Hrun. vm_compute in Hrun. subst r. eexists. split; [done|]. by eapply Hopen.
Defined.

Lemma operate_store_success_witness :
  ∃ before start finish, completed (ftpCode finish) = true ∧
    sampleActions "PUT" = before ++ [Sent "STOR /file"; Received start; BodyCopied; DataClosed; Received finish;
                                     DataUnwatched; DataClosed; ControlUnwatched; ControlClosed].
Proof.
  assert (@operate asciiUnicode (Some smallFTP) sampleOutside "PUT" "ftp://ftp.example/file"
          = (Ok (FtpOutcome OutcomeSuccess), sampleActions "PUT")) as Hrun by by vm_compute.
  destruct (@operate_store_success asciiUnicode _ _ _ _ _ Hrun)
    as (_ & _ & parsed & before & start & finish & Hp & _ & Hf & Hactions).
  vm_compute in Hp. injection Hp as <-. exists before, start, finish. split; [exact Hf|].
  rewrite Hactions. reflexivity.
Defined.

Definition sampleBody : FtpTransferBody := {|
  bodyCommand := "RETR";
  bodyData := [("ab" : bytes, None); ("cde" : bytes, Some EOF)];
  bodyReplies := newFTPReplyReader [(replyText ["226 done" : bytes], None)] 64;
  bodyFinished := false;
  bodyTrace := [];
|}.

Lemma transferBody_complete_witness :
  fst (fst (readBodyAll [(4, false); (2, false); (4, false)] sampleBody)) = delivered (bodyData sampleBody).
Proof.
  destruct (readBodyAll [(4, false); (2, false); (4, false)] sampleBody) as [[read err] b'] eqn:Hrun.
  assert (err = Some BodyEOF) as -> by (apply (f_equal (snd ∘ fst)) in Hrun; by vm_compute in Hrun).
  destruct (transferBody_complete _ sampleBody read BodyEOF b' eq_refl Hrun) as (_ & _ & _ & _ & Heof).
  by apply Heof.
Defined.

(** ** Deadlines *)

(** No call on a connection of the connector can block for longer than its
    timeout, whatever the fields of the connector are: every read and every
    write happens under a fresh positive deadline. *)
Theorem ftpDeadline_every_call f size data rh wh :
  let control := controlTimeoutValue f in
  let transfer := dataTimeoutValue f in
  (0 < control)%Z ∧ (0 < transfer)%Z ∧ (0 < dialTimeoutValue f)%Z
  ∧ ∀ timeout, timeout = control ∨ timeout = transfer →
      readCalls (snd (ftpDeadlineRead timeout size rh)) = readCalls rh ++ [Some timeout]
      ∧ writeCalls (snd (ftpDeadlineWrite timeout data wh)) = writeCalls wh ++ [Some timeout].
Proof.
  assert (∀ value default, (0 < default)%Z → (0 < orDefault value default)%Z) as Hpos
    by (intros; unfold orDefault; destruct (0 <? value)%Z eqn:Hv; reflect_bools; lia).
  cbv zeta. split_and!; try (by apply Hpos). intros timeout Ht.
  assert ((0 <? timeout)%Z = true) as Hlt by (apply Z.ltb_lt; destruct Ht as [->| ->]; by apply Hpos).
  unfold ftpDeadlineRead, ftpDeadlineWrite, relayRead, relayWrite, deadlineMode. cbn. rewrite Hlt. split.
  - by destruct (readOnce size (inbound rh)) as [[chunk err] rd].
  - by destruct (match outcomes wh with [] => _ | _ => _ end) as [taken rest].
Qed.

(** ** A divergence *)

(** The connector does not check the path of a resource for line ends: an
    escaped CR LF in it becomes a command of its own on the control
    connection. *)
Theorem operate_command_injection :
  ∃ line, Sent line ∈ snd (@operate asciiUnicode (Some smallFTP) sampleOutside "GET" "ftp://ftp.example/a%0D%0ADELE%20b")
    ∧ line = "RETR /a" ++ crlf ++ "DELE b".
Proof. eexists. split; [|done]. apply (bool_decide_unpack _). by vm_compute. Qed.
