(* ===== verification/Cancellation.v ===== *)
(** connector/ftp.go: the functions registered with [context.AfterFunc], which
    close the connections of an FTP operation from goroutines of their own when
    the context of the request ends. *)

From S2P Require Import Prelude FtpReply Ftp.

(** ** The watches *)

Inductive ftpConn := ControlConn | DataConn.

#[export] Instance ftpConn_eq_dec : EqDecision ftpConn.
Proof. solve_decision. Defined.

(** One registration: not made yet, made, its function running, its function
    done, or given up before it ran. *)
Inductive watch := Unarmed | Armed | Fired | Spent | Stopped.

#[export] Instance watch_eq_dec : EqDecision watch.
Proof. solve_decision. Defined.

Record Watches := {
  contextDone : bool;
  watchOf : ftpConn → watch;
}.

Definition noWatches : Watches := {| contextDone := false; watchOf c := Unarmed |}.

Definition setWatch (c : ftpConn) (x : watch) (w : Watches) : Watches :=
  {| contextDone := contextDone w; watchOf d := if decide (d = c) then x else watchOf w d |}.

(** What happens, in order: the operation's own actions, the end of the
    context, the start of a registered function, and its call of [Close]. *)
Inductive FtpEvent := Own (a : FtpAction) | ContextDone | FuncStarts (c : ftpConn) | FuncCloses (c : ftpConn).

#[export] Instance FtpEvent_eq_dec : EqDecision FtpEvent.
Proof. solve_decision. Defined.

Definition watched (c : ftpConn) : FtpAction := match c with ControlConn => ControlWatched | DataConn => DataWatched end.
Definition unwatched (c : ftpConn) : FtpAction := match c with ControlConn => ControlUnwatched | DataConn => DataUnwatched end.

(** The calls of [context.AfterFunc] and of the functions it returned. *)
Definition registration (a : FtpAction) : option (ftpConn * bool) :=
  match a with
  | ControlWatched => Some (ControlConn, true)
  | DataWatched => Some (DataConn, true)
  | ControlUnwatched => Some (ControlConn, false)
  | DataUnwatched => Some (DataConn, false)
  | _ => None
  end.

(** A function starts once at most, when the context has ended and it has not
    been given up; giving up neither stops nor awaits one that has started. *)
Definition eventStep (w : Watches) (e : FtpEvent) : option Watches :=
  match e with
  | Own a =>
      match registration a with
      | Some (c, true) => if bool_decide (watchOf w c = Unarmed) then Some (setWatch c Armed w) else None
      | Some (c, false) => Some (if bool_decide (watchOf w c = Armed) then setWatch c Stopped w else w)
      | None => Some w
      end
  | ContextDone => Some {| contextDone := true; watchOf := watchOf w |}
  | FuncStarts c =>
      if contextDone w && bool_decide (watchOf w c = Armed) then Some (setWatch c Fired w) else None
  | FuncCloses c => if bool_decide (watchOf w c = Fired) then Some (setWatch c Spent w) else None
  end.

Fixpoint eventRun (w : Watches) (events : list FtpEvent) : option Watches :=
  match events with
  | [] => Some w
  | e :: events => match eventStep w e with Some w => eventRun w events | None => None end
  end.

Definition ownActions (events : list FtpEvent) : list FtpAction :=
  omap (λ e, match e with Own a => Some a | _ => None end) events.

Definition closesBy (c : ftpConn) (events : list FtpEvent) : list FtpEvent := filter (λ e, e = FuncCloses c) events.

(** ** What they can do *)

Lemma watchOf_set c x w d : watchOf (setWatch c x w) d = if decide (d = c) then x else watchOf w d.
Proof. done. Qed.

Ltac follow_event :=
  repeat (case_bool_decide || case_match); simplify_eq; rewrite ?watchOf_set; try case_decide; simplify_eq; try done.

Lemma eventStep_unarmed w e w' c :
  eventStep w e = Some w' → e ≠ Own (watched c) → watchOf w c ≠ Armed → watchOf w' c ≠ Armed.
Proof.
  intros Hstep Hne Hw. destruct e as [a| |d|d]; cbn in Hstep; follow_event; try congruence.
  destruct a; cbn in *; simplify_eq; by destruct c.
Qed.

(** A registration that has been given up lets no function start any more. *)
Lemma eventRun_unarmed w events w' c :
  eventRun w events = Some w' → watched c ∉ ownActions events → watchOf w c ≠ Armed → watchOf w' c ≠ Armed.
Proof.
  revert w. induction events as [|e events IH]; intros w; [by intros [= <-]|]. cbn [eventRun].
  destruct (eventStep w e) as [w1|] eqn:Hstep; [|done]. intros Hrun Hno Hw. apply (IH w1); [done| |].
  - destruct e; cbn in Hno; set_solver.
  - eapply eventStep_unarmed; [done| |done]. intros ->. apply Hno. cbn. by left.
Qed.

Definition closesLeft (x : watch) : nat := match x with Spent | Stopped => 0 | _ => 1 end.

Lemma eventStep_closes w e w' c :
  eventStep w e = Some w' → length (closesBy c [e]) + closesLeft (watchOf w' c) ≤ closesLeft (watchOf w c).
Proof.
  intros Hstep. unfold closesBy. rewrite filter_cons, filter_nil.
  destruct e as [a| |d|d]; cbn in Hstep; (destruct (decide (_ = FuncCloses c)) as [He|He]; [try discriminate He; injection He as ->|]).
  - destruct (registration a) as [[d []]|]; [|destruct (bool_decide (watchOf w d = Armed)) eqn:Hd|]; repeat case_bool_decide; simplify_eq;
      reflect_bools; cbn; rewrite ?watchOf_set; try case_decide; simplify_eq;
      repeat match goal with Hx : watchOf w _ = _ |- _ => rewrite Hx; clear Hx end; cbn; lia.
  - injection Hstep as <-. cbn. lia.
  - destruct (contextDone w); [|done]. cbn in Hstep. follow_event.
    match goal with Hx : watchOf w _ = Armed |- _ => by rewrite Hx end.
  - follow_event. match goal with Hx : watchOf w _ = Fired |- _ => rewrite Hx end. done.
  - follow_event.
Qed.

(** The context closes a connection once at most. *)
Lemma eventRun_closes w events w' c :
  eventRun w events = Some w' → length (closesBy c events) + closesLeft (watchOf w' c) ≤ closesLeft (watchOf w c).
Proof.
  revert w. induction events as [|e events IH]; intros w; [by intros [= <-]|]. cbn [eventRun].
  destruct (eventStep w e) as [w1|] eqn:Hstep; [|done]. intros Hrun%IH. apply (eventStep_closes _ _ _ c) in Hstep.
  change (e :: events) with ([e] ++ events). unfold closesBy in *. rewrite filter_app, length_app. lia.
Qed.

(** Without the end of the context nothing is closed from outside. *)
Lemma eventRun_quiet w events w' c :
  eventRun w events = Some w' → contextDone w = false → (∀ d, watchOf w d ≠ Fired) → ContextDone ∉ events →
  FuncCloses c ∉ events.
Proof.
  revert w. induction events as [|e events IH]; intros w; [by intros _ _ _ _ ?%elem_of_nil|]. cbn [eventRun].
  destruct (eventStep w e) as [w1|] eqn:Hstep; [|done]. intros Hrun Hctx Hf [Hne Hno]%not_elem_of_cons.
  assert (contextDone w1 = false ∧ (∀ d, watchOf w1 d ≠ Fired) ∧ e ≠ FuncCloses c) as (Hctx1 & Hf1 & Hc).
  { destruct e as [a| |d|d]; cbn in Hstep; [| |rewrite Hctx in Hstep; done|by rewrite bool_decide_eq_false_2 in Hstep].
    - destruct (registration a) as [[d []]|]; follow_event; (split_and!; [done| |done]); intros x; rewrite ?watchOf_set; try case_decide; done || apply Hf.
    - by destruct Hne. }
  apply not_elem_of_cons. split; [by intros Heq; destruct Hc|]. by apply (IH w1).
Qed.

Lemma eventRun_app w e1 e2 w' :
  eventRun w (e1 ++ e2) = Some w' → ∃ w1, eventRun w e1 = Some w1 ∧ eventRun w1 e2 = Some w'.
Proof.
  revert w. induction e1 as [|e e1 IH]; intros w Hrun; [by exists w|]. cbn [eventRun app] in *.
  destruct (eventStep w e) as [w1|]; [|done]. by apply IH.
Qed.

Lemma ownActions_split events pre a post :
  ownActions events = pre ++ a :: post → ∃ e1 e2, events = e1 ++ Own a :: e2 ∧ ownActions e2 = post.
Proof.
  revert pre. induction events as [|e events IH]; intros pre Hown; [by destruct pre|].
  destruct e as [b| |c|c]; cbn in Hown;
    [|destruct (IH pre Hown) as (e1 & e2 & -> & ?); by eexists (_ :: e1), e2..].
  destruct pre as [|x pre]; injection Hown as -> Hown; [by exists [], events|].
  destruct (IH pre Hown) as (e1 & e2 & -> & ?). by exists (Own x :: e1), e2.
Qed.

Lemma eventRun_given_up events w c pre post :
  eventRun noWatches events = Some w → ownActions events = pre ++ unwatched c :: post → watched c ∉ post → watchOf w c ≠ Armed.
Proof.
  intros Hrun (e1 & e2 & -> & <-)%ownActions_split Hno. apply eventRun_app in Hrun as (w1 & _ & Hrun). cbn [eventRun] in Hrun.
  destruct (eventStep w1 (Own (unwatched c))) as [w2|] eqn:Hstep; [|done].
  eapply eventRun_unarmed; [done|done|]. destruct c; cbn in Hstep; follow_event.
Qed.

(** ** An operation that leaves nothing behind *)

(** The operation's own actions: it dials the control connection first, gives
    up the watches and closes each connection it dialled, the control
    connection once and last. *)
Definition connectionsReleased (actions : list FtpAction) : Prop :=
  actions = [] ∨ ∃ address timeout deadline rest ending,
    actions = ControlDialled address timeout deadline :: ControlWatched :: rest ++ ending
    ∧ Forall middle rest
    ∧ (ending = releaseActions false ∧ Forall quiet rest ∨ ending = releaseActions true ∨ ending = finishActions).

(** Whatever the context does meanwhile: no function is left that could still
    start, and each closes its connection once at most, and only because the
    context has ended. *)
Definition cancellationSettled (actions : list FtpAction) : Prop :=
  ∀ events w c, ownActions events = actions → eventRun noWatches events = Some w →
    watchOf w c ≠ Armed ∧ length (closesBy c events) ≤ 1 ∧ (ContextDone ∉ events → closesBy c events = []).

Lemma released_settled actions : connectionsReleased actions → cancellationSettled actions.
Proof.
  intros Hrel events w c Hown Hrun. split_and!.
  - destruct Hrel as [->|(address & timeout & deadline & rest & ending & -> & Hmid & Hend)].
    { eapply eventRun_unarmed; [done| |done]. rewrite Hown. apply not_elem_of_nil. }
    assert (c = DataConn ∧ Forall quiet rest ∧ ending = releaseActions false
            ∨ ∃ pre post, ending = pre ++ unwatched c :: post ∧ watched c ∉ post) as [(-> & Hquiet & ->)|(pre & post & -> & Hno)].
    { destruct Hend as [[-> Hq]|[-> | ->]], c; [right|by left|right..]; cbn.
      - exists [], [ControlClosed]. split; [done|set_solver].
      - exists [DataUnwatched; DataClosed], [ControlClosed]. split; [done|set_solver].
      - exists [], [DataClosed; ControlUnwatched; ControlClosed]. split; [done|set_solver].
      - exists [DataUnwatched], [DataClosed; ControlClosed]. split; [done|set_solver].
      - exists [], [ControlUnwatched; DataClosed; ControlClosed]. split; [done|set_solver]. }
    + eapply eventRun_unarmed; [done| |done]. rewrite Hown. cbn. rewrite Forall_forall in Hquiet.
      intros Hin. assert (DataWatched ∈ rest) as Hin'%Hquiet by (cbn in Hin; set_solver). done.
    + eapply (eventRun_given_up _ _ _ (_ :: _ :: rest ++ pre)); [done| |done]. rewrite Hown. cbn. by rewrite <- app_assoc.
  - pose proof (eventRun_closes _ _ _ c Hrun). cbn in *. lia.
  - intros Hctx. destruct (closesBy c events) as [|e l] eqn:Hcl; [done|].
    assert (e ∈ closesBy c events) as [-> Hin]%list_elem_of_filter by (rewrite Hcl; by left).
    by eapply (eventRun_quiet _ _ _ c) in Hin.
Qed.
