(* ===== verification/Connectors.v ===== *)
(** connector/http.go, connector/tcp.go and connector/routes.go: the HTTP and
    TCP connectors, and the choice of a connector for the mount the resolver
    selected.  The HTTP exchange itself is [net/http]'s. *)

From S2P Require Import Prelude GoStrings GoUrl TlsConfig Mount Resolve HttpHeader HttpFrontend GoBufio FtpReply Ftp.

(** ** Clients *)

Section Clients.
Context `{TLSMaterial}.

(** An [http.Transport]: its TLS configuration, and everything else as one
    opaque number. *)
Record Transport := {
  TLSClientConfig : option TLSConfig;
  transportSettings : nat;
}.

(** The values of an [http.RoundTripper] the code tells apart. *)
Inductive RoundTripper := NoTransport | HTTPTransport (t : Transport) | OtherTransport.

(** [http.Client.CheckRedirect]: nil, [stopRedirects] or some other
    function. *)
Inductive RedirectCheck := FollowRedirects | StopRedirects | OtherRedirects.

Record HTTPClient := {
  ClientTransport : RoundTripper;
  CheckRedirect : RedirectCheck;
  ClientJar : nat;
  ClientTimeout : Z;
}.

(** [http.DefaultClient] and [http.DefaultTransport]. *)
Definition DefaultClient : HTTPClient :=
  {| ClientTransport := NoTransport; CheckRedirect := FollowRedirects; ClientJar := 0; ClientTimeout := 0 |}.

Definition DefaultTransport : Transport := {| TLSClientConfig := None; transportSettings := 0 |}.

(** [NewHTTP]: a private copy that never follows redirects; the connector is
    the client it keeps. *)
Definition NewHTTP (client : option HTTPClient) : HTTPClient :=
  let client := default DefaultClient client in
  {| ClientTransport := ClientTransport client; CheckRedirect := StopRedirects; ClientJar := ClientJar client;
     ClientTimeout := ClientTimeout client |}.

Definition cloneHTTPTransport (source : RoundTripper) : Transport :=
  match source with HTTPTransport configured => configured | _ => DefaultTransport end.

(** ** Routes *)

Record HTTPRoutes := {
  defaultConnector : HTTPClient;
  ftpConnector : FTP;
  secureConnectors : gmap Backend HTTPClient;
  transports : list Transport;
}.

(** The loop body of [NewHTTPRoutes] for one policy that is not nil. *)
Definition secureTransport (defaultClient : HTTPClient) (tlsConfig : TLSConfig) : Transport :=
  let transport := cloneHTTPTransport (ClientTransport defaultClient) in
  {| TLSClientConfig := Some tlsConfig; transportSettings := transportSettings transport |}.

Definition secureClient (defaultClient : HTTPClient) (tlsConfig : TLSConfig) : HTTPClient :=
  NewHTTP (Some {| ClientTransport := HTTPTransport (secureTransport defaultClient tlsConfig);
                   CheckRedirect := StopRedirects; ClientJar := ClientJar defaultClient;
                   ClientTimeout := ClientTimeout defaultClient |}).

(** [NewHTTPRoutes]; a nil configuration in the map is skipped. *)
Definition NewHTTPRoutes (defaultClient : option HTTPClient) (policies : gmap Backend (option TLSConfig)) : HTTPRoutes :=
  let defaultClient := default DefaultClient defaultClient in
  {| defaultConnector := NewHTTP (Some defaultClient);
     ftpConnector := NewFTP;
     secureConnectors := omap (λ tlsConfig, secureClient defaultClient <$> tlsConfig) policies;
     transports := omap (λ '(_, tlsConfig), secureTransport defaultClient <$> tlsConfig) (map_to_list policies) |}.

Inductive RouteSelectError := MountTargetURL | NoPreloadedTransport.

Inductive protocolConnector := UseFTP (f : FTP) | UseHTTP (client : HTTPClient).

Definition connectorForMount `{UnicodeData} (r : HTTPRoutes) (mapping : Mount)
    : result protocolConnector RouteSelectError :=
  match parseURL (Mount_Target mapping) with
  | None => Err MountTargetURL
  | Some parsed =>
      if equalFold (Scheme parsed) "ftp" then Ok (UseFTP (ftpConnector r))
      else
        match Mount_TLS mapping with
        | None => Ok (UseHTTP (defaultConnector r))
        | Some policy =>
            match secureConnectors r !! policy with
            | None => Err NoPreloadedTransport
            | Some selected => Ok (UseHTTP selected)
            end
        end
  end.

(** [CloseIdleConnections]: the transports whose pools are released. *)
Definition CloseIdleConnections (r : option HTTPRoutes) : list RoundTripper :=
  match r with
  | None => []
  | Some r => ClientTransport (defaultConnector r) :: (HTTPTransport <$> transports r)
  end.
End Clients.

(** ** The HTTP connector *)

Record BackendRequest := {
  Backend_Method : bytes;
  Backend_URL : URL;
  Backend_Header : Header;
  Backend_Body : option bytes;
  Backend_BodyLimit : option Z;
  Backend_ContentLength : Z;
}.

(** What is outside: the exchange a client performs and the closing of the
    response body it returned; the surroundings of FTP calls, and a record of
    what they did to their connections. *)
Class BackendWorld `{TLSMaterial} (W : Type) := {
  clientDo : HTTPClient → BackendRequest → W → result (Z * Header * reader) OperationError * W;
  responseClosed : W → W;
  ftpOutside : W → FtpOutside;
  ftpDone : list FtpAction → W → W;
}.

(** The bodies a connector returns: a response body, which net/http reads, or a
    transfer of the FTP connector. *)
Inductive ConnectorBody := HttpBody (rd : reader) | FtpBody (b : FtpTransferBody).

(** [http.NewRequestWithContext]: an empty method means GET. *)
Definition removeEmptyPort (host : bytes) : bytes :=
  match lastIndexByte host ":", lastIndexByte host "]" with
  | Some colon, Some bracket => if bracket <? colon then trimSuffix host ":" else host
  | Some _, None => trimSuffix host ":"
  | None, _ => host
  end.

Definition newRequest `{UnicodeData} (method resource : bytes) : option (bytes * URL) :=
  let method := if bool_decide (method = []) then "GET" : bytes else method in
  if negb (forallb tokenByte method) then None
  else
    u ← parseURL resource;
    Some (method,
          {| Scheme := Scheme u; Opaque := Opaque u; User := User u; Host := removeEmptyPort (Host u);
             GoUrl.Path := GoUrl.Path u; RawPath := RawPath u; ForceQuery := ForceQuery u; RawQuery := RawQuery u;
             Fragment := Fragment u; RawFragment := RawFragment u; OmitHost := OmitHost u |}).

Section Http.
Context `{UnicodeData} `{TLSMaterial} {W : Type} `{!BackendWorld W}.

(** [cloneMetadata] copies the map and every slice of values: a fresh equal
    value. *)
Definition cloneMetadata (source : Header) : Header := (λ values, values) <$> source.

Definition execute (client : HTTPClient) (method resource : bytes) (metadata : Header) (body : option bytes)
    (limit : option Z) (size : Z) (w : W) : result (OperationResult ConnectorBody) OperationError * W :=
  match newRequest method resource with
  | None => (Err plainError, w)
  | Some (method, url) =>
      let request := {| Backend_Method := method; Backend_URL := url; Backend_Header := cloneMetadata metadata;
                        Backend_Body := body; Backend_BodyLimit := limit;
                        Backend_ContentLength := if (0 <=? size)%Z then size else 0 |} in
      let '(response, w) := clientDo client request w in
      match response with
      | Err err => (Err err, w)
      | Ok (status, header, body) =>
          (Ok {| Result_Outcome := OutcomePassthrough; Result_Status := status;
                 Result_Metadata := cloneMetadata header; Result_Body := Some (HttpBody body) |}, w)
      end
  end.

Definition HTTP_Fetch (client : HTTPClient) (fetch : Fetch) (w : W) : result (OperationResult ConnectorBody) OperationError * W :=
  execute client (Fetch_Method fetch) (Fetch_Resource fetch) (Fetch_Metadata fetch) (Some (Fetch_Body fetch)) None (-1) w.

Definition HTTP_List (client : HTTPClient) (list : ListOp) (w : W) : result (OperationResult ConnectorBody) OperationError * W :=
  execute client "LIST" (List_Resource list) (List_Metadata list) None None (-1) w.

Definition HTTP_Store (client : HTTPClient) (store : StoreOp) (w : W) : result (OperationResult ConnectorBody) OperationError * W :=
  execute client (Store_Method store) (Store_Resource store) (Store_Metadata store) (Some (Store_Body store))
    (Some (Store_Limit store)) (Store_Size store) w.

(** ** Results of the FTP connector, and the bodies the frontend reads *)

Definition ftpResult (r : FtpResult) : OperationResult ConnectorBody :=
  match r with
  | FtpOutcome outcome =>
      {| Result_Outcome := outcome; Result_Status := 0; Result_Metadata := ∅; Result_Body := None |}
  | FtpTransfer b =>
      {| Result_Outcome := OutcomeSuccess; Result_Status := 0; Result_Metadata := ∅; Result_Body := Some (FtpBody b) |}
  end.

(** What a call did that [bodyTrace] did not have before. *)
Definition newActions (b b' : FtpTransferBody) : list FtpAction := drop (length (bodyTrace b)) (bodyTrace b').

Definition asReadError (err : BodyError) : ReadError := match err with BodyEOF => EOF | _ => ErrRead end.

#[export] Instance connector_body : ResultBody W ConnectorBody := {|
  bodyRead size body w :=
    match body with
    | HttpBody rd => let '(chunk, err, rd) := readOnce size rd in (chunk, err, HttpBody rd, w)
    | FtpBody b =>
        let '(chunk, err, b') := readBody size (contextEnded (ftpOutside w)) b in
        (chunk, asReadError <$> err, FtpBody b', ftpDone (newActions b b') w)
    end;
  bodyClose body w :=
    match body with
    | HttpBody _ => responseClosed w
    | FtpBody b => ftpDone (newActions b (closeBody b)) w
    end;
  bodyReads body := match body with HttpBody rd => remaining rd | FtpBody b => remaining (bodyData b) end;
|}.

(** The errors a caller can recognise: the unsupported operation, and the
    limit of the request body when copying it failed. *)
Definition ftpError (bodyTooLarge : bool) (err : FtpError) : OperationError :=
  match err with
  | FtpUnsupportedMethod => errUnsupported
  | FtpStorCopy => {| isDenied := false; isTooLarge := bodyTooLarge; isUnsupported := false |}
  | _ => plainError
  end.

Definition ftpCall (bodyTooLarge : bool) (call : FtpOutside → result FtpResult FtpError * list FtpAction) (w : W)
    : result (OperationResult ConnectorBody) OperationError * W :=
  let outside := ftpOutside w in
  let outside := {| dialControl := dialControl outside; dialData := dialData outside;
                    copyData := copyData outside && negb bodyTooLarge; contextEnded := contextEnded outside |} in
  let '(r, actions) := call outside in
  (match r with
   | Ok result => Ok (ftpResult result)
   | Err err => Err (ftpError (bodyTooLarge && copyData (ftpOutside w)) err)
   end,
   ftpDone actions w).

(** ** Dispatch: [FetchForMount], [ListForMount] and [StoreForMount] *)

Definition routeFetch (r : HTTPRoutes) (mapping : Mount) (fetch : Fetch) (w : W)
    : result (OperationResult ConnectorBody) OperationError * W :=
  match connectorForMount r mapping with
  | Err _ => (Err plainError, w)
  | Ok (UseHTTP client) => HTTP_Fetch client fetch w
  | Ok (UseFTP f) => ftpCall false (λ outside, FTP_Fetch (Some f) outside fetch) w
  end.

Definition routeList (r : HTTPRoutes) (mapping : Mount) (list : ListOp) (w : W)
    : result (OperationResult ConnectorBody) OperationError * W :=
  match connectorForMount r mapping with
  | Err _ => (Err plainError, w)
  | Ok (UseHTTP client) => HTTP_List client list w
  | Ok (UseFTP f) => ftpCall false (λ outside, FTP_List (Some f) outside list) w
  end.

Definition routeStore (r : HTTPRoutes) (mapping : Mount) (store : StoreOp) (w : W)
    : result (OperationResult ConnectorBody) OperationError * W :=
  match connectorForMount r mapping with
  | Err _ => (Err plainError, w)
  | Ok (UseHTTP client) => HTTP_Store client store w
  | Ok (UseFTP f) =>
      ftpCall (Store_Limit store <? Z.of_nat (length (Store_Body store)))%Z
        (λ outside, FTP_Store (Some f) outside store) w
  end.

(** The routes are what the frontend asks for. *)
#[export] Instance routes_connector (r : HTTPRoutes) : MountConnector W ConnectorBody := {|
  FetchForMount := routeFetch r;
  StoreForMount := Some (routeStore r);
  ListForMount := Some (routeList r);
|}.
End Http.

(** ** The TCP connector *)

Inductive TCPError (E : Type) :=
| TCPDialerRequired
| TCPNetwork (network : bytes)
| TCPAuthority (err : AuthorityError)
| TCPDial (err : E).
Arguments TCPDialerRequired {E}.
Arguments TCPNetwork {E} network.
Arguments TCPAuthority {E} err.
Arguments TCPDial {E} err.

(** [TCP.Connect]; [None] is a nil connector or one without a dialer. *)
Definition TCP_Connect {W C E : Type} (dial : option (bytes → bytes → W → result C E * W)) (relay : Relay) (w : W)
    : result C (TCPError E) * W :=
  match dial with
  | None => (Err TCPDialerRequired, w)
  | Some dial =>
      if negb (bool_decide (Relay_Network relay = "tcp")) then (Err (TCPNetwork (Relay_Network relay)), w)
      else
        match ValidateConnectAuthority (Relay_Address relay) with
        | Err err => (Err (TCPAuthority err), w)
        | Ok _ =>
            let '(r, w) := dial (Relay_Network relay) (Relay_Address relay) w in (wrap TCPDial r, w)
        end
  end.

(** ** Lemmas *)

#[export] Instance connector_body_laws `{BackendWorld W} : ResultBodyLaws W ConnectorBody.
Proof.
  split. intros size [rd|b] w chunk body' w' Hsize; cbn.
  - destruct (readOnce size rd) as [[data err] rd'] eqn:Hr. intros [= -> -> <- <-]. by eapply readOnce_remaining.
  - destruct (readBody size _ b) as [[data [err|]] b1] eqn:Hr; [done|]. intros [= -> <- <-].
    apply readBody_None in Hr as (_ & rd & Hr & ->). by eapply readOnce_remaining.
Qed.

Section RouteProperties.
Context `{UnicodeData} `{TLSMaterial}.

Lemma https_not_ftp scheme : equalFold scheme "https" = true → equalFold scheme "ftp" = false.
Proof.
  unfold equalFold. intros Hs%bool_decide_eq_true. apply bool_decide_eq_false. rewrite Hs. by vm_compute.
Qed.

(** Whether a mount leads to an FTP server. *)
Definition ftpTarget (m : Mount) : bool :=
  match parseURL (Mount_Target m) with Some parsed => equalFold (Scheme parsed) "ftp" | None => false end.

(** A mount is served by exactly the transport its target and its policy ask
    for, or not at all: a valid mount without a TLS policy uses the plain
    client or, for an ftp target, the FTP connector; one with a policy uses
    the client that was loaded for that very policy and never falls back to
    another. *)
Lemma connectorForMount_cases client policies m :
  Mount_Validate m = Ok tt →
  match connectorForMount (NewHTTPRoutes client policies) m with
  | Ok (UseFTP f) => ftpTarget m = true ∧ Mount_TLS m = None ∧ f = NewFTP
  | Ok (UseHTTP c) => ftpTarget m = false ∧
      match Mount_TLS m with
      | None => c = NewHTTP (Some (default DefaultClient client))
      | Some policy => ∃ loaded, policies !! policy = Some (Some loaded) ∧ c = secureClient (default DefaultClient client) loaded
      end
  | Err _ => ∃ policy, Mount_TLS m = Some policy ∧ ∀ loaded, policies !! policy ≠ Some (Some loaded)
  end.
Proof.
  intros (parsed & Hparse & _ & _ & _ & _ & Htls)%Mount_Validate_target%validateTarget_Ok.
  unfold connectorForMount, ftpTarget. rewrite Hparse. destruct (equalFold (Scheme parsed) "ftp") eqn:Hftp.
  - split_and!; [done| |done]. destruct (Mount_TLS m) as [policy|]; [|done]. destruct (Htls policy eq_refl) as [Hs _].
    apply https_not_ftp in Hs. congruence.
  - destruct (Mount_TLS m) as [policy|]; [|done]. cbn [secureConnectors NewHTTPRoutes].
    rewrite lookup_omap. destruct (policies !! policy) as [[loaded|]|] eqn:Hp; cbn.
    + split; [done|]. by exists loaded.
    + exists policy. split; [done|]. intros loaded. rewrite Hp. done.
    + exists policy. split; [done|]. intros loaded. rewrite Hp. done.
Qed.

(** The calls of the FTP connector the frontend can make for a method and a
    resource. *)
Inductive ftpCalled (f : FTP) (method resource : bytes)
    : bool → (FtpOutside → result FtpResult FtpError * list FtpAction) → Prop :=
| CalledFetch fetch : Fetch_Method fetch = method → Fetch_Resource fetch = resource →
    ftpCalled f method resource false (λ outside, FTP_Fetch (Some f) outside fetch)
| CalledList list : method = "LIST" → List_Resource list = resource →
    ftpCalled f method resource false (λ outside, FTP_List (Some f) outside list)
| CalledStore tooLarge store : method = "PUT" → Store_Method store = method → Store_Resource store = resource →
    ftpCalled f method resource tooLarge (λ outside, FTP_Store (Some f) outside store).

Lemma ftpCalled_operate f method resource tooLarge call outside :
  ftpCalled f method resource tooLarge call →
  call outside = (Err FtpUnsupportedMethod, [])
  ∨ call outside = operate (Some f) outside method resource ∧ (ftpCommand method = "STOR" ∨ tooLarge = true → method = "PUT").
Proof.
  intros [fetch <- <-|list -> <-|large store -> Hput <-]; unfold FTP_Fetch, FTP_List, FTP_Store.
  - case_bool_decide as Hm; cbn [negb]; [|by left]. right. split; [done|]. rewrite Hm. by vm_compute; intros [|].
  - right. split; [done|]. by vm_compute; intros [|].
  - rewrite Hput. case_bool_decide; cbn [negb]; [|by left]. right. by split.
Qed.

(** What is sent to an HTTP backend for a request: its method, its headers and
    its body, to the given resource. *)
Definition sentFor (request : HTTPRequest) (resource : bytes) (sent : BackendRequest) : Prop :=
  newRequest (Request_Method request) resource = Some (Backend_Method sent, Backend_URL sent)
  ∧ Backend_Header sent = cloneHeader (Request_Header request)
  ∧ Backend_Body sent = (if bool_decide (Request_Method request = "LIST") then None else Some (Request_Body request)).

(** What the connector makes of one exchange. *)
Definition exchangeResult `{!BackendWorld W} (client : HTTPClient) (sent : BackendRequest) (w : W)
    : result (OperationResult ConnectorBody) OperationError * W :=
  match clientDo client sent w with
  | (Ok (status, header, body), w1) =>
      (Ok {| Result_Outcome := OutcomePassthrough; Result_Status := status;
             Result_Metadata := cloneMetadata header; Result_Body := Some (HttpBody body) |}, w1)
  | (Err err, w1) => (Err err, w1)
  end.

Lemma execute_sent `{!BackendWorld W} client request method resource metadata body limit size (w : W) :
  method = Request_Method request → metadata = cloneHeader (Request_Header request) →
  body = (if bool_decide (Request_Method request = "LIST") then None else Some (Request_Body request)) →
  (∃ err, execute client method resource metadata body limit size w = (Err err, w))
  ∨ ∃ sent, sentFor request resource sent ∧ execute client method resource metadata body limit size w = exchangeResult client sent w.
Proof.
  intros -> -> ->. unfold execute, exchangeResult, sentFor. destruct (newRequest _ _) as [[m u]|]; [right|left; by eexists].
  match goal with |- ∃ _, _ ∧ ?lhs = _ => match lhs with context [clientDo client ?sent w] => exists sent end end.
  split; [|by destruct (clientDo client _ w) as [[[[? ?] ?]|?] ?]].
  split_and!; [done| |done]. cbn [Backend_Header]. unfold cloneMetadata. apply map_fmap_id.
Qed.

(** What a connector call does outside: nothing, one exchange with the client
    of the mount, or one FTP operation, for the resource of the match. *)
Lemma routes_call `{!BackendWorld W} (routes : HTTPRoutes) matched request (w : W) selected :
  connectorForMount routes (Match_Mount matched) = Ok selected →
  (∃ err, @callConnector _ W _ (routes_connector routes) matched request w = (Err err, w))
  ∨ match selected with
    | UseHTTP client => ∃ resource sent, backendResource (Match_Target matched) (RawQuery (Request_URL request)) = Some resource
        ∧ sentFor request resource sent
        ∧ @callConnector _ W _ (routes_connector routes) matched request w = exchangeResult client sent w
    | UseFTP f => ∃ resource tooLarge call,
        backendResource (Match_Target matched) (RawQuery (Request_URL request)) = Some resource
        ∧ ftpCalled f (Request_Method request) resource tooLarge call
        ∧ @callConnector _ W _ (routes_connector routes) matched request w = ftpCall tooLarge call w
    end.
Proof.
  intros Hsel. unfold callConnector. destruct (backendResource _ _) as [resource|]; [|left; by eexists].
  cbn [ListForMount StoreForMount FetchForMount routes_connector]. unfold routeList, routeStore, routeFetch. rewrite Hsel.
  assert (∀ client method metadata body limit size, method = Request_Method request →
    metadata = cloneHeader (Request_Header request) →
    body = (if bool_decide (Request_Method request = "LIST") then None else Some (Request_Body request)) →
    ∀ call, call = execute client method resource metadata body limit size w →
    (∃ err, call = (Err err, w)) ∨ ∃ resource' sent, Some resource = Some resource' ∧ sentFor request resource' sent
      ∧ call = exchangeResult client sent w) as Hexe.
  { intros client method metadata body limit size ? ? ? call ->.
    destruct (execute_sent client request method resource metadata body limit size w) as [?|(sent & ? & ->)]; [done..|by left|right].
    by exists resource, sent. }
  destruct selected as [f|client];
    (case_bool_decide as Hlist; [|case_bool_decide as Hput; [destruct (_ <? _)%Z; [left; by eexists|]|]]).
  - right. eexists _, _, _. split_and!; [done| |reflexivity]. by apply CalledList.
  - right. eexists _, _, _. split_and!; [done| |reflexivity]. by apply CalledStore.
  - right. eexists _, _, _. split_and!; [done| |reflexivity]. by apply CalledFetch.
  - eapply Hexe; [..|reflexivity]; by rewrite ?Hlist, ?bool_decide_eq_true_2.
  - eapply Hexe; [..|reflexivity]; by rewrite ?bool_decide_eq_false_2.
  - eapply Hexe; [..|reflexivity]; by rewrite ?bool_decide_eq_false_2.
Qed.

Lemma routes_call_none `{!BackendWorld W} (routes : HTTPRoutes) matched request (w : W) err :
  connectorForMount routes (Match_Mount matched) = Err err →
  ∃ e, @callConnector _ W _ (routes_connector routes) matched request w = (Err e, w).
Proof.
  intros Hsel. unfold callConnector. destruct (backendResource _ _) as [resource|]; [|by eexists].
  cbn [ListForMount StoreForMount FetchForMount routes_connector]. unfold routeList, routeStore, routeFetch. rewrite Hsel.
  case_bool_decide; [by eexists|]. case_bool_decide; [|by eexists]. destruct (_ <? _)%Z; by eexists.
Qed.

(** Reading a response body does nothing outside. *)
Lemma httpBody_reads `{!BackendWorld W} rd (w : W) body' w' :
  rtc readStep (HttpBody rd, w) (body', w') → w' = w ∧ ∃ rd', body' = HttpBody rd'.
Proof.
  intros Hrun. remember (HttpBody rd, w) as from eqn:Hfrom. remember (body', w') as to eqn:Hto.
  revert rd w Hfrom. induction Hrun as [x|x y z (chunk & err & Hread) _ IH]; intros rd w ->.
  - injection Hto as <- <-. split; [done|by exists rd].
  - cbn in Hread. destruct (readOnce copyBuffer rd) as [[c e] rd1]. destruct y as [body1 w1]. injection Hread as <- <- <- <-.
    by apply (IH Hto rd1).
Qed.

(** The world after an exchange; the body of a response has been closed. *)
Definition exchanged `{!BackendWorld W} (client : HTTPClient) (sent : BackendRequest) (w w' : W) : Prop :=
  match clientDo client sent w with
  | (Ok _, w1) => w' = responseClosed w1
  | (Err _, w1) => w' = w1
  end.

(** The world after some FTP actions, reported piece by piece. *)
Definition ftpDid `{!BackendWorld W} (log : list (list FtpAction)) (w : W) : W := foldl (λ w done, ftpDone done w) w log.

Lemma newActions_app b b' : bodyTrace b `prefix_of` bodyTrace b' → bodyTrace b' = bodyTrace b ++ newActions b b'.
Proof. intros [t Ht]. unfold newActions. by rewrite Ht, drop_app_length. Qed.

(** Reading a transfer reports what it does, and keeps what every read
    keeps. *)
Lemma ftpBody_reads `{!BackendWorld W} (P : FtpTransferBody → Prop) b (w : W) body' w' :
  (∀ size ctxErr b, P b → P (snd (readBody size ctxErr b))) → P b →
  rtc readStep (FtpBody b, w) (body', w') →
  ∃ b' log, body' = FtpBody b' ∧ w' = ftpDid log w ∧ bodyTrace b' = bodyTrace b ++ concat log ∧ P b'.
Proof.
  intros HP Hb Hrun. remember (FtpBody b, w) as from eqn:Hfrom. remember (body', w') as to eqn:Hto.
  revert b w Hfrom Hb. induction Hrun as [x|x y z (chunk & err & Hread) _ IH]; intros b w -> Hb.
  - injection Hto as <- <-. exists b, []. by rewrite app_nil_r.
  - cbn in Hread. pose proof (readBody_trace copyBuffer (contextEnded (ftpOutside w)) b) as Htrace.
    apply (HP copyBuffer (contextEnded (ftpOutside w))) in Hb.
    destruct (readBody copyBuffer _ b) as [[c e] b1]. destruct y as [body1 w1]. injection Hread as <- <- <- <-.
    apply newActions_app in Htrace. cbn [snd] in Htrace.
    destruct (IH Hto b1 _ eq_refl Hb) as (b' & log & -> & -> & Ht & Hb'). exists b', (newActions b b1 :: log).
    split_and!; [done..| |done]. by rewrite Ht, Htrace, <- app_assoc.
Qed.

(** The control connection belongs to the body until the body is finished,
    which closes both connections. *)
Definition transferState (b : FtpTransferBody) : Prop :=
  if bodyFinished b then ∃ mid, bodyTrace b = mid ++ finishActions ∧ Forall closing mid
  else bodyTrace b = [].

Lemma readBody_state size ctxErr b : transferState b → transferState (snd (readBody size ctxErr b)).
Proof.
  intros Hb. destruct (bodyFinished b) eqn:Hf; [by rewrite readBody_closed|].
  destruct (readBody size ctxErr b) as [[chunk [err|]] b1] eqn:Hread; cbn [snd]; unfold transferState in *; rewrite Hf in Hb.
  - apply readBody_last in Hread as (_ & -> & (mid & Ht & Hmid) & _); [|done]. exists mid. by rewrite Ht, Hb.
  - apply readBody_None in Hread as (_ & rd & _ & ->). cbn. by rewrite Hf.
Qed.

Lemma closeBody_state b : transferState b → ∃ mid, bodyTrace (closeBody b) = mid ++ finishActions ∧ Forall closing mid.
Proof.
  unfold transferState, closeBody, finishBody. destruct (bodyFinished b); [done|]. intros Hb. exists []. by rewrite Hb.
Qed.

(** Answering with a transfer reads and closes it. *)
Lemma respond_ftp `{!BackendWorld W} (P : FtpTransferBody → Prop) request outcome status metadata b (w : W) :
  (∀ size ctxErr b, P b → P (snd (readBody size ctxErr b))) → P b →
  ∃ b' log, snd (respond request {| Result_Outcome := outcome; Result_Status := status; Result_Metadata := metadata;
                                    Result_Body := Some (FtpBody b) |} w) = ftpDid log w
    ∧ bodyTrace (closeBody b') = bodyTrace b ++ concat log ∧ P b'.
Proof.
  intros HP Hb. edestruct respond_closes as (body' & w1 & Hreads & ->); [reflexivity|].
  apply (ftpBody_reads P) in Hreads as (b' & log & -> & -> & Ht & Hb'); [|done..]. exists b', (log ++ [newActions b' (closeBody b')]).
  unfold ftpDid. rewrite foldl_app. split_and!; [done| |done].
  rewrite concat_app, app_assoc, <- Ht. cbn. rewrite app_nil_r. apply newActions_app, finishBody_trace.
Qed.

(** One FTP operation and the use of the transfer it may hand over: what is
    done after the operation neither dials nor sends a command, and ends with
    the release of both connections. *)
Definition ftpOperated `{!BackendWorld W} (f : FTP) (method resource : bytes) (w w' : W) : Prop :=
  ∃ outside log, dialControl outside = dialControl (ftpOutside w) ∧ dialData outside = dialData (ftpOutside w)
    ∧ w' = ftpDid (snd (operate (Some f) outside method resource) :: log) w
    ∧ match fst (operate (Some f) outside method resource) with
      | Ok (FtpTransfer _) => ∃ mid, concat log = mid ++ finishActions ∧ Forall closing mid
      | _ => log = []
      end.

(** What serving a permitted request does outside, with the connector of the
    mount: nothing, one exchange with its client, whose response is closed, or
    one FTP operation. *)
Lemma answerCall_effect `{!BackendWorld W} (routes : HTTPRoutes) decision matched request (w : W) selected :
  connectorForMount routes (Match_Mount matched) = Ok selected →
  let w' := snd (answerCall decision request (@callConnector _ W _ (routes_connector routes) matched request w)) in
  w' = w ∨ ∃ resource, backendResource (Match_Target matched) (RawQuery (Request_URL request)) = Some resource ∧
           match selected with
           | UseHTTP client => ∃ sent, sentFor request resource sent ∧ exchanged client sent w w'
           | UseFTP f => w' = ftpDone [] w ∨ ftpOperated f (Request_Method request) resource w w'
           end.
Proof.
  intros Hsel. cbv zeta. destruct (routes_call routes matched request w selected Hsel) as [[err ->]|Hcall]; [by left|right].
  destruct selected as [f|client].
  - destruct Hcall as (resource & tooLarge & call & Hres & Hcalled & ->). exists resource. split; [done|]. unfold ftpCall.
    match goal with |- context [call ?o] => set (outside := o) end.
    destruct (ftpCalled_operate _ _ _ _ call outside Hcalled) as [->|[-> _]]; [by left|right].
    exists outside. destruct (operate (Some f) outside (Request_Method request) resource) as [r actions] eqn:Hrun.
    apply operate_shape in Hrun. destruct r as [[o|b]|err]; cbn [answerCall fst snd].
    + exists []. by rewrite respond_no_body.
    + destruct Hrun as [[_ [? [=]]]|(? & ? & ? & ? & _ & _ & Hopen & Htrace & _)].
      edestruct (respond_ftp transferState) as (b' & log & Hw & Ht & Hb');
        [apply readBody_state|unfold transferState; by rewrite Hopen|].
      exists log. unfold ftpResult. rewrite Hw. split_and!; [done..|]. rewrite Htrace in Ht. cbn in Ht. rewrite <- Ht.
      by apply closeBody_state.
    + by exists [].
  - destruct Hcall as (resource & sent & Hres & Hsent & ->). exists resource. split; [done|]. exists sent. split; [done|].
    unfold exchanged, exchangeResult.
    destruct (clientDo client sent w) as [[[[status header] body]|err] w1]; cbn [answerCall]; [|done].
    edestruct respond_closes as (body' & w2 & Hreads & ->); [reflexivity|].
    by apply httpBody_reads in Hreads as [-> [rd ->]].
Qed.
End RouteProperties.

(** The frontend and the connector agree on tunnels: what [relayOperation]
    derives from a target passes the checks of [Connect]. *)
Lemma TCP_Connect_relay `{UnicodeData} {W C E : Type} (dial : bytes → bytes → W → result C E * W) target relay w :
  relayOperation target = Some relay →
  TCP_Connect (Some dial) relay w =
    (wrap TCPDial (fst (dial "tcp" (Relay_Address relay) w)), snd (dial "tcp" (Relay_Address relay) w)).
Proof.
  unfold relayOperation. destruct (parseURL target) as [parsed|]; [|done]. destruct (_ || _); [done|].
  destruct (ValidateConnectAuthority (Host parsed)) as [[]|] eqn:Hv; [|done]. intros [= <-].
  unfold TCP_Connect. cbn [Relay_Network Relay_Address]. rewrite bool_decide_eq_true_2, Hv by done. cbn [negb].
  by destruct (dial _ _ w).
Qed.
