(* ===== verification/Transfers.v ===== *)
(** A request that is served over FTP, from the frontend to the closing of the
    last connection: server/http.go with the routes of connector/routes.go and
    the transfers of connector/ftp.go. *)

From S2P Require Import Prelude GoStrings GoNet GoUrl GoBufio Path TlsConfig Mount Resolve Policy Config.
From S2P Require Import Store Sessions HttpHeader HttpFrontend Gateway FtpReply Ftp Cancellation Connectors.

(** ** What is observed *)

(** The FTP actions that have been reported to the world; HTTP exchanges are
    no part of them. *)
Class FtpLog `{TLSMaterial} (W : Type) `{!BackendWorld W} := {
  ftpLog : W → list FtpAction;
  ftpLog_done actions w : ftpLog (ftpDone actions w) = ftpLog w ++ actions;
  ftpLog_exchange client sent w : ftpLog (snd (clientDo client sent w)) = ftpLog w;
  ftpLog_closed w : ftpLog (responseClosed w) = ftpLog w;
}.

Section Requests.
Context `{UnicodeData} `{TLSMaterial} {W : Type} `{!BackendWorld W}.
Context (routes : HTTPRoutes) (configured : Config) (server : bytes).

(** The handler of the process, while a configuration is published. *)
Definition serveRoutes (request : HTTPRequest) (w : W) : Served * W :=
  @serveOperation _ W _ (routes_connector routes) _ (λ w, (configured, w)) server request w.

Lemma ftpLog_did `{!FtpLog W} log w : ftpLog (ftpDid log w) = ftpLog w ++ concat log.
Proof.
  revert w. induction log as [|actions log IH]; intros w; [by rewrite app_nil_r|].
  change (ftpDid (actions :: log) w) with (ftpDid log (ftpDone actions w)). cbn [concat]. by rewrite IH, ftpLog_done, app_assoc.
Qed.

Lemma middle_released address timeout deadline rest last :
  Forall middle rest → Forall middle last →
  connectionsReleased (ControlDialled address timeout deadline :: ControlWatched :: rest ++ last ++ finishActions).
Proof.
  intros Hrest Hlast. right. exists address, timeout, deadline, (rest ++ last), finishActions. rewrite <- app_assoc.
  split_and!; [done|by apply Forall_app|by right; right].
Qed.

Lemma dialled_released address timeout deadline rest dialled :
  Forall middle rest → (dialled = false → Forall quiet rest) →
  connectionsReleased (ControlDialled address timeout deadline :: ControlWatched :: rest ++ releaseActions dialled).
Proof.
  intros Hrest Hd. right. exists address, timeout, deadline, rest, (releaseActions dialled).
  split_and!; [done|done|]. destruct dialled; [by right; left|left; auto].
Qed.

(** One FTP operation with the answer to the client. *)
Lemma ftpCall_released `{!FtpLog W} f method target call tooLarge decision request w :
  ftpCalled f method target tooLarge call →
  ∃ actions, ftpLog (snd (answerCall decision request (ftpCall tooLarge call w))) = ftpLog w ++ actions
    ∧ connectionsReleased actions.
Proof.
  intros Hcalled. unfold ftpCall. match goal with |- context [call ?o] => set (outside := o) end.
  destruct (ftpCalled_operate f method target tooLarge call outside Hcalled) as [->|[-> _]].
  { exists []. cbn. rewrite ftpLog_done. by split; [|left]. }
  destruct (operate (Some f) outside method target) as [r actions] eqn:Hrun. apply operate_shape in Hrun.
  destruct Hrun as [[-> [err ->]]|(address & timeout & deadline & rest & Hmid & Hr)].
  { exists []. cbn. rewrite ftpLog_done. by split; [|left]. }
  destruct r as [[o|b]|err]; cbn [answerCall ftpResult].
  - destruct Hr as (dialled & -> & Hd). rewrite respond_no_body, ftpLog_done by done. eexists. split; [done|]. by apply dialled_released.
  - destruct Hr as (-> & Hopen & Htrace & _). edestruct (respond_ftp transferState) as (b' & log & -> & Ht & Hb');
      [apply readBody_state|unfold transferState; by rewrite Hopen|].
    apply closeBody_state in Hb' as (mid & Hb' & Hmid'). rewrite Htrace in Ht. cbn in Ht. rewrite Hb' in Ht.
    rewrite ftpLog_did, ftpLog_done, <- Ht, <- app_assoc. eexists. split; [done|]. by apply middle_released, closing_middle.
  - destruct Hr as (dialled & -> & Hd). cbn [snd]. rewrite ftpLog_done. eexists. split; [done|]. by apply dialled_released.
Qed.

(** ** What a request leaves behind *)

Lemma serveRoutes_released `{!FtpLog W} request w :
  ∃ actions, ftpLog (snd (serveRoutes request w)) = ftpLog w ++ actions ∧ connectionsReleased actions.
Proof.
  unfold serveRoutes.
  assert (∃ actions, ftpLog w = ftpLog w ++ actions ∧ connectionsReleased actions) as Hnone
    by (exists []; rewrite app_nil_r; by split; [|left]).
  destruct (@serveOperation_world _ W _ (routes_connector routes) _ (λ w, (configured, w)) server request w configured w eq_refl)
    as [->|[->|(matched & source & _ & _ & _ & ->)]]; [done..|].
  destruct (connectorForMount routes (Match_Mount matched)) as [selected|err] eqn:Hsel.
  - destruct (routes_call routes matched request w selected Hsel) as [[err ->]|Hcall]; [done|]. destruct selected as [f|client].
    + destruct Hcall as (resource & tooLarge & call & _ & Hcalled & ->). by eapply ftpCall_released.
    + destruct (answerCall_effect routes (operationDecision configured (Request_Method request) source matched)
                  matched request w _ Hsel) as [->|(resource & _ & sent & _ & Hex)]; [done|]. unfold exchanged in Hex.
      pose proof (ftpLog_exchange client sent w) as Hlog. destruct (clientDo client sent w) as [[r|e] w1]; rewrite Hex;
        rewrite ?ftpLog_closed; cbn [snd] in Hlog; by rewrite Hlog.
  - by destruct (routes_call_none routes matched request w err Hsel) as [e ->].
Qed.

(** C9: no request leaves an FTP connection open.  However a request that is
    not a CONNECT ends - refused, answered from an FTP server or an HTTP
    backend, with a result the frontend rejects, or aborted because the client
    stopped taking the body - the handler itself has closed the FTP connections
    it dialled when it returns, its close of the control connection being the
    only one and its last action.  And whenever the context of the request
    ends, and however the functions that watch it interleave with the handler:
    none of them can start any more once the handler has returned, and each
    closes its connection once at most, and only if the context has ended. *)
Theorem serveOperation_releases `{!FtpLog W} request w :
  ∃ actions, ftpLog (snd (serveRoutes request w)) = ftpLog w ++ actions
    ∧ connectionsReleased actions
    ∧ ∀ events watches c, ownActions events = actions → eventRun noWatches events = Some watches →
        watchOf watches c ≠ Armed ∧ length (closesBy c events) ≤ 1
        ∧ (ContextDone ∉ events → closesBy c events = []).
Proof.
  destruct (serveRoutes_released request w) as (actions & Hlog & Hrel). exists actions. split_and!; [done|done|].
  by apply released_settled.
Qed.

(** ** What a client receives *)

Lemma ftpBody_yields b w data err body' w' :
  bodyYields (FtpBody b) w data err body' w' →
  ∃ calls e b' log, readBodyAll calls b = (data, Some e, b') ∧ asReadError e = err
    ∧ body' = FtpBody b' ∧ w' = ftpDid log w ∧ bodyTrace b' = bodyTrace b ++ concat log.
Proof.
  intros Hy. remember (FtpBody b) as body eqn:Hbody. revert b Hbody.
  induction Hy as [body w chunk err body' w' Hread|body w chunk body1 w1 rest err body' w' Hread _ IH]; intros b ->; cbn in Hread;
    pose proof (newActions_app _ _ (readBody_trace copyBuffer (contextEnded (ftpOutside w)) b)) as Htrace;
    destruct (readBody copyBuffer (contextEnded (ftpOutside w)) b) as [[c [e|]] b1] eqn:Hr; try done; cbn [snd] in Htrace.
  - injection Hread as <- <- <- <-. exists [(copyBuffer, contextEnded (ftpOutside w))], e, b1, [newActions b b1].
    cbn. rewrite Hr, app_nil_r. by split_and!.
  - injection Hread as <- <- <-. destruct (IH b1 eq_refl) as (calls & e & b' & log & Hcalls & He & -> & -> & Ht).
    exists ((copyBuffer, contextEnded (ftpOutside w)) :: calls), e, b', (newActions b b1 :: log).
    cbn. rewrite Hr, Hcalls. split_and!; [done..|]. by rewrite Ht, Htrace, <- app_assoc.
Qed.

(** A transfer that is answered to its end was confirmed. *)
Lemma respond_transfer `{!FtpLog W} request b w response w' :
  Request_Method request ≠ "PUT" → bodyFinished b = false → bodyTrace b = [] →
  respond request (ftpResult (FtpTransfer b)) w = (Responded response, w') →
  Response_Body response = delivered (bodyData b)
  ∧ ∃ reply, ftpLog w' = ftpLog w ++ [DataClosed; Received reply] ++ finishActions ∧ (200 ≤ ftpCode reply ≤ 299)%Z.
Proof.
  intros Hput Hopen Htrace Hresp. eapply respond_whole in Hresp as (body' & w1 & Hy & ->);
    [|cbn; by rewrite bool_decide_eq_false_2|reflexivity].
  apply ftpBody_yields in Hy as (calls & e & b' & log & Hcalls & He & -> & -> & Hb'). assert (e = BodyEOF) as -> by by destruct e.
  apply readBodyAll_ends in Hcalls as (Hdata & Hf & _ & Hconfirmed); [|done].
  destruct (Hconfirmed eq_refl) as (reply & r & _ & Hcode & Ht). rewrite Htrace in Ht, Hb'. cbn in Ht, Hb'.
  split; [done|]. exists reply. split; [|done].
  cbn [bodyClose connector_body]. unfold closeBody, finishBody. rewrite Hf, ftpLog_done, ftpLog_did. unfold newActions.
  by rewrite drop_all, app_nil_r, <- Hb', Ht.
Qed.

(** C8: a download that reaches the client whole is whole.  When a request for
    an FTP mount is answered with status 200 and not aborted, its body is
    everything that the data connection delivered before its end; that
    connection was dialled during the request; and the last thing the server
    said was a 2xx reply, after the data and before both connections were
    closed. *)
Theorem serveOperation_download `{!FtpLog W} request w matched f response w' :
  ResolveFor (Mounts configured) (operationMount server request) = Ok matched →
  connectorForMount routes (Match_Mount matched) = Ok (UseFTP f) →
  serveRoutes request w = (Responded response, w') → Response_Status response = 200%Z →
  ∃ address stream before reply,
    ftpLog w' = ftpLog w ++ before ++ [DataClosed; Received reply] ++ finishActions
    ∧ address ∈ dataDials before ∧ dialData (ftpOutside w) address = Some stream
    ∧ Response_Body response = delivered stream ∧ (200 ≤ ftpCode reply ≤ 299)%Z.
Proof.
  intros Hres Hsel. unfold serveRoutes.
  rewrite (@serveOperation_cases _ W _ (routes_connector routes) _ (λ w, (configured, w)) server request w configured w eq_refl), Hres.
  destruct (badTarget request); [by intros [= <- _]|]. destruct (policySource configured server request) as [source|]; [|by intros [= <- _]].
  cbv zeta. set (decision := operationDecision _ _ _ _). destruct (Allowed decision); [|by intros [= <- _]].
  assert (∀ reason e, Response_Status (enforceResponse reason e) ≠ 200%Z) as Herror.
  { intros reason e. unfold enforceResponse. by repeat match goal with |- context [if ?b then _ else _] => destruct b end. }
  destruct (routes_call routes matched request w _ Hsel) as [[err ->]|(resource & tooLarge & call & _ & Hcalled & ->)];
    [intros [= <- _] Hst; by apply Herror in Hst|].
  unfold ftpCall. match goal with |- context [call ?o] => set (outside := o) end.
  destruct (ftpCalled_operate _ _ _ _ call outside Hcalled) as [->|[-> Hput]];
    [intros [= <- _] Hst; by apply Herror in Hst|].
  destruct (operate (Some f) outside (Request_Method request) resource) as [r actions] eqn:Hrun.
  apply operate_shape in Hrun as Hshape. destruct Hshape as [[-> [err ->]]|(? & ? & ? & rest & _ & Hr)];
    [intros [= <- _] Hst; by apply Herror in Hst|].
  destruct r as [[o|b]|err]; cbn [answerCall]; [| |intros [= <- _] Hst; by apply Herror in Hst].
  - intros Hresp Hst. apply respond_status in Hresp. rewrite Hresp in Hst. destruct o; cbn in Hst; try done.
    apply operate_success in Hrun. by rewrite bool_decide_eq_true_2 in Hst by auto.
  - intros Hresp Hst. apply respond_status in Hresp as Hstatus. rewrite Hstatus in Hst. cbn in Hst.
    destruct (decide (Request_Method request = "PUT")) as [Hm|Hm].
    + by rewrite bool_decide_eq_true_2 in Hst.
    + destruct Hr as (_ & Hopen & Htrace & _ & address & Hdial & Hstream). apply respond_transfer in Hresp as [Hbody (reply & Hlog & Hcode)]; [|done..].
      exists address, (bodyData b), actions, reply. rewrite Hlog, ftpLog_done, <- app_assoc.
      split_and!; [done|done|exact Hstream|done|apply Hcode..].
Qed.
End Requests.

(** ** Witnesses *)

#[local] Existing Instance asciiUnicode.
#[local] Existing Instance echoMaterial.

(** A world with the FTP server of [Ftp] and no HTTP backend. *)
#[local] Instance ftp_backend : BackendWorld (list FtpAction) := {|
  clientDo client sent w := (Err plainError, w);
  responseClosed w := w;
  ftpOutside w := sampleOutside;
  ftpDone done w := w ++ done;
|}.

#[local] Instance ftp_log : FtpLog (list FtpAction).
Proof. by refine {| ftpLog := λ w, w |}. Defined.

Definition ftpRoutes : HTTPRoutes := NewHTTPRoutes None ∅.

Definition ftpConfig : Config :=
  {| Servers := [sampleServer]; Mounts := [testMount "/pub/*" [] "ftp://ftp.example/*"]; Policies := [testRule] |}.

(** A client that takes nothing of the body. *)
Definition goneClient : HTTPRequest :=
  let request := testRequest "GET" "/pub/file" "/pub/file" in
  {| Request_Method := Request_Method request; Request_URL := testURL "/pub/file"; Request_URI := Request_URI request;
     Request_Header := ∅; Request_RemoteAddr := Request_RemoteAddr request; Request_ContentLength := 0;
     Request_Body := []; Request_Writes n := false |}.

Definition isAborted (served : Served) : bool := match served with AbortedAfter _ => true | Responded _ => false end.

(** The context ends while the handler logs in. *)
Definition interrupted (actions : list FtpAction) : list FtpEvent :=
  (Own <$> take 4 actions) ++ [ContextDone; FuncStarts ControlConn] ++ (Own <$> drop 4 actions) ++ [FuncCloses ControlConn].

Lemma serveOperation_releases_witness :
  isAborted (fst (serveRoutes ftpRoutes ftpConfig "web" goneClient [])) = true
  ∧ ∃ actions watches, connectionsReleased actions ∧ eventRun noWatches (interrupted actions) = Some watches
      ∧ watchOf watches DataConn ≠ Armed ∧ closesBy ControlConn (interrupted actions) = [FuncCloses ControlConn].
Proof.
  split; [by vm_compute|].
  destruct (serveOperation_releases ftpRoutes ftpConfig "web" goneClient []) as (actions & Hlog & Hreleased & Hsettled).
  assert (∀ w, ftpLog w = w) as Hid by done. rewrite !Hid in Hlog. change (?l = [] ++ actions) with (l = actions) in Hlog.
  assert (match eventRun noWatches (interrupted (snd (serveRoutes ftpRoutes ftpConfig "web" goneClient []))) with
          | Some _ => true | None => false end = true
          ∧ closesBy ControlConn (interrupted (snd (serveRoutes ftpRoutes ftpConfig "web" goneClient []))) = [FuncCloses ControlConn]
          ∧ ownActions (interrupted (snd (serveRoutes ftpRoutes ftpConfig "web" goneClient [])))
            = snd (serveRoutes ftpRoutes ftpConfig "web" goneClient [])) as (Hrun & Hcl & Hown) by (split_and!; vm_compute; reflexivity).
  rewrite Hlog in Hrun, Hcl, Hown. destruct (eventRun noWatches (interrupted actions)) as [watches|] eqn:Hw; [|discriminate Hrun].
  exists actions, watches. split_and!; [exact Hreleased|exact Hw| |exact Hcl].
  apply (Hsettled (interrupted actions) watches DataConn Hown Hw).
Defined.

(** A client that takes everything. *)
Lemma serveOperation_download_witness :
  let request := testRequest "GET" "/pub/file" "/pub/file" in
  ∃ response address stream,
    fst (serveRoutes ftpRoutes ftpConfig "web" request []) = Responded response
    ∧ dialData sampleOutside address = Some stream ∧ Response_Body response = delivered stream.
Proof.
  intros request.
  eassert (ResolveFor (Mounts ftpConfig) (operationMount "web" request) = Ok _) as Hres by (vm_compute; reflexivity).
  match type of Hres with _ = Ok ?m =>
    assert (connectorForMount ftpRoutes (Match_Mount m) = Ok (UseFTP NewFTP)) as Hsel by (vm_compute; reflexivity) end.
  assert (match fst (serveRoutes ftpRoutes ftpConfig "web" request []) with
          | Responded r => Some (Response_Status r) | AbortedAfter _ => None end = Some 200%Z) as Hstatus by (vm_compute; reflexivity).
  destruct (serveRoutes ftpRoutes ftpConfig "web" request []) as [[response|r] w'] eqn:Hrun; [|discriminate Hstatus].
  injection Hstatus as Hstatus.
  destruct (serveOperation_download ftpRoutes ftpConfig "web" request [] _ NewFTP response w' Hres Hsel Hrun Hstatus)
    as (address & stream & before & code & _ & _ & Hstream & Hbody & _).
  exists response, address, stream. split; [reflexivity|]. split; [exact Hstream|exact Hbody].
Defined.
