(* ===== verification/Runtime.v ===== *)
(** cmd/delegate/http_runtime.go and address_route.go: preparing the listeners
    and transports of the gateway, and running one address route. *)

From S2P Require Import Prelude GoStrings GoNet TlsConfig Mount Policy Config Store Reload Endpoint Sessions Bridge.
From S2P Require Import HttpFrontend Ftp Connectors.

(** ** [prepareHTTPRuntime] *)

Inductive RuntimeError (E : Type) :=
| LoadBackendPolicy (err : LoadError)
| LoadServerTLS (name : bytes) (err : LoadError)
| ListenServer (name : bytes) (err : E).
Arguments LoadBackendPolicy {E} err.
Arguments LoadServerTLS {E} name err.
Arguments ListenServer {E} name err.

(** What happens outside, in order. *)
Inductive RuntimeAction :=
| Listened (listener : conn)
| ListenerClosed (listener : conn)
| IdleConnectionsClosed.

#[export] Instance RuntimeAction_eq_dec : EqDecision RuntimeAction.
Proof. solve_decision. Defined.

Section Runtime.
Context `{TLSMaterial}.

(** An [http.Server] with its listener: the durations in nanoseconds, the
    configuration of [tls.NewListener], the name its handler serves. *)
Record BoundServer := {
  boundName : bytes;
  boundAddr : bytes;
  boundListener : conn;
  boundTLS : option TLSConfig;
  readHeaderTimeout : Z;
  readTimeout : Z;
  writeTimeout : Z;
  idleTimeout : Z;
}.

Definition newServer (frontend : Server) (listener : conn) (tls : option TLSConfig) : BoundServer :=
  {| boundName := Server_Name frontend; boundAddr := Server_Listen frontend; boundListener := listener; boundTLS := tls;
     readHeaderTimeout := 10 * second; readTimeout := 30 * second; writeTimeout := 60 * second;
     idleTimeout := 120 * second |}.

(** The loop over the mounts: every policy is loaded once. *)
Fixpoint loadPolicies (mounts : list Mount) (loaded : gmap Backend TLSConfig)
    : result (gmap Backend TLSConfig) LoadError :=
  match mounts with
  | [] => Ok loaded
  | mounted :: mounts =>
      match Mount_TLS mounted with
      | None => loadPolicies mounts loaded
      | Some policy =>
          match loaded !! policy with
          | Some _ => loadPolicies mounts loaded
          | None =>
              let! tlsConfig := LoadBackend policy in
              loadPolicies mounts (<[policy := tlsConfig]> loaded)
          end
      end
  end.

(** The loop over the servers that loads their identities. *)
Fixpoint loadIdentities (servers : list Server) : result (list (option TLSConfig)) (bytes * LoadError) :=
  match servers with
  | [] => Ok []
  | frontend :: servers =>
      let! loaded := (match Server_TLS frontend with
                      | None => Ok None
                      | Some files => wrap (pair (Server_Name frontend))
                                           (let! loaded := LoadFrontend files in Ok (Some loaded))
                      end) in
      let! rest := loadIdentities servers in
      Ok (loaded :: rest)
  end.

Context {E : Type} (listen : bytes → result conn E).

(** The loop that binds the sockets; [bound] is what is open already. *)
Fixpoint bindServers (frontends : list (Server * option TLSConfig)) (bound : list BoundServer)
    : result (list BoundServer) (RuntimeError E) * list RuntimeAction :=
  match frontends with
  | [] => (Ok bound, [])
  | (frontend, tls) :: frontends =>
      match listen (Server_Listen frontend) with
      | Err err =>
          (Err (ListenServer (Server_Name frontend) err),
           ((λ opened, ListenerClosed (boundListener opened)) <$> bound) ++ [IdleConnectionsClosed])
      | Ok listener =>
          let '(r, actions) := bindServers frontends (bound ++ [newServer frontend listener tls]) in
          (r, Listened listener :: actions)
      end
  end.

Definition prepareHTTPRuntime (configured : Config) (backendClient : option HTTPClient)
    : result (list BoundServer * HTTPRoutes) (RuntimeError E) * list RuntimeAction :=
  match loadPolicies (Mounts configured) ∅ with
  | Err err => (Err (LoadBackendPolicy err), [])
  | Ok policies =>
      let routes := NewHTTPRoutes backendClient (Some <$> policies) in
      match loadIdentities (Servers configured) with
      | Err (name, err) => (Err (LoadServerTLS name err), [IdleConnectionsClosed])
      | Ok identities =>
          let '(r, actions) := bindServers (zip (Servers configured) identities) [] in
          (let! servers := r in Ok (servers, routes), actions)
      end
  end.

(** ** Lemmas *)

Lemma loadPolicies_spec mounts loaded policies :
  loadPolicies mounts loaded = Ok policies →
  loaded ⊆ policies
  ∧ (∀ m policy, m ∈ mounts → Mount_TLS m = Some policy → is_Some (policies !! policy))
  ∧ ((∀ policy c, loaded !! policy = Some c → LoadBackend policy = Ok c) →
     ∀ policy c, policies !! policy = Some c → LoadBackend policy = Ok c).
Proof.
  revert loaded. induction mounts as [|m mounts IH]; intros loaded; cbn.
  { intros [= <-]. split_and!; [done|set_solver|done]. }
  destruct (Mount_TLS m) as [policy|] eqn:Htls.
  - destruct (loaded !! policy) as [c|] eqn:Hl.
    + intros (Hsub & Hall & Hload)%IH. split_and!; [done| |done].
      intros m' policy' [->|Hin]%elem_of_cons Hm'; [|by eapply Hall].
      simplify_eq. exists c. by eapply lookup_weaken.
    + destruct (LoadBackend policy) as [c|err] eqn:Hc; [|done]. intros (Hsub & Hall & Hload)%IH. split_and!.
      * etrans; [by apply insert_subseteq|done].
      * intros m' policy' [->|Hin]%elem_of_cons Hm'; [|by eapply Hall].
        simplify_eq. exists c. eapply lookup_weaken; [|done]. apply lookup_insert_eq.
      * intros Hold. apply Hload. intros policy' c'. destruct (decide (policy' = policy)) as [->|Hne].
        -- rewrite lookup_insert_eq. by intros [= <-].
        -- rewrite lookup_insert_ne by done. apply Hold.
  - intros (Hsub & Hall & Hload)%IH. split_and!; [done| |done].
    intros m' policy' [->|Hin]%elem_of_cons Hm'; [congruence|by eapply Hall].
Qed.

Definition identityLoaded (s : Server) (tls : option TLSConfig) : Prop :=
  match Server_TLS s with
  | None => tls = None
  | Some files => ∃ c, LoadFrontend files = Ok c ∧ tls = Some c
  end.

Lemma loadIdentities_Ok servers identities :
  loadIdentities servers = Ok identities → Forall2 identityLoaded servers identities.
Proof.
  revert identities. induction servers as [|s servers IH]; intros identities; cbn; [by intros [= <-]; constructor|].
  destruct (match Server_TLS s with None => _ | Some _ => _ end) as [loaded|] eqn:Hl; [|done].
  destruct (loadIdentities servers) as [rest|]; [|done]. intros [= <-]. constructor; [|by apply IH].
  unfold identityLoaded. destruct (Server_TLS s) as [files|]; [|by injection Hl as <-].
  destruct (LoadFrontend files) as [c|]; [|done]. injection Hl as <-. by exists c.
Qed.

Definition opens (actions : list RuntimeAction) : list conn :=
  omap (λ a, match a with Listened l => Some l | _ => None end) actions.

Definition closes (actions : list RuntimeAction) : list conn :=
  omap (λ a, match a with ListenerClosed l => Some l | _ => None end) actions.

Lemma bindServers_spec frontends bound r actions :
  bindServers frontends bound = (r, actions) →
  match r with
  | Ok servers => closes actions = [] ∧ boundListener <$> servers = (boundListener <$> bound) ++ opens actions
      ∧ ∃ added, servers = bound ++ added
          ∧ (λ s, (boundName s, boundAddr s, boundTLS s)) <$> added
            = (λ '(f, tls), (Server_Name f, Server_Listen f, tls)) <$> frontends
  | Err err => closes actions = (boundListener <$> bound) ++ opens actions
      ∧ ∃ before, actions = before ++ [IdleConnectionsClosed]
  end.
Proof.
  revert bound r actions. induction frontends as [|[f tls] frontends IH]; intros bound r actions; cbn.
  { intros [= <- <-]. cbn. rewrite app_nil_r. split_and!; [done..|]. exists []. by rewrite app_nil_r. }
  destruct (listen (Server_Listen f)) as [l|err].
  - destruct (bindServers frontends _) as [r1 actions1] eqn:Hb. intros [= <- <-]. apply IH in Hb.
    destruct r1 as [servers|err].
    + destruct Hb as (Hc & Hl & added & -> & Hadded). split_and!; [done|..].
      * rewrite Hl, fmap_app. cbn. by rewrite <- app_assoc.
      * exists (newServer f l tls :: added). rewrite <- app_assoc. split; [done|]. cbn. by rewrite Hadded.
    + destruct Hb as (Hc & before & ->). split; [|by exists (Listened l :: before)].
      change (closes (Listened l :: before ++ [IdleConnectionsClosed])) with (closes (before ++ [IdleConnectionsClosed])).
      rewrite Hc, fmap_app. cbn. by rewrite <- app_assoc.
  - intros [= <- <-]. split; [|by eexists].
    assert (∀ ls, closes (((λ opened, ListenerClosed (boundListener opened)) <$> ls) ++ [IdleConnectionsClosed])
                  = boundListener <$> ls) as Hc.
    { intros ls. induction ls as [|b ls IHl]; [done|]. unfold closes in *. cbn. by rewrite IHl. }
    assert (∀ ls, opens (((λ opened, ListenerClosed (boundListener opened)) <$> ls) ++ [IdleConnectionsClosed]) = []) as Ho.
    { intros ls. induction ls as [|b ls IHl]; [done|]. unfold opens in *. cbn. by rewrite IHl. }
    by rewrite Hc, Ho, app_nil_r.
Qed.

Lemma zip_names {B} servers (ids : list (option TLSConfig)) (g : Server * option TLSConfig → B) (f : Server → B)
    (P : Server → option TLSConfig → Prop) :
  (∀ s tls, g (s, tls) = f s) → Forall2 P servers ids → g <$> zip servers ids = f <$> servers.
Proof. intros Hg. induction 1 as [|s tls servers ids _ _ IH]; [done|]. cbn. rewrite Hg. f_equal. exact IH. Qed.

(** Where a runtime that was prepared comes from. *)
Lemma prepareHTTPRuntime_Ok configured backendClient servers routes actions :
  prepareHTTPRuntime configured backendClient = (Ok (servers, routes), actions) →
  ∃ policies ids, loadPolicies (Mounts configured) ∅ = Ok policies ∧ loadIdentities (Servers configured) = Ok ids
    ∧ Forall2 identityLoaded (Servers configured) ids ∧ routes = NewHTTPRoutes backendClient (Some <$> policies)
    ∧ closes actions = [] ∧ boundListener <$> servers = opens actions
    ∧ (λ s, (boundName s, boundAddr s, boundTLS s)) <$> servers
      = (λ '(f, tls), (Server_Name f, Server_Listen f, tls)) <$> zip (Servers configured) ids.
Proof.
  unfold prepareHTTPRuntime. destruct (loadPolicies (Mounts configured) ∅) as [policies|err]; [|done].
  destruct (loadIdentities (Servers configured)) as [ids|[name err]] eqn:Hids; [|done].
  destruct (bindServers (zip (Servers configured) ids) []) as [r0 actions0] eqn:Hb. destruct r0 as [bound|]; [|done].
  intros [= <- <- <-]. apply bindServers_spec in Hb as (Hc & Hl & added & -> & Hadded).
  exists policies, ids. split_and!; try done. by apply loadIdentities_Ok.
Qed.

Lemma bound_names configured (ids : list (option TLSConfig)) servers :
  Forall2 identityLoaded (Servers configured) ids →
  (λ s, (boundName s, boundAddr s, boundTLS s)) <$> servers
    = (λ '(f, tls), (Server_Name f, Server_Listen f, tls)) <$> zip (Servers configured) ids →
  boundName <$> servers = Server_Name <$> Servers configured
  ∧ boundAddr <$> servers = Server_Listen <$> Servers configured.
Proof.
  intros Hids Hadded. split.
  - apply (f_equal (fmap (λ p, fst (fst p)))) in Hadded. rewrite <- !list_fmap_compose in Hadded.
    etrans; [exact Hadded|]. by eapply zip_names.
  - apply (f_equal (fmap (λ p, snd (fst p)))) in Hadded. rewrite <- !list_fmap_compose in Hadded.
    etrans; [exact Hadded|]. by eapply zip_names.
Qed.

(** C31: starting up is all or nothing: on success there is one listener for
    each configured server, in order, with the name, the address and exactly
    the TLS identity of that server (a server with an identity is never served
    in the clear), and nothing is closed; on failure every listener that was
    opened is closed again; and no socket is bound before every backend policy
    and every identity has been loaded. *)
Theorem prepareHTTPRuntime_atomic configured backendClient r actions :
  prepareHTTPRuntime configured backendClient = (r, actions) →
  match r with
  | Ok (servers, _) =>
      closes actions = [] ∧ boundListener <$> servers = opens actions
      ∧ (boundName <$> servers) = (Server_Name <$> Servers configured)
      ∧ (boundAddr <$> servers) = (Server_Listen <$> Servers configured)
      ∧ Forall2 (λ s bound, match Server_TLS s with
                            | None => boundTLS bound = None
                            | Some files => ∃ c, LoadFrontend files = Ok c ∧ boundTLS bound = Some c
                            end) (Servers configured) servers
  | Err _ => closes actions = opens actions
  end
  ∧ (opens actions ≠ [] → ∃ policies identities,
       loadPolicies (Mounts configured) ∅ = Ok policies ∧ loadIdentities (Servers configured) = Ok identities).
Proof.
  intros Hprep. destruct r as [[servers routes]|err].
  - apply prepareHTTPRuntime_Ok in Hprep as (policies & ids & Hp & Hload & Hids & _ & Hc & Hl & Hadded).
    destruct (bound_names configured ids servers Hids Hadded) as [Hn Ha]. split_and!; try done.
    + clear -Hids Hadded. apply (f_equal (fmap snd)) in Hadded. rewrite <- !list_fmap_compose in Hadded.
      revert servers Hadded. induction Hids as [|s tls ss ids Hs _ IH]; intros [|b bs] Hadded;
        try done; constructor; cbn in Hadded; injection Hadded as Ht Hadded; [|by apply IH].
      rewrite Ht. exact Hs.
    + intros _. by exists policies, ids.
  - unfold prepareHTTPRuntime in Hprep.
    destruct (loadPolicies (Mounts configured) ∅) as [policies|e]; [|by injection Hprep as _ <-].
    destruct (loadIdentities (Servers configured)) as [ids|[name e]]; [|by injection Hprep as _ <-].
    destruct (bindServers (zip (Servers configured) ids) []) as [[bound|e] actions0] eqn:Hb; [done|].
    injection Hprep as _ <-. apply bindServers_spec in Hb as [-> _]. split; [done|]. intros _. by exists policies, ids.
Qed.
End Runtime.

(** ** Witness: the second of two listeners cannot be bound. *)

Definition twoServers : Config :=
  {| Servers := [sampleServer;
                 {| Server_Name := "tls"; Server_Protocol := "http"; Server_Listen := ":443"; ClientIPHeader := [];
                    TrustedProxies := [];
                    Server_TLS := Some {| CertificateFile := "cert.pem"; PrivateKeyFile := "key.pem";
                                          FrontendMinimumVersion := [] |} |}];
     Mounts := []; Policies := [] |}.

Definition portTaken (address : bytes) : result conn unit := if bool_decide (address = ":80") then Ok 3 else Err tt.

Lemma prepareHTTPRuntime_atomic_witness :
  let M := echoMaterial in
  ∃ err actions, prepareHTTPRuntime portTaken twoServers None = (Err err, actions)
    ∧ opens actions = [3] ∧ closes actions = [3].
Proof.
  intros M. destruct (prepareHTTPRuntime portTaken twoServers None) as [r actions] eqn:Hrun.
  destruct (prepareHTTPRuntime_atomic portTaken twoServers None r actions Hrun) as [Hall _].
  assert (opens actions = [3]) as Hopen.
  { replace actions with (snd (prepareHTTPRuntime portTaken twoServers None)) by by rewrite Hrun. by vm_compute. }
  assert (isOk r = false) as Hfail.
  { replace r with (fst (prepareHTTPRuntime portTaken twoServers None)) by by rewrite Hrun. by vm_compute. }
  destruct r as [[servers routes]|err]; [discriminate Hfail|]. exists err, actions.
  split; [reflexivity|]. split; [exact Hopen|]. rewrite Hall. exact Hopen.
Defined.
