(* ===== verification/Command.v ===== *)
(** cmd/delegate/main.go: the command line, from the arguments to the exit
    code, with the configuration that is served and the reload loop. *)

From S2P Require Import Prelude GoStrings TlsConfig Mount Policy Config Store Reload Legacy Endpoint Explain.

Inductive CommandError :=
| CombinedDirectives
| ConfigPathRequired
| ConfigUnreadable (path : bytes)
| ConfigParse (err : TOMLError)
| ConfigLegacy (err : LegacyError)
| ConfigInvalid (err : ConfigError)
| ValueRequired (option : bytes)
| ExplainPathOrURL
| ExplainSourceRequired
| ExplainMethodRequired
| ExplainOneServer
| UnsupportedFrontend.

(** ** Arguments *)

Definition configFlag : bytes := "--config".
Definition configAssign : bytes := "--config=".

Definition isConfigArg (arg : bytes) : bool := bool_decide (arg = configFlag) || hasPrefix arg configAssign.

(** [configPathFromArgs]: the path a reload will read. *)
Fixpoint configPathFromArgs (args : list bytes) : bytes :=
  match args with
  | [] => []
  | arg :: rest =>
      match rest with
      | path :: _ =>
          if bool_decide (arg = configFlag) then path
          else if hasPrefix arg configAssign then trimPrefix arg configAssign
          else configPathFromArgs rest
      | [] => if hasPrefix arg configAssign then trimPrefix arg configAssign else []
      end
  end.

Section Command.
Context `{UnicodeData} `{TOMLDecoder} `{FileSystem}.

Definition looksLikeAddressRoute (args : list bytes) : bool :=
  match args with
  | [] => false
  | arg :: _ =>
      let '(kind, _, found) := cutByte arg ":" in
      found && negb (containsByte kind "=") && hasSuffix (toUpper kind) "-LISTEN"
  end.

(** [os.Open] followed by [ParseTOML]. *)
Definition readConfiguration (path : bytes) : result Config CommandError :=
  match openFile path with
  | None => Err (ConfigUnreadable path)
  | Some (contents, _) => wrap ConfigParse (ParseTOML (Some contents))
  end.

(** [configIndex]: the loop that looks for the first configuration flag. *)
Fixpoint configIndex (i : nat) (args : list bytes) : option nat :=
  match args with
  | [] => None
  | arg :: rest => if isConfigArg arg then Some i else configIndex (S i) rest
  end.

Definition loadConfiguration (args : list bytes) : result Config CommandError :=
  match configIndex 0 args with
  | None => wrap ConfigLegacy (ParseLegacyArgs args)
  | Some (S _) => Err CombinedDirectives
  | Some 0 =>
      match args with
      | [] => Err CombinedDirectives
      | first :: rest =>
          if bool_decide (first = configFlag) then
            match rest with
            | [] => Err ConfigPathRequired
            | path :: more =>
                refuse ConfigPathRequired when bool_decide (trimSpace path = []) ;;
                refuse CombinedDirectives when negb (bool_decide (more = [])) ;;
                readConfiguration path
            end
          else
            let path := trimSpace (trimPrefix first configAssign) in
            refuse ConfigPathRequired when bool_decide (path = []) ;;
            refuse CombinedDirectives when negb (bool_decide (rest = [])) ;;
            readConfiguration path
      end
  end.

(** ** [explain] *)

Inductive explainField := FieldPath | FieldURL | FieldSource | FieldMethod.

Definition fieldFlag (f : explainField) : bytes :=
  match f with FieldPath => "--path" | FieldURL => "--url" | FieldSource => "--source" | FieldMethod => "--method" end.

(** The assignment a case of the [switch] makes. *)
Definition setField (f : explainField) (value : bytes) (r : ExplainRequest) : ExplainRequest :=
  {| Explain_Path := match f with FieldPath => value | _ => Explain_Path r end;
     Explain_URL := match f with FieldURL => value | _ => Explain_URL r end;
     Explain_Source := match f with FieldSource => value | _ => Explain_Source r end;
     Explain_Server := Explain_Server r;
     Explain_Protocol := Explain_Protocol r;
     Explain_Method := match f with FieldMethod => value | _ => Explain_Method r end |}.

(** The cases of the [switch], in order: a field with its value in the next
    argument or after an equals sign. *)
Inductive explainCase := NextValue (f : explainField) | Assigned (f : explainField) (value : bytes)
| ConfigNext | ConfigArgument.

Definition fieldCase (arg : bytes) (f : explainField) (otherwise : explainCase) : explainCase :=
  if bool_decide (arg = fieldFlag f) then NextValue f
  else if hasPrefix arg (fieldFlag f ++ ["="%char]) then Assigned f (trimPrefix arg (fieldFlag f ++ ["="%char]))
  else otherwise.

Definition explainSwitch (arg : bytes) : explainCase :=
  fieldCase arg FieldPath (fieldCase arg FieldURL (fieldCase arg FieldSource (fieldCase arg FieldMethod
    (if bool_decide (arg = configFlag) then ConfigNext else ConfigArgument)))).

Definition emptyRequest : ExplainRequest :=
  {| Explain_Path := []; Explain_URL := []; Explain_Source := []; Explain_Server := []; Explain_Protocol := [];
     Explain_Method := [] |}.

(** The loop over the arguments; the function literal [value] takes the next
    one. *)
Fixpoint explainArgs (args : list bytes) (request : ExplainRequest) (configArgs : list bytes)
    : result (ExplainRequest * list bytes) CommandError :=
  match args with
  | [] => Ok (request, configArgs)
  | arg :: rest =>
      match explainSwitch arg with
      | NextValue f =>
          match rest with
          | value :: rest =>
              refuse ValueRequired (fieldFlag f) when bool_decide (trimSpace value = []) ;;
              explainArgs rest (setField f value request) configArgs
          | [] => Err (ValueRequired (fieldFlag f))
          end
      | Assigned f value => explainArgs rest (setField f value request) configArgs
      | ConfigNext =>
          match rest with
          | value :: rest =>
              refuse ValueRequired configFlag when bool_decide (trimSpace value = []) ;;
              explainArgs rest request (configArgs ++ [configFlag; value])
          | [] => Err (ValueRequired configFlag)
          end
      | ConfigArgument => explainArgs rest request (configArgs ++ [arg])
      end
  end.

Definition loadExplanation (args : list bytes) : result (Config * ExplainRequest) CommandError :=
  let! (request, configArgs) := explainArgs args emptyRequest [] in
  refuse ExplainPathOrURL when Bool.eqb (blank (Explain_Path request)) (blank (Explain_URL request)) ;;
  refuse ExplainSourceRequired when blank (Explain_Source request) ;;
  refuse ExplainMethodRequired when blank (Explain_Method request) ;;
  let! configured := loadConfiguration configArgs in
  match Servers configured with
  | [server] =>
      Ok (configured,
          {| Explain_Path := Explain_Path request; Explain_URL := Explain_URL request;
             Explain_Source := Explain_Source request; Explain_Server := Server_Name server;
             Explain_Protocol := Server_Protocol server; Explain_Method := Explain_Method request |})
  | _ => Err ExplainOneServer
  end.

(** ** [run] and [runCommand] *)

Fixpoint runtimeSupportLoop (servers : list Server) : result unit CommandError :=
  match servers with
  | [] => Ok tt
  | frontend :: servers =>
      refuse UnsupportedFrontend when negb (equalFold (Server_Protocol frontend) "http") ;;
      runtimeSupportLoop servers
  end.

Definition validateRuntimeSupport (configured : Config) : result unit CommandError :=
  runtimeSupportLoop (Servers configured).

(** What a run did on the outside before it exited. *)
Inductive CommandEffect :=
| PrintedVersion
| PrintedExplanation (r : ExplainResult)
| PrintedConfiguration (c : Config)
| ServedConfiguration (c : Config)
| ServedRoute (r : Route).

(** The outside: whether the output can be written, whether serving a
    configuration or a route ends without an error, and whether the route
    runtime exists. *)
Record CommandWorld := {
  outputWrites : bool;
  servesConfig : Config → bool;
  servesRoute : option (Route → bool);
}.

(** The arguments without the name of a mode, and the mode. *)
Inductive runMode := ModeServe | ModeCheck | ModeExplain.

Definition splitMode (args : list bytes) : runMode * list bytes :=
  match args with
  | arg :: rest =>
      if bool_decide (arg = "check") then (ModeCheck, rest)
      else if bool_decide (arg = "serve") then (ModeServe, rest)
      else if bool_decide (arg = "explain") then (ModeExplain, rest)
      else (ModeServe, args)
  | [] => (ModeServe, args)
  end.

(** [run]: what it did and the exit code. *)
Definition run (args : list bytes) (world : CommandWorld) : list CommandEffect * Z :=
  if match args with arg :: _ => bool_decide (arg = "version") | [] => false end then
    if negb (length args =? 1) then ([], 2%Z) else ([PrintedVersion], 0%Z)
  else
    let '(mode, args) := splitMode args in
    match mode with
    | ModeExplain =>
        match loadExplanation args with
        | Err _ => ([], 2%Z)
        | Ok (configured, request) =>
            match Explain configured request with
            | Err _ => ([], 2%Z)
            | Ok result => ([PrintedExplanation result], if outputWrites world then 0%Z else 1%Z)
            end
        end
    | _ =>
        match loadConfiguration args with
        | Err _ => ([], 2%Z)
        | Ok configured =>
            match Config_Validate configured with
            | Err _ => ([], 2%Z)
            | Ok _ =>
                match mode with
                | ModeCheck => ([PrintedConfiguration configured], if outputWrites world then 0%Z else 1%Z)
                | _ =>
                    match validateRuntimeSupport configured with
                    | Err _ => ([], 2%Z)
                    | Ok _ => ([ServedConfiguration configured], if servesConfig world configured then 0%Z else 1%Z)
                    end
                end
            end
        end
    end.

Definition runCommand (args : list bytes) (world : CommandWorld) : list CommandEffect * Z :=
  if negb (looksLikeAddressRoute args) then run args world
  else
    match ParseRoute args with
    | Err _ => ([], 2%Z)
    | Ok route =>
        match servesRoute world with
        | None => ([], 1%Z)
        | Some serve => ([ServedRoute route], if serve route then 0%Z else 1%Z)
        end
    end.
End Command.

(** [watchReload]: each event reloads the file as the file system then is; the
    results are what is reported. *)
Section Watch.
Context `{UnicodeData} `{TOMLDecoder} {S : Type} `{!ConfigStore S}.

Fixpoint watchReload (events : list FileSystem) (path : bytes) (store : option S)
    : list (result unit (ReloadError CommandError)) * option S :=
  match events with
  | [] => ([], store)
  | files :: events =>
      let '(r, store) := ReloadTOMLFileWithValidation (H1 := files) store path (Some validateRuntimeSupport) in
      let '(reports, store) := watchReload events path store in
      (r :: reports, store)
  end.
End Watch.

(** ** Lemmas *)

Section CommandLemmas.
Context `{UnicodeData} `{TOMLDecoder} `{FileSystem}.

Lemma ParseLegacyArgs_validates args c : ParseLegacyArgs args = Ok c → Config_Validate c = Ok tt.
Proof. by intros (s & port & _ & _ & _ & _ & Hv & _)%ParseLegacyArgs_cases. Qed.

Lemma readConfiguration_validates path c : readConfiguration path = Ok c → Config_Validate c = Ok tt.
Proof.
  unfold readConfiguration. destruct (openFile path) as [[contents ?]|]; [|done].
  rewrite wrap_Ok. apply ParseTOML_valid.
Qed.

Lemma configIndex_shift i args : configIndex (S i) args = S <$> configIndex i args.
Proof. revert i. induction args as [|arg args IH]; intros i; [done|]. cbn. destruct (isConfigArg arg); [done|apply IH]. Qed.

(** What a configuration that was loaded comes from. *)
Lemma loadConfiguration_Ok args c :
  loadConfiguration args = Ok c →
  configIndex 0 args = None ∧ ParseLegacyArgs args = Ok c
  ∨ (∃ path, args = [configFlag; path] ∧ readConfiguration path = Ok c)
  ∨ ∃ arg, args = [arg] ∧ arg ≠ configFlag ∧ hasPrefix arg configAssign = true
      ∧ readConfiguration (trimSpace (trimPrefix arg configAssign)) = Ok c.
Proof.
  unfold loadConfiguration. destruct (configIndex 0 args) as [[|i]|] eqn:Hi; [|done|].
  - destruct args as [|first rest]; [done|]. case_bool_decide as Hfirst.
    + subst first. destruct rest as [|path more]; [done|]. case_bool_decide; [done|].
      case_bool_decide; [|done]. cbn [negb]. subst more. intros Hc. right; left. by exists path.
    + case_bool_decide; [done|]. case_bool_decide; [|done]. cbn [negb]. subst rest. intros Hc. right; right.
      exists first. split_and!; try done. cbn in Hi. destruct (isConfigArg first) eqn:Ha; [|done].
      unfold isConfigArg in Ha. by rewrite bool_decide_eq_false_2 in Ha.
  - rewrite wrap_Ok. by left.
Qed.

Lemma loadConfiguration_validates args c : loadConfiguration args = Ok c → Config_Validate c = Ok tt.
Proof.
  intros [[_ Hc]|[(path & _ & Hc)|(arg & _ & _ & _ & Hc)]]%loadConfiguration_Ok.
  - by eapply ParseLegacyArgs_validates.
  - by eapply readConfiguration_validates.
  - by eapply readConfiguration_validates.
Qed.

Lemma runtimeSupport_iff servers :
  runtimeSupportLoop servers = Ok tt ↔ Forall (λ s, equalFold (Server_Protocol s) "http" = true) servers.
Proof.
  induction servers as [|s servers IH]; cbn [runtimeSupportLoop]; [done|].
  rewrite Forall_cons. destruct (equalFold _ _); cbn [negb]; naive_solver.
Qed.

Lemma isConfigArg_false arg : isConfigArg arg = false → arg ≠ configFlag ∧ hasPrefix arg configAssign = false.
Proof. intros [Ha%bool_decide_eq_false ?]%orb_false_iff. done. Qed.

(** [configPathFromArgs] on arguments without a configuration flag. *)
Lemma configPath_none args : configIndex 0 args = None → configPathFromArgs args = [].
Proof.
  induction args as [|arg rest IH]; [done|]. cbn [configIndex configPathFromArgs].
  destruct (isConfigArg arg) eqn:Ha; [done|]. apply isConfigArg_false in Ha as [Hne Hpre].
  rewrite configIndex_shift. destruct (configIndex 0 rest) eqn:Hi; [done|]. intros _.
  rewrite Hpre, bool_decide_eq_false_2 by done. destruct rest; [done|]. by apply IH.
Qed.

Lemma configPath_skip arg rest :
  isConfigArg arg = false → configPathFromArgs (arg :: rest) = configPathFromArgs rest.
Proof.
  intros [Hne Hpre]%isConfigArg_false. cbn [configPathFromArgs].
  rewrite Hpre, bool_decide_eq_false_2 by done. by destruct rest.
Qed.
End CommandLemmas.

(** ** Properties *)

Section CommandProperties.
Context `{UnicodeData} `{TOMLDecoder} `{FileSystem}.

Lemma splitMode_path args mode rest : splitMode args = (mode, rest) → configPathFromArgs args = configPathFromArgs rest.
Proof.
  unfold splitMode. destruct args as [|arg args]; [by intros [= <- <-]|].
  repeat (case_bool_decide; [subst arg; intros [= <- <-]; by apply configPath_skip|]). by intros [= <- <-].
Qed.

(** A reload reads what was loaded.  When a process starts from arguments
    that load a configuration, either they are legacy directives and there is
    no file to reload, or the configuration is the contents of the file
    [configPathFromArgs] names, up to white space around that name. *)
Theorem configPathFromArgs_loaded args mode rest c :
  splitMode args = (mode, rest) → loadConfiguration rest = Ok c →
  configPathFromArgs args = [] ∧ ParseLegacyArgs rest = Ok c
  ∨ readConfiguration (configPathFromArgs args) = Ok c
  ∨ readConfiguration (trimSpace (configPathFromArgs args)) = Ok c.
Proof.
  intros ->%splitMode_path [[Hi Hc]|[(path & -> & Hc)|(arg & -> & Hne & Hpre & Hc)]]%loadConfiguration_Ok.
  - left. by rewrite configPath_none.
  - right; left. exact Hc.
  - right; right. cbn [configPathFromArgs]. by rewrite Hpre.
Qed.

(** Whether the outside let an effect succeed. *)
Definition succeeded (world : CommandWorld) (e : CommandEffect) : bool :=
  match e with
  | PrintedVersion => true
  | PrintedExplanation _ | PrintedConfiguration _ => outputWrites world
  | ServedConfiguration c => servesConfig world c
  | ServedRoute r => match servesRoute world with Some serve => serve r | None => false end
  end.

(** What the arguments ask for, of the things the command can do: the parsers
    and validators that have to accept them first. *)
Definition effectOk (args : list bytes) (e : CommandEffect) : Prop :=
  match e with
  | ServedRoute r => looksLikeAddressRoute args = true ∧ ParseRoute args = Ok r
  | PrintedVersion => args = ["version" : bytes]
  | PrintedExplanation r => looksLikeAddressRoute args = false ∧ ∃ rest c request, splitMode args = (ModeExplain, rest)
      ∧ loadExplanation rest = Ok (c, request) ∧ Explain c request = Ok r
  | PrintedConfiguration c => looksLikeAddressRoute args = false ∧ ∃ rest, splitMode args = (ModeCheck, rest)
      ∧ loadConfiguration rest = Ok c ∧ Config_Validate c = Ok tt
  | ServedConfiguration c => looksLikeAddressRoute args = false ∧ head args ≠ Some ("version" : bytes)
      ∧ ∃ rest, splitMode args = (ModeServe, rest) ∧ loadConfiguration rest = Ok c
      ∧ Config_Validate c = Ok tt ∧ Forall (λ s, equalFold (Server_Protocol s) "http" = true) (Servers c)
  end.

(** A run refuses without an effect, or does one thing. *)
Inductive commandRun (args : list bytes) (world : CommandWorld) : list CommandEffect → Z → Prop :=
| RunUsage : commandRun args world [] 2
| RunUnavailable r : servesRoute world = None → effectOk args (ServedRoute r) → commandRun args world [] 1
| RunEffect e : effectOk args e → commandRun args world [e] (if succeeded world e then 0 else 1)%Z.

Definition asksVersion (args : list bytes) : bool :=
  match args with arg :: _ => bool_decide (arg = "version") | [] => false end.

Lemma asksVersion_head args : asksVersion args = false → head args ≠ Some ("version" : bytes).
Proof. destruct args as [|arg args]; [done|]. intros Ha%bool_decide_eq_false [= ->]. done. Qed.

Lemma run_shape args world effects exit :
  looksLikeAddressRoute args = false → run args world = (effects, exit) → commandRun args world effects exit.
Proof.
  intros Hlooks. unfold run. change (match args with [] => false | _ :: _ => _ end) with (asksVersion args).
  destruct (asksVersion args) eqn:Hversion.
  { destruct args as [|arg [|? ?]]; [done|..]; intros [= <- <-]; [|constructor].
    apply bool_decide_eq_true in Hversion as ->. by apply (RunEffect _ _ PrintedVersion). }
  apply asksVersion_head in Hversion.
  destruct (splitMode args) as [mode rest] eqn:Hmode.
  assert (∀ c, loadConfiguration rest = Ok c → Config_Validate c = Ok tt) as Hvalid by apply loadConfiguration_validates.
  destruct mode.
  - destruct (loadConfiguration rest) as [c|] eqn:Hload; [|intros [= <- <-]; constructor].
    rewrite (Hvalid c eq_refl). unfold validateRuntimeSupport.
    destruct (runtimeSupportLoop (Servers c)) as [[]|] eqn:Hs; [|intros [= <- <-]; constructor].
    intros [= <- <-]. apply (RunEffect _ _ (ServedConfiguration c)). split_and!; try done. exists rest.
    by rewrite runtimeSupport_iff in Hs; auto.
  - destruct (loadConfiguration rest) as [c|] eqn:Hload; [|intros [= <- <-]; constructor].
    rewrite (Hvalid c eq_refl). intros [= <- <-]. apply (RunEffect _ _ (PrintedConfiguration c)). split; [done|].
    exists rest. auto.
  - destruct (loadExplanation rest) as [[c request]|] eqn:Hload; [|intros [= <- <-]; constructor].
    destruct (Explain c request) as [r|] eqn:Hr; [|intros [= <- <-]; constructor].
    intros [= <- <-]. apply (RunEffect _ _ (PrintedExplanation r)). split; [done|]. by exists rest, c, request.
Qed.

Lemma runCommand_shape args world effects exit :
  runCommand args world = (effects, exit) → commandRun args world effects exit.
Proof.
  unfold runCommand. destruct (looksLikeAddressRoute args) eqn:Hlooks; cbn [negb]; [|by apply run_shape].
  destruct (ParseRoute args) as [route|err] eqn:Hroute; [|intros [= <- <-]; constructor].
  destruct (servesRoute world) as [serve|] eqn:Hs; [|intros [= <- <-]; by apply (RunUnavailable _ _ route)].
  intros [= <- <-]. replace (serve route) with (succeeded world (ServedRoute route)) by (cbn; by rewrite Hs).
  by apply RunEffect.
Qed.

Lemma splitMode_named args rest mode :
  splitMode args = (mode, rest) → mode ≠ ModeServe → asksVersion args = false.
Proof.
  unfold splitMode. destruct args as [|arg args]; [by intros [= <- <-]|].
  case_bool_decide as Hcheck; [by subst arg|]. case_bool_decide; [by intros [= <- <-]|].
  case_bool_decide as Hexplain; [by subst arg|]. by intros [= <- <-].
Qed.

Lemma asksVersion_false args : head args ≠ Some ("version" : bytes) → asksVersion args = false.
Proof. destruct args as [|arg args]; [done|]. cbn. intros Hne. apply bool_decide_eq_false. by intros ->. Qed.

(** Arguments that ask for something are not refused. *)
Lemma effectOk_accepted args world e : effectOk args e → snd (runCommand args world) ≠ 2%Z.
Proof.
  unfold runCommand, run. fold (asksVersion args). destruct e as [|r|c|c|r]; cbn [effectOk].
  - intros ->. by vm_compute.
  - intros (-> & rest & c & request & Hmode & Hload & Hr). cbn [negb].
    rewrite (splitMode_named _ _ _ Hmode) by done. rewrite Hmode, Hload, Hr. by destruct (outputWrites world).
  - intros (-> & rest & Hmode & Hload & Hv). cbn [negb].
    rewrite (splitMode_named _ _ _ Hmode) by done. rewrite Hmode, Hload, Hv. by destruct (outputWrites world).
  - intros (-> & Hhead & rest & Hmode & Hload & Hv & Hs%runtimeSupport_iff). cbn [negb].
    rewrite (asksVersion_false _ Hhead), Hmode, Hload, Hv. unfold validateRuntimeSupport. rewrite Hs.
    by destruct (servesConfig world c).
  - intros [-> ->]. cbn [negb]. destruct (servesRoute world) as [serve|]; [|done]. by destruct (serve r).
Qed.


(** Every route of the endpoint grammar reaches the route runtime: the
    test that tells routes from other arguments accepts whatever the grammar
    does. *)
Theorem runCommand_dispatch args r world :
  ParseRoute args = Ok r → servesRoute world ≠ None →
  looksLikeAddressRoute args = true ∧ fst (runCommand args world) = [ServedRoute r].
Proof.
  intros Hroute Hserve. assert (looksLikeAddressRoute args = true) as Hlooks.
  { unfold ParseRoute in Hroute. destruct args as [|first [|second [|? ?]]]; try done.
    destruct (ParseAddress first) as [ingress|] eqn:Ha; [|done]. cbn [wrap] in Hroute.
    destruct (listens ingress) eqn:Hlistens; [|done].
    unfold looksLikeAddressRoute. unfold ParseAddress in Ha. case_bool_decide; [done|].
    destruct (negb (bool_decide (first = trimSpace first))); [done|].
    destruct (cutByte first ":") as [[kind argument] found]. destruct found; [|done]. cbn [negb] in Ha.
    destruct (kindOf kind) as [k|] eqn:Hk; [|done]. apply kindOf_Some in Hk as ->.
    assert (Address_Kind ingress = k) as Hkind.
    { destruct k.
      - unfold parseTCP, parsePort in Ha. by follow Ha.
      - unfold parseTCP, parsePort in Ha. by follow Ha.
      - unfold parsePort in Ha. by follow Ha.
      - by follow Ha. }
    unfold listens in Hlistens. rewrite Hkind in Hlistens. by destruct k. }
  split; [done|]. unfold runCommand. rewrite Hlooks, Hroute. cbn [negb]. by destruct (servesRoute world).
Qed.
End CommandProperties.

(** ** Witnesses *)

#[local] Existing Instance asciiUnicode.
#[local] Existing Instance oneDocument.
#[local] Existing Instance oneFile.

Definition willing : CommandWorld :=
  {| outputWrites := true; servesConfig c := true; servesRoute := Some (λ r, true) |}.


Lemma configPathFromArgs_loaded_witness :
  configPathFromArgs ["check" : bytes; "--config" : bytes; "gateway.toml" : bytes] = "gateway.toml"
  ∧ (readConfiguration "gateway.toml" = Ok reloadedConfig).
Proof.
  split; [by vm_compute|].
  destruct (configPathFromArgs_loaded ["check" : bytes; "--config" : bytes; "gateway.toml" : bytes] ModeCheck
              ["--config" : bytes; "gateway.toml" : bytes] reloadedConfig) as [[Habs _]|[Hread|Hread]].
  - by vm_compute.
  - by vm_compute.
  - vm_compute in Habs. discriminate Habs.
  - vm_compute in Hread. exact Hread.
  - vm_compute in Hread. exact Hread.
Defined.

Lemma runCommand_dispatch_witness :
  fst (runCommand ["TAILCAT-LISTEN:8080" : bytes; "TCP-CONNECT:db.example:5432" : bytes] willing) ≠ [].
Proof.
  assert (isOk (ParseRoute ["TAILCAT-LISTEN:8080" : bytes; "TCP-CONNECT:db.example:5432" : bytes]) = true) as Hok by by vm_compute.
  destruct (ParseRoute ["TAILCAT-LISTEN:8080" : bytes; "TCP-CONNECT:db.example:5432" : bytes]) as [r|] eqn:Hr; [|discriminate Hok].
  destruct (runCommand_dispatch _ r willing Hr) as [_ Heff]; [discriminate|]. rewrite Heff. discriminate.
Defined.

(** ** A divergence *)

(** The path given with [--config=] is trimmed when the process starts and not
    when it reloads: a blank after the equals sign loads one file and makes
    every reload look for another. *)
Theorem configPathFromArgs_blank :
  isOk (loadConfiguration ["--config= gateway.toml" : bytes]) = true
  ∧ readConfiguration (configPathFromArgs ["--config= gateway.toml" : bytes]) = Err (ConfigUnreadable " gateway.toml").
Proof. split; by vm_compute. Qed.
