(* ===== verification/Process.v ===== *)
(** cmd/delegate: the running gateway process.  [serveHTTP] joins the
    configuration store, the runtime that was prepared from the first
    configuration and the reload loop; [serveAddressRoute] joins a parsed route
    and the bridge. *)

From S2P Require Import Prelude GoStrings GoNet GoUrl TlsConfig Mount Resolve Policy Config Store Reload Legacy Endpoint Explain.
From S2P Require Import Sessions Bridge GoBufio HttpFrontend Gateway Ftp Connectors Runtime Command.

(** ** [serveHTTP] *)

Section ServeHTTP.
Context `{UnicodeData} `{TLSMaterial} `{TOMLDecoder} {S : Type} `{!ConfigStore S} {E : Type}.

(** The backend client: no transport of its own, a timeout of a minute. *)
Definition backendClient : HTTPClient :=
  {| ClientTransport := NoTransport; CheckRedirect := FollowRedirects; ClientJar := 0; ClientTimeout := 60 * second |}.

Inductive ServeHTTPError := StoreRejected (err : ConfigError) | RuntimeRejected (err : RuntimeError E).

(** reload_signal_unix.go and reload_signal_windows.go, which build constraints
    choose between. *)
Inductive Signal := SIGHUP.

Definition reloadSignals (windows : bool) : list Signal := if windows then [] else [SIGHUP].

(** [serveHTTP] up to [ServeAll]: [newStore] is [config.NewStore]; the events
    are the reload signals that arrive while it serves, each with the file
    system at that time.  The last component is what the process did to
    sockets and pools: the deferred [CloseIdleConnections] comes at the end. *)
Definition serveHTTP (newStore : Config → result S ConfigError) (listen : bytes → result conn E)
    (windows : bool) (configured : Config) (reloadPath : bytes) (events : list FileSystem)
    : result (list BoundServer * HTTPRoutes * option S) ServeHTTPError * list RuntimeAction :=
  match newStore configured with
  | Err err => (Err (StoreRejected err), [])
  | Ok store =>
      let '(prepared, actions) := prepareHTTPRuntime listen configured (Some backendClient) in
      match prepared with
      | Err err => (Err (RuntimeRejected err), actions)
      | Ok (servers, routes) =>
          let store := if bool_decide (reloadPath = []) || bool_decide (reloadSignals windows = []) then Some store
                       else snd (watchReload events reloadPath (Some store)) in
          (Ok (servers, routes, store), actions ++ [IdleConnectionsClosed])
      end
  end.

(** ** Lemmas *)

Lemma watchReload_foldl events path store :
  snd (watchReload events path store) =
  foldl reload store ((λ files, (files, path, Some validateRuntimeSupport)) <$> events).
Proof.
  revert store. induction events as [|files events IH]; intros store; [done|]. cbn [watchReload].
  destruct (ReloadTOMLFileWithValidation (H1 := files) store path _) as [r store'] eqn:Hr.
  specialize (IH store'). destruct (watchReload events path store') as [reports store'']. cbn in IH |- *.
  by rewrite Hr.
Qed.

Lemma Config_Validate_mounts c m : Config_Validate c = Ok tt → m ∈ Mounts c → Mount_Validate m = Ok tt.
Proof.
  rewrite Config_Validate_wellFormed. intros (_ & _ & _ & _ & Hm & _) Hin.
  rewrite Forall_forall in Hm. by apply Hm.
Qed.

Lemma topology_names c c' : topology <$> Servers c ≡ₚ topology <$> Servers c' → Server_Name <$> Servers c ≡ₚ Server_Name <$> Servers c'.
Proof.
  intros Hp. apply (Permutation_map (λ t, fst (fst (fst t)))) in Hp.
  change (map ?f ?l) with (f <$> l) in Hp. rewrite <- !list_fmap_compose in Hp. exact Hp.
Qed.

(** The connector a mount asks for: the FTP connector for an ftp target;
    otherwise an HTTP client that follows no redirects, with the timeout of
    the backend client, which has no transport of its own for a mount without
    a TLS policy, and for a mount with one the configuration loaded for
    exactly that policy. *)
Definition connectsFor (m : Mount) (used : protocolConnector) : Prop :=
  match used with
  | UseFTP f => ftpTarget m = true ∧ Mount_TLS m = None ∧ f = NewFTP
  | UseHTTP client => ftpTarget m = false
      ∧ CheckRedirect client = StopRedirects ∧ ClientTimeout client = ClientTimeout backendClient
      ∧ match Mount_TLS m with
        | None => ClientTransport client = NoTransport
        | Some policy => ∃ loaded t, LoadBackend policy = Ok loaded
            ∧ ClientTransport client = HTTPTransport t ∧ TLSClientConfig t = Some loaded
        end
  end.

(** A running process can always serve what it has published.  Whatever
    the reloads bring, every mount of the published configuration is valid and
    has the connector it asks for ready; and every listener still belongs to a
    configured server. *)
Theorem serveHTTP_ready newStore listen windows configured reloadPath events servers routes store actions :
  (∀ c s, newStore c = Ok s → storeInv s ∧ view s = c ∧ Config_Validate c = Ok tt) →
  serveHTTP newStore listen windows configured reloadPath events = (Ok (servers, routes, store), actions) →
  ∃ s, store = Some s ∧ Config_Validate (view s) = Ok tt
    ∧ boundName <$> servers ≡ₚ Server_Name <$> Servers (view s)
    ∧ ∀ m, m ∈ Mounts (view s) → ∃ used, connectorForMount routes m = Ok used ∧ connectsFor m used.
Proof.
  intros Hnew Hserve. unfold serveHTTP in Hserve. destruct (newStore configured) as [s0|] eqn:Hs0; [|done].
  apply Hnew in Hs0 as (Hinv & Hview & Hvalid).
  destruct (prepareHTTPRuntime listen configured (Some backendClient)) as [[[bound r]|] acts] eqn:Hprep; [|done].
  injection Hserve as <- <- <- <-.
  apply prepareHTTPRuntime_Ok in Hprep as (policies & ids & Hpol & _ & Hids & -> & _ & _ & Hbound).
  apply bound_names in Hbound as [Hnames _]; [|done].
  assert (∃ s, (if bool_decide (reloadPath = []) || bool_decide (reloadSignals windows = []) then Some s0 else snd (watchReload events reloadPath (Some s0))) = Some s
    ∧ Config_Validate (view s) = Ok tt ∧ topology <$> Servers (view s) ≡ₚ topology <$> Servers configured
    ∧ collectPolicies (view s) = collectPolicies configured) as (s & -> & Hv & Htop & Htls).
  { destruct (_ || _); [exists s0; by rewrite Hview|]. rewrite watchReload_foldl.
    destruct (reload_keeps (E := CommandError) s0
                ((λ files, (files, reloadPath, Some validateRuntimeSupport)) <$> events) Hinv) as (s & Hs & _ & Hv & Htop & Htls);
      [by rewrite Hview|]. exists s. by rewrite <- Hview. }
  exists s. split_and!; [done|done|rewrite Hnames; symmetry; by apply topology_names|].
  apply loadPolicies_spec in Hpol as (_ & Hall & Hload).
  intros m Hm. pose proof (connectorForMount_cases (Some backendClient) (Some <$> policies) m) as Hcase.
  specialize (Hcase (Config_Validate_mounts _ _ Hv Hm)).
  assert (∀ policy, Mount_TLS m = Some policy → ∃ loaded, policies !! policy = Some loaded ∧ LoadBackend policy = Ok loaded) as Hpolicy.
  { intros policy Hmtls. assert (policy ∈ collectPolicies configured) as (m0 & Hm0 & Hm0tls)%elem_of_collectPolicies.
    { rewrite <- Htls. apply elem_of_collectPolicies. by exists m. }
    destruct (Hall _ _ Hm0 Hm0tls) as [loaded Hloaded]. exists loaded. split; [done|].
    by apply Hload; [intros ? ? Habs; by rewrite lookup_empty in Habs|]. }
  destruct (connectorForMount _ m) as [[f|client]|err]; [by exists (UseFTP f)|exists (UseHTTP client); split; [done|]|exfalso].
  - destruct Hcase as [Hftp Hcase]. cbn [connectsFor]. destruct (Mount_TLS m) as [policy|]; [|subst client; by split_and!].
    destruct Hcase as (loaded' & Hl & ->), (Hpolicy policy eq_refl) as (loaded & Hp & Hlb).
    rewrite lookup_fmap, Hp in Hl. injection Hl as <-. split_and!; [done..|]. by eexists loaded, _.
  - destruct Hcase as (policy & Hmtls & Hno). destruct (Hpolicy policy Hmtls) as (loaded & Hp & _).
    apply (Hno loaded). by rewrite lookup_fmap, Hp.
Qed.

(** C4: from the configuration to the backend.  Whatever was reloaded, every
    request that a listener of the running process serves leaves the outside
    alone unless the published configuration selects a mount for it, knows the
    client's address and allows the operation.  Then, for a request that is not
    a CONNECT, there is at most one exchange, with the connector that mount
    asks for ([connectsFor]) and for the resource of that match: an HTTP
    client sends the request's method, header and body there and the response
    is closed, or the FTP connector does one operation there and releases what
    it opened.  A CONNECT is one tunnel to the TCP authority of the match. *)
Theorem serveHTTP_requests {W : Type} `{!BackendWorld W} `{!RelayWorld (W := W)}
    newStore listen windows configured reloadPath events servers routes store actions :
  (∀ c s, newStore c = Ok s → storeInv s ∧ view s = c ∧ Config_Validate c = Ok tt) →
  serveHTTP newStore listen windows configured reloadPath events = (Ok (servers, routes, store), actions) →
  ∃ s, store = Some s ∧ Config_Validate (view s) = Ok tt
    ∧ boundName <$> servers ≡ₚ Server_Name <$> Servers (view s)
    ∧ ∀ server request (w : W),
        let w' := snd (@ServeHTTP _ W _ (routes_connector routes) _ (λ w, (view s, w)) server _ request w) in
        let connects := bool_decide (Request_Method request = "CONNECT") in
        w' = w ∨ ∃ matched source,
          ResolveFor (Mounts (view s)) (if connects then connectMount server request else operationMount server request) = Ok matched
          ∧ Match_Mount matched ∈ Mounts (view s)
          ∧ policySource (view s) server request = Some source
          ∧ Allowed (operationDecision (view s) (Request_Method request) source matched) = true
          ∧ if connects
            then ∃ connect relay, relayConnect = Some connect ∧ relayOperation (Match_Target matched) = Some relay
                ∧ w' = snd (tunnel connect relay w)
            else ∃ used resource, connectsFor (Match_Mount matched) used
                ∧ backendResource (Match_Target matched) (RawQuery (Request_URL request)) = Some resource
                ∧ match used with
                  | UseHTTP client => ∃ sent, sentFor request resource sent ∧ exchanged client sent w w'
                  | UseFTP f => w' = ftpDone [] w ∨ ftpOperated f (Request_Method request) resource w w'
                  end.
Proof.
  intros Hnew Hserve. destruct (serveHTTP_ready _ _ _ _ _ _ _ _ _ _ Hnew Hserve) as (s & -> & Hv & Hnames & Hready).
  exists s. split_and!; [done..|]. intros server request w. cbv zeta. unfold ServeHTTP.
  case_bool_decide as Hmethod.
  - destruct (serveCONNECT_world (λ w, (view s, w)) server request w (view s) w eq_refl)
      as [[r ->]|[[r ->]|(matched & source & connect & relay & Hres & Hs & Ha & Hc & Hr & ->)]]; [by left..|right].
    exists matched, source. rewrite Hmethod. split_and!; [done|by eapply ResolveFor_mount|done..|].
    exists connect, relay. by destruct (tunnel connect relay w).
  - pose proof (@serveOperation_world _ W _ (routes_connector routes) _ (λ w, (view s, w)) server request w (view s) w eq_refl) as Hw.
    destruct (serveOperation _ server request w) as [served w'] eqn:Hop. cbn [snd] in *.
    destruct Hw as [->|[->|(matched & source & Hres & Hs & Ha & Heq)]]; [by left..|].
    apply (f_equal snd) in Heq. cbn [snd] in Heq. subst w'.
    assert (Match_Mount matched ∈ Mounts (view s)) as Hin by by eapply ResolveFor_mount.
    destruct (Hready _ Hin) as (used & Hsel & Hused).
    destruct (answerCall_effect routes (operationDecision (view s) (Request_Method request) source matched)
                matched request w _ Hsel) as [->|(resource & Hresource & Heffect)]; [by left|right].
    exists matched, source. split_and!; [done..|]. by exists used, resource.
Qed.
End ServeHTTP.

(** The store of [Store], made by one replacement in an empty memory, is one
    [serveHTTP] may be given. *)
Definition newMemoryStore `{UnicodeData} (c : Config) : result memoryStore ConfigError :=
  let '(r, s) := memoryReplace (∅, None) c in
  match r with Ok _ => Ok s | Err err => Err err end.

Lemma newMemoryStore_law `{UnicodeData} c s :
  newMemoryStore c = Ok s → storeInv s ∧ view s = c ∧ Config_Validate c = Ok tt.
Proof.
  unfold newMemoryStore.
  assert (storeInv ((∅, None) : memoryStore)) as Hinv by (by intros ? [=]).
  destruct (replace_law (∅, None) c Hinv) as (s' & Hr & Hinv' & Hview).
  change (memoryReplace (∅, None) c) with (storeReplace (∅, None) c). rewrite Hr.
  destruct (Config_Validate c) as [[]|err]; [|done]. intros [= <-]. done.
Qed.

(** ** [serveAddressRoute] *)

Inductive AddressRouteError (E : Type) :=
| UnsupportedAddressRoute (ingress egress : Kind)
| RouteListenerRequired
| RouteDialerRequired
| RouteDrainRequired
| RouteListenFailed (address : bytes) (err : E)
| RouteServeFailed (err : E).
Arguments UnsupportedAddressRoute {E} ingress egress.
Arguments RouteListenerRequired {E}.
Arguments RouteDialerRequired {E}.
Arguments RouteDrainRequired {E}.
Arguments RouteListenFailed {E} address err.
Arguments RouteServeFailed {E} err.

(** The struct [addressRouteRuntime]: the network is always TCP; [hasDial] is
    whether the dial function is not nil. *)
Record AddressRouteRuntime (E : Type) := {
  routeListen : option (bytes → result conn E);
  routeHasDial : bool;
  routeDrain : Z;
}.
Arguments routeListen {E} a : rename.
Arguments routeHasDial {E} a : rename.
Arguments routeDrain {E} a : rename.

Definition productionDrain : Z := 10 * second.

Definition productionAddressRouteRuntime {E} (listen : bytes → result conn E) : AddressRouteRuntime E :=
  {| routeListen := Some listen; routeHasDial := true; routeDrain := productionDrain |}.

Section AddressRoute.
Context {E : Type}.

(** The bridge is run by [bridge], which is given the listener, the address it
    dials for every client and the drain time. *)
Definition serveAddressRoute (bridge : conn → bytes → Z → option E) (route : Route) (runtime : AddressRouteRuntime E)
    : option (AddressRouteError E) * list RuntimeAction :=
  let ingress := Ingress route in
  let egress := Egress route in
  if negb (bool_decide (Address_Kind ingress = TCPListen)) || negb (bool_decide (Address_Kind egress = TCPConnect))
  then (Some (UnsupportedAddressRoute (Address_Kind ingress) (Address_Kind egress)), [])
  else
    match routeListen runtime with
    | None => (Some RouteListenerRequired, [])
    | Some listen =>
        if negb (routeHasDial runtime) then (Some RouteDialerRequired, [])
        else if (routeDrain runtime <=? 0)%Z then (Some RouteDrainRequired, [])
        else
          let listenAddress := joinHostPort (Address_Host ingress) (itoa (Address_Port ingress)) in
          match listen listenAddress with
          | Err err => (Some (RouteListenFailed listenAddress err), [])
          | Ok listener =>
              let dialAddress := joinHostPort (Address_Host egress) (itoa (Address_Port egress)) in
              (RouteServeFailed <$> bridge listener dialAddress (routeDrain runtime),
               [Listened listener; ListenerClosed listener])
          end
    end.

(** A route from the command line is served as written: for a pair of TCP
    endpoints the listener is bound to, and every client relayed to, exactly
    the host and port of the two arguments; the bridge is only given arguments
    it accepts; a route with a Tailcat end is refused before anything is
    opened; and the listener is always closed at the end. *)
Theorem serveAddressRoute_faithful bridge args route runtime listen result actions :
  ParseRoute args = Ok route → routeListen runtime = Some listen → routeHasDial runtime = true →
  (0 < routeDrain runtime)%Z → serveAddressRoute bridge route runtime = (result, actions) →
  serveArguments true true (routeDrain runtime) = None ∧ opens actions = closes actions
  ∧ ((∃ i e, result = Some (UnsupportedAddressRoute i e)) ∧ actions = [] ∨
     splitHostPort (argumentText (Ingress route)) = Some (Address_Host (Ingress route), itoa (Address_Port (Ingress route)))
     ∧ splitHostPort (argumentText (Egress route)) = Some (Address_Host (Egress route), itoa (Address_Port (Egress route)))
     ∧ match listen (argumentText (Ingress route)) with
       | Err err => result = Some (RouteListenFailed (argumentText (Ingress route)) err)
       | Ok l => result = RouteServeFailed <$> bridge l (argumentText (Egress route)) (routeDrain runtime)
       end).
Proof.
  intros Hroute Hlisten Hdial Hdrain Hserve. unfold serveAddressRoute in Hserve. rewrite Hlisten, Hdial in Hserve.
  rewrite (proj2 (Z.leb_gt _ _)) in Hserve by done. cbn [negb] in Hserve.
  split; [unfold serveArguments; cbn; by rewrite (proj2 (Z.leb_gt _ _))|].
  destruct (_ || _) eqn:Hkinds; [injection Hserve as <- <-; split; [done|left; eauto]|]. reflect_bools.
  apply ParseRoute_roles in Hroute as (Hi & He & _).
  assert (∀ a, addressOk a → (Address_Kind a = TCPListen ∨ Address_Kind a = TCPConnect) →
    argumentText a = joinHostPort (Address_Host a) (itoa (Address_Port a))
    ∧ splitHostPort (argumentText a) = Some (Address_Host a, itoa (Address_Port a))) as Htext.
  { intros a Ha Hk. unfold argumentText, addressOk in *.
    destruct Hk as [Hk|Hk]; rewrite Hk in Ha |- *; destruct Ha as (_ & Hb & Hb' & _ & _ & Hp & _);
      (split; [done|]); apply splitHostPort_join; try done; apply itoa_notin; try lia; by apply not_isDigit. }
  destruct (Htext _ Hi (or_introl H)) as [Hti Hsi]. destruct (Htext _ He (or_intror H0)) as [Hte Hse].
  rewrite <- Hti, <- Hte in Hserve.
  destruct (listen (argumentText (Ingress route))) as [l|err]; injection Hserve as <- <-; (split; [done|right; by split_and!]).
Qed.
End AddressRoute.

(** ** [main] *)

Section Main.
Context `{UnicodeData} `{TLSMaterial} `{TOMLDecoder} `{FileSystem} {S : Type} `{!ConfigStore S} {E : Type}.
Context (newStore : Config → result S ConfigError) (listen : bytes → result conn E) (windows : bool).
Context (events : list FileSystem) (bridge : conn → bytes → Z → option E) (serveAll : list BoundServer → bool).

(** The two functions [main] passes to [runCommand]; [serveAll] is whether
    [ServeAll] ends without an error. *)
Definition mainServeConfig (args : list bytes) (configured : Config) : bool :=
  match fst (serveHTTP newStore listen windows configured (configPathFromArgs args) events) with
  | Ok (servers, _, _) => serveAll servers
  | Err _ => false
  end.

Definition mainServeRoute (route : Route) : bool :=
  match fst (serveAddressRoute bridge route (productionAddressRouteRuntime listen)) with
  | None => true
  | Some _ => false
  end.

(** [main]: what it did and the exit code. *)
Definition main (args : list bytes) (output : bool) : list CommandEffect * Z :=
  runCommand args
    {| outputWrites := output; servesConfig := mainServeConfig args; servesRoute := Some mainServeRoute |}.

(** The exit code of the process means what it says: it is 0 after serving a
    configuration only if the runtime was prepared from it and every listener
    ended without an error, and after serving a route only if both its ends
    are TCP, its listener was bound and the bridge ended without an error. *)
Theorem main_succeeds args output effects :
  main args output = (effects, 0%Z) →
  (∀ c, ServedConfiguration c ∈ effects → ∃ servers routes store actions,
     serveHTTP newStore listen windows c (configPathFromArgs args) events = (Ok (servers, routes, store), actions)
     ∧ serveAll servers = true)
  ∧ (∀ r, ServedRoute r ∈ effects →
       Address_Kind (Ingress r) = TCPListen ∧ Address_Kind (Egress r) = TCPConnect
       ∧ ∃ l address, listen (joinHostPort (Address_Host (Ingress r)) (itoa (Address_Port (Ingress r)))) = Ok l
           ∧ bridge l address productionDrain = None).
Proof.
  intros Hmain%runCommand_shape. inversion Hmain as [| |e He Heff Hexit]; subst.
  assert (∀ e', e' ∈ [e] → e' = e) as Hin by (by intros e' ?%list_elem_of_singleton).
  split; intros x <-%Hin; cbn [succeeded servesConfig servesRoute] in Hexit.
  - unfold mainServeConfig in Hexit.
    destruct (serveHTTP _ _ _ _ _ _) as [[[[servers routes] store]|] actions] eqn:Hserve; cbn [fst] in Hexit; [|done].
    exists servers, routes, store, actions. by destruct (serveAll servers).
  - unfold mainServeRoute, serveAddressRoute in Hexit. cbn [routeListen routeHasDial routeDrain negb productionAddressRouteRuntime] in Hexit.
    destruct (_ || _) eqn:Hk in Hexit; [done|]. reflect_bools. split_and!; [done..|].
    destruct (listen (joinHostPort (Address_Host (Ingress x)) (itoa (Address_Port (Ingress x))))) as [l|]; [|done].
    exists l. eexists. split; [done|]. cbn in Hexit. by destruct (bridge l _ _) eqn:Hb in Hexit; [|exact Hb].
Qed.
End Main.

(** ** Witnesses *)

#[local] Existing Instance asciiUnicode.
#[local] Existing Instance echoMaterial.

Definition secureMount : Mount :=
  {| Mount_Path := "/app/*"; Mount_Source := []; Mount_Target := "https://backend.internal/v1/*"; Mount_Priority := 0;
     Mount_Server := []; Mount_Protocol := []; Mount_TLS := Some sampleBackend |}.

Definition firstConfig : Config := {| Servers := [sampleServer]; Mounts := [secureMount]; Policies := [testRule] |}.

(** The second configuration has one more mount under the same TLS policy. *)
Definition secondConfig : Config :=
  {| Servers := [sampleServer];
     Mounts := [secureMount; {| Mount_Path := "/more"; Mount_Source := []; Mount_Target := "https://backend.internal/more";
                                Mount_Priority := 0; Mount_Server := []; Mount_Protocol := [];
                                Mount_TLS := Some sampleBackend |}];
     Policies := [testRule] |}.

Definition secondDocument : TOMLDecoder :=
  {| decodeTOML := λ text, if bool_decide (text = "second") then Ok secondConfig else Err (OtherDecode text) |}.
#[local] Existing Instance secondDocument.

Definition secondFile : FileSystem :=
  {| openFile := λ path, if bool_decide (path = "gateway.toml") then Some ("second" : bytes, true) else None |}.

Definition sampleListen (address : bytes) : result conn unit := Ok 3.

Lemma serveHTTP_ready_witness :
  ∃ servers routes store actions s m client,
    serveHTTP (E := unit) newMemoryStore sampleListen false firstConfig "gateway.toml" [secondFile]
      = (Ok (servers, routes, store), actions)
    ∧ store = Some s ∧ view s = secondConfig ∧ m ∈ Mounts secondConfig ∧ m ≠ secureMount
    ∧ connectorForMount routes m = Ok (UseHTTP client) ∧ CheckRedirect client = StopRedirects.
Proof.
  destruct (serveHTTP (E := unit) newMemoryStore sampleListen false firstConfig "gateway.toml" [secondFile])
    as [[[[servers routes] store]|err] actions] eqn:Hrun;
    [|apply (f_equal (isOk ∘ fst)) in Hrun; vm_compute in Hrun; discriminate Hrun].
  destruct (serveHTTP_ready newMemoryStore sampleListen false firstConfig "gateway.toml" [secondFile] servers routes store actions
              newMemoryStore_law Hrun) as (s & -> & _ & _ & Hready).
  assert (view s = secondConfig) as Hview.
  { assert (option_map view (match fst (serveHTTP (E := unit) newMemoryStore sampleListen false firstConfig "gateway.toml" [secondFile])
                with Ok (_, _, store) => store | Err _ => None end) = Some secondConfig) as Hv by by vm_compute.
    rewrite Hrun in Hv. by injection Hv. }
  set (m := {| Mount_Path := "/more"; Mount_Source := []; Mount_Target := "https://backend.internal/more";
               Mount_Priority := 0; Mount_Server := []; Mount_Protocol := []; Mount_TLS := Some sampleBackend |}).
  assert (m ∈ Mounts secondConfig) as Hm by (right; by left). rewrite Hview in Hready.
  destruct (Hready m Hm) as ([f|client] & Hsel & Hused); [by destruct Hused as (_ & [=] & _)|]. destruct Hused as (_ & Hred & _).
  exists servers, routes, (Some s), actions, s, m, client.
  split; [reflexivity|]. split; [done|]. split; [exact Hview|]. split; [exact Hm|]. split; [discriminate|].
  by split.
Defined.

(** A backend that logs the exchanges it is asked for, without tunnels and FTP
    servers. *)
#[local] Instance logging_backend : BackendWorld (list BackendRequest) := {|
  clientDo client sent w := (Ok (200%Z, ∅, []), w ++ [sent]);
  responseClosed w := w;
  ftpOutside w := {| dialControl _ := None; dialData _ := None; copyData := true; contextEnded := false |};
  ftpDone done w := w;
|}.

#[local] Instance no_tunnels : RelayWorld (W := list BackendRequest) := {|
  isHijacker := false;
  relayConnect := None;
  sessionsOf w := newConnectionSessions;
  withSessions s w := w;
  hijack w := (None, w);
  handshake c d w := (false, w);
  relayStreams c d w := w;
|}.

(** A request for the mount that the reload added. *)
Lemma serveHTTP_requests_witness :
  ∃ servers routes s actions client loaded t sent,
    serveHTTP (E := unit) newMemoryStore sampleListen false firstConfig "gateway.toml" [secondFile]
      = (Ok (servers, routes, Some s), actions)
    ∧ snd (@ServeHTTP _ _ _ (routes_connector routes) _ (λ w, (view s, w)) "web" _ (testRequest "GET" "/more" "/more") [])
      = snd (clientDo client sent [])
    ∧ ClientTransport client = HTTPTransport t ∧ TLSClientConfig t = Some loaded ∧ LoadBackend sampleBackend = Ok loaded.
Proof.
  set (run := serveHTTP (E := unit) newMemoryStore sampleListen false firstConfig "gateway.toml" [secondFile]).
  set (after := match run with
                | (Ok (_, routes, Some s), _) =>
                    snd (@ServeHTTP _ _ _ (routes_connector routes) _ (λ w, (view s, w)) "web" _ (testRequest "GET" "/more" "/more") [])
                | _ => []
                end).
  assert (length after = 1) as Hafter by by vm_compute.
  destruct run as [[[[servers routes] store]|err] actions] eqn:Hrun; [|discriminate Hafter].
  destruct (serveHTTP_requests newMemoryStore sampleListen false firstConfig "gateway.toml" [secondFile] servers routes store
              actions newMemoryStore_law Hrun) as (s & -> & _ & _ & Hrequests).
  assert (view s = secondConfig) as Hview.
  { assert (option_map view (match fst run with Ok (_, _, store) => store | Err _ => None end) = Some secondConfig) as Hv
      by by vm_compute.
    rewrite Hrun in Hv. by injection Hv. }
  exists servers, routes, s, actions.
  destruct (Hrequests "web" (testRequest "GET" "/more" "/more") []) as [Habs|(matched & source & _ & Hin & _ & _ & Hcall)];
    [apply (f_equal length) in Habs; change (length after = 0) in Habs; congruence|].
  rewrite Hview in Hin. cbn [Mounts secondConfig] in Hin.
  assert (Mount_TLS (Match_Mount matched) = Some sampleBackend) as Htls.
  { apply elem_of_cons in Hin as [->|Hin]; [reflexivity|]. by apply list_elem_of_singleton in Hin as ->. }
  change (bool_decide (Request_Method (testRequest "GET" "/more" "/more") = "CONNECT")) with false in Hcall.
  destruct Hcall as ([f|client] & resource & Hused & _ & Heffect); cbn [connectsFor] in Hused; rewrite Htls in Hused;
    [by destruct Hused as (_ & [=] & _)|].
  destruct Hused as (_ & _ & _ & loaded & t & Hload & Ht & Htc), Heffect as (sent & Hsent & Hw).
  exists client, loaded, t, sent. by split_and!.
Defined.

Definition sampleRuntime : AddressRouteRuntime unit :=
  productionAddressRouteRuntime sampleListen.

Definition tcpRoute : Route :=
  {| Ingress := {| Address_Kind := TCPListen; Address_Host := "::1"; Address_Port := 8080; Address_Input := NoInput |};
     Egress := {| Address_Kind := TCPConnect; Address_Host := "db.example"; Address_Port := 5432; Address_Input := NoInput |} |}.

Lemma serveAddressRoute_faithful_witness :
  opens (snd (serveAddressRoute (λ _ _ _, None) tcpRoute sampleRuntime)) = [3].
Proof.
  destruct (serveAddressRoute (λ _ _ _, None) tcpRoute sampleRuntime) as [result actions] eqn:Hrun.
  destruct (serveAddressRoute_faithful (λ _ _ _, None) ["TCP-LISTEN:[::1]:8080" : bytes; "TCP-CONNECT:db.example:5432" : bytes]
              tcpRoute sampleRuntime sampleListen result actions) as (_ & Hclosed & _);
    [by vm_compute|done|done|done|exact Hrun|].
  cbn [snd]. rewrite Hclosed. by injection Hrun as _ <-.
Defined.
