(* ===== verification/Compatibility.v ===== *)
(** compatibility/fixture.go, harness.go and suite.go: comparing what legacy
    directives mean now with recorded or freshly computed reference
    configurations, fixture by fixture. *)

From S2P Require Import Prelude GoStrings GoPath TlsConfig Mount Policy Config Legacy.
From stdpp Require Import sorting.

(** ** The outside *)

(** A configuration as [encoding/json] fills it in: its value, and whether a
    slice in it is empty without being nil, which [reflect.DeepEqual] tells
    apart. *)
Record JSONConfig := {
  jsonValue : Config;
  hasEmptySlice : bool;
}.

Record Fixture := {
  Fixture_Name : bytes;
  Fixture_Args : list bytes;
  ReferenceConfig : JSONConfig;
}.

(** [encoding/json] on the two types, the files, the tree below a directory as
    [filepath.WalkDir] visits it (paths relative to the directory, with
    whether each is a directory; [None] for what is not a directory), and the
    reference binary. *)
Class FixtureOutside := {
  decodeFixture : bytes → option Fixture;
  decodeConfig : bytes → option JSONConfig;
  readFixture : bytes → option bytes;
  walkDirectory : bytes → option (list (bytes * bool));
  runBinary : bytes → list bytes → option bytes;
}.

(** ** fixture.go *)

Inductive FixtureError :=
| FixtureUnreadable
| FixtureDecode
| FixtureMissingName
| FixtureMissingArgs
| FixtureReference (err : ConfigError).

(** ** harness.go *)

Record CompareOptions := {
  Runner : option (list bytes → option bytes);
  BinPath : bytes;
}.

(** [Expected] and [Actual] are as the comparison saw them. *)
Record FixtureMismatch := {
  Mismatch_Name : bytes;
  Expected : JSONConfig;
  Actual : Config;
}.

Inductive CompareError :=
| NewParseFailure (err : LegacyError)
| ReferenceFailed
| ReferenceDecode
| ReferenceInvalid (err : ConfigError)
| ActualInvalid (err : ConfigError)
| Mismatched (m : FixtureMismatch).

Section Compatibility.
Context `{UnicodeData} `{FixtureOutside}.

Definition LoadFixture (path : bytes) : result Fixture FixtureError :=
  match readFixture path with
  | None => Err FixtureUnreadable
  | Some encoded =>
      match decodeFixture encoded with
      | None => Err FixtureDecode
      | Some fixture =>
          refuse FixtureMissingName when bool_decide (Fixture_Name fixture = []) ;;
          refuse FixtureMissingArgs when bool_decide (Fixture_Args fixture = []) ;;
          let! _ := wrap FixtureReference (Config_Validate (jsonValue (ReferenceConfig fixture))) in
          Ok fixture
      end
  end.

(** [compare]; the slices of a parsed command line are nil when empty, so
    [reflect.DeepEqual] needs the expected ones to be, too. *)
Definition compare (name : bytes) (actual : Config) (expected : JSONConfig) : result unit CompareError :=
  let! _ := wrap ActualInvalid (Config_Validate actual) in
  if bool_decide (actual = jsonValue expected) && negb (hasEmptySlice expected) then Ok tt
  else Err (Mismatched {| Mismatch_Name := name; Expected := expected; Actual := actual |}).

Definition isReferenceConfigured (options : CompareOptions) : bool :=
  bool_decide (is_Some (Runner options)) || negb (bool_decide (BinPath options = [])).

Definition runReferenceRunner (args : list bytes) (options : CompareOptions) : option bytes :=
  match Runner options with
  | Some runner => runner args
  | None => runBinary (BinPath options) (("check" : bytes) :: args)
  end.

(** [CompareFixture]; its first result is always the zero value. *)
Definition CompareFixture (fixture : Fixture) (options : CompareOptions) : result unit CompareError :=
  let! actual := wrap NewParseFailure (ParseLegacyArgs (Fixture_Args fixture)) in
  if negb (isReferenceConfigured options) then compare (Fixture_Name fixture) actual (ReferenceConfig fixture)
  else
    match runReferenceRunner (Fixture_Args fixture) options with
    | None => Err ReferenceFailed
    | Some reference =>
        match decodeConfig reference with
        | None => Err ReferenceDecode
        | Some decoded =>
            let! _ := wrap ReferenceInvalid (Config_Validate (jsonValue decoded)) in
            compare (Fixture_Name fixture) actual decoded
        end
    end.

(** ** suite.go *)

Inductive SuiteError :=
| SuiteContext
| SuiteDirectory
| SuiteEmpty
| SuiteFixture (name : bytes) (err : FixtureError)
| SuiteCompare (name : bytes) (err : CompareError).

(** The order of [sort.Strings]. *)
Fixpoint bytesLe (s t : bytes) : bool :=
  match s, t with
  | [], _ => true
  | _, [] => false
  | c :: s, d :: t => if (code c <? code d)%Z then true else if (code d <? code c)%Z then false else bytesLe s t
  end.

Definition bytesOrder : relation bytes := λ s t, bytesLe s t = true.

#[export] Instance bytesOrder_dec : RelDecision bytesOrder.
Proof. intros s t. unfold bytesOrder. apply _. Defined.

(** [entry.Name()]. *)
Definition baseName (path : bytes) : bytes :=
  match lastIndexByte path slash with Some i => drop (S i) path | None => path end.

Definition listFixtureFiles (base : bytes) : option (list bytes) :=
  entries ← walkDirectory base;
  Some (merge_sort bytesOrder
          (fst <$> filter (λ entry : bytes * bool, entry.2 = false ∧ hasSuffix (baseName entry.1) ".json" = true) entries)).

(** The loop; [checks] is how many times the context has been looked at, and
    [endsAfter] how many times it is found alive. *)
Fixpoint suiteLoop (fixtureDir : bytes) (options : CompareOptions) (endsAfter : option nat) (checks : nat)
    (names : list bytes) (mismatches : list FixtureMismatch) : result (list FixtureMismatch) SuiteError :=
  let ended n := match endsAfter with Some limit => limit <=? n | None => false end in
  match names with
  | [] => Ok mismatches
  | name :: names =>
      refuse SuiteContext when ended checks ;;
      let! fixture := wrap (SuiteFixture name) (LoadFixture (joinPath [fixtureDir; name])) in
      refuse SuiteContext when ended (S checks) ;;
      match CompareFixture fixture options with
      | Ok _ => suiteLoop fixtureDir options endsAfter (S (S checks)) names mismatches
      | Err (Mismatched m) => suiteLoop fixtureDir options endsAfter (S (S checks)) names (mismatches ++ [m])
      | Err err => Err (SuiteCompare name err)
      end
  end.

Definition RunFixtureSuite (endsAfter : option nat) (fixtureDir : bytes) (options : CompareOptions)
    : result (list FixtureMismatch) SuiteError :=
  refuse SuiteContext when bool_decide (endsAfter = Some 0) ;;
  match listFixtureFiles fixtureDir with
  | None => Err SuiteDirectory
  | Some names =>
      refuse SuiteEmpty when bool_decide (names = []) ;;
      suiteLoop fixtureDir options endsAfter 1 names []
  end.
End Compatibility.

(** ** Lemmas: the order *)

#[export] Instance bytesOrder_total : Total bytesOrder.
Proof.
  unfold bytesOrder. intros s. induction s as [|c s IH]; intros [|d t]; cbn; auto.
  destruct (code c <? code d)%Z eqn:H1, (code d <? code c)%Z eqn:H2; auto.
Qed.

#[export] Instance bytesOrder_trans : Transitive bytesOrder.
Proof.
  unfold bytesOrder. intros s. induction s as [|c s IH]; intros [|d t] [|e u]; cbn; try done.
  destruct (code c <? code d)%Z eqn:H1, (code d <? code c)%Z eqn:H2, (code d <? code e)%Z eqn:H3,
    (code e <? code d)%Z eqn:H4, (code c <? code e)%Z eqn:H5, (code e <? code c)%Z eqn:H6;
    reflect_bools; try done; try lia. apply IH.
Qed.

Section Suite.
Context `{UnicodeData} `{FixtureOutside}.

Lemma listFixtureFiles_spec base names :
  listFixtureFiles base = Some names →
  StronglySorted bytesOrder names
  ∧ ∃ entries, walkDirectory base = Some entries
      ∧ ∀ name, name ∈ names ↔ (name, false) ∈ entries ∧ hasSuffix (baseName name) ".json" = true.
Proof.
  unfold listFixtureFiles. destruct (walkDirectory base) as [entries|]; [|done]. cbn. intros [= <-].
  split; [apply StronglySorted_merge_sort; apply _|]. exists entries. split; [done|]. intros name.
  rewrite merge_sort_Permutation, list_elem_of_fmap. split.
  - intros ([n b] & -> & [[Hb Hs] Hin]%list_elem_of_filter). cbn in *. by subst b.
  - intros [Hin Hs]. exists (name, false). split; [done|]. by apply list_elem_of_filter.
Qed.

Definition mismatchOf (options : CompareOptions) (fixture : Fixture) : option FixtureMismatch :=
  match CompareFixture fixture options with Err (Mismatched m) => Some m | _ => None end.

Lemma suiteLoop_Ok fixtureDir options endsAfter checks names found mismatches :
  suiteLoop fixtureDir options endsAfter checks names found = Ok mismatches →
  ∃ fixtures, Forall2 (λ name f, LoadFixture (joinPath [fixtureDir; name]) = Ok f) names fixtures
    ∧ mismatches = found ++ omap (mismatchOf options) fixtures
    ∧ Forall (λ f, CompareFixture f options = Ok tt ∨ is_Some (mismatchOf options f)) fixtures.
Proof.
  revert checks found. induction names as [|name names IH]; intros checks found; cbn [suiteLoop].
  { intros [= <-]. exists []. by rewrite app_nil_r. }
  destruct (match endsAfter with Some limit => _ | None => _ end); [done|].
  destruct (LoadFixture _) as [f|] eqn:Hload; [|done]. cbn [wrap].
  destruct (match endsAfter with Some limit => _ | None => _ end); [done|].
  destruct (CompareFixture f options) as [[]|[]] eqn:Hcmp; try done.
  - intros (fixtures & Hf & -> & Hall)%IH. exists (f :: fixtures). split_and!; [by constructor| |].
    + cbn [omap list_omap]. unfold mismatchOf at 2. by rewrite Hcmp.
    + constructor; [by left|done].
  - intros (fixtures & Hf & -> & Hall)%IH. exists (f :: fixtures). split_and!; [by constructor| |].
    + cbn [omap list_omap]. unfold mismatchOf at 2. by rewrite Hcmp, <- app_assoc.
    + constructor; [right; unfold mismatchOf; by rewrite Hcmp|done].
Qed.

Lemma compare_cases name actual expected :
  match compare name actual expected with
  | Ok _ => actual = jsonValue expected ∧ hasEmptySlice expected = false
  | Err (Mismatched m) => Mismatch_Name m = name ∧ Expected m = expected ∧ Actual m = actual
      ∧ (actual ≠ jsonValue expected ∨ hasEmptySlice expected = true)
  | Err _ => True
  end.
Proof.
  unfold compare. destruct (Config_Validate actual); [|done]. cbn [wrap].
  case_bool_decide as Heq; cbn [andb]; [|by auto]. destruct (hasEmptySlice expected); cbn; auto.
Qed.

(** The suite reports exactly what differs.  When it ends without an error and
    no reference implementation is configured, it has looked at every fixture
    file below the directory, in the order of their names, and the mismatches
    are, in that order, the fixtures whose directives do not parse to the
    recorded configuration; so an empty report means that all of them do. *)
Theorem RunFixtureSuite_complete endsAfter fixtureDir options mismatches :
  isReferenceConfigured options = false →
  RunFixtureSuite endsAfter fixtureDir options = Ok mismatches →
  ∃ names fixtures, listFixtureFiles fixtureDir = Some names ∧ names ≠ [] ∧ StronglySorted bytesOrder names
    ∧ Forall2 (λ name f, LoadFixture (joinPath [fixtureDir; name]) = Ok f) names fixtures
    ∧ mismatches = omap (mismatchOf options) fixtures
    ∧ ∀ f, f ∈ fixtures → ∃ actual, ParseLegacyArgs (Fixture_Args f) = Ok actual
        ∧ (mismatchOf options f = None →
             actual = jsonValue (ReferenceConfig f) ∧ hasEmptySlice (ReferenceConfig f) = false)
        ∧ ∀ m, mismatchOf options f = Some m →
             Mismatch_Name m = Fixture_Name f ∧ Actual m = actual ∧ Expected m = ReferenceConfig f
             ∧ (actual ≠ jsonValue (ReferenceConfig f) ∨ hasEmptySlice (ReferenceConfig f) = true).
Proof.
  intros Hreference Hrun. unfold RunFixtureSuite in Hrun. case_bool_decide; [done|].
  destruct (listFixtureFiles fixtureDir) as [names|] eqn:Hlist; [|done]. case_bool_decide as Hnames; [done|].
  apply suiteLoop_Ok in Hrun as (fixtures & Hload & -> & Hall). exists names, fixtures.
  split_and!; [done|done|by apply listFixtureFiles_spec in Hlist as [? _]|done|done|].
  intros f Hf. rewrite Forall_forall in Hall. specialize (Hall f Hf). unfold mismatchOf in *. unfold CompareFixture in *.
  destruct (ParseLegacyArgs (Fixture_Args f)) as [actual|err]; cbn [wrap] in *; [|by destruct Hall as [|[]]].
  rewrite Hreference in *. cbn [negb] in *. exists actual. split; [done|].
  pose proof (compare_cases (Fixture_Name f) actual (ReferenceConfig f)) as Hcases.
  destruct (compare _ _ _) as [[]|[]]; try (by destruct Hall as [|[]]).
  split; [done|]. intros m' [= <-]. naive_solver.
Qed.
End Suite.
