(* ===== verification/Release.v ===== *)
(** release/release.go and tools/release/main.go: building the distribution
    archives with their checksum manifest, over a file system in which any
    operation can fail. *)

From S2P Require Import Prelude GoStrings GoPath.

(** ** Targets and names *)

Record Target := {
  GOOS : bytes;
  GOARCH : bytes;
}.

#[export] Instance Target_eq_dec : EqDecision Target.
Proof. solve_decision. Defined.

Definition Targets : list Target :=
  [{| GOOS := "darwin"; GOARCH := "arm64" |}; {| GOOS := "linux"; GOARCH := "amd64" |}].

Definition versionStart (c : ascii) : bool := inRange 65 90 c || inRange 97 122 c || inRange 48 57 c.

Definition versionByte (c : ascii) : bool :=
  versionStart c || bool_decide (c = "."%char) || bool_decide (c = "_"%char) || bool_decide (c = "-"%char).

(** The regular expression [safeVersion]. *)
Definition safeVersion (version : bytes) : bool :=
  match version with
  | [] => false
  | c :: rest => versionStart c && forallb versionByte rest
  end.

Definition ArchiveName (version : bytes) (target : Target) : bytes :=
  "new-delegate-" ++ version ++ "-" ++ GOOS target ++ "-" ++ GOARCH target ++ ".zip".

Definition executableName (target : Target) : bytes :=
  if bool_decide (GOOS target = "windows") then "delegate" ++ ".exe" else "delegate".

(** ** The outside *)

(** One file of an archive; the time is in seconds since 1970. *)
Record ArchiveEntry := {
  entryName : bytes;
  entryMode : Z;
  entryData : bytes;
  entryModified : Z;
}.

(** archive/zip and crypto/sha256: the archive of a list of entries, what is
    left in the file when writing stops after some of them, and the digest. *)
Class ArchiveLibrary := {
  zipArchive : list ArchiveEntry → bytes;
  zipStarted : list ArchiveEntry → bytes;
  sha256 : bytes → bytes;
}.

(** 1980-01-01 00:00:00 UTC. *)
Definition fixedTime : Z := 315532800.

Abbreviation files := (gmap bytes bytes).

(** The operations that can fail. *)
Inductive ReleaseStep :=
| StepRead (path : bytes) | StepMkdir (path : bytes) | StepTemp | StepCreate (path : bytes)
| StepHeader (path name : bytes) | StepEntry (path name : bytes) | StepFinalize (path : bytes) | StepClose (path : bytes)
| StepWrite (path : bytes).

(** A [Builder]: for a target, the path to build at and the version, the
    executable it creates there, or a failure. *)
Abbreviation Builder := (Target → bytes → bytes → option bytes).

(** Which operations succeed, the staging directory that is made, and which
    files the removal of that directory takes away: [Build] ignores an error of
    [os.RemoveAll], which leaves any number of the files behind. *)
Record ReleaseWorld := {
  works : ReleaseStep → bool;
  stagingDirectory : bytes;
  removes : bytes → bool;
}.

Inductive ReleaseError :=
| InvalidVersion
| BuilderRequired
| ReadREADME
| CreateDirectory
| CreateStaging
| BuildTarget (target : Target)
| ReadExecutable (target : Target)
| CreateArchive
| CreateEntry (name : bytes)
| WriteEntry (name : bytes)
| FinalizeArchive
| CloseArchive
| ReadArchive (name : bytes)
| WriteChecksums.

(** ** Building *)

Section Build.
Context `{ArchiveLibrary} (world : ReleaseWorld).

Definition readFile (path : bytes) (fs : files) : option bytes :=
  if works world (StepRead path) then fs !! path else None.

(** The loop of [writeArchive] over the entries; [written] is what is in the
    archive already. *)
Fixpoint writeEntries (destination : bytes) (written entries : list ArchiveEntry) (fs : files)
    : result unit ReleaseError * files :=
  match entries with
  | [] => (Ok tt, fs)
  | e :: rest =>
      if negb (works world (StepHeader destination (entryName e)))
      then (Err (CreateEntry (entryName e)), <[destination := zipStarted written]> fs)
      else if negb (works world (StepEntry destination (entryName e)))
      then (Err (WriteEntry (entryName e)), <[destination := zipStarted (written ++ [e])]> fs)
      else writeEntries destination (written ++ [e]) rest fs
  end.

Definition archiveEntries (executableName executable readme : bytes) : list ArchiveEntry :=
  [{| entryName := executableName; entryMode := 493; entryData := executable; entryModified := fixedTime |};
   {| entryName := "README.md"; entryMode := 420; entryData := readme; entryModified := fixedTime |}].

Definition writeArchive (destination executableName executable readme : bytes) (fs : files)
    : result unit ReleaseError * files :=
  if negb (works world (StepCreate destination)) then (Err CreateArchive, fs)
  else
    let entries := archiveEntries executableName executable readme in
    let '(r, fs) := writeEntries destination [] entries fs in
    match r with
    | Err err => (Err err, fs)
    | Ok _ =>
        if negb (works world (StepFinalize destination))
        then (Err FinalizeArchive, <[destination := zipStarted entries]> fs)
        else
          let fs := <[destination := zipArchive entries]> fs in
          if negb (works world (StepClose destination)) then (Err CloseArchive, fs) else (Ok tt, fs)
    end.

Definition lowerHexDigit (d : Z) : ascii := if (d <? 10)%Z then byteOf (48 + d) else byteOf (87 + d).

(** The verb [%x]. *)
Definition hexBytes (s : bytes) : bytes :=
  concat ((λ c, [lowerHexDigit (code c / 16); lowerHexDigit (code c mod 16)]) <$> s).

Definition manifestLine (archive archiveName : bytes) : bytes :=
  hexBytes (sha256 archive) ++ "  " ++ archiveName ++ ["010"%char].

(** One iteration of the loop over the targets. *)
Definition buildTarget (build : Builder) (outputDirectory version readme : bytes) (target : Target)
    (fs : files) : result bytes ReleaseError * files :=
  let executablePath :=
    joinPath [stagingDirectory world; GOOS target ++ "-" ++ GOARCH target ++ "-" ++ executableName target] in
  match build target executablePath version with
  | None => (Err (BuildTarget target), fs)
  | Some built =>
      let fs := <[executablePath := built]> fs in
      match readFile executablePath fs with
      | None => (Err (ReadExecutable target), fs)
      | Some executable =>
          let archiveName := ArchiveName version target in
          let archivePath := joinPath [outputDirectory; archiveName] in
          let '(r, fs) := writeArchive archivePath (executableName target) executable readme fs in
          match r with
          | Err err => (Err err, fs)
          | Ok _ =>
              match readFile archivePath fs with
              | None => (Err (ReadArchive archiveName), fs)
              | Some archive => (Ok (manifestLine archive archiveName), fs)
              end
          end
      end
  end.

Fixpoint buildTargets (build : Builder) (outputDirectory version readme : bytes)
    (targets : list Target) (manifest : bytes) (fs : files) : result bytes ReleaseError * files :=
  match targets with
  | [] => (Ok manifest, fs)
  | target :: rest =>
      let '(r, fs) := buildTarget build outputDirectory version readme target fs in
      match r with
      | Err err => (Err err, fs)
      | Ok line => buildTargets build outputDirectory version readme rest (manifest ++ line) fs
      end
  end.

Definition beneath (directory path : bytes) : Prop :=
  path = directory ∨ hasPrefix path (directory ++ [slash]) = true.

#[export] Instance beneath_dec directory path : Decision (beneath directory path).
Proof. apply _. Defined.

(** [os.RemoveAll], which goes on after a file it cannot remove; [Build] ignores
    its error. *)
Definition removeAll (directory : bytes) (fs : files) : files :=
  filter (λ file, ¬ (beneath directory file.1 ∧ removes world file.1 = true)) fs.

Definition Build (sourceRoot outputDirectory version : bytes) (builder : option Builder) (fs : files)
    : result unit ReleaseError * files :=
  if negb (safeVersion version) then (Err InvalidVersion, fs)
  else
    match builder with
    | None => (Err BuilderRequired, fs)
    | Some build =>
        match readFile (joinPath [sourceRoot; "README.md" : bytes]) fs with
        | None => (Err ReadREADME, fs)
        | Some readme =>
            if negb (works world (StepMkdir outputDirectory)) then (Err CreateDirectory, fs)
            else if negb (works world StepTemp) then (Err CreateStaging, fs)
            else
              let '(r, fs) := buildTargets build outputDirectory version readme Targets [] fs in
              let sums := joinPath [outputDirectory; "SHA256SUMS" : bytes] in
              let '(r, fs) :=
                match r with
                | Err err => (Err err, fs)
                | Ok manifest =>
                    if works world (StepWrite sums) then (Ok tt, <[sums := manifest]> fs) else (Err WriteChecksums, fs)
                end in
              (r, removeAll (stagingDirectory world) fs)
        end
    end.
End Build.

(** ** tools/release *)

(** [releaseEnvironment]. *)
Definition releaseEnvironment (current : list bytes) (target : Target) : list bytes :=
  filter (λ entry, negb (hasPrefix entry "CGO_ENABLED=" || hasPrefix entry "GOOS=" || hasPrefix entry "GOARCH=")) current
  ++ ["CGO_ENABLED=0" : bytes; "GOOS=" ++ GOOS target; "GOARCH=" ++ GOARCH target].

(** A command for os/exec: its arguments, working directory and
    environment. *)
Record GoCommand := {
  commandArgs : list bytes;
  commandDir : bytes;
  commandEnv : list bytes;
}.

(** The command of the function literal [build]. *)
Definition buildCommand (sourceRoot : bytes) (environ : list bytes) (target : Target) (output stampedVersion : bytes)
    : GoCommand :=
  {| commandArgs := ["go" : bytes; "build" : bytes; "-trimpath" : bytes; "-buildvcs=false" : bytes;
                     "-ldflags=-s -w -buildid= -X main.version=" ++ stampedVersion;
                     "-o" : bytes; output; "./cmd/delegate" : bytes];
     commandDir := sourceRoot;
     commandEnv := releaseEnvironment environ target |}.

(** [main]: the exit code, what it prints itself, and the files.  [runs] is
    what the go command does: the executable it leaves at its output, or a
    failure. *)
Definition releaseMain `{ArchiveLibrary} (world : ReleaseWorld) (runs : GoCommand → option bytes) (args : list bytes)
    (workingDirectory : option bytes) (environ : list bytes) (fs : files) : Z * list bytes * files :=
  match args with
  | [_; version; outputDirectory] =>
      match workingDirectory with
      | None => (1%Z, [], fs)
      | Some sourceRoot =>
          let build target output stampedVersion := runs (buildCommand sourceRoot environ target output stampedVersion) in
          let '(r, fs) := Build world sourceRoot outputDirectory version (Some build) fs in
          match r with
          | Err _ => (1%Z, [], fs)
          | Ok _ => (0%Z, [outputDirectory], fs)
          end
      end
  | _ => (2%Z, [], fs)
  end.

(** ** Names *)

Lemma versionByte_slash c : versionByte c = true → c ≠ slash.
Proof. intros Hc ->. by vm_compute in Hc. Qed.

Lemma safeVersion_slash version : safeVersion version = true → slash ∉ version.
Proof.
  destruct version as [|c rest]; [done|]. intros [Hc Hrest]%andb_true_iff [<-|Hin]%elem_of_cons.
  - by vm_compute in Hc.
  - apply forallb_Forall in Hrest. rewrite Forall_forall in Hrest. by eapply versionByte_slash; [apply Hrest|].
Qed.

(** A name of one path element that ends with [tail]. *)
Definition endsIn (name tail : bytes) : Prop := slash ∉ name ∧ notDots name ∧ ∃ x, name = x ++ tail.

Lemma joinPath_ne dir dir' name name' tail tail' :
  endsIn name tail → endsIn name' tail' → length tail = length tail' → tail ≠ tail' → tail ≠ [] →
  joinPath [dir; name] ≠ joinPath [dir'; name'].
Proof.
  intros (Hs & Hd & x & ->) (Hs' & Hd' & x' & ->) Hlen Hne Hnil.
  destruct (joinPath_name dir (x ++ tail)) as [q ->]; [done|by destruct x|done|].
  destruct (joinPath_name dir' (x' ++ tail')) as [q' ->]; [done|destruct x'; [by destruct tail, tail'|done]|done|].
  rewrite !app_assoc. by intros [_ ?]%app_inj_2.
Qed.

Lemma ArchiveName_endsIn version target tail x :
  safeVersion version = true → target ∈ Targets → GOARCH target ++ ".zip" = x ++ tail →
  endsIn (ArchiveName version target) tail.
Proof.
  intros Hv%safeVersion_slash Ht Htail. split_and!.
  - unfold ArchiveName. assert (slash ∉ GOOS target ++ "-" ++ GOARCH target ++ ".zip") as Hrest.
    { unfold Targets in Ht. apply elem_of_cons in Ht as [->|Ht]; [|apply list_elem_of_singleton in Ht as ->];
        apply (bool_decide_unpack _); by vm_compute. }
    assert (slash ∉ ("new-delegate-" : bytes)) by (apply (bool_decide_unpack _); by vm_compute).
    assert (slash ∉ ("-" : bytes)) by (apply (bool_decide_unpack _); by vm_compute).
    rewrite !not_elem_of_app. rewrite !not_elem_of_app in Hrest. destruct Hrest as (? & ? & ? & ?). by split_and!.
  - by split.
  - exists ("new-delegate-" ++ version ++ "-" ++ GOOS target ++ "-" ++ x). unfold ArchiveName.
    by rewrite Htail, <- !app_assoc.
Qed.

Lemma constant_endsIn name tail x :
  bool_decide (slash ∉ name) = true → notDots name → name = x ++ tail → endsIn name tail.
Proof. intros Hs%bool_decide_eq_true ? ->. split_and!; [done..|by exists x]. Qed.

(** ** Properties *)

Section Properties.
Context `{ArchiveLibrary} (world : ReleaseWorld).

Lemma writeEntries_Ok destination written entries fs fs' :
  writeEntries world destination written entries fs = (Ok tt, fs') → fs' = fs.
Proof.
  revert written. induction entries as [|e entries IH]; intros written; cbn; [by intros [= <-]|].
  destruct (negb _); [done|]. destruct (negb _); [done|]. apply IH.
Qed.

Lemma writeArchive_Ok destination name executable readme fs fs' :
  writeArchive world destination name executable readme fs = (Ok tt, fs') →
  fs' = <[destination := zipArchive (archiveEntries name executable readme)]> fs.
Proof.
  unfold writeArchive. destruct (negb _); [done|].
  destruct (writeEntries _ _ _ _ _) as [[[]|] fs1] eqn:He; [|done]. apply writeEntries_Ok in He as ->.
  destruct (negb _); [done|]. destruct (negb _); [done|]. by intros [= <-].
Qed.

Lemma readFile_insert path v fs v' : readFile world path (<[path := v]> fs) = Some v' → v' = v.
Proof. unfold readFile. destruct (works _ _); [|done]. rewrite lookup_insert_eq. by intros [= <-]. Qed.

Definition executablePath (target : Target) : bytes :=
  joinPath [stagingDirectory world; GOOS target ++ "-" ++ GOARCH target ++ "-" ++ executableName target].

Definition releasedArchive (target : Target) (executable readme : bytes) : bytes :=
  zipArchive (archiveEntries (executableName target) executable readme).

Lemma buildTarget_Ok build out version readme target fs line fs' :
  buildTarget world build out version readme target fs = (Ok line, fs') →
  ∃ executable, build target (executablePath target) version = Some executable
    ∧ line = manifestLine (releasedArchive target executable readme) (ArchiveName version target)
    ∧ fs' = <[joinPath [out; ArchiveName version target] := releasedArchive target executable readme]>
              (<[executablePath target := executable]> fs).
Proof.
  unfold buildTarget. fold (executablePath target). destruct (build target _ version) as [built|]; [|done].
  destruct (readFile _ (executablePath target) _) as [executable|] eqn:Hexe; [|done].
  apply readFile_insert in Hexe as ->. destruct (writeArchive _ _ _ _ _ _) as [[[]|] fs1] eqn:Hw; [|done].
  apply writeArchive_Ok in Hw as ->. fold (releasedArchive target built readme).
  destruct (readFile _ (joinPath _) _) as [archive|] eqn:Harc; [|done]. apply readFile_insert in Harc as ->.
  intros [= <- <-]. by exists built.
Qed.

Lemma removeAll_keeps (directory path : bytes) (fs : files) : ¬ beneath directory path → removeAll world directory fs !! path = fs !! path.
Proof.
  intros Hp. unfold removeAll. destruct (fs !! path) as [v|] eqn:Hv.
  - apply map_lookup_filter_Some. split; [done|]. by intros [? _].
  - apply map_lookup_filter_None. by left.
Qed.

Lemma removeAll_clears (directory path : bytes) (fs : files) :
  beneath directory path → removes world path = true → removeAll world directory fs !! path = None.
Proof. intros Hp Hr. apply map_lookup_filter_None. right. intros v _ Hn. by apply Hn. Qed.

(** The files of a release; [MkdirTemp] makes a new directory, so none of them
    is beneath it. *)
Definition releasedNames (version : bytes) : list bytes := ("SHA256SUMS" : bytes) :: (ArchiveName version <$> Targets).

(** For every target there is an archive directly in the output directory,
    with exactly the executable built for it and the README; the manifest has
    one line per target, in order, with the digest of the archive as it is on
    disk; and nothing is left in the staging directory but what could not be
    removed. *)
Lemma Build_consistent root out version build fs fs' :
  (∀ name, name ∈ releasedNames version → ¬ beneath (stagingDirectory world) (joinPath [out; name])) →
  Build world root out version (Some build) fs = (Ok tt, fs') →
  ∃ readme executable,
    fs !! joinPath [root; "README.md" : bytes] = Some readme
    ∧ (∀ t, t ∈ Targets → build t (executablePath t) version = Some (executable t) ∧ slash ∉ ArchiveName version t
         ∧ fs' !! joinPath [out; ArchiveName version t] = Some (releasedArchive t (executable t) readme))
    ∧ fs' !! joinPath [out; "SHA256SUMS" : bytes] =
        Some (concat ((λ t, manifestLine (releasedArchive t (executable t) readme) (ArchiveName version t)) <$> Targets))
    ∧ ∀ path, beneath (stagingDirectory world) path → removes world path = true → fs' !! path = None.
Proof.
  intros Houtside Hbuild. unfold Build in Hbuild.
  destruct (safeVersion version) eqn:Hv; cbn [negb] in Hbuild; [|done].
  destruct (readFile world (joinPath [root; _]) fs) as [readme|] eqn:Hreadme; [|done].
  destruct (negb _); [done|]. destruct (negb _); [done|]. unfold Targets, buildTargets in Hbuild.
  set (darwin := {| GOOS := "darwin"; GOARCH := "arm64" |}) in *. set (linux := {| GOOS := "linux"; GOARCH := "amd64" |}) in *.
  destruct (buildTarget _ _ _ _ _ darwin fs) as [[line1|] fs1] eqn:H1; [|done].
  destruct (buildTarget _ _ _ _ _ linux fs1) as [[line2|] fs2] eqn:H2; [|done].
  apply buildTarget_Ok in H1 as (exe1 & Hc1 & -> & ->). apply buildTarget_Ok in H2 as (exe2 & Hc2 & -> & ->).
  destruct (works _ _); [|done]. injection Hbuild as <-.
  assert (endsIn (ArchiveName version darwin) "rm64.zip") as Hd by (by apply (ArchiveName_endsIn _ _ _ "a"); [|left|]).
  assert (endsIn (ArchiveName version linux) "md64.zip") as Hl by (by apply (ArchiveName_endsIn _ _ _ "a"); [|right; left|]).
  assert (endsIn "SHA256SUMS" "A256SUMS") as Hs by (by apply (constant_endsIn _ _ "SH")).
  assert (endsIn (GOOS linux ++ "-" ++ GOARCH linux ++ "-" ++ executableName linux) "delegate") as Hx
    by (by apply (constant_endsIn _ _ "linux-amd64-")).
  assert (∀ name, name ∈ [("SHA256SUMS" : bytes); ArchiveName version darwin; ArchiveName version linux] →
    ¬ beneath (stagingDirectory world) (joinPath [out; name])) as Hout by exact Houtside.
  exists readme, (λ t, if bool_decide (t = darwin) then exe1 else exe2). split_and!.
  - unfold readFile in Hreadme. by destruct (works _ _).
  - intros t [->|Ht]%elem_of_cons; [|apply list_elem_of_singleton in Ht as ->];
      rewrite ?bool_decide_eq_true_2, ?(bool_decide_eq_false_2 (linux = darwin)) by done;
      split_and!; [done|apply Hd|rewrite removeAll_keeps by (apply Hout; right; by left)|done|apply Hl|
                   rewrite removeAll_keeps by (apply Hout; right; right; by left)].
    + rewrite lookup_insert_ne by (by apply not_eq_sym; eapply joinPath_ne).
      rewrite lookup_insert_ne by (by apply not_eq_sym; eapply joinPath_ne).
      rewrite lookup_insert_ne by (by apply not_eq_sym; eapply joinPath_ne). by rewrite lookup_insert_eq.
    + rewrite lookup_insert_ne by (by apply not_eq_sym; eapply joinPath_ne). by rewrite lookup_insert_eq.
  - rewrite removeAll_keeps by (apply Hout; by left). rewrite lookup_insert_eq. f_equal.
    change Targets with [darwin; linux]. rewrite !fmap_cons, fmap_nil. cbn [concat].
    rewrite bool_decide_eq_true_2, (bool_decide_eq_false_2 (linux = darwin)) by done. by rewrite app_nil_r.
  - intros path. apply removeAll_clears.
Qed.
End Properties.

(** The build environment says what the target is, exactly once, and keeps
    everything else. *)
Theorem releaseEnvironment_target current target :
  let result := releaseEnvironment current target in
  filter (λ e, hasPrefix e "CGO_ENABLED=" = true) result = ["CGO_ENABLED=0" : bytes]
  ∧ filter (λ e, hasPrefix e "GOOS=" = true) result = ["GOOS=" ++ GOOS target]
  ∧ filter (λ e, hasPrefix e "GOARCH=" = true) result = ["GOARCH=" ++ GOARCH target]
  ∧ ∀ e, hasPrefix e "CGO_ENABLED=" = false → hasPrefix e "GOOS=" = false → hasPrefix e "GOARCH=" = false →
      (e ∈ result ↔ e ∈ current).
Proof.
  cbv zeta. unfold releaseEnvironment.
  set (kept := filter _ current).
  assert (∀ e, e ∈ kept → hasPrefix e "CGO_ENABLED=" = false ∧ hasPrefix e "GOOS=" = false ∧ hasPrefix e "GOARCH=" = false)
    as Hnone.
  { intros e [Hn _]%list_elem_of_filter. apply Is_true_true in Hn. by reflect_bools. }
  assert (∀ key, (∀ e, e ∈ kept → hasPrefix e key = false) → filter (λ e, hasPrefix e key = true) kept = []) as Hkept.
  { intros key Hkey. destruct (filter _ kept) as [|e l] eqn:Hf; [done|].
    assert (e ∈ filter (λ e, hasPrefix e key = true) kept) as [He Hin]%list_elem_of_filter by (rewrite Hf; by left).
    by rewrite Hkey in He. }
  assert (∀ t, hasPrefix ("GOOS=" ++ t) "CGO_ENABLED=" = false ∧ hasPrefix ("GOOS=" ++ t) "GOARCH=" = false
    ∧ hasPrefix ("GOOS=" ++ t) "GOOS=" = true) as Hos by (intros t; split_and!; [done|done|apply hasPrefix_true; by eexists]).
  assert (∀ t, hasPrefix ("GOARCH=" ++ t) "CGO_ENABLED=" = false ∧ hasPrefix ("GOARCH=" ++ t) "GOOS=" = false
    ∧ hasPrefix ("GOARCH=" ++ t) "GOARCH=" = true) as Harch by (intros t; split_and!; [done|done|apply hasPrefix_true; by eexists]).
  destruct (Hos (GOOS target)) as (Ho1 & Ho2 & Ho3). destruct (Harch (GOARCH target)) as (Ha1 & Ha2 & Ha3).
  rewrite !filter_app, !Hkept by (intros e He; by apply Hnone in He as (? & ? & ?)). split_and!.
  - rewrite !filter_cons, Ho1, Ha1. reflexivity.
  - rewrite !filter_cons, Ho3, Ha2. reflexivity.
  - rewrite !filter_cons, Ho2, Ha3. reflexivity.
  - intros e H1 H2 H3. rewrite elem_of_app. unfold kept. rewrite list_elem_of_filter, H1, H2, H3.
    split; [|by left]. intros [[_ ?]|Hin]; [done|exfalso].
    rewrite !elem_of_cons in Hin. destruct Hin as [->|[->|[->|Hin]]]; [by vm_compute in H1|congruence..|by apply elem_of_nil in Hin].
Qed.

(** ** The tool *)

(** C38: a release that succeeds is complete and consistent.  If the tool exits
    with 0, it was given a version and a directory; for every target there is
    an archive directly in that directory, whatever the version text, with the
    README and exactly the executable the go command left for that target,
    run once in the source tree with that version stamped and an environment
    that names the target; the manifest has one line per target, in order,
    with the digest of the archive as it is on disk; and nothing is left in
    the staging directory but files that could not be removed, of which the
    exit code says nothing. *)
Theorem releaseMain_consistent `{ArchiveLibrary} world runs args wd environ fs output fs' :
  (∀ program version out name, args = [program; version; out] → name ∈ releasedNames version →
     ¬ beneath (stagingDirectory world) (joinPath [out; name])) →
  releaseMain world runs args wd environ fs = (0%Z, output, fs') →
  ∃ program version out root readme executable,
    args = [program; version; out] ∧ wd = Some root ∧ output = [out]
    ∧ fs !! joinPath [root; "README.md" : bytes] = Some readme
    ∧ (∀ t, t ∈ Targets →
         runs (buildCommand root environ t (executablePath world t) version) = Some (executable t)
         ∧ slash ∉ ArchiveName version t
         ∧ fs' !! joinPath [out; ArchiveName version t] = Some (releasedArchive t (executable t) readme))
    ∧ fs' !! joinPath [out; "SHA256SUMS" : bytes] =
        Some (concat ((λ t, manifestLine (releasedArchive t (executable t) readme) (ArchiveName version t)) <$> Targets))
    ∧ ∀ path, beneath (stagingDirectory world) path → removes world path = true → fs' !! path = None.
Proof.
  intros Houtside. unfold releaseMain. destruct args as [|program [|version [|out [|]]]]; try done.
  destruct wd as [root|]; [|done]. destruct (Build _ _ _ _ _ fs) as [[[]|err] fs1] eqn:Hbuild; [|done]. intros [= <- <-].
  apply Build_consistent in Hbuild as (readme & executable & Hreadme & Harchives & Hsums & Hgone);
    [|intros name; by eapply Houtside].
  by exists program, version, out, root, readme, executable.
Qed.

(** ** Witness *)

Definition plainLibrary : ArchiveLibrary :=
  {| zipArchive entries := concat ((λ e, entryName e ++ entryData e) <$> entries); zipStarted _ := []; sha256 s := take 2 s |}.

Definition quietWorld : ReleaseWorld := {| works _ := true; stagingDirectory := "/tmp/staging"; removes _ := true |}.

(** A go command whose executables show the operating system and the linker
    flags they were built with. *)
Definition sampleGo (command : GoCommand) : option bytes :=
  flags ← commandArgs command !! 4; os ← last (take 2 (commandEnv command)); Some (os ++ " " ++ drop 25 flags).

Definition sourceTree : files := {[("/src/README.md" : bytes) := ("read me" : bytes)]}.

Lemma releaseMain_consistent_witness :
  let r := @releaseMain plainLibrary quietWorld sampleGo ["release" : bytes; "1.0" : bytes; "out" : bytes]
             (Some ("/src" : bytes)) ["GOOS=plan9" : bytes] sourceTree in
  snd r !! joinPath ["out" : bytes; "new-delegate-1.0-darwin-arm64.zip" : bytes]
    = Some ("delegateGOOS=darwin -X main.version=1.0README.mdread me" : bytes)
  ∧ snd r !! ("/tmp/staging/linux-amd64-delegate" : bytes) = None.
Proof.
  intros r. assert (fst r = (0%Z, ["out" : bytes])) as Hr by by vm_compute.
  destruct (@releaseMain_consistent plainLibrary quietWorld sampleGo ["release" : bytes; "1.0" : bytes; "out" : bytes]
             (Some ("/src" : bytes)) ["GOOS=plan9" : bytes] sourceTree ["out" : bytes] (snd r))
    as (program & version & out & root & readme & executable & Hargs & Hwd & _ & Hreadme & Harchives & _ & Hgone).
  - intros program version out name [= <- <- <-] Hin. apply (bool_decide_unpack _).
    revert Hin. unfold releasedNames. rewrite elem_of_cons. intros [->|Hin]; [by vm_compute|].
    apply list_elem_of_fmap in Hin as (t & -> & [->|Ht]%elem_of_cons); [by vm_compute|].
    apply list_elem_of_singleton in Ht as ->. by vm_compute.
  - change (r = (0%Z, ["out" : bytes], snd r)). rewrite <- Hr. apply surjective_pairing.
  - split; [|apply Hgone; [right; by vm_compute|done]].
    assert (version = "1.0") as -> by congruence. assert (out = "out") as -> by congruence.
    assert (root = "/src") as -> by congruence.
    assert (readme = "read me") as ->.
    { apply (f_equal (default [])) in Hreadme. symmetry. etransitivity; [|exact Hreadme]. by vm_compute. }
    destruct (Harchives {| GOOS := "darwin"; GOARCH := "arm64" |}) as (Hexe & _ & Harc); [by left|].
    apply (f_equal (default [])) in Hexe. unfold default, id in Hexe.
    change (ArchiveName "1.0" {| GOOS := "darwin"; GOARCH := "arm64" |}) with ("new-delegate-1.0-darwin-arm64.zip" : bytes) in Harc.
    rewrite Harc, <- Hexe. by vm_compute.
Defined.
